(* ===== verification/_CoqProject ===== *)
-Q . S2P
Prelude.v
RustStr.v
Tasks.v
Core.v
Registry.v
Json.v
JsonRpc.v
Sse.v
McpServer.v
Transport.v
Clients.v
FileStore.v
Secrets.v
Profiles.v
Manager.v
Export.v
ToValue.v
Tools.v
RedisCommand.v
Redis.v
RedisCalls.v
ClickHouseText.v
ClickHouse.v
ClickHouseGuards.v
ClickHouseCalls.v
PostgresText.v
PostgresQuery.v
PostgresSchema.v
Postgres.v
PostgresCalls.v
Drivers.v
Server.v
Confined.v
Guarantees.v
ReadOnly.v
