(* ===== verification/Prelude.v ===== *)
(** * Verification of db-headless-mcp

    The program is an MCP server: a client speaks JSON-RPC 2.0 to it over
    standard input or over HTTP, and calls tools that open, query and close
    connections to PostgreSQL, Redis and ClickHouse, and that save named
    credentials.  This library models all of its crates and proves what makes
    them correct.  This file is the prelude the rest shares: the [result]
    type, the state-and-error monad [eff]; [within], how a computation moves the
    state, [emits], what it adds to a log, [returns], what its answer
    satisfies, and [alike], that two runs cannot be told apart; and the
    generic lemmas and hints.

    ** How the parts fit

    A message enters through [Transport] (crates/transport-stdio,
    transport-http), is decoded by [JsonRpc] (crates/mcp-wire) and dispatched
    by [McpServer] (crates/mcp-server) to a tool of [Tools]
    (crates/connections/src/tools).  The tools act on the connection manager,
    [Manager] (crates/connections/src/manager.rs), and the profile manager,
    [Profiles] (crates/connection-profiles), which keeps its passwords behind
    the interface [SecretStore] that [Secrets] (crates/secrets) implements.
    The connection manager guards its attempts and sessions with [Registry]
    (crates/registry) and reaches a database through the trait
    [DatabaseDriver] of [Core] (crates/core), which [Redis], [ClickHouse] and
    [Postgres] implement (crates/driver-redis and so on).  [Server]
    (crates/server) reads the environment and puts it all together.

    ** The files

    - [Prelude], [RustStr]: results and effects; strings as UTF-8 bytes,
      characters, machine integers and their parsing, the quoting scheme that
      doubles its quote.
    - [Tasks]: what the models of concurrent calls share: phases that hold the
      guards of a reader-writer lock ([Guarded]), and [follow], the run of a
      step function under a schedule.
    - [Core]: the data of crates/core and [DatabaseDriver], the trait as a
      record of its methods with the trait's default bodies; [driver_op] and
      [drive] are a call of any of the methods that change a driver.
    - [Registry]: [Attempts] (connection_registry.rs, attempt_token.rs) and
      [Sessions] (session_registry.rs), maps to [u64] generations and to
      sessions; [Sessions.cstep] is [insert_if_current] cut where another
      thread may run.
    - [Json], [JsonRpc], [Sse]: JSON values, the messages with their serde
      form, the nesting scan and the decoder; the SSE encoder and the
      incremental decoder.
    - [McpServer], [Transport]: tools, registry, audit trail and session; the
      stdio loop and the HTTP router with its rate limit and bearer check.
    - [Clients]: the requests of many clients of one HTTP server at once, cut
      where the handler waits; [request_alone_is_router] says that the steps
      of one request are [Transport.Http.router].
    - [FileStore], [Secrets], [Profiles]: atomic writes on a disk where every
      system call may fail or the machine stop; the encrypted store; metadata
      and manager of the profiles.
    - [Manager]: the manager's operations one after the other, and in
      [Concurrent] those of many tasks as a step relation.
    - [Export], [ToValue], [Tools]: JSON Lines, the serde forms of results,
      and the thirteen tools on connections and profiles.
    - [RedisCommand], [Redis]: command lines, replies and the allow list; the
      driver over [RedisLib].
    - [RedisCalls]: many calls of one Redis driver at once, with the sessions
      of the server they run against.
    - [ClickHouseText], [ClickHouse], [ClickHouseGuards]: quoting,
      placeholders, the two response formats; the driver over [HttpLib]; what
      it sends.
    - [ClickHouseCalls]: many calls of one ClickHouse driver at once, dropped
      anywhere; [request_in_turns] says that a request's steps leave the
      driver as [send_request] and its guard do.
    - [PostgresText], [PostgresQuery], [PostgresSchema], [Postgres]: quoting,
      parameters, TLS verifiers and cell conversion; queries, the portal loop,
      transactions and streams over [PgLib]; the catalogue; the driver.
    - [PostgresCalls]: many calls of one Postgres driver at once, [turn] by
      [turn] under its reader-writer lock, each droppable at any [.await].
    - [Drivers], [Server]: the three drivers over one [universe] as the
      manager's [Host]; configuration, start, the registered tools, and the
      end-to-end theorems.
    - [Confined]: the interface [Confinement] between the drivers and the
      layers above, and the manager, the tools, the session and both
      transports proved against it; [ReadOnly]: the three drivers' read-only
      connections as an instance, and the server that is left.
    - [Guarantees]: what holds across the crates, the row ceiling and the
      confidentiality of saved passwords.

    A method of the code that changes state is a function on that state: a
    mutex-guarded map is a field, a lock's critical section one function, an
    [.await] a point where the world a driver runs in may change.  What runs
    concurrently is cut into steps where a theorem is about the interleaving: a
    relation ([Registry.Sessions], [Manager.Concurrent]) or a function [turn]
    from a task, and what it meets, to the next state ([PostgresCalls],
    [ClickHouseCalls], [RedisCalls], [Clients]).  Errors are values of the code's error types,
    and the state reached is kept on the error path.  A spawned task that is
    not awaited is an entry of a list in the driver's state ([p_cancels],
    [r_kills], [c_kills]).  Integers are [Z] with the width written out where
    it matters (generations wrap at 2^64, the timeout in milliseconds
    saturates).

    What the code takes from other crates is a parameter: a class of
    operations ([RedisLib], [HttpLib], [PgLib], [TlsLib], [Timer]) or a
    function.  What a theorem relies on is a named law ([SecretStoreLaws],
    [crypto_ok], [Prints], [TimerLaw], [TimerCuts], [PgLog], [RedisLog],
    [HttpLog], [Http.ct_eq_is_equality]), and every one has an instance here,
    which the witnesses run on.  The functions on text that need the Unicode
    tables ([to_uppercase], [is_alphanumeric]), [Debug] texts and the parsers
    of JSON, floats, uuids and addresses are parameters.

    ** What is proved

    - End to end ([Server]): a connection opened read-only has only a
      read-only effect on the databases whatever tool queries it, for every
      engine; the HTTP server never runs without a token and never serves a
      request without it; profile storage is on, off or refused as the
      environment asks; the tools are exactly the documented ones, each with
      a well-formed schema and answering with an object.  [ReadOnly]: whatever
      lines or HTTP requests a server gets, if those that connect ask for
      read-only connections, the database servers are sent nothing that
      writes.  [Guarantees]: no engine returns more rows than the ceiling, and the
      passwords a client saves change nothing it can see.
    - Ownership: no interleaving of connects and disconnects leaks or loses a
      driver ([Manager.Concurrent]), a session ([Registry.Sessions]) or a
      Postgres connection ([Postgres.session_follows_connection]); tokens of
      superseded attempts are stale.
    - Cancelling: a ClickHouse cancel names the newest query in flight or
      nothing, and when a deadline's cancel still finds its query; a Redis
      cancel never ends another client's session.
    - Clients: however their requests interleave, nobody gets past the layers
      without the token, no tool runs before an authorized [initialize], and
      the audit trail is one true event per answer.
    - Read-only and transactions: what Redis, ClickHouse and Postgres are sent
      for a user's statement; Postgres runs it alone in one transaction,
      whatever else runs on the driver and wherever calls are dropped, and
      every call ends.
    - TLS: each driver connects exactly as securely as the mode asks, and a
      missing mode is the strictest.
    - Bounds and loops: the nesting scan is exact; row caps are met and
      truncation is reported as documented; the portal loop ends whatever
      the server answers; streams deliver everything, headers first, in
      batches.
    - Storage: an interrupted write leaves the old file or the new one; the
      encrypted store is a map; a profile that claims a password has one.
    - Text: quoting reads back as what was quoted, tokens and parameters bind
      one to one, parsing a printed response gives it back, decoding does not
      depend on the chunks a stream arrives in.

    ** Fuel

    Loops that are not structural take fuel, and the callers pass enough:
    the loops over a text ([from_utf8], [feed_loop], [drain_lines],
    [stream_lines], [skip_loop], [unwrap_loop]) consume at least one byte a
    turn and get the length of the text (one more where the last turn only
    sees the end).  [portal_loop] gets one turn per thousand rows of the cap
    ([portal_rounds]): a turn that goes on brought a full batch, so
    [portal_loop_terminates] shows that more turns change nothing.  The loops
    of the streams ([stream_loop], [scan_loop], [stream_chunks]) take the
    number of times the consumer asks for more, which is the consumer's
    choice; [stream_delivers_all] says how many are enough.

    ** Not modelled

    The parsers and printers of other crates, sockets, the tokio and axum
    runtimes and the text of logs; the audit trail is the list of its events.
    Zeroization, the constant time of comparisons and the hash iteration
    order are not observable here (what is sorted is proved sorted).
    Dropping a future is modelled for query timeouts, streams, the requests
    of HTTP clients and the calls of the three drivers ([Drops],
    [PostgresCalls.cut_off]), not for the tools on their way between two calls
    of a driver.  In [Clients] a running tool may change the process's state
    in any way; what tools do to each other is in [Manager.Concurrent] and the
    drivers' files.  In [Confined] and [ReadOnly] messages are handled one after
    the other, and the kills of detached cancel tasks are left out.  What the
    tokio lock, the Postgres server and the Redis server promise (readers together or a writer alone, a bounded fetch brings
    no more than it asks for, no client id is given twice) is assumed of them.
    The integration tests and the mocks of the tests are not part of the
    program. *)
From stdpp Require Export base tactics option list list_numbers strings pretty gmap sorting.
From Stdlib Require Export ZArith Lia.

Create HintDb dbmcp.
Create Rewrite HintDb dbmcp.

(** ** Results, and effects that may fail *)

(** Rust's [Result<A, E>]; the error type comes first so that [result E] is
    the monad of the question-mark operator. *)
Inductive result (E A : Type) : Type :=
  | Ok (a : A)
  | Err (e : E).
Arguments Ok {E A} a.
Arguments Err {E A} e.

#[export] Instance result_ret E : MRet (result E) := fun A a => Ok a.
#[export] Instance result_bind E : MBind (result E) := fun A B f m =>
  match m with Ok a => f a | Err e => Err e end.
#[export] Instance result_fmap E : FMap (result E) := fun A B f m =>
  match m with Ok a => Ok (f a) | Err e => Err e end.

Definition is_ok {E A} (r : result E A) : bool :=
  match r with Ok _ => true | Err _ => false end.

(** [Option::ok_or_else], [Result::map_err], [Result::ok]. *)
Definition ok_or {E A} (e : E) (o : option A) : result E A :=
  match o with Some a => Ok a | None => Err e end.
Definition map_err {E F A} (f : E -> F) (r : result E A) : result F A :=
  match r with Ok a => Ok a | Err e => Err (f e) end.
Definition result_ok {E A} (r : result E A) : option A :=
  match r with Ok a => Some a | Err _ => None end.

(** Collecting an iterator of results: the first error wins. *)
Fixpoint collect {E A} (rs : list (result E A)) : result E (list A) :=
  match rs with
  | [] => Ok []
  | r :: rs' => x ← r; xs ← collect rs'; Ok (x :: xs)
  end.

(** A computation over a state [S] that may fail with an [E]: the state
    reached is kept on the error path too, as it is in the program. *)
Definition eff (S E A : Type) : Type := S -> result E A * S.

#[export] Instance eff_ret S E : MRet (eff S E) := fun A a s => (Ok a, s).
#[export] Instance eff_bind S E : MBind (eff S E) := fun A B f m s =>
  match m s with
  | (Ok a, s') => f a s'
  | (Err e, s') => (Err e, s')
  end.

Definition throw {S E A} (e : E) : eff S E A := fun s => (Err e, s).
Definition lift {S E A} (r : result E A) : eff S E A := fun s => (r, s).
Definition gets {S E A} (f : S -> A) : eff S E A := fun s => (Ok (f s), s).
Definition modify {S E} (f : S -> S) : eff S E unit := fun s => (Ok tt, f s).
Definition eff_map_err {S E F A} (f : E -> F) (m : eff S E A) : eff S F A :=
  fun s => let '(r, s') := m s in (map_err f r, s').
(** Runs [m] and hands its result to the continuation as a value:
    [match m.await { Ok .. Err .. }]. *)
Definition attempt {S E F A} (m : eff S E A) : eff S F (result E A) :=
  fun s => let '(r, s') := m s in (Ok r, s').

Lemma eff_bind_eq {S E A B} (m : eff S E A) (f : A -> eff S E B) s :
  (m ≫= f) s = match m s with (Ok a, s') => f a s' | (Err e, s') => (Err e, s') end.
Proof. reflexivity. Qed.

Lemma result_bind_Ok {E A B} (m : result E A) (f : A -> result E B) b :
  m ≫= f = Ok b <-> exists a, m = Ok a /\ f a = Ok b.
Proof.
  destruct m as [a|e]; cbn; split; [by eauto|by intros (?&[= ->]&?)|done|].
  by intros (?&?&?).
Qed.

Lemma collect_Ok {E A} (rs : list (result E A)) xs :
  collect rs = Ok xs <-> rs = Ok <$> xs.
Proof.
  revert xs; induction rs as [|r rs IH]; intros xs; cbn.
  - destruct xs; cbn; split; congruence.
  - split.
    + destruct r as [x|e]; cbn; [|done].
      destruct (collect rs) as [ys|e]; cbn; [|done].
      intros [= <-]. cbn. f_equal. by apply IH.
    + destruct xs as [|x xs]; cbn; [done|].
      intros [= -> Hrs]. cbn. by rewrite (proj2 (IH xs) Hrs).
Qed.

Lemma collect_app {E A} (rs1 rs2 : list (result E A)) :
  collect (rs1 ++ rs2) = (xs ← collect rs1; ys ← collect rs2; Ok (xs ++ ys)).
Proof.
  induction rs1 as [|r rs1 IH]; cbn; [by destruct (collect rs2)|].
  destruct r as [x|e]; cbn; [|done]. rewrite IH. destruct (collect rs1); cbn; [|done].
  by destruct (collect rs2).
Qed.

Lemma collect_length {E A} (rs : list (result E A)) xs :
  collect rs = Ok xs -> length xs = length rs.
Proof. intros ->%collect_Ok. by rewrite length_fmap. Qed.

(** Reduces the plumbing of [eff] and [result] in the goal. *)
Ltac eff_simpl :=
  repeat (progress (unfold mret, result_ret, eff_ret, throw, lift, gets, modify,
                    eff_map_err, attempt in *;
                    rewrite ?eff_bind_eq in *; cbn in * )).

(** Case analysis on the scrutinee of a [match] of the goal or a hypothesis. *)
Ltac case_step :=
  match goal with
  | |- context [match ?x with _ => _ end] =>
      lazymatch x with context [match _ with _ => _ end] => fail | _ => destruct x eqn:? end
  | H : context [match ?x with _ => _ end] |- _ =>
      lazymatch x with context [match _ with _ => _ end] => fail | _ => destruct x eqn:? end
  end.

(** Case analysis of a handler that returns a [result]: every match is
    destructed, impossible branches are closed. *)
Ltac result_cases :=
  unfold mbind, result_bind, mret, result_ret, fmap, result_fmap, option_fmap, option_map,
    ok_or, map_err in *;
  repeat (case_match; simplify_eq/=; try done).

(** ** How a computation moves the state

    [within R m]: every run of [m], failed ones included, ends in a state
    related to the one it started in.  For a preorder this is kept by
    sequencing, so a property of a handler is put together from its parts. *)
Section within.
Context {S : Type} (R : relation S).
Definition within {E A} (m : eff S E A) : Prop := forall s, R s (snd (m s)).

Lemma within_attempt {E F A} (m : eff S E A) : within m -> within (attempt m : eff S F (result E A)).
Proof. intros Hm s. specialize (Hm s). unfold attempt. by destruct (m s). Qed.
Lemma within_map_err {E F A} (f : E -> F) (m : eff S E A) : within m -> within (eff_map_err f m).
Proof. intros Hm s. specialize (Hm s). unfold eff_map_err. by destruct (m s). Qed.
Lemma within_modify {E} (f : S -> S) : (forall s, R s (f s)) -> within (modify f : eff S E unit).
Proof. intros Hf s. apply Hf. Qed.

Context `{!PreOrder R}.
Lemma within_same {E A} (m : eff S E A) : (forall s, snd (m s) = s) -> within m.
Proof. intros Hm s. by rewrite Hm. Qed.
Lemma within_ret {E A} (a : A) : within (mret a : eff S E A).
Proof. by apply within_same. Qed.
Lemma within_throw {E A} (e : E) : within (throw e : eff S E A).
Proof. by apply within_same. Qed.
Lemma within_lift {E A} (r : result E A) : within (lift r : eff S E A).
Proof. by apply within_same. Qed.
Lemma within_gets {E A} (f : S -> A) : within (gets f : eff S E A).
Proof. by apply within_same. Qed.
Lemma within_bind {E A B} (m : eff S E A) (f : A -> eff S E B) :
  within m -> (forall a, within (f a)) -> within (m ≫= f).
Proof.
  intros Hm Hf s. rewrite eff_bind_eq. specialize (Hm s).
  destruct (m s) as [[a|e] s']; cbn in *; [|done]. etrans; [exact Hm|apply Hf].
Qed.
End within.
#[export] Hint Resolve within_ret within_throw within_lift within_gets within_attempt
  within_map_err : dbmcp.

(** ** What a computation adds to a log

    [obs] reads a log in the state; [extends obs P] relates two states when
    the second has what the first has and then some more that satisfies [P]. *)
Definition extends {S R} (obs : S -> list R) (P : list R -> Prop) : relation S := fun s s' =>
  exists new, obs s' = obs s ++ new /\ P new.

(** What may be put together from parts. *)
Class Trail {R} (P : list R -> Prop) := {
  trail_nil : P [];
  trail_app l1 l2 : P l1 -> P l2 -> P (l1 ++ l2);
}.
#[export] Instance Forall_trail {R} (Q : R -> Prop) : Trail (Forall Q).
Proof. split; [done|]. intros l1 l2 H1 H2. by apply Forall_app. Qed.

#[export] Instance extends_preorder {S R} (obs : S -> list R) P `{!Trail P} : PreOrder (extends obs P).
Proof.
  split.
  - intros s. exists []. rewrite app_nil_r. split; [done|apply trail_nil].
  - intros s1 s2 s3 (n1 & H1 & P1) (n2 & H2 & P2). exists (n1 ++ n2).
    rewrite H2, H1, app_assoc. split; [done|by apply trail_app].
Qed.
Lemma extends_same {S R} (obs : S -> list R) P `{!Trail P} s s' : obs s' = obs s -> extends obs P s s'.
Proof. intros H. exists []. rewrite H, app_nil_r. split; [done|apply trail_nil]. Qed.
Lemma extends_weaken {S R} (obs : S -> list R) (P P' : list R -> Prop) s s' :
  (forall l, P l -> P' l) -> extends obs P s s' -> extends obs P' s s'.
Proof. intros HP (new & Hs & Hnew). exists new. auto. Qed.

(** [emits obs Q m]: every run of [m] only appends to the log, and only
    entries with [Q]. *)
Section emits.
Context {S R : Type} (obs : S -> list R) (Q : R -> Prop).
Definition emits {E A} (m : eff S E A) : Prop := within (extends obs (Forall Q)) m.

Lemma emits_same {E A} (m : eff S E A) : (forall s, obs (snd (m s)) = obs s) -> emits m.
Proof. intros H s. apply extends_same; [apply _|apply H]. Qed.
Lemma emits_ret {E A} (a : A) : emits (mret a : eff S E A).
Proof. apply within_ret, _. Qed.
Lemma emits_throw {E A} (e : E) : emits (throw e : eff S E A).
Proof. apply within_throw, _. Qed.
Lemma emits_lift {E A} (r : result E A) : emits (lift r : eff S E A).
Proof. apply within_lift, _. Qed.
Lemma emits_gets {E A} (f : S -> A) : emits (gets f : eff S E A).
Proof. apply within_gets, _. Qed.
Lemma emits_modify {E} (f : S -> S) : (forall s, obs (f s) = obs s) -> emits (modify f : eff S E unit).
Proof. intros Hf. by apply emits_same. Qed.
Lemma emits_bind {E A B} (m : eff S E A) (f : A -> eff S E B) :
  emits m -> (forall a, emits (f a)) -> emits (m ≫= f).
Proof. apply within_bind, _. Qed.
Lemma emits_attempt {E F A} (m : eff S E A) : emits m -> emits (attempt m : eff S F (result E A)).
Proof. apply within_attempt. Qed.
Lemma emits_map_err {E F A} (f : E -> F) (m : eff S E A) : emits m -> emits (eff_map_err f m).
Proof. apply within_map_err. Qed.
End emits.

Lemma emits_weaken {S R E A} (obs : S -> list R) (Q Q' : R -> Prop) (m : eff S E A) :
  (forall r, Q r -> Q' r) -> emits obs Q m -> emits obs Q' m.
Proof. intros HQ Hm s. eapply extends_weaken, Hm. intros l Hl. by eapply Forall_impl. Qed.

#[export] Hint Resolve emits_ret emits_throw emits_lift emits_gets emits_bind emits_attempt
  emits_map_err : dbmcp.

(** ** What a computation returns

    [returns Q m]: whenever [m] succeeds its value satisfies [Q]. *)
Section returns.
Context {S E : Type}.
Definition returns {A} (Q : A -> Prop) (m : eff S E A) : Prop :=
  forall s a s', m s = (Ok a, s') -> Q a.

Lemma returns_ret {A} (Q : A -> Prop) a : Q a -> returns Q (mret a).
Proof. intros HQ s a' s' [= <- _]. done. Qed.
Lemma returns_throw {A} (Q : A -> Prop) (e : E) : returns Q (throw e).
Proof. by intros s a s'. Qed.
Lemma returns_lift {A} (Q : A -> Prop) (r : result E A) : (forall a, r = Ok a -> Q a) -> returns Q (lift r).
Proof. intros HQ s a s' [= Hr _]. by apply HQ. Qed.
Lemma returns_bind {A B} (P : A -> Prop) (Q : B -> Prop) (m : eff S E A) (f : A -> eff S E B) :
  returns P m -> (forall a, P a -> returns Q (f a)) -> returns Q (m ≫= f).
Proof.
  intros Hm Hf s b s'. rewrite eff_bind_eq. destruct (m s) as [[a|e] s1] eqn:Hs; [|done].
  apply Hf. by eapply Hm.
Qed.
(** Only the last part matters. *)
Lemma returns_after {A B} (Q : B -> Prop) (m : eff S E A) (f : A -> eff S E B) :
  (forall a, returns Q (f a)) -> returns Q (m ≫= f).
Proof. intros Hf. by apply (returns_bind (fun _ => True)). Qed.
End returns.

(** ** Two runs that an observer cannot tell apart

    [alike R m1 m2]: from states related by [R] both give the same answer and
    end in related states. *)
Section alike.
Context {S : Type} (R : S -> S -> Prop).
Definition alike {E A} (m1 m2 : eff S E A) : Prop := forall s1 s2, R s1 s2 ->
  fst (m1 s1) = fst (m2 s2) /\ R (snd (m1 s1)) (snd (m2 s2)).

Lemma alike_ret {E A} (a : A) : alike (mret a : eff S E A) (mret a).
Proof. by intros s1 s2. Qed.
Lemma alike_throw {E A} (e : E) : alike (throw e : eff S E A) (throw e).
Proof. by intros s1 s2. Qed.
Lemma alike_lift {E A} (r : result E A) : alike (lift r) (lift r).
Proof. by intros s1 s2. Qed.
Lemma alike_gets {E A} (f : S -> A) :
  (forall s1 s2, R s1 s2 -> f s1 = f s2) -> alike (gets f : eff S E A) (gets f).
Proof. intros Hf s1 s2 HR. cbn. by rewrite (Hf s1 s2 HR). Qed.
Lemma alike_bind {E A B} (m1 m2 : eff S E A) (f1 f2 : A -> eff S E B) :
  alike m1 m2 -> (forall a, alike (f1 a) (f2 a)) -> alike (m1 ≫= f1) (m2 ≫= f2).
Proof.
  intros Hm Hf s1 s2 HR. rewrite !eff_bind_eq. destruct (Hm s1 s2 HR) as [Ha Hs].
  destruct (m1 s1) as [[a|e] s1'], (m2 s2) as [[a'|e'] s2']; cbn in Ha, Hs; simplify_eq; [|done].
  by apply Hf.
Qed.
Lemma alike_attempt {E F A} (m1 m2 : eff S E A) : alike m1 m2 -> alike (attempt m1 : eff S F _) (attempt m2).
Proof.
  intros Hm s1 s2 HR. unfold attempt. destruct (Hm s1 s2 HR) as [Ha Hs].
  destruct (m1 s1), (m2 s2); cbn in *. by subst.
Qed.
Lemma alike_map_err {E F A} (f : E -> F) (m1 m2 : eff S E A) :
  alike m1 m2 -> alike (eff_map_err f m1) (eff_map_err f m2).
Proof.
  intros Hm s1 s2 HR. unfold eff_map_err. destruct (Hm s1 s2 HR) as [Ha Hs].
  destruct (m1 s1), (m2 s2); cbn in *. by subst.
Qed.
End alike.
#[export] Hint Resolve alike_ret alike_throw alike_lift alike_attempt alike_map_err : dbmcp.
