(* ===== verification/RustStr.v ===== *)
(** * Rust strings, characters and integers

    A Rust [String] or [&str] is kept as the sequence of its UTF-8 bytes
    ([string], one [ascii] per byte), so [len], [as_bytes], [find] and
    slicing are the byte-level operations they are in Rust.  [chars] cuts a
    string at its character boundaries; a character is the string of its own
    bytes.  The Unicode tables the program reaches through
    [char::is_whitespace] are written out; [str::to_uppercase] and
    [to_lowercase] are parameters of the components that use them. *)
From S2P Require Import Prelude.
From Stdlib Require Export Ascii Strings.Byte.

#[global] Arguments String.append !_ _ : simpl nomatch.

(** ** Characters *)

(** A UTF-8 continuation byte, 0x80 to 0xBF: not a character boundary. *)
Definition is_cont (a : ascii) : bool :=
  let n := N_of_ascii a in (128 <=? n)%N && (n <? 192)%N.

Definition starts_cont (s : string) : bool :=
  match s with String a _ => is_cont a | EmptyString => false end.

(** [str::chars], each character as the string of its bytes. *)
Fixpoint chars (s : string) : list string :=
  match s with
  | EmptyString => []
  | String a s' =>
      if starts_cont s' then
        match chars s' with
        | c :: cs => String a c :: cs
        | [] => [String a EmptyString]
        end
      else String a EmptyString :: chars s'
  end.

(** Collecting an iterator of characters into a [String]. *)
Fixpoint str_concat (cs : list string) : string :=
  match cs with
  | [] => EmptyString
  | c :: cs' => c +:+ str_concat cs'
  end.

(** What every Rust string satisfies and [chars] needs: a first byte that
    starts a character. *)
Definition str_ok (s : string) : Prop := starts_cont s = false.

Definition is_char (c : string) : Prop := chars c = [c] /\ str_ok c.

Lemma str_app_nil_r s : s +:+ EmptyString = s.
Proof. induction s as [|a s IH]; cbn; [done|by rewrite IH]. Qed.

Lemma str_app_assoc s1 s2 s3 : s1 +:+ (s2 +:+ s3) = (s1 +:+ s2) +:+ s3.
Proof. induction s1 as [|a s IH]; cbn; [done|by rewrite IH]. Qed.

Lemma str_concat_app cs ds : str_concat (cs ++ ds) = str_concat cs +:+ str_concat ds.
Proof. induction cs as [|c cs IH]; cbn; [done|]. by rewrite IH, str_app_assoc. Qed.

Lemma chars_nonempty a s : exists c cs, chars (String a s) = c :: cs.
Proof. cbn. destruct (starts_cont s); [destruct (chars s)|]; eauto. Qed.

Lemma chars_cons_ascii a s :
  str_ok s -> chars (String a s) = String a EmptyString :: chars s.
Proof. unfold str_ok. intros H. cbn. by rewrite H. Qed.

Lemma chars_app s1 s2 : str_ok s2 -> chars (s1 +:+ s2) = (chars s1 ++ chars s2)%list.
Proof.
  intros H2. induction s1 as [|a s1 IH]; [done|].
  destruct s1 as [|b s1]; [by apply chars_cons_ascii|].
  cbn [String.append] in *. cbn [chars starts_cont] in *. rewrite IH.
  destruct (chars_nonempty b s1) as (c & cs & Hc). cbn [chars] in Hc.
  destruct (is_cont b); rewrite ?Hc; done.
Qed.

Lemma str_concat_chars s : str_concat (chars s) = s.
Proof.
  induction s as [|a s IH]; [done|]. cbn.
  destruct (starts_cont s) eqn:Es.
  - destruct s as [|b s]; [done|]. destruct (chars_nonempty b s) as (c & cs & Hc).
    rewrite Hc in IH |- *. cbn in *. by rewrite IH.
  - cbn. by rewrite IH.
Qed.

Lemma str_ok_concat cs : Forall is_char cs -> str_ok (str_concat cs).
Proof.
  destruct 1 as [|c cs [Hc Hok] _]; [done|].
  destruct c as [|a c]; [done|]. done.
Qed.

Lemma chars_concat cs : Forall is_char cs -> chars (str_concat cs) = cs.
Proof.
  induction 1 as [|c cs [Hc Hok] Hcs IH]; [done|]. cbn.
  rewrite chars_app by by apply str_ok_concat. by rewrite Hc, IH.
Qed.

(** The first character of [chars], and the boundary the rest starts at. *)
Lemma chars_head a u :
  exists c v, chars (String a u) = String a c :: chars v
    /\ chars (String a c) = [String a c] /\ str_ok v /\ String.length v <= String.length u.
Proof.
  revert a. induction u as [|b u IH]; intros a.
  - by exists EmptyString, EmptyString.
  - destruct (IH b) as (c & v & Hc & Hcc & Hv & Hlen).
    destruct (is_cont b) eqn:Eb.
    + exists (String b c), v. cbn [chars starts_cont] in *. rewrite Eb, Hc, Hcc.
      cbn [String.length]. repeat split; [done|lia].
    + exists EmptyString, (String b u). cbn [chars starts_cont String.length].
      by rewrite Eb.
Qed.

(** Every character [chars] yields is one, when the string starts at a
    boundary. *)
Lemma chars_are_chars s : str_ok s -> Forall is_char (chars s).
Proof.
  remember (String.length s) as n eqn:Hn. revert s Hn.
  induction n as [n IH] using lt_wf_ind; intros s -> Hok.
  destruct s as [|a u]; [constructor|].
  destruct (chars_head a u) as (c & v & -> & Hcc & Hv & Hlen).
  constructor; [by split|]. eapply IH; [|done|done]. cbn. lia.
Qed.

(** A one-byte (ASCII) character. *)
Definition ascii_char (n : nat) : string := String (ascii_of_nat n) EmptyString.
Definition dquote : string := ascii_char 34.
Definition squote : string := ascii_char 39.
Definition backtick : string := ascii_char 96.
Definition backslash : string := ascii_char 92.
Definition newline : string := ascii_char 10.
Definition cr : string := ascii_char 13.
Definition tab : string := ascii_char 9.


(** ** Whitespace and trimming *)

(** The characters with Unicode's White_Space property, as UTF-8. *)
Definition bytes_str (l : list nat) : string :=
  foldr (fun n s => String (ascii_of_nat n) s) EmptyString l.
Definition whitespace_chars : list string :=
  bytes_str <$>
    ([[9]; [10]; [11]; [12]; [13]; [32]; [194; 133]; [194; 160]; [225; 154; 128]]
     ++ ((fun n => [226; 128; n]) <$> seq 128 11)
     ++ [[226; 128; 168]; [226; 128; 169]; [226; 128; 175]; [226; 129; 159]; [227; 128; 128]])%list.

(** [char::is_whitespace] *)
Definition is_whitespace (c : string) : bool := bool_decide (c ∈ whitespace_chars).

Fixpoint drop_while {A} (p : A -> bool) (l : list A) : list A :=
  match l with
  | [] => []
  | x :: l' => if p x then drop_while p l' else l
  end.

(** [str::trim_start], [str::trim] *)
Definition trim_start (s : string) : string := str_concat (drop_while is_whitespace (chars s)).
Definition trim (s : string) : string :=
  str_concat (reverse (drop_while is_whitespace (reverse (drop_while is_whitespace (chars s))))).

(** ** Searching, splitting and slicing at an ASCII byte *)

(** [s.find(c)] with the two slices around the match. *)
Fixpoint split_once (c : ascii) (s : string) : option (string * string) :=
  match s with
  | EmptyString => None
  | String a s' =>
      if decide (a = c) then Some (EmptyString, s')
      else match split_once c s' with
           | Some (l, r) => Some (String a l, r)
           | None => None
           end
  end.

(** [s.split(c)]: always at least one piece. *)
Fixpoint split_on (c : ascii) (s : string) : list string :=
  match s with
  | EmptyString => [EmptyString]
  | String a s' =>
      if decide (a = c) then EmptyString :: split_on c s'
      else match split_on c s' with
           | l :: ls => String a l :: ls
           | [] => [String a EmptyString]
           end
  end.

(** [ls.join(sep)] *)
Fixpoint join (sep : string) (ls : list string) : string :=
  match ls with
  | [] => EmptyString
  | [l] => l
  | l :: ls' => l +:+ sep +:+ join sep ls'
  end.

Fixpoint strip_prefix (p s : string) : option string :=
  match p, s with
  | EmptyString, _ => Some s
  | String a p', String b s' => if decide (a = b) then strip_prefix p' s' else None
  | String _ _, EmptyString => None
  end.
Definition starts_with (p s : string) : bool :=
  match strip_prefix p s with Some _ => true | None => false end.

Fixpoint str_rev_app (s acc : string) : string :=
  match s with EmptyString => acc | String a s' => str_rev_app s' (String a acc) end.
Definition str_rev (s : string) : string := str_rev_app s EmptyString.
Definition strip_suffix (p s : string) : option string :=
  str_rev <$> strip_prefix (str_rev p) (str_rev s).
Definition ends_with (p s : string) : bool :=
  match strip_suffix p s with Some _ => true | None => false end.

(** [s.find(p)] for a string pattern, with the slices before and after. *)
Fixpoint split_at_str (p s : string) : option (string * string) :=
  match strip_prefix p s with
  | Some r => Some (EmptyString, r)
  | None =>
      match s with
      | EmptyString => None
      | String a s' =>
          match split_at_str p s' with
          | Some (l, r) => Some (String a l, r)
          | None => None
          end
      end
  end.
Definition str_contains (p s : string) : bool :=
  match split_at_str p s with Some _ => true | None => false end.

Definition is_empty (s : string) : bool :=
  match s with EmptyString => true | String _ _ => false end.

(** ASCII case mapping, byte by byte. *)
Definition ascii_lower (a : ascii) : ascii :=
  let n := N_of_ascii a in
  if (65 <=? n)%N && (n <=? 90)%N then ascii_of_N (n + 32) else a.
Definition ascii_upper (a : ascii) : ascii :=
  let n := N_of_ascii a in
  if (97 <=? n)%N && (n <=? 122)%N then ascii_of_N (n - 32) else a.
Fixpoint str_map (f : ascii -> ascii) (s : string) : string :=
  match s with EmptyString => EmptyString | String a s' => String (f a) (str_map f s') end.
Definition to_ascii_lowercase : string -> string := str_map ascii_lower.
Definition to_ascii_uppercase : string -> string := str_map ascii_upper.

(** Every byte is below 0x80. *)
Fixpoint is_ascii (s : string) : bool :=
  match s with EmptyString => true | String a s' => (N_of_ascii a <? 128)%N && is_ascii s' end.

Definition is_ascii_digit (a : ascii) : bool :=
  let n := N_of_ascii a in (48 <=? n)%N && (n <=? 57)%N.
Fixpoint str_all (p : ascii -> bool) (s : string) : bool :=
  match s with EmptyString => true | String a s' => p a && str_all p s' end.
Fixpoint str_take_while (p : ascii -> bool) (s : string) : string :=
  match s with
  | EmptyString => EmptyString
  | String a s' => if p a then String a (str_take_while p s') else EmptyString
  end.

(** ** Machine integers *)

Definition i64_min : Z := - 2 ^ 63.
Definition i64_max : Z := 2 ^ 63 - 1.
Definition u64_max : Z := 2 ^ 64 - 1.
Definition u32_max : Z := 2 ^ 32 - 1.
Definition wrapping_add_u64 (a b : Z) : Z := (a + b) mod 2 ^ 64.
Definition saturating_sub (a b : Z) : Z := Z.max 0 (a - b).
Definition saturating_mul_u64 (a b : Z) : Z := Z.min u64_max (a * b).

(** [str::parse] for integers: an optional sign, then at least one digit;
    a value out of the type's range is an error. *)
Fixpoint parse_digits (s : string) (acc : Z) : option Z :=
  match s with
  | EmptyString => Some acc
  | String a s' =>
      if is_ascii_digit a then parse_digits s' (acc * 10 + (Z.of_N (N_of_ascii a) - 48))
      else None
  end.
Definition parse_nonempty (s : string) : option Z :=
  match s with EmptyString => None | String _ _ => parse_digits s 0 end.
Definition in_range (lo hi : Z) (o : option Z) : option Z :=
  match o with
  | Some v => if (lo <=? v)%Z && (v <=? hi)%Z then Some v else None
  | None => None
  end.
Definition parse_signed (lo hi : Z) (s : string) : option Z :=
  match s with
  | String a s' =>
      if decide (a = "-"%char) then in_range lo hi (Z.opp <$> parse_nonempty s')
      else if decide (a = "+"%char) then in_range lo hi (parse_nonempty s')
      else in_range lo hi (parse_nonempty s)
  | EmptyString => None
  end.
Definition parse_unsigned (hi : Z) (s : string) : option Z :=
  match s with
  | String a s' =>
      if decide (a = "+"%char) then in_range 0 hi (parse_nonempty s')
      else in_range 0 hi (parse_nonempty s)
  | EmptyString => None
  end.
Definition parse_i64 : string -> option Z := parse_signed i64_min i64_max.
Definition parse_u64 : string -> option Z := parse_unsigned u64_max.
Definition parse_u32 : string -> option Z := parse_unsigned u32_max.
(** [usize] is 64 bits wide on the targets the server ships for. *)
Definition parse_usize : string -> option Z := parse_unsigned u64_max.

(** ** Bytes and hexadecimal text *)

#[export] Instance byte_eq_dec : EqDecision byte := Byte.byte_eq_dec.
Definition as_bytes (s : string) : list byte := String.list_byte_of_string s.
Lemma as_bytes_inj s1 s2 : as_bytes s1 = as_bytes s2 -> s1 = s2.
Proof.
  unfold as_bytes. intros H. rewrite <-(String.string_of_list_byte_of_string s1), H.
  apply String.string_of_list_byte_of_string.
Qed.
Definition hex_digit (n : N) : ascii :=
  if (n <? 10)%N then ascii_of_N (48 + n) else ascii_of_N (87 + n).
(** [format!("{byte:02x}")] *)
Definition hex_byte (b : byte) : string :=
  let n := Byte.to_N b in
  String (hex_digit (n / 16)) (String (hex_digit (n mod 16)) EmptyString).
Definition hex_bytes (bs : list byte) : string := str_concat (hex_byte <$> bs).

(** ** Lemmas on reversal, suffixes and splitting *)

Lemma str_length_app s1 s2 : String.length (s1 +:+ s2) = String.length s1 + String.length s2.
Proof. induction s1 as [|a s1 IH]; cbn; [done|by rewrite IH]. Qed.

Lemma str_rev_app_eq s acc : str_rev_app s acc = str_rev s +:+ acc.
Proof.
  unfold str_rev. revert acc. induction s as [|a s IH]; intros acc; cbn; [done|].
  by rewrite IH, (IH (String a EmptyString)), <-str_app_assoc.
Qed.

Lemma str_rev_cons a s : str_rev (String a s) = str_rev s +:+ String a EmptyString.
Proof. exact (str_rev_app_eq s (String a EmptyString)). Qed.

#[global] Arguments str_rev : simpl never.

Lemma str_rev_append s t : str_rev (s +:+ t) = str_rev t +:+ str_rev s.
Proof.
  induction s as [|a s IH]; cbn; [by rewrite str_app_nil_r|].
  by rewrite !str_rev_cons, IH, str_app_assoc.
Qed.

Lemma str_rev_involutive s : str_rev (str_rev s) = s.
Proof. induction s as [|a s IH]; [done|]. by rewrite str_rev_cons, str_rev_append, IH. Qed.

Lemma strip_prefix_Some p s r : strip_prefix p s = Some r <-> s = p +:+ r.
Proof.
  revert s. induction p as [|a p IH]; intros s; cbn; [split; congruence|].
  destruct s as [|b s]; [done|]. case_decide as Hd.
  - subst b. rewrite IH. split; [by intros ->|congruence].
  - split; [done|congruence].
Qed.

Lemma strip_suffix_Some p s r : strip_suffix p s = Some r <-> s = r +:+ p.
Proof.
  unfold strip_suffix. split.
  - intros (t & Ht & ->)%fmap_Some. apply strip_prefix_Some in Ht.
    by rewrite <-(str_rev_involutive s), Ht, str_rev_append, !str_rev_involutive.
  - intros ->. rewrite str_rev_append, (proj2 (strip_prefix_Some _ _ (str_rev r)) eq_refl).
    cbn. by rewrite str_rev_involutive.
Qed.

Lemma str_snoc_inv s : s = EmptyString \/ exists t a, s = t +:+ String a EmptyString.
Proof.
  induction s as [|a s [->|(t & b & ->)]]; [by left|right..].
  - by exists EmptyString, a.
  - by exists (String a t), b.
Qed.

Lemma str_snoc_inj s t a b :
  s +:+ String a EmptyString = t +:+ String b EmptyString -> s = t /\ a = b.
Proof.
  intros H. apply (f_equal str_rev) in H. rewrite !str_rev_append in H. cbn in H.
  injection H as -> H. split; [|done].
  by rewrite <-(str_rev_involutive s), H, str_rev_involutive.
Qed.

(** A line without its trailing byte [c], if it has one. *)
Definition strip_last (c : ascii) (s : string) : string :=
  default s (strip_suffix (String c EmptyString) s).

Lemma strip_last_snoc c s a :
  strip_last c (s +:+ String a EmptyString)
  = if decide (a = c) then s else s +:+ String a EmptyString.
Proof.
  unfold strip_last. case_decide as Ha.
  - subst. by rewrite (proj2 (strip_suffix_Some _ _ s) eq_refl).
  - destruct (strip_suffix _ _) as [t|] eqn:Ht; [|done].
    apply strip_suffix_Some in Ht. by apply str_snoc_inj in Ht as [_ ?].
Qed.

Lemma strip_last_app c p s a :
  a <> c -> strip_last c ((p +:+ String a EmptyString) +:+ s)
            = (p +:+ String a EmptyString) +:+ strip_last c s.
Proof.
  intros Ha. destruct (str_snoc_inv s) as [->|(t & b & ->)].
  - change (strip_last c EmptyString) with EmptyString.
    rewrite !str_app_nil_r, strip_last_snoc. by rewrite decide_False.
  - rewrite str_app_assoc, !strip_last_snoc. case_decide; [done|].
    by rewrite str_app_assoc.
Qed.

Lemma split_on_cons c s : exists l ls, split_on c s = l :: ls.
Proof.
  induction s as [|a s (l & ls & IH)]; cbn; [by eauto|]. rewrite IH. case_decide; eauto.
Qed.

Lemma join_split_on c s : join (String c EmptyString) (split_on c s) = s.
Proof.
  induction s as [|a s IH]; [done|]. cbn [split_on].
  destruct (split_on_cons c s) as (l & ls & Hs). rewrite Hs in IH |- *. case_decide as Ha.
  - subst a. change (String c EmptyString +:+ join (String c EmptyString) (l :: ls) = String c s).
    by rewrite IH.
  - rewrite <-IH. by destruct ls.
Qed.

(** No piece of a split contains the separator. *)
Fixpoint str_free (c : ascii) (s : string) : bool :=
  match s with EmptyString => true | String a s' => bool_decide (a <> c) && str_free c s' end.

Lemma split_on_free c s : Forall (fun l => str_free c l = true) (split_on c s).
Proof.
  induction s as [|a s IH]; cbn; [by repeat constructor|].
  destruct (split_on_cons c s) as (l & ls & Hs). rewrite Hs in IH |- *.
  apply Forall_cons in IH as [Hl Hls]. case_decide.
  - by repeat constructor.
  - constructor; [|done]. cbn. by rewrite bool_decide_true, Hl.
Qed.

Lemma str_free_app c s t : str_free c (s +:+ t) = str_free c s && str_free c t.
Proof. induction s as [|a s IH]; cbn; [done|]. by rewrite IH, andb_assoc. Qed.

Lemma split_on_app_free c l s :
  str_free c l = true -> split_on c (l +:+ String c s) = l :: split_on c s.
Proof.
  induction l as [|a l IH]; cbn [str_free String.append split_on]; [by rewrite decide_True|].
  intros [Ha Hl]%andb_prop. apply bool_decide_eq_true in Ha. rewrite decide_False by done.
  by rewrite IH.
Qed.

Lemma split_on_only c l : str_free c l = true -> split_on c l = [l].
Proof.
  induction l as [|a l IH]; cbn; [done|]. intros [Ha Hl]%andb_prop.
  apply bool_decide_eq_true in Ha. rewrite decide_False by done. by rewrite IH.
Qed.

Lemma split_on_join c ls :
  ls <> [] -> Forall (fun l => str_free c l = true) ls ->
  split_on c (join (String c EmptyString) ls) = ls.
Proof.
  intros Hne H. induction H as [|l ls Hl Hls IH]; [done|]. destruct ls as [|l' ls]; cbn [join].
  - by apply split_on_only.
  - etransitivity; [exact (split_on_app_free c l (join (String c EmptyString) (l' :: ls)) Hl)|].
    by rewrite IH.
Qed.

Lemma split_once_free c s t :
  str_free c s = true -> split_once c (s +:+ String c t) = Some (s, t).
Proof.
  induction s as [|a s IH]; cbn; [by rewrite decide_True|]. intros [Ha Hs]%andb_prop.
  apply bool_decide_eq_true in Ha. rewrite decide_False by done. by rewrite IH.
Qed.

Lemma split_once_none c s : str_free c s = true -> split_once c s = None.
Proof.
  induction s as [|a s IH]; cbn; [done|]. intros [Ha Hs]%andb_prop.
  apply bool_decide_eq_true in Ha. rewrite decide_False by done. by rewrite IH.
Qed.

Lemma split_once_Some c s l r :
  split_once c s = Some (l, r) -> s = l +:+ String c r /\ str_free c l = true.
Proof.
  revert l. induction s as [|a s IH]; intros l; cbn; [done|]. case_decide as Ha.
  - intros [= <- <-]. by subst a.
  - destruct (split_once c s) as [[l' r']|]; [|done]. intros [= <- <-].
    destruct (IH l' eq_refl) as [-> Hl]. split; [done|]. cbn. by rewrite bool_decide_true, Hl.
Qed.
Lemma split_once_None c s : split_once c s = None -> str_free c s = true.
Proof.
  induction s as [|a s IH]; cbn; [done|]. case_decide as Ha; [done|].
  destruct (split_once c s) as [[l r]|]; [done|]. intros _. by rewrite bool_decide_true, IH.
Qed.

(** Appending continues the last piece. *)
Lemma split_on_app c b x :
  split_on c (b +:+ x)
  = (removelast (split_on c b) ++ split_on c (default EmptyString (last (split_on c b)) +:+ x))%list.
Proof.
  induction b as [|a b IH]; [done|]. cbn [String.append split_on].
  destruct (split_on_cons c b) as (l & ls & Hls). rewrite IH, Hls. case_decide.
  - by destruct ls.
  - destruct ls as [|l' ls]; [|done].
    transitivity (split_on c (String a (l +:+ x))); [cbn [split_on]; by rewrite decide_False|done].
Qed.

(** Trimming never lengthens. *)
Lemma drop_while_suffix {A} (p : A -> bool) l : exists pre, l = (pre ++ drop_while p l)%list.
Proof.
  induction l as [|x l IH]; cbn; [by exists []|]. destruct (p x); [|by exists []].
  destruct IH as [pre IH]. exists (x :: pre). cbn. by f_equal.
Qed.

Lemma str_concat_length cs : String.length (str_concat cs) = sum_list_with String.length cs.
Proof. induction cs as [|c cs IH]; cbn; [done|]. by rewrite str_length_app, IH. Qed.

Lemma sum_drop_while (p : string -> bool) l :
  sum_list_with String.length (drop_while p l) <= sum_list_with String.length l.
Proof. destruct (drop_while_suffix p l) as [pre H]. rewrite H at 2. rewrite sum_list_with_app. lia. Qed.

Lemma trim_length s : String.length (trim s) <= String.length s.
Proof.
  unfold trim. rewrite str_concat_length, sum_list_with_reverse.
  etransitivity; [apply sum_drop_while|]. rewrite sum_list_with_reverse.
  etransitivity; [apply sum_drop_while|]. by rewrite <-str_concat_length, str_concat_chars.
Qed.

(** ** Decoding bytes as UTF-8 *)

(** The first character of [b :: bs]: its bytes and the rest, or the length
    of the maximal invalid prefix, at least one byte. *)
Definition in_byte_range (lo hi : N) (b : byte) : bool :=
  (lo <=? Byte.to_N b)%N && (Byte.to_N b <=? hi)%N.
Definition cont_byte : byte -> bool := in_byte_range 128 191.

Inductive decoded := GoodChar (len : nat) | BadPrefix (len : nat).

(** Continuation bytes after a lead byte: the first in its own range, the
    others plain. *)
Fixpoint conts (ranges : list (byte -> bool)) (seen : nat) (bs : list byte) : decoded :=
  match ranges with
  | [] => GoodChar seen
  | r :: ranges' =>
      match bs with
      | b :: bs' => if r b then conts ranges' (S seen) bs' else BadPrefix seen
      | [] => BadPrefix seen
      end
  end.

Definition utf8_head (b : byte) (bs : list byte) : decoded :=
  if in_byte_range 0 127 b then GoodChar 1
  else if in_byte_range 194 223 b then conts [cont_byte] 1 bs
  else if in_byte_range 224 224 b then conts [in_byte_range 160 191; cont_byte] 1 bs
  else if in_byte_range 225 236 b then conts [cont_byte; cont_byte] 1 bs
  else if in_byte_range 237 237 b then conts [in_byte_range 128 159; cont_byte] 1 bs
  else if in_byte_range 238 239 b then conts [cont_byte; cont_byte] 1 bs
  else if in_byte_range 240 240 b then conts [in_byte_range 144 191; cont_byte; cont_byte] 1 bs
  else if in_byte_range 241 243 b then conts [cont_byte; cont_byte; cont_byte] 1 bs
  else if in_byte_range 244 244 b then conts [in_byte_range 128 143; cont_byte; cont_byte] 1 bs
  else BadPrefix 1.

(** U+FFFD *)
Definition replacement : string := bytes_str [239; 191; 189].

(** [String::from_utf8_lossy]; the length of the input is fuel enough. *)
Fixpoint utf8_lossy_loop (fuel : nat) (bs : list byte) : string :=
  match fuel, bs with
  | S fuel, b :: bs' =>
      match utf8_head b bs' with
      | GoodChar n => String.string_of_list_byte (take n bs) +:+ utf8_lossy_loop fuel (drop n bs)
      | BadPrefix n => replacement +:+ utf8_lossy_loop fuel (drop n bs)
      end
  | _, _ => EmptyString
  end.
Definition from_utf8_lossy (bs : list byte) : string := utf8_lossy_loop (length bs) bs.

(** [std::str::from_utf8] *)
Fixpoint utf8_loop (fuel : nat) (bs : list byte) : option string :=
  match fuel, bs with
  | S fuel, b :: bs' =>
      match utf8_head b bs' with
      | GoodChar n =>
          rest ← utf8_loop fuel (drop n bs); Some (String.string_of_list_byte (take n bs) +:+ rest)
      | BadPrefix n => None
      end
  | _, _ => Some EmptyString
  end.
Definition from_utf8 (bs : list byte) : option string := utf8_loop (length bs) bs.

(** Pieces that start at a boundary are cut on their own. *)
Lemma str_ok_pieces ps : Forall str_ok ps -> str_ok (str_concat ps).
Proof.
  induction 1 as [|p ps Hp Hps IH]; [done|]. cbn. unfold str_ok in *. by destruct p.
Qed.
Lemma chars_pieces ps : Forall str_ok ps -> chars (str_concat ps) = ps ≫= chars.
Proof.
  induction 1 as [|p ps Hp Hps IH]; [done|]. cbn [str_concat mbind list_bind].
  rewrite chars_app by by apply str_ok_pieces. by rewrite IH.
Qed.

(** What every Rust string satisfies: it starts at a boundary and every
    character is an ASCII byte or has no ASCII byte. *)
Definition utf8_char (c : string) : Prop :=
  String.length c = 1 \/ str_all (fun a => (128 <=? N_of_ascii a)%N) c = true.
Definition str_wf (s : string) : Prop := str_ok s /\ Forall utf8_char (chars s).

Lemma utf8_char_free a c : (N_of_ascii a < 128)%N -> utf8_char c -> c <> String a EmptyString ->
  str_free a c = true.
Proof.
  intros Ha [Hlen|Hall] Hc.
  - destruct c as [|b [|]]; [done| |done]. cbn. rewrite andb_true_r. apply bool_decide_eq_true.
    by intros ->.
  - clear Hc. induction c as [|b c IH]; [done|]. cbn in *. apply andb_prop in Hall as [Hb Hall].
    rewrite IH by done. rewrite andb_true_r. apply bool_decide_eq_true. intros ->.
    apply N.leb_le in Hb. lia.
Qed.

Lemma str_free_concat a cs : Forall (fun c => str_free a c = true) cs -> str_free a (str_concat cs) = true.
Proof. induction 1 as [|c cs Hc Hcs IH]; [done|]. cbn. by rewrite str_free_app, Hc, IH. Qed.
Lemma str_free_join a sep ls : str_free a sep = true ->
  Forall (fun l => str_free a l = true) ls -> str_free a (join sep ls) = true.
Proof.
  intros Hs H. induction H as [|l ls Hl Hls IH]; [done|]. destruct ls as [|l' ls]; [done|].
  cbn [join] in *. by rewrite !str_free_app, Hl, Hs, IH.
Qed.

(** ** Quoting by doubling *)

(** The text with every [q] doubled, as the drivers' quoting loops write it. *)
Definition double_chars (q : string) (cs : list string) : list string :=
  cs ≫= fun ch => if decide (ch = q) then [q; ch] else [ch].
Definition double_char (q : string) (name : string) : string :=
  str_concat (double_chars q (chars name)).

Lemma double_are_chars q name : is_char q -> str_ok name -> Forall is_char (double_chars q (chars name)).
Proof.
  intros Hq Hok. pose proof (chars_are_chars name Hok) as Hcs. unfold double_chars.
  induction Hcs as [|c cs Hc Hcs IH]; [by apply Forall_nil|]. cbn [mbind list_bind].
  apply Forall_app. split; [|done]. case_decide; rewrite ?Forall_cons, Forall_nil; done.
Qed.
Lemma chars_double q name : is_char q -> str_ok name ->
  chars (double_char q name) = double_chars q (chars name).
Proof. intros Hq Hok. by apply chars_concat, double_are_chars. Qed.
Lemma double_ok q name : is_char q -> str_ok name -> str_ok (double_char q name).
Proof. intros Hq Hok. by apply str_ok_concat, double_are_chars. Qed.
Lemma chars_quoted q s : is_char q -> str_ok s -> chars (q +:+ s +:+ q) = (q :: chars s ++ [q])%list.
Proof.
  intros [Hc Hok] Hs. assert (str_ok (s +:+ q)) by (unfold str_ok in *; by destruct s).
  rewrite chars_app, (chars_app s) by done. by rewrite Hc.
Qed.
