(* ===== verification/Tasks.v ===== *)
(** * Tasks that share a lock

    What the models of concurrent calls share: tasks that hold the guards of
    one reader-writer lock ([tokio::sync::RwLock]), and runs of a step
    function under a schedule.  A task is its phase; [Guarded] says what a
    phase holds. *)
From S2P Require Import Prelude.

(** The guard a phase holds, and how many steps it has left at most. *)
Class Guarded (P : Type) := {
  holds : P -> bool;
  writes : P -> bool;
  steps : P -> nat;
  writes_holds p : writes p = true -> holds p = true;
}.

Section lock.
Context {P : Type} `{!Guarded P}.
Implicit Types (ts : gmap nat P) (p q old : P).

(** Whether [read()] and [write()] can be granted. *)
Definition can_read ts : bool := bool_decide (map_Forall (fun _ p => writes p = false) ts).
Definition can_write ts : bool := bool_decide (map_Forall (fun _ p => holds p = false) ts).
(** A write guard is the only guard. *)
Definition exclusive ts : Prop := forall i j p q,
  ts !! i = Some p -> ts !! j = Some q -> writes p = true -> holds q = true -> i = j.

Lemma holds_writes p : holds p = false -> writes p = false.
Proof. intros Hh. destruct (writes p) eqn:Hw; [|done]. apply writes_holds in Hw. congruence. Qed.
Lemma can_write_holds ts j q : can_write ts = true -> ts !! j = Some q -> holds q = false.
Proof. unfold can_write. rewrite bool_decide_eq_true. intros Hm Hj. by apply (Hm j q). Qed.
Lemma can_read_writes ts j q : can_read ts = true -> ts !! j = Some q -> writes q = false.
Proof. unfold can_read. rewrite bool_decide_eq_true. intros Hm Hj. by apply (Hm j q). Qed.

Lemma exclusive_put ts i p :
  exclusive ts ->
  (holds p = true -> forall j q, j <> i -> ts !! j = Some q -> writes q = false) ->
  (writes p = true -> forall j q, j <> i -> ts !! j = Some q -> holds q = false) ->
  exclusive (<[i := p]> ts).
Proof.
  intros He Hh Hw j k pj pk. rewrite !lookup_insert_Some.
  intros [[<- <-]|[? Hj]] [[<- <-]|[? Hk]] Hwj Hhk; try done.
  - by rewrite (Hw Hwj k pk) in Hhk by done.
  - by rewrite (Hh Hhk j pj) in Hwj by done.
  - by eapply He.
Qed.
(** A task gives its guard back, or goes on with what it had; it is granted
    the read or the write guard. *)
Lemma exclusive_keep ts i old p :
  exclusive ts -> ts !! i = Some old ->
  (holds p = true -> holds old = true) -> (writes p = true -> writes old = true) ->
  exclusive (<[i := p]> ts).
Proof.
  intros He Hi Hh Hw. apply exclusive_put; [done|..].
  - intros Hp%Hh j q Hne Hj. destruct (writes q) eqn:Hq; [|done]. by destruct Hne; eapply He.
  - intros Hp%Hw j q Hne Hj. destruct (holds q) eqn:Hq; [|done]. by destruct Hne; symmetry; eapply He.
Qed.
Lemma exclusive_free ts i p : exclusive ts -> holds p = false -> exclusive (<[i := p]> ts).
Proof.
  intros He Hp. apply exclusive_put; [done|congruence|]. apply holds_writes in Hp. congruence.
Qed.
Lemma exclusive_read ts i p :
  exclusive ts -> can_read ts = true -> writes p = false -> exclusive (<[i := p]> ts).
Proof. intros He Hr Hp. apply exclusive_put; [done| |congruence]. intros _ j q _. by apply can_read_writes. Qed.
Lemma exclusive_write ts i p : exclusive ts -> can_write ts = true -> exclusive (<[i := p]> ts).
Proof.
  intros He Hr. apply exclusive_put; [done|..]; intros _ j q _ Hj; [apply holds_writes|]; by eapply can_write_holds.
Qed.

(** The lock is free, or somebody has it. *)
Lemma free_or_held ts :
  (can_read ts = true /\ can_write ts = true) \/ exists j q, ts !! j = Some q /\ holds q = true.
Proof.
  destruct (decide (map_Forall (fun _ p => holds p = false) ts)) as [Hh|Hh].
  - left. unfold can_read, can_write. rewrite !bool_decide_eq_true. split; [|done].
    intros j q Hj. by eapply holds_writes, (Hh j).
  - right. apply map_not_Forall in Hh as (j & q & Hj & Hq); [|apply _]. exists j, q.
    by destruct (holds q).
Qed.

(** What is left to do. *)
Definition work ts : nat := map_fold (fun _ p n => steps p + n) 0 ts.
Lemma work_put ts i old p :
  ts !! i = Some old -> steps p < steps old -> work (<[i := p]> ts) < work ts.
Proof.
  intros Hold Hw. unfold work. rewrite <-insert_delete_eq.
  rewrite (map_fold_insert_L _ _ i p) by (lia || apply lookup_delete_eq).
  rewrite (map_fold_delete_L _ _ i old ts) by (lia || done). lia.
Qed.
End lock.

(** ** Runs *)

(** The steps a schedule names, one after the other; [None] when one of them
    cannot be taken. *)
Fixpoint follow {S L} (step : L -> S -> option S) (schedule : list L) (s : S) : option S :=
  match schedule with
  | [] => Some s
  | l :: schedule => s ← step l s; follow step schedule s
  end.

Section follow.
Context {S L : Type} (step : L -> S -> option S).

Lemma follow_app l1 l2 s : follow step (l1 ++ l2) s = (s ← follow step l1 s; follow step l2 s).
Proof. revert s. induction l1 as [|l l1 IH]; intros s; cbn; [done|]. by destruct (step l s); cbn. Qed.
Lemma follow_keeps (I : S -> Prop) :
  (forall l s s', I s -> step l s = Some s' -> I s') ->
  forall schedule s s', I s -> follow step schedule s = Some s' -> I s'.
Proof.
  intros Hstep schedule. induction schedule as [|l schedule IH]; intros s s' Hi; cbn; [by intros [= <-]|].
  destruct (step l s) as [s1|] eqn:Hl; [|done]. cbn. apply IH. by eapply Hstep.
Qed.
Lemma follow_bounded (m : S -> nat) :
  (forall l s s', step l s = Some s' -> m s' < m s) ->
  forall schedule s s', follow step schedule s = Some s' -> length schedule + m s' <= m s.
Proof.
  intros Hstep schedule. induction schedule as [|l schedule IH]; intros s s'; cbn; [by intros [= <-]|].
  destruct (step l s) as [s1|] eqn:Hl; [|done]. cbn. intros Hs%IH. apply Hstep in Hl. lia.
Qed.
End follow.
