(* ===== verification/Core.v ===== *)
(** * Shared transfer types and the driver contract (crates/core)

    [SslMode] to [KeepalivePosture] are the data of config.rs, error.rs,
    result.rs, schema.rs, transport.rs and value.rs; [DatabaseDriver] is the
    trait of driver.rs as a record of its methods, with the bodies the trait
    gives as defaults below it.  A method runs in a state [S] shared by
    everything its caller may observe, so a driver call made at an [.await]
    may also change what other tasks change meanwhile. *)
From S2P Require Import Prelude RustStr.

(** ** config.rs *)

Inductive SslMode := Disabled | Preferred | Required | VerifyCa | VerifyIdentity.
#[export] Instance SslMode_eq_dec : EqDecision SslMode.
Proof. solve_decision. Defined.

(** The strings of the [snake_case] serde form. *)
Definition SslMode_name (m : SslMode) : string :=
  match m with
  | Disabled => "disabled" | Preferred => "preferred" | Required => "required"
  | VerifyCa => "verify_ca" | VerifyIdentity => "verify_identity"
  end.

Record SslConfig := {
  mode : option SslMode;
  ca_path : option string;
  client_cert_path : option string;
  client_key_path : option string;
}.
Definition SslConfig_default : SslConfig :=
  {| mode := None; ca_path := None; client_cert_path := None; client_key_path := None |}.
Definition SslConfig_disabled : SslConfig :=
  {| mode := Some Disabled; ca_path := None; client_cert_path := None; client_key_path := None |}.
Definition is_enabled (self : SslConfig) : bool :=
  match mode self with None | Some Disabled => false | Some _ => true end.

(** [password] is the exposed content of the [SecretString]. *)
Record ConnectionConfig := {
  cfg_host : string;
  cfg_port : Z;
  cfg_username : string;
  cfg_password : option string;
  cfg_database : option string;
  cfg_ssl : SslConfig;
  cfg_read_only : bool;
  cfg_additional_fields : gmap string string;
}.

(** ** error.rs *)

Inductive DriverErrorKind :=
  Connection | Auth | Query | Timeout | Cancelled | Protocol | Internal.
#[export] Instance DriverErrorKind_eq_dec : EqDecision DriverErrorKind.
Proof. solve_decision. Defined.

Record DriverError := {
  kind : DriverErrorKind;
  message : string;
  code : option string;
  sql_state : option string;
  detail : option string;
}.
Definition DriverError_new (k : DriverErrorKind) (m : string) : DriverError :=
  {| kind := k; message := m; code := None; sql_state := None; detail := None |}.
Definition DriverError_cancelled : DriverError :=
  DriverError_new Cancelled "operation was cancelled".
Definition with_code (c : string) (e : DriverError) : DriverError :=
  {| kind := kind e; message := message e; code := Some c; sql_state := sql_state e;
     detail := detail e |}.
Definition with_sql_state (s : string) (e : DriverError) : DriverError :=
  {| kind := kind e; message := message e; code := code e; sql_state := Some s;
     detail := detail e |}.
Definition with_detail (d : string) (e : DriverError) : DriverError :=
  {| kind := kind e; message := message e; code := code e; sql_state := sql_state e;
     detail := Some d |}.
(** [#[error("{message}")]] *)
Definition DriverError_to_string (e : DriverError) : string := message e.

Abbreviation DriverResult := (result DriverError).

(** ** limits.rs, timeouts.rs, transport.rs *)

Definition EMERGENCY_MAX : Z := 5000000.
Definition SERVER_SECS : Z := 30.
Definition CLIENT_BACKSTOP_SECS : Z := 45.
(** Durations in milliseconds. *)
Definition KEEPALIVE_IDLE : Z := 1000.
Definition KEEPALIVE_INTERVAL : Z := 1000.
Definition KEEPALIVE_RETRIES : Z := 3.

Inductive KeepalivePosture := Applied | NotSupported (reason : string).

(** ** value.rs *)

Inductive CellValue := Null | Text (s : string) | Bytes (bs : list byte).
#[export] Instance CellValue_eq_dec : EqDecision CellValue.
Proof. solve_decision. Defined.
Definition is_null (c : CellValue) : bool := match c with Null => true | _ => false end.
Definition as_text (c : CellValue) : option string :=
  match c with Text s => Some s | _ => None end.

(** ** schema.rs *)

Inductive IdentityKind := Always | ByDefault.
Record ColumnInfo := {
  col_name : string;
  col_data_type : string;
  col_is_nullable : bool;
  col_is_primary_key : bool;
  col_default_value : option string;
  col_extra : option string;
  col_charset : option string;
  col_collation : option string;
  col_comment : option string;
  col_identity_kind : option IdentityKind;
  col_is_generated : bool;
  col_allowed_values : option (list string);
}.
Inductive TableKind := Table | View | MaterializedView.
Record TableInfo := {
  ti_name : string;
  ti_schema : option string;
  ti_kind : TableKind;
  ti_comment : option string;
  ti_row_count_estimate : option Z;
}.
Record IndexInfo := {
  ix_name : string;
  ix_columns : list string;
  ix_is_unique : bool;
  ix_is_primary : bool;
  ix_method : option string;
}.
Record ForeignKeyInfo := {
  fk_name : string;
  fk_columns : list string;
  fk_referenced_table : string;
  fk_referenced_schema : option string;
  fk_referenced_columns : list string;
  fk_on_delete : option string;
  fk_on_update : option string;
}.
Record TriggerInfo := {
  tg_name : string;
  tg_event : string;
  tg_timing : string;
  tg_definition : option string;
}.
Record TableMetadata := {
  tm_info : TableInfo;
  tm_columns : list ColumnInfo;
  tm_indexes : list IndexInfo;
  tm_foreign_keys : list ForeignKeyInfo;
  tm_triggers : list TriggerInfo;
}.
Record DatabaseMetadata := {
  dm_name : string;
  dm_schemas : list string;
  dm_size_bytes : option Z;
}.
Inductive ParameterStyle := QuestionMark | Dollar.
Record StreamHeader := { sh_columns : list string; sh_column_type_names : list string }.
Inductive StreamElement := Header (h : StreamHeader) | Rows (rows : list (list CellValue)).
Record CreateDatabaseRequest := {
  cd_name : string;
  cd_owner : option string;
  cd_encoding : option string;
  cd_additional_fields : gmap string string;
}.

(** ** result.rs *)

(** [execution_time] in nanoseconds. *)
Record QueryResult := {
  columns : list string;
  column_type_names : list string;
  rows : list (list CellValue);
  rows_affected : Z;
  execution_time : Z;
  is_truncated : bool;
  status_message : option string;
  column_meta : option (list ColumnInfo);
}.
Definition QueryResult_empty : QueryResult :=
  {| columns := []; column_type_names := []; rows := []; rows_affected := 0;
     execution_time := 0; is_truncated := false; status_message := None; column_meta := None |}.

(** ** driver.rs *)

(** What a consumer gets from a stream: the elements in order, and how it
    ended, [None] when the consumer dropped it before its end.  A consumer is
    described by how many rounds of fetching it waits for. *)
Definition StreamOutcome : Type := list StreamElement * option (DriverResult unit).

Record DatabaseDriver (S : Type) := {
  connect : eff S DriverError unit;
  disconnect : eff S DriverError unit;
  ping : eff S DriverError unit;
  execute : string -> eff S DriverError QueryResult;
  execute_parameterized : string -> list CellValue -> eff S DriverError QueryResult;
  execute_user_query :
    string -> option Z -> option (list CellValue) -> eff S DriverError QueryResult;
  fetch_tables : option string -> eff S DriverError (list TableInfo);
  fetch_columns : string -> option string -> eff S DriverError (list ColumnInfo);
  fetch_indexes : string -> option string -> eff S DriverError (list IndexInfo);
  fetch_foreign_keys : string -> option string -> eff S DriverError (list ForeignKeyInfo);
  fetch_triggers : string -> option string -> eff S DriverError (list TriggerInfo);
  fetch_table_ddl : string -> option string -> eff S DriverError string;
  fetch_view_definition : string -> option string -> eff S DriverError string;
  fetch_table_metadata : string -> option string -> eff S DriverError TableMetadata;
  fetch_databases : eff S DriverError (list string);
  fetch_database_metadata : string -> eff S DriverError DatabaseMetadata;
  supports_schemas : bool;
  fetch_schemas : eff S DriverError (list string);
  switch_schema : string -> eff S DriverError unit;
  current_schema : S -> option string;
  supports_transactions : bool;
  begin_transaction : eff S DriverError unit;
  commit_transaction : eff S DriverError unit;
  rollback_transaction : eff S DriverError unit;
  cancel_query : eff S DriverError unit;
  apply_query_timeout : Z -> eff S DriverError unit;
  keepalive_posture : KeepalivePosture;
  server_version : S -> option string;
  parameter_style : ParameterStyle;
  create_database : CreateDatabaseRequest -> eff S DriverError unit;
  drop_database : string -> eff S DriverError unit;
  switch_database : string -> eff S DriverError unit;
  stream_rows : string -> nat -> S -> StreamOutcome * S;
}.

(** The trait's default bodies; [execute] is the implementor's own. *)
Section Defaults.
Context {S : Type} (execute : string -> eff S DriverError QueryResult).
Definition default_ping : eff S DriverError unit := _ ← execute "SELECT 1"; mret tt.
Definition default_fetch_triggers (table : string) (schema : option string)
  : eff S DriverError (list TriggerInfo) := mret [].
Definition default_supports_schemas : bool := false.
Definition default_fetch_schemas : eff S DriverError (list string) := mret [].
Definition default_switch_schema (schema : string) : eff S DriverError unit :=
  throw (DriverError_new Query "this driver does not support schemas").
Definition default_current_schema (s : S) : option string := None.
Definition default_supports_transactions : bool := true.
Definition default_begin_transaction : eff S DriverError unit := _ ← execute "BEGIN"; mret tt.
Definition default_commit_transaction : eff S DriverError unit := _ ← execute "COMMIT"; mret tt.
Definition default_rollback_transaction : eff S DriverError unit :=
  _ ← execute "ROLLBACK"; mret tt.
Definition default_cancel_query : eff S DriverError unit := mret tt.
Definition default_apply_query_timeout (seconds : Z) : eff S DriverError unit := mret tt.
Definition default_server_version (s : S) : option string := None.
End Defaults.

Arguments connect {S} _. Arguments disconnect {S} _. Arguments ping {S} _.
Arguments execute {S} _. Arguments execute_parameterized {S} _.
Arguments execute_user_query {S} _. Arguments fetch_tables {S} _. Arguments fetch_columns {S} _.
Arguments fetch_indexes {S} _. Arguments fetch_foreign_keys {S} _.
Arguments fetch_triggers {S} _. Arguments fetch_table_ddl {S} _.
Arguments fetch_view_definition {S} _. Arguments fetch_table_metadata {S} _.
Arguments fetch_databases {S} _. Arguments fetch_database_metadata {S} _.
Arguments supports_schemas {S} _. Arguments fetch_schemas {S} _. Arguments switch_schema {S} _.
Arguments current_schema {S} _. Arguments supports_transactions {S} _.
Arguments begin_transaction {S} _. Arguments commit_transaction {S} _.
Arguments rollback_transaction {S} _. Arguments cancel_query {S} _.
Arguments apply_query_timeout {S} _. Arguments keepalive_posture {S} _.
Arguments server_version {S} _. Arguments parameter_style {S} _.
Arguments create_database {S} _. Arguments drop_database {S} _.
Arguments switch_database {S} _. Arguments stream_rows {S} _.

(** ** Using a driver *)

(** A call of one of the methods, whose result is looked at elsewhere. *)
Inductive driver_op :=
  | OConnect
  | ODisconnect
  | OPing
  | OExecute (sql : string)
  | OExecuteParameterized (sql : string) (parameters : list CellValue)
  | OUserQuery (sql : string) (row_cap : option Z) (parameters : option (list CellValue))
  | OTables (schema : option string)
  | OColumns (table : string) (schema : option string)
  | OIndexes (table : string) (schema : option string)
  | OForeignKeys (table : string) (schema : option string)
  | OTriggers (table : string) (schema : option string)
  | OTableDdl (table : string) (schema : option string)
  | OViewDefinition (view : string) (schema : option string)
  | OTableMetadata (table : string) (schema : option string)
  | ODatabases
  | ODatabaseMetadata (database : string)
  | OCreateDatabase (request : CreateDatabaseRequest)
  | ODropDatabase (name : string)
  | OSwitchDatabase (database : string)
  | OStream (sql : string) (rounds : nat)
  | OTimeout (seconds : Z)
  | OCancel
  | OSchemas
  | OSwitchSchema (schema : string)
  | OBegin
  | OCommit
  | ORollback.

Definition drive {S} (driver : DatabaseDriver S) (o : driver_op) (s : S) : S :=
  match o with
  | OConnect => snd (connect driver s)
  | OPing => snd (ping driver s)
  | OExecute sql => snd (execute driver sql s)
  | OExecuteParameterized sql ps => snd (execute_parameterized driver sql ps s)
  | OUserQuery sql cap ps => snd (execute_user_query driver sql cap ps s)
  | OTables schema => snd (fetch_tables driver schema s)
  | OColumns table schema => snd (fetch_columns driver table schema s)
  | OIndexes table schema => snd (fetch_indexes driver table schema s)
  | OForeignKeys table schema => snd (fetch_foreign_keys driver table schema s)
  | OTriggers table schema => snd (fetch_triggers driver table schema s)
  | OTableDdl table schema => snd (fetch_table_ddl driver table schema s)
  | OViewDefinition view schema => snd (fetch_view_definition driver view schema s)
  | OTableMetadata table schema => snd (fetch_table_metadata driver table schema s)
  | ODatabases => snd (fetch_databases driver s)
  | ODatabaseMetadata database => snd (fetch_database_metadata driver database s)
  | OCreateDatabase request => snd (create_database driver request s)
  | ODropDatabase name => snd (drop_database driver name s)
  | OSwitchDatabase database => snd (switch_database driver database s)
  | OStream sql rounds => snd (stream_rows driver sql rounds s)
  | OTimeout seconds => snd (apply_query_timeout driver seconds s)
  | OCancel => snd (cancel_query driver s)
  | ODisconnect => snd (disconnect driver s)
  | OSchemas => snd (fetch_schemas driver s)
  | OSwitchSchema schema => snd (switch_schema driver schema s)
  | OBegin => snd (begin_transaction driver s)
  | OCommit => snd (commit_transaction driver s)
  | ORollback => snd (rollback_transaction driver s)
  end.

(** The row cap every driver applies: the caller's, never above the ceiling. *)
Definition clamp_row_cap (row_cap : option Z) : Z :=
  Z.min (default EMERGENCY_MAX row_cap) EMERGENCY_MAX.

Lemma clamp_row_cap_le c : (clamp_row_cap c <= EMERGENCY_MAX)%Z.
Proof. unfold clamp_row_cap. lia. Qed.
Lemma clamp_row_cap_asked c n : c = Some n -> (clamp_row_cap c <= n)%Z.
Proof. intros ->. unfold clamp_row_cap. cbn. lia. Qed.
