(* ===== verification/Registry.v ===== *)
(** * Generation-fenced attempts and sessions (crates/registry)

    [Attempts] is connection_registry.rs with the token of attempt_token.rs,
    [Sessions] is session_registry.rs.  Each mutex-guarded map is a [gmap];
    an operation is the body of its critical section.  [Sessions.cstep] is
    [insert_if_current] cut at the points where another thread may run. *)
From S2P Require Import Prelude RustStr.

(** A [uuid::Uuid], by its 128-bit value; its [Ord] is that of the value. *)
Abbreviation Uuid := N.

Record AttemptToken := AttemptToken_new { connection_id : Uuid; generation : Z }.

Module Attempts.

(** [generations: Mutex<HashMap<Uuid, u64>>] *)
Abbreviation t := (gmap Uuid Z).

Definition new : t := ∅.

Definition next_generation (generations : t) (id : Uuid) : Z :=
  match generations !! id with
  | Some g => wrapping_add_u64 g 1
  | None => 1
  end.

Definition begin (id : Uuid) (generations : t) : AttemptToken * t :=
  let next := next_generation generations id in
  (AttemptToken_new id next, <[id := next]> generations).

Definition is_current (token : AttemptToken) (generations : t) : bool :=
  bool_decide (generations !! connection_id token = Some (generation token)).

Definition invalidate (id : Uuid) (generations : t) : t :=
  <[id := next_generation generations id]> generations.

Definition forget (id : Uuid) (generations : t) : t := delete id generations.

(** Everything the registry's callers can do to it. *)
Inductive op := Begin (id : Uuid) | Invalidate (id : Uuid) | Forget (id : Uuid).
Definition run_op (o : op) (generations : t) : t :=
  match o with
  | Begin id => snd (begin id generations)
  | Invalidate id => invalidate id generations
  | Forget id => forget id generations
  end.
Definition run (os : list op) (generations : t) : t :=
  foldl (fun m o => run_op o m) generations os.

(** How many operations of [os] advance the counter of [id]. *)
Definition bumps_one (id : Uuid) (o : op) : bool :=
  match o with
  | Begin id' | Invalidate id' => bool_decide (id' = id)
  | Forget _ => false
  end.
Definition bumps (id : Uuid) (os : list op) : Z :=
  Z.of_nat (length (filter (fun o => bumps_one id o = true) os)).
Definition forgets (id : Uuid) (os : list op) : Prop := Forget id ∈ os.

(** Counters are [u64] values. *)
Definition wf (generations : t) : Prop :=
  map_Forall (fun _ g => 0 <= g < 2 ^ 64)%Z generations.

Lemma next_generation_range m id : (0 <= next_generation m id < 2 ^ 64)%Z.
Proof.
  unfold next_generation, wrapping_add_u64. destruct (m !! id); [|lia].
  apply Z.mod_pos_bound. lia.
Qed.

Lemma run_op_wf o m : wf m -> wf (run_op o m).
Proof.
  intros Hm. destruct o; cbn; [| |by apply map_Forall_delete];
    (apply map_Forall_insert_2; [apply next_generation_range|done]).
Qed.

Lemma run_op_other o m id :
  bumps_one id o = false -> o <> Forget id -> run_op o m !! id = m !! id.
Proof.
  destruct o as [i|i|i]; cbn; intros Hb Hf;
    [apply bool_decide_eq_false in Hb|apply bool_decide_eq_false in Hb|];
    unfold invalidate, forget; simplify_map_eq; [done|done|].
  rewrite lookup_delete_ne; congruence.
Qed.

Lemma run_op_bump o m id g :
  bumps_one id o = true -> m !! id = Some g -> run_op o m !! id = Some ((g + 1) mod 2 ^ 64)%Z.
Proof.
  destruct o as [i|i|i]; cbn; intros Hb Hg; try done;
    apply bool_decide_eq_true in Hb as ->;
    unfold invalidate, next_generation, wrapping_add_u64; rewrite Hg; by simplify_map_eq.
Qed.

(** The counter of an id after [os]: advanced once per bump, modulo 2^64. *)
Lemma run_lookup os : forall m id g,
  (0 <= g < 2 ^ 64)%Z -> m !! id = Some g -> ~ forgets id os ->
  run os m !! id = Some ((g + bumps id os) mod 2 ^ 64)%Z.
Proof.
  induction os as [|o os IH]; intros m id g Hg Hm Hf.
  - cbn. rewrite Hm. f_equal. unfold bumps. cbn. rewrite Z.mod_small; lia.
  - unfold forgets in *. rewrite elem_of_cons in Hf.
    change (run (o :: os) m) with (run os (run_op o m)).
    unfold bumps. rewrite filter_cons. destruct (bumps_one id o) eqn:Hb.
    + rewrite decide_True by done. cbn [length].
      rewrite (IH _ _ ((g + 1) mod 2 ^ 64)%Z);
        [|apply Z.mod_pos_bound; lia|by apply run_op_bump|naive_solver].
      f_equal. rewrite Zplus_mod_idemp_l. f_equal. unfold bumps. lia.
    + rewrite decide_False by done.
      rewrite (IH _ _ g); [done|done| |naive_solver].
      rewrite run_op_other; naive_solver.
Qed.

Lemma begin_current id m : is_current (fst (begin id m)) (snd (begin id m)) = true.
Proof. unfold is_current, begin. cbn. apply bool_decide_eq_true. by simplify_map_eq. Qed.



(** Forgetting an id makes its old tokens stale, but the next begin
    restarts the counter at 1, so the very first token of the id becomes
    current again although it was issued before the forget. *)
Theorem forget_then_begin_revives_first_token (m : gmap Uuid Z) (id : Uuid) :
  m !! id = None ->
  let first := fst (begin id m) in
  let forgotten := forget id (snd (begin id m)) in
  is_current first forgotten = false
  /\ is_current first (snd (begin id forgotten)) = true.
Proof.
  intros Hm first forgotten. subst first forgotten. cbn.
  unfold next_generation. rewrite Hm. unfold is_current, forget. cbn.
  rewrite lookup_delete_eq. split; [by apply bool_decide_eq_false|].
  apply bool_decide_eq_true. by simplify_map_eq.
Qed.

Lemma forget_then_begin_revives_first_token_witness :
  (∅ : gmap Uuid Z) !! 3%N = None /\
  let first := fst (begin 3%N ∅) in
  let forgotten := forget 3%N (snd (begin 3%N ∅)) in
  is_current first forgotten = false /\ is_current first (snd (begin 3%N forgotten)) = true.
Proof. split; [done|apply (forget_then_begin_revives_first_token ∅ 3%N); done]. Defined.
End Attempts.

Module Sessions.
Section sessions.
(** The session type [S] of [SessionRegistry<S>]. *)
Context {S : Type}.

Definition new : gmap Uuid S := ∅.

(** [insert_if_current]: the registry is read twice, before and after the
    session lock is taken; [r1] and [r2] are what the two reads see. *)
Definition insert_if_current (r1 r2 : gmap Uuid Z) (token : AttemptToken) (session : S)
    (sessions : gmap Uuid S) : result S (option S) * gmap Uuid S :=
  if negb (Attempts.is_current token r1) then (Err session, sessions)
  else if negb (Attempts.is_current token r2) then (Err session, sessions)
  else (Ok (sessions !! connection_id token), <[connection_id token := session]> sessions).

Definition remove (id : Uuid) (sessions : gmap Uuid S) : option S * gmap Uuid S :=
  (sessions !! id, delete id sessions).

Definition contains (id : Uuid) (sessions : gmap Uuid S) : bool :=
  bool_decide (is_Some (sessions !! id)).

(** The values of a map; the order is irrelevant below. *)
Definition values {K} `{Countable K} {V} (m : gmap K V) : list V := (map_to_list m).*2.

Lemma values_lookup {K} `{Countable K} {V} (m : gmap K V) k v :
  m !! k = Some v -> values m ≡ₚ v :: values (delete k m).
Proof. intros Hk. unfold values. by rewrite <-(map_to_list_delete m k v Hk). Qed.

Lemma values_insert {K} `{Countable K} {V} (m : gmap K V) k v :
  values (<[k:=v]> m) ≡ₚ v :: values (delete k m).
Proof.
  unfold values. rewrite <-insert_delete_eq.
  by rewrite map_to_list_insert by apply lookup_delete_eq.
Qed.

(** ** Several threads inside [insert_if_current]

    The two registries are separate mutexes: between any two of the steps
    below another thread may begin, invalidate or forget an attempt, and
    while the session lock is free another thread may remove a session. *)
Inductive phase :=
  | Start (t : AttemptToken) (s : S)
  | Waiting (t : AttemptToken) (s : S)
  | Locked (t : AttemptToken) (s : S)
  | Checked (t : AttemptToken) (s : S)
  | Done (r : result S (option S)).

Record cstate := {
  generations : gmap Uuid Z;
  sessions : gmap Uuid S;
  lock : option nat;
  threads : gmap nat phase;
  removed : list S;
}.

Definition set_thread (i : nat) (p : phase) (l : option nat) (c : cstate) : cstate :=
  {| generations := generations c; sessions := sessions c; lock := l;
     threads := <[i := p]> (threads c); removed := removed c |}.

Inductive cstep (c : cstate) : cstate -> Prop :=
  | cs_generation o :
      cstep c {| generations := Attempts.run_op o (generations c); sessions := sessions c;
                 lock := lock c; threads := threads c; removed := removed c |}
  | cs_remove id s :
      lock c = None -> sessions c !! id = Some s ->
      cstep c {| generations := generations c; sessions := delete id (sessions c);
                 lock := None; threads := threads c; removed := s :: removed c |}
  | cs_first_ok i t s :
      threads c !! i = Some (Start t s) -> Attempts.is_current t (generations c) = true ->
      cstep c (set_thread i (Waiting t s) (lock c) c)
  | cs_first_stale i t s :
      threads c !! i = Some (Start t s) -> Attempts.is_current t (generations c) = false ->
      cstep c (set_thread i (Done (Err s)) (lock c) c)
  | cs_acquire i t s :
      threads c !! i = Some (Waiting t s) -> lock c = None ->
      cstep c (set_thread i (Locked t s) (Some i) c)
  | cs_second_ok i t s :
      threads c !! i = Some (Locked t s) -> Attempts.is_current t (generations c) = true ->
      cstep c (set_thread i (Checked t s) (lock c) c)
  | cs_second_stale i t s :
      threads c !! i = Some (Locked t s) -> Attempts.is_current t (generations c) = false ->
      cstep c (set_thread i (Done (Err s)) None c)
  | cs_install i t s :
      threads c !! i = Some (Checked t s) ->
      cstep c {| generations := generations c;
                 sessions := <[connection_id t := s]> (sessions c); lock := None;
                 threads := <[i := Done (Ok (sessions c !! connection_id t))]> (threads c);
                 removed := removed c |}.

(** The sessions a thread holds, or was handed as its result. *)
Definition held (p : phase) : list S :=
  match p with
  | Start _ s | Waiting _ s | Locked _ s | Checked _ s => [s]
  | Done (Err s) => [s]
  | Done (Ok (Some old)) => [old]
  | Done (Ok None) => []
  end.

(** Every session of the system, wherever it is. *)
Definition all_sessions (c : cstate) : list S :=
  ((values (threads c) ≫= held) ++ values (sessions c) ++ removed c)%list.

(** The critical section is held by the thread the lock names. *)
Definition in_critical (p : phase) : bool :=
  match p with Locked _ _ | Checked _ _ => true | _ => false end.
Definition lock_inv (c : cstate) : Prop :=
  forall i p, threads c !! i = Some p -> in_critical p = true -> lock c = Some i.

Lemma values_threads (m : gmap nat phase) i p q :
  m !! i = Some p ->
  exists rest, (values m ≫= held) ≡ₚ (held p ++ rest)%list
    /\ (values (<[i := q]> m) ≫= held) ≡ₚ (held q ++ rest)%list.
Proof.
  intros Hi. exists (values (delete i m) ≫= held). split.
  - by rewrite (values_lookup m i p Hi).
  - by rewrite (values_insert m i q).
Qed.

Lemma set_thread_sessions c i p q l :
  threads c !! i = Some p -> held q = held p ->
  all_sessions (set_thread i q l c) ≡ₚ all_sessions c.
Proof.
  intros Hi Hh. unfold all_sessions. cbn.
  destruct (values_threads (threads c) i p q Hi) as (rest & H1 & H2).
  by rewrite H1, H2, Hh.
Qed.

Lemma install_sessions c i t s :
  threads c !! i = Some (Checked t s) ->
  ((values (<[i := Done (Ok (sessions c !! connection_id t))]> (threads c)) ≫= held)
    ++ values (<[connection_id t := s]> (sessions c)) ++ removed c)%list
  ≡ₚ all_sessions c.
Proof.
  intros Hi. unfold all_sessions.
  destruct (values_threads _ i _ (Done (Ok (sessions c !! connection_id t))) Hi)
    as (rest & -> & ->).
  rewrite values_insert. cbn [held].
  destruct (sessions c !! connection_id t) as [old|] eqn:Ho.
  - rewrite (values_lookup _ _ _ Ho). cbn. by rewrite <-!Permutation_middle, perm_swap.
  - rewrite delete_id by done. cbn. by rewrite <-!Permutation_middle.
Qed.

(** No interleaving of [insert_if_current] with other inserts, removals
    and new attempts loses, duplicates or invents a session: at every
    moment each session is in exactly one place, the map, the thread that
    offers it, the thread it was handed back to (refused, or replaced by a
    newer one) or the caller that removed it. *)
Theorem sessions_conserved (c c' : cstate) :
  rtc cstep c c' -> all_sessions c' ≡ₚ all_sessions c.
Proof.
  induction 1 as [c|c d c' Hstep _ IH]; [done|]. rewrite IH. clear IH c'.
  destruct Hstep as [o|id s Hl Hs|i t s Hi Hc|i t s Hi Hc|i t s Hi Hc|i t s Hi Hc|i t s Hi Hc
    |i t s Hi]; try by eapply set_thread_sessions.
  - done.
  - unfold all_sessions. cbn. rewrite (values_lookup (sessions c) id s Hs).
    cbn. by rewrite <-!Permutation_middle.
  - unfold all_sessions at 1. cbn [threads sessions removed]. by apply install_sessions.
Qed.

(** The session map is only ever written by the one thread that holds
    the session lock, and that thread is the one the lock names. *)
Theorem session_lock_exclusive (c c' : cstate) :
  lock_inv c -> rtc cstep c c' -> lock_inv c'.
Proof.
  intros Hinv Hrun. induction Hrun as [c|c d c' Hstep _ IH]; [done|]. apply IH. clear IH c'.
  destruct Hstep as [o|id s Hl Hs|i t s Hi Hc|i t s Hi Hc|i t s Hi Hc|i t s Hi Hc|i t s Hi Hc
    |i t s Hi]; intros j p Hj Hp; cbn in *;
    rewrite ?lookup_insert_Some in Hj;
    try destruct Hj as [[<- <-]|[Hne Hj]]; try done;
    try pose proof (Hinv _ _ Hj Hp); try pose proof (Hinv _ _ Hi eq_refl); congruence.
Qed.

Lemma generations_step os c :
  rtc cstep c {| generations := Attempts.run os (generations c); sessions := sessions c;
                 lock := lock c; threads := threads c; removed := removed c |}.
Proof.
  revert c. induction os as [|o os IH]; intros c; [by destruct c|].
  eapply rtc_l; [apply (cs_generation c o)|]. apply (IH (Build_cstate _ _ _ _ _)).
Qed.

End sessions.

(** A thread that offers session 5 for connection 1 while attempt 1 of it is
    current and session 4 is stored. *)
Definition example_state : cstate :=
  {| generations := {[1%N := 1%Z]}; sessions := {[1%N := 4]}; lock := None;
     threads := {[0 := Start (AttemptToken_new 1 1) 5]}; removed := [] |}.
Definition example_next : cstate :=
  set_thread 0 (Waiting (AttemptToken_new 1 1) 5) None example_state.
Definition example_run : rtc cstep example_state example_next :=
  rtc_once _ _ (cs_first_ok example_state 0 (AttemptToken_new 1 1) 5 eq_refl eq_refl).

Lemma sessions_conserved_witness :
  all_sessions example_next ≡ₚ all_sessions example_state /\ all_sessions example_state = [5; 4].
Proof. split; [apply (sessions_conserved _ _ example_run)|reflexivity]. Defined.

Lemma session_lock_exclusive_witness : lock_inv example_state /\ lock_inv example_next.
Proof.
  assert (lock_inv example_state) as H0.
  { intros i p Hi Hp. cbn in Hi. apply lookup_singleton_Some in Hi as [_ <-]. discriminate Hp. }
  split; [exact H0|exact (session_lock_exclusive _ _ H0 example_run)].
Defined.

End Sessions.
