(* ===== verification/Json.v ===== *)
(** * JSON values

    The data type [serde_json::Value] as the program handles it: numbers are
    a [u64], a negative [i64] or a float (kept as its 64 bits), an object is
    a map sorted by key, first match first.  Parsing and printing JSON text
    is serde_json's and stays a parameter of the components that use it. *)
From S2P Require Import Prelude RustStr.

Inductive Number := PosInt (n : Z) | NegInt (n : Z) | Float (bits : Z).

#[warnings="-register-all"]
Inductive Value :=
  | JNull
  | JBool (b : bool)
  | JNumber (n : Number)
  | JString (s : string)
  | JArray (items : list Value)
  | JObject (fields : list (string * Value)).

(** Induction with the hypothesis for the members of arrays and objects. *)
Section value_ind.
Context (P : Value -> Prop).
Context (Hnull : P JNull) (Hbool : forall b, P (JBool b)) (Hnum : forall n, P (JNumber n))
  (Hstr : forall s, P (JString s))
  (Harr : forall l, Forall P l -> P (JArray l))
  (Hobj : forall m, Forall (fun kv => P (snd kv)) m -> P (JObject m)).
Fixpoint Value_rec' (v : Value) : P v :=
  match v with
  | JNull => Hnull
  | JBool b => Hbool b
  | JNumber n => Hnum n
  | JString s => Hstr s
  | JArray l => Harr l ((fix go l := match l return Forall P l with
      | [] => Forall_nil_2 _
      | x :: l' => Forall_cons_2 _ _ _ (Value_rec' x) (go l')
      end) l)
  | JObject m => Hobj m ((fix go m := match m return Forall (fun kv => P (snd kv)) m with
      | [] => Forall_nil_2 _
      | x :: m' => Forall_cons_2 _ _ _ (Value_rec' (snd x)) (go m')
      end) m)
  end.
End value_ind.

Definition as_object (v : Value) : option (list (string * Value)) :=
  match v with JObject m => Some m | _ => None end.
Definition as_str (v : Value) : option string :=
  match v with JString s => Some s | _ => None end.
(** [Number::as_i64] *)
Definition as_i64 (n : Number) : option Z :=
  match n with
  | PosInt u => if (u <=? i64_max)%Z then Some u else None
  | NegInt i => Some i
  | Float _ => None
  end.
(** [Value::from(i64)], [Value::from(u64)] *)
Definition int_value (z : Z) : Value := JNumber (if (z <? 0)%Z then NegInt z else PosInt z).

Fixpoint obj_get (k : string) (m : list (string * Value)) : option Value :=
  match m with
  | [] => None
  | (k', v) :: m' => if decide (k = k') then Some v else obj_get k m'
  end.
Definition obj_contains (k : string) (m : list (string * Value)) : bool :=
  match obj_get k m with Some _ => true | None => false end.

Fixpoint obj_insert (k : string) (v : Value) (m : list (string * Value)) :=
  match m with
  | [] => [(k, v)]
  | (k', v') :: m' =>
      match String.compare k k' with
      | Eq => (k, v) :: m'
      | Lt => (k, v) :: m
      | Gt => (k', v') :: obj_insert k v m'
      end
  end.

(** The [json!] macro on an object literal. *)
Definition json_object (kvs : list (string * Value)) : Value :=
  JObject (foldl (fun m kv => obj_insert (fst kv) (snd kv) m) [] kvs).

Definition json_strings (l : list string) : Value := JArray (JString <$> l).
Definition opt_string (o : option string) : Value :=
  match o with Some s => JString s | None => JNull end.

(** [value.get(key)] on a [Value]: [None] unless it is an object. *)
Definition value_get (k : string) (v : Value) : option Value :=
  match v with JObject m => obj_get k m | _ => None end.

Lemma obj_get_insert k k' v m :
  obj_get k' (obj_insert k v m) = if decide (k' = k) then Some v else obj_get k' m.
Proof.
  induction m as [|[k0 v0] m IH]; cbn; [done|].
  destruct (String.compare k k0) eqn:Hc; cbn.
  - apply String.compare_eq_iff in Hc as <-. by repeat case_decide.
  - by repeat case_decide.
  - rewrite IH. repeat case_decide; subst; try done.
    exfalso. pose proof (String.compare_antisym k0 k0) as Ha. by rewrite Hc in Ha.
Qed.

Lemma obj_get_insert_eq k v m : obj_get k (obj_insert k v m) = Some v.
Proof. rewrite obj_get_insert. by rewrite decide_True. Qed.

Lemma as_i64_int_value z : (i64_min <= z <= i64_max)%Z ->
  match int_value z with JNumber n => as_i64 n = Some z | _ => False end.
Proof.
  intros Hz. unfold int_value, as_i64. destruct (z <? 0)%Z; [done|].
  destruct (Z.leb_spec z i64_max); [done|lia].
Qed.
#[export] Hint Rewrite obj_get_insert_eq : dbmcp.

#[global] Arguments obj_insert : simpl never.

(** Looks fields up in an object literal. *)
Ltac obj_simpl :=
  unfold json_object, value_get, obj_contains in *;
  cbn [foldl fst snd app as_object] in *;
  repeat first
    [ rewrite obj_get_insert
    | rewrite decide_True by reflexivity
    | rewrite decide_False by discriminate
    | progress cbn [obj_get as_object] ].
