(* ===== verification/JsonRpc.v ===== *)
(** * JSON-RPC 2.0 messages (crates/mcp-wire/src/jsonrpc.rs)

    The message types, their serde form ([to_value]), the byte scan that
    bounds nesting before the recursive parser runs, and the decoder. *)
From S2P Require Import Prelude RustStr Json.

Definition JSONRPC_VERSION : string := "2.0".
Definition MAX_JSON_NESTING_DEPTH : Z := 128.

Inductive JsonRpcId := IdNumber (n : Z) | IdString (s : string).

Record JsonRpcError := { err_code : Z; err_message : string; err_data : option Value }.

Definition PARSE_ERROR : Z := -32700.
Definition INVALID_REQUEST : Z := -32600.
Definition METHOD_NOT_FOUND : Z := -32601.
Definition INVALID_PARAMS : Z := -32602.
Definition INTERNAL_ERROR : Z := -32603.

Definition JsonRpcError_new (c : Z) (m : string) : JsonRpcError :=
  {| err_code := c; err_message := m; err_data := None |}.
Definition parse_error : string -> JsonRpcError := JsonRpcError_new PARSE_ERROR.
Definition invalid_request : string -> JsonRpcError := JsonRpcError_new INVALID_REQUEST.
Definition method_not_found : string -> JsonRpcError := JsonRpcError_new METHOD_NOT_FOUND.
Definition invalid_params : string -> JsonRpcError := JsonRpcError_new INVALID_PARAMS.
Definition internal_error : string -> JsonRpcError := JsonRpcError_new INTERNAL_ERROR.
Definition with_data (d : Value) (e : JsonRpcError) : JsonRpcError :=
  {| err_code := err_code e; err_message := err_message e; err_data := Some d |}.

Record JsonRpcRequest := {
  req_jsonrpc : string; req_id : JsonRpcId; req_method : string; req_params : option Value }.
Definition JsonRpcRequest_new (id : JsonRpcId) (m : string) (p : option Value) : JsonRpcRequest :=
  {| req_jsonrpc := JSONRPC_VERSION; req_id := id; req_method := m; req_params := p |}.

Record JsonRpcNotification := {
  not_jsonrpc : string; not_method : string; not_params : option Value }.
Definition JsonRpcNotification_new (m : string) (p : option Value) : JsonRpcNotification :=
  {| not_jsonrpc := JSONRPC_VERSION; not_method := m; not_params := p |}.

Record JsonRpcSuccessResponse := {
  ok_jsonrpc : string; ok_id : JsonRpcId; ok_result : Value }.
Definition JsonRpcSuccessResponse_new (id : JsonRpcId) (r : Value) : JsonRpcSuccessResponse :=
  {| ok_jsonrpc := JSONRPC_VERSION; ok_id := id; ok_result := r |}.

Record JsonRpcErrorResponse := {
  er_jsonrpc : string; er_id : option JsonRpcId; er_error : JsonRpcError }.
Definition JsonRpcErrorResponse_new (id : option JsonRpcId) (e : JsonRpcError)
  : JsonRpcErrorResponse :=
  {| er_jsonrpc := JSONRPC_VERSION; er_id := id; er_error := e |}.

Inductive JsonRpcMessage :=
  | Request (r : JsonRpcRequest)
  | Notification (n : JsonRpcNotification)
  | SuccessResponse (r : JsonRpcSuccessResponse)
  | ErrorResponse (r : JsonRpcErrorResponse).

(** ** The serde form of each type *)

Definition id_to_value (id : JsonRpcId) : Value :=
  match id with IdNumber n => int_value n | IdString s => JString s end.

(** A field skipped when [None]. *)
Definition opt_field (k : string) (o : option Value) : list (string * Value) :=
  match o with Some v => [(k, v)] | None => [] end.

Definition error_to_value (e : JsonRpcError) : Value :=
  json_object ([("code", int_value (err_code e)); ("message", JString (err_message e))]
               ++ opt_field "data" (err_data e)).

Definition to_value (m : JsonRpcMessage) : Value :=
  match m with
  | Request r =>
      json_object ([("jsonrpc", JString (req_jsonrpc r)); ("id", id_to_value (req_id r));
                    ("method", JString (req_method r))] ++ opt_field "params" (req_params r))
  | Notification n =>
      json_object ([("jsonrpc", JString (not_jsonrpc n)); ("method", JString (not_method n))]
                   ++ opt_field "params" (not_params n))
  | SuccessResponse r =>
      json_object [("jsonrpc", JString (ok_jsonrpc r)); ("id", id_to_value (ok_id r));
                   ("result", ok_result r)]
  | ErrorResponse r =>
      json_object [("jsonrpc", JString (er_jsonrpc r));
                   ("id", match er_id r with Some id => id_to_value id | None => JNull end);
                   ("error", error_to_value (er_error r))]
  end.

(** ** The nesting scan *)

Definition is_open (b : byte) : bool :=
  match b with Byte.x7b | Byte.x5b => true | _ => false end.
Definition is_close (b : byte) : bool :=
  match b with Byte.x7d | Byte.x5d => true | _ => false end.
Definition is_quote (b : byte) : bool := match b with Byte.x22 => true | _ => false end.
Definition is_backslash (b : byte) : bool := match b with Byte.x5c => true | _ => false end.

Record scan := { depth : Z; in_string : bool; escaped : bool }.
Definition scan_init : scan := {| depth := 0; in_string := false; escaped := false |}.

(** One turn of the loop; [None] is the early [return true]. *)
Definition scan_byte (max_depth : Z) (s : scan) (b : byte) : option scan :=
  if in_string s then
    Some (if escaped s then {| depth := depth s; in_string := true; escaped := false |}
          else if is_backslash b then {| depth := depth s; in_string := true; escaped := true |}
          else if is_quote b then {| depth := depth s; in_string := false; escaped := escaped s |}
          else s)
  else if is_quote b then
    Some {| depth := depth s; in_string := true; escaped := escaped s |}
  else if is_open b then
    if (max_depth <? depth s + 1)%Z then None
    else Some {| depth := depth s + 1; in_string := false; escaped := escaped s |}
  else if is_close b then
    Some {| depth := saturating_sub (depth s) 1; in_string := false; escaped := escaped s |}
  else Some s.

Fixpoint scan_bytes (max_depth : Z) (s : scan) (bytes : list byte) : option scan :=
  match bytes with
  | [] => Some s
  | b :: bytes' =>
      match scan_byte max_depth s b with
      | Some s' => scan_bytes max_depth s' bytes'
      | None => None
      end
  end.

Definition exceeds_max_nesting (bytes : list byte) (max_depth : Z) : bool :=
  match scan_bytes max_depth scan_init bytes with None => true | Some _ => false end.

(** ** The decoder *)

Definition parse_id (v : Value) : option JsonRpcId :=
  match v with
  | JNumber n => IdNumber <$> as_i64 n
  | JString s => Some (IdString s)
  | _ => None
  end.

Section decoder.
(** [serde_json::from_slice::<Value>] and [from_value::<JsonRpcError>],
    with the text of their errors. *)
Context (from_slice : list byte -> result string Value).
Context (error_from_value : Value -> result string JsonRpcError).

Abbreviation obj := (list (string * Value)).

Definition quoted (s : string) : string := dquote +:+ s +:+ dquote.

Definition decode_request_or_notification (o : obj) (method_value : Value)
  : result JsonRpcError JsonRpcMessage :=
  match method_value with
  | JString method =>
      let params := obj_get "params" o in
      match obj_get "id" o with
      | None => Ok (Notification {| not_jsonrpc := JSONRPC_VERSION; not_method := method;
                                    not_params := params |})
      | Some id_value =>
          id ← ok_or (invalid_request (quoted "id" +:+ " must be a number or string"))
                 (parse_id id_value);
          Ok (Request {| req_jsonrpc := JSONRPC_VERSION; req_id := id; req_method := method;
                         req_params := params |})
      end
  | _ => Err (invalid_request (quoted "method" +:+ " must be a string"))
  end.

Definition decode_response (o : obj) : result JsonRpcError JsonRpcMessage :=
  let has_result := obj_contains "result" o in
  let has_error := obj_contains "error" o in
  if has_result && has_error then
    Err (invalid_request ("a response must not contain both " +:+ quoted "result" +:+ " and "
                          +:+ quoted "error"))
  else if has_result then
    id_value ← ok_or (invalid_request ("missing " +:+ quoted "id" +:+ " field"))
                 (obj_get "id" o);
    id ← ok_or (invalid_request (quoted "id" +:+ " must be a number or string"))
           (parse_id id_value);
    let r := default JNull (obj_get "result" o) in
    Ok (SuccessResponse {| ok_jsonrpc := JSONRPC_VERSION; ok_id := id; ok_result := r |})
  else if has_error then
    id_value ← ok_or (invalid_request ("missing " +:+ quoted "id" +:+ " field"))
                 (obj_get "id" o);
    id ← match id_value with
         | JNull => Ok None
         | other => Some <$> ok_or (invalid_request
                      (quoted "id" +:+ " must be a number, string, or null")) (parse_id other)
         end;
    let error_value := default JNull (obj_get "error" o) in
    error ← map_err (fun e => invalid_request ("invalid " +:+ quoted "error" +:+ " object: "
                                                +:+ e)) (error_from_value error_value);
    Ok (ErrorResponse {| er_jsonrpc := JSONRPC_VERSION; er_id := id; er_error := error |})
  else
    Err (invalid_request ("a JSON-RPC message must contain " +:+ quoted "method" +:+ ", "
                          +:+ quoted "result" +:+ ", or " +:+ quoted "error")).

Definition decode_value (value : Value) : result JsonRpcError JsonRpcMessage :=
  match as_object value with
  | None => Err (invalid_request "a JSON-RPC message must be a JSON object")
  | Some o =>
      match obj_get "jsonrpc" o with
      | Some (JString v) =>
          if decide (v = JSONRPC_VERSION) then
            match obj_get "method" o with
            | Some method_value => decode_request_or_notification o method_value
            | None => decode_response o
            end
          else Err (invalid_request (quoted "jsonrpc" +:+ " must be the string " +:+ quoted "2.0"))
      | Some _ =>
          Err (invalid_request (quoted "jsonrpc" +:+ " must be the string " +:+ quoted "2.0"))
      | None => Err (invalid_request ("missing " +:+ quoted "jsonrpc" +:+ " field"))
      end
  end.

Definition decode_message (bytes : list byte) : result JsonRpcError JsonRpcMessage :=
  if exceeds_max_nesting bytes MAX_JSON_NESTING_DEPTH then
    Err (invalid_request ("JSON nesting depth exceeds the limit of "
                          +:+ pretty MAX_JSON_NESTING_DEPTH))
  else
    value ← map_err parse_error (from_slice bytes);
    decode_value value.
End decoder.

(** ** The scan against JSON texts

    [text v bs]: [bs] is a JSON text of [v], read only as far as nesting
    depends on it: brackets, braces and quotes are where JSON puts them, any
    other byte (digits, letters, commas, colons, blanks) may stand between
    them, and a string body is made of bytes other than the quote and the
    backslash and of two-byte escapes. *)
Definition neutral (b : byte) : Prop :=
  is_quote b = false /\ is_open b = false /\ is_close b = false.

Inductive str_body : list byte -> Prop :=
  | sb_nil : str_body []
  | sb_plain b bs : is_quote b = false -> is_backslash b = false -> str_body bs ->
      str_body (b :: bs)
  | sb_escape b bs : str_body bs -> str_body (Byte.x5c :: b :: bs).

Definition is_scalar (v : Value) : bool :=
  match v with JNull | JBool _ | JNumber _ => true | _ => false end.

Inductive text : Value -> list byte -> Prop :=
  | text_scalar v bs : is_scalar v = true -> Forall neutral bs -> text v bs
  | text_string s pre body post :
      Forall neutral pre -> str_body body -> Forall neutral post ->
      text (JString s) (pre ++ Byte.x22 :: body ++ Byte.x22 :: post)
  | text_array l pre o body c post :
      Forall neutral pre -> is_open o = true -> items l body -> is_close c = true ->
      Forall neutral post -> text (JArray l) (pre ++ o :: body ++ c :: post)
  | text_object m pre o body c post :
      Forall neutral pre -> is_open o = true -> members m body -> is_close c = true ->
      Forall neutral post -> text (JObject m) (pre ++ o :: body ++ c :: post)
with items : list Value -> list byte -> Prop :=
  | items_nil bs : Forall neutral bs -> items [] bs
  | items_cons v l b1 b2 : text v b1 -> items l b2 -> items (v :: l) (b1 ++ b2)
with members : list (string * Value) -> list byte -> Prop :=
  | members_nil bs : Forall neutral bs -> members [] bs
  | members_cons k v m b0 b1 b2 :
      text (JString k) b0 -> text v b1 -> members m b2 ->
      members ((k, v) :: m) (b0 ++ b1 ++ b2).

Scheme text_mut := Minimality for text Sort Prop
  with items_mut := Minimality for items Sort Prop
  with members_mut := Minimality for members Sort Prop.
Combined Scheme text_items_members_ind from text_mut, items_mut, members_mut.

(** The number of arrays and objects open around the innermost value. *)
Fixpoint nesting (v : Value) : Z :=
  match v with
  | JArray l => 1 + foldr (fun v d => Z.max (nesting v) d) 0 l
  | JObject m => 1 + foldr (fun kv d => Z.max (nesting (snd kv)) d) 0 m
  | _ => 0
  end%Z.

Lemma nesting_nonneg v : (0 <= nesting v)%Z.
Proof.
  induction v as [| | | |l Hl|m Hm] using Value_rec'; cbn; try lia.
  - induction Hl; cbn; lia.
  - induction Hm; cbn; lia.
Qed.

Lemma scan_bytes_app m s b1 b2 :
  scan_bytes m s (b1 ++ b2) =
  match scan_bytes m s b1 with Some s' => scan_bytes m s' b2 | None => None end.
Proof.
  revert s. induction b1 as [|b b1 IH]; intros s; cbn; [done|].
  by destruct (scan_byte m s b).
Qed.

Section scan.
Context (m : Z).
Definition at_depth (d : Z) : scan := {| depth := d; in_string := false; escaped := false |}.
Definition inside (d : Z) : scan := {| depth := d; in_string := true; escaped := false |}.

Lemma scan_neutral d bs : Forall neutral bs -> scan_bytes m (at_depth d) bs = Some (at_depth d).
Proof.
  induction 1 as [|b bs (Hq & Ho & Hc) _ IH]; [done|].
  cbn. unfold scan_byte. cbn. by rewrite Hq, Ho, Hc.
Qed.

Lemma scan_body d body : str_body body ->
  scan_bytes m (inside d) (body ++ [Byte.x22]) = Some (at_depth d).
Proof.
  induction 1 as [|b bs Hq Hb _ IH|b bs _ IH]; [done| |].
  - cbn. unfold scan_byte. cbn. by rewrite Hb, Hq.
  - exact IH.
Qed.

Lemma scan_string d s bs : text (JString s) bs ->
  scan_bytes m (at_depth d) bs = Some (at_depth d).
Proof.
  inversion 1 as [? ? Hs|s' pre body post Hpre Hbody Hpost| |]; subst; [done|].
  rewrite scan_bytes_app, scan_neutral by done. cbn.
  change (body ++ Byte.x22 :: post)%list with (body ++ ([Byte.x22] ++ post))%list.
  rewrite app_assoc, scan_bytes_app. unfold scan_byte. cbn.
  change {| depth := d; in_string := true; escaped := false |} with (inside d).
  rewrite scan_body by done. by apply scan_neutral.
Qed.

(** What the scan of a text does from depth [d]. *)
Definition outcome (d n : Z) : option scan :=
  if (m <? d + n)%Z then None else Some (at_depth d).

Lemma outcome_0 d : (d <= m)%Z -> Some (at_depth d) = outcome d 0.
Proof. intros. unfold outcome. destruct (Z.ltb_spec m (d + 0)); [lia|done]. Qed.

Lemma scan_container d n pre o body c post :
  (0 <= d <= m)%Z -> (0 <= n)%Z -> Forall neutral pre -> is_open o = true ->
  is_close c = true -> Forall neutral post ->
  (forall d', (0 <= d' <= m)%Z -> scan_bytes m (at_depth d') body = outcome d' n) ->
  scan_bytes m (at_depth d) (pre ++ o :: body ++ c :: post) = outcome d (1 + n).
Proof.
  intros Hd Hn Hpre Ho Hc Hpost Hbody.
  rewrite scan_bytes_app, scan_neutral by done. cbn.
  assert (is_quote o = false /\ is_quote c = false /\ is_open c = false) as (Hqo & Hqc & Hoc)
    by (split; [by destruct o|split; by destruct c]).
  unfold scan_byte. cbn. rewrite Hqo, Ho. unfold outcome.
  destruct (Z.ltb_spec m (d + 1)).
  - destruct (Z.ltb_spec m (d + (1 + n))); [done|lia].
  - rewrite scan_bytes_app. fold (at_depth (d + 1)). rewrite Hbody by lia. unfold outcome.
    destruct (Z.ltb_spec m (d + 1 + n)), (Z.ltb_spec m (d + (1 + n))); try lia; [done|].
    unfold scan_byte. cbn. rewrite Hqc, Hoc, Hc. unfold saturating_sub.
    replace (Z.max 0 (d + 1 - 1)) with d by lia. by apply scan_neutral.
Qed.

Lemma scan_seq d n1 n2 b1 b2 :
  (0 <= n1)%Z -> (0 <= n2)%Z ->
  scan_bytes m (at_depth d) b1 = outcome d n1 -> scan_bytes m (at_depth d) b2 = outcome d n2 ->
  scan_bytes m (at_depth d) (b1 ++ b2) = outcome d (Z.max n1 n2).
Proof.
  intros H1 H2 Hb1 Hb2. rewrite scan_bytes_app, Hb1. unfold outcome in *.
  destruct (Z.ltb_spec m (d + n1)), (Z.ltb_spec m (d + Z.max n1 n2)); try lia; try done;
    rewrite Hb2; destruct (Z.ltb_spec m (d + n2)); lia || done.
Qed.

Lemma scan_texts :
  (forall v bs, text v bs -> forall d, (0 <= d <= m)%Z ->
     scan_bytes m (at_depth d) bs = outcome d (nesting v))
  /\ (forall l bs, items l bs -> forall d, (0 <= d <= m)%Z ->
     scan_bytes m (at_depth d) bs
     = outcome d (foldr (fun v d => Z.max (nesting v) d) 0 l)%Z)
  /\ (forall f bs, members f bs -> forall d, (0 <= d <= m)%Z ->
     scan_bytes m (at_depth d) bs
     = outcome d (foldr (fun kv d => Z.max (nesting (snd kv)) d) 0 f)%Z).
Proof.
  assert (Hl : forall l : list Value, (0 <= foldr (fun v d => Z.max (nesting v) d) 0 l)%Z)
    by (induction l; cbn; lia).
  assert (Hm : forall l : list (string * Value),
    (0 <= foldr (fun kv d => Z.max (nesting (snd kv)) d) 0 l)%Z) by (induction l; cbn; lia).
  apply text_items_members_ind.
  - intros v bs Hv Hbs d Hd. rewrite scan_neutral by done.
    destruct v; try discriminate Hv; apply outcome_0; lia.
  - intros s pre body post Hpre Hbody Hpost d Hd.
    rewrite (scan_string d s) by by constructor. apply outcome_0; lia.
  - intros l pre o body c post ? ? _ IH ? ? d Hd. by apply scan_container.
  - intros f pre o body c post ? ? _ IH ? ? d Hd. by apply scan_container.
  - intros bs Hbs d Hd. rewrite scan_neutral by done. apply outcome_0; lia.
  - intros v l b1 b2 _ IH1 _ IH2 d Hd. apply scan_seq; auto using nesting_nonneg.
  - intros bs Hbs d Hd. rewrite scan_neutral by done. apply outcome_0; lia.
  - intros k v f b0 b1 b2 Hk _ _ IH1 _ IH2 d Hd.
    rewrite scan_bytes_app, (scan_string d k) by done. cbn.
    apply scan_seq; auto using nesting_nonneg.
Qed.
End scan.

(** C18: on a JSON text of a value, whatever its layout and string contents
    (brackets and escaped quotes inside strings included), the byte scan
    answers "too deep" exactly when the value nests deeper than the limit. *)
Theorem nesting_scan_exact (v : Value) (bs : list byte) (max_depth : Z) :
  text v bs -> (0 <= max_depth)%Z ->
  exceeds_max_nesting bs max_depth = (max_depth <? nesting v)%Z.
Proof.
  intros Hv Hm. unfold exceeds_max_nesting.
  change scan_init with (at_depth 0).
  rewrite (proj1 (scan_texts max_depth) v bs Hv 0%Z) by lia.
  unfold outcome. rewrite Z.add_0_l. by destruct (max_depth <? nesting v)%Z.
Qed.

Lemma nesting_scan_exact_witness :
  exceeds_max_nesting [Byte.x5b; Byte.x22; Byte.x5c; Byte.x22; Byte.x5b; Byte.x22; Byte.x5d] 1
  = (1 <? nesting (JArray [JString (dquote +:+ "[")]))%Z.
Proof.
  apply (nesting_scan_exact (JArray [JString (dquote +:+ "[")])); [|lia].
  apply (text_array [_] [] Byte.x5b [Byte.x22; Byte.x5c; Byte.x22; Byte.x5b; Byte.x22]
           Byte.x5d []); [constructor|reflexivity| |reflexivity|constructor].
  apply (items_cons _ [] [Byte.x22; Byte.x5c; Byte.x22; Byte.x5b; Byte.x22] []);
    [|constructor; constructor].
  apply (text_string _ [] [Byte.x5c; Byte.x22; Byte.x5b] []); [constructor| |constructor].
  apply sb_escape, sb_plain; [reflexivity|reflexivity|constructor].
Defined.

(** ** The decoder against the encoder *)

Section roundtrip.
Context (from_slice : list byte -> result string Value).
Context (error_from_value : Value -> result string JsonRpcError).

(** What the decoder relies on: [from_value::<JsonRpcError>] inverts the
    error's own serde form, an explicit [null] for [data] aside, which
    reads back as an absent field. *)
Definition error_reads_back : Prop :=
  forall e, (i64_min <= err_code e <= i64_max)%Z -> err_data e <> Some JNull ->
    error_from_value (error_to_value e) = Ok e.

Definition id_wf (id : JsonRpcId) : Prop :=
  match id with IdNumber n => (i64_min <= n <= i64_max)%Z | IdString _ => True end.

(** The messages the constructors build. *)
Definition message_wf (m : JsonRpcMessage) : Prop :=
  match m with
  | Request r => req_jsonrpc r = JSONRPC_VERSION /\ id_wf (req_id r)
  | Notification n => not_jsonrpc n = JSONRPC_VERSION
  | SuccessResponse r => ok_jsonrpc r = JSONRPC_VERSION /\ id_wf (ok_id r)
  | ErrorResponse r => er_jsonrpc r = JSONRPC_VERSION
      /\ match er_id r with Some id => id_wf id | None => True end
      /\ (i64_min <= err_code (er_error r) <= i64_max)%Z
      /\ err_data (er_error r) <> Some JNull
  end.

Lemma parse_id_to_value id : id_wf id -> parse_id (id_to_value id) = Some id.
Proof.
  destruct id as [n|s]; [|done]. cbn. intros Hn.
  pose proof (as_i64_int_value n Hn) as H. unfold int_value in *. cbn. by rewrite H.
Qed.

#[local] Arguments parse_id : simpl never.
#[local] Arguments id_to_value : simpl never.
#[local] Arguments error_to_value : simpl never.

Lemma id_to_value_not_null id : id_to_value id <> JNull.
Proof. by destruct id. Qed.

(** C40: decoding what a message serializes to gives the message back, for
    all four shapes: requests keep their id, method and params (absent and
    null params stay distinct), notifications stay without an id, and an
    error response keeps a null id. *)
Theorem decode_encode (m : JsonRpcMessage) :
  error_reads_back -> message_wf m -> decode_value error_from_value (to_value m) = Ok m.
Proof.
  intros Herr Hm.
  unfold decode_value, decode_request_or_notification, decode_response, to_value, opt_field.
  destruct m as [r|n|r|r]; cbn in Hm.
  - destruct r as [v id me pa]; cbn in *. destruct Hm as [-> Hid].
    destruct pa; obj_simpl; by rewrite parse_id_to_value.
  - destruct n as [v me pa]; cbn in *. subst v. destruct pa; by obj_simpl.
  - destruct r as [v id re]; cbn in *. destruct Hm as [-> Hid]. obj_simpl.
    cbn. by rewrite parse_id_to_value.
  - destruct r as [v id e]; cbn in *. destruct Hm as (-> & Hid & Hc & Hd). obj_simpl. cbn.
    rewrite Herr by done. destruct id as [id|]; cbn; [|done].
    destruct (id_to_value id) eqn:Hv; try (by destruct (id_to_value_not_null id));
      by rewrite <-Hv, parse_id_to_value.
Qed.

(** The only error codes the decoder produces are PARSE_ERROR, exactly
    when the text passes the nesting limit but is not JSON, and
    INVALID_REQUEST, in every other failure. *)
Theorem decode_message_error_code (bytes : list byte) (e : JsonRpcError) :
  decode_message from_slice error_from_value bytes = Err e ->
  err_code e =
    if negb (exceeds_max_nesting bytes MAX_JSON_NESTING_DEPTH)
       && negb (is_ok (from_slice bytes))
    then PARSE_ERROR else INVALID_REQUEST.
Proof.
  unfold decode_message. destruct (exceeds_max_nesting _ _); cbn; [by intros [= <-]|].
  destruct (from_slice bytes) as [v|err]; cbn; [|by intros [= <-]].
  unfold decode_value, decode_request_or_notification, decode_response. intros H. result_cases.
Qed.

(** A message is taken for a notification, and so never answered,
    exactly when it is an object with the right version, a string method
    and no id member at all; an explicit null id is refused instead. *)
Theorem decode_notification_iff (v : Value) (n : JsonRpcNotification) :
  decode_value error_from_value v = Ok (Notification n) <->
  exists o, v = JObject o /\ obj_get "jsonrpc" o = Some (JString JSONRPC_VERSION)
    /\ obj_get "method" o = Some (JString (not_method n)) /\ obj_get "id" o = None
    /\ not_jsonrpc n = JSONRPC_VERSION /\ not_params n = obj_get "params" o.
Proof.
  unfold decode_value, decode_request_or_notification, decode_response. split.
  - intros H. destruct v; try discriminate H. cbn in H. result_cases. eauto 10.
  - intros (o & -> & Hj & Hm & Hi & Hv & Hp). cbn. rewrite Hj, Hm, Hi. cbn.
    rewrite decide_True by done. destruct n; cbn in *; by subst.
Qed.
End roundtrip.

(** A reader of error objects that satisfies [error_reads_back]. *)
Definition read_error (v : Value) : result string JsonRpcError :=
  match value_get "code" v, value_get "message" v with
  | Some (JNumber n), Some (JString m) =>
      c ← ok_or "not an i64" (as_i64 n);
      Ok {| err_code := c; err_message := m;
            err_data := match value_get "data" v with Some JNull => None | o => o end |}
  | _, _ => Err "missing field"
  end.

Lemma read_error_reads_back : error_reads_back read_error.
Proof.
  intros [c m d] Hc Hd. cbn in *. unfold read_error, error_to_value, opt_field. cbn [err_code].
  pose proof (as_i64_int_value c Hc) as Hi. unfold int_value in *. cbn [err_data err_message].
  destruct d as [d|]; cbn [app]; obj_simpl; rewrite Hi; cbn; [|done].
  destruct d; done || (exfalso; by apply Hd).
Qed.

Lemma decode_encode_witness :
  let m := ErrorResponse (JsonRpcErrorResponse_new None (parse_error "bad")) in
  message_wf m /\ decode_value read_error (to_value m) = Ok m.
Proof.
  cbv zeta.
  assert (message_wf (ErrorResponse (JsonRpcErrorResponse_new None (parse_error "bad")))) as Hm
    by (cbn; unfold PARSE_ERROR, i64_min, i64_max; repeat split; [lia|lia|discriminate]).
  split; [exact Hm|].
  exact (decode_encode read_error _ read_error_reads_back Hm).
Defined.

Lemma decode_message_error_code_witness :
  err_code (parse_error "eof") =
  if negb (exceeds_max_nesting [Byte.x7b] MAX_JSON_NESTING_DEPTH)
     && negb (is_ok (E := string) (A := Value) (Err "eof")) then PARSE_ERROR else INVALID_REQUEST.
Proof.
  exact (decode_message_error_code (fun _ => Err "eof") read_error [Byte.x7b] (parse_error "eof")
           eq_refl).
Defined.
