(* ===== verification/Sse.v ===== *)
(** * Server-Sent Events framing (crates/mcp-wire/src/sse.rs,
      crates/transport-http/src/sse_demo.rs)

    The encoder, the incremental decoder with its buffer and pending event,
    and the demo stream that frames its events with the encoder. *)
From S2P Require Import Prelude RustStr.

Record SseEvent := { ev_event : option string; ev_data : string; ev_id : option string }.

Definition NL : ascii := "010".
Definition CR : ascii := "013".

(** The text before the first line break. *)
Fixpoint first_line (s : string) : string :=
  match s with
  | EmptyString => EmptyString
  | String a s' => if decide (a = NL \/ a = CR) then EmptyString else String a (first_line s')
  end.

Definition encode_sse_event (event : SseEvent) : string :=
  let out := EmptyString in
  let out := match ev_event event with
             | Some name => out +:+ "event: " +:+ first_line name +:+ newline
             | None => out
             end in
  let out := match ev_id event with
             | Some id => out +:+ "id: " +:+ first_line id +:+ newline
             | None => out
             end in
  let out := out +:+ str_concat ((fun line => "data: " +:+ line +:+ newline)
                                  <$> split_on NL (ev_data event)) in
  out +:+ newline.

Record PendingEvent := {
  p_event : option string; p_id : option string; p_data_lines : list string }.
Definition PendingEvent_default : PendingEvent :=
  {| p_event := None; p_id := None; p_data_lines := [] |}.

Definition apply_line (line : string) (p : PendingEvent) : PendingEvent :=
  if starts_with ":" line then p
  else
    let '(field, raw_value) := match split_once ":" line with
                               | Some (field, value) => (field, value)
                               | None => (line, EmptyString)
                               end in
    let value := default raw_value (strip_prefix " " raw_value) in
    if decide (field = "data") then
      {| p_event := p_event p; p_id := p_id p; p_data_lines := p_data_lines p ++ [value] |}
    else if decide (field = "event") then
      {| p_event := Some value; p_id := p_id p; p_data_lines := p_data_lines p |}
    else if decide (field = "id") then
      {| p_event := p_event p; p_id := Some value; p_data_lines := p_data_lines p |}
    else p.

Definition reset (p : PendingEvent) : PendingEvent := PendingEvent_default.

Definition dispatch (p : PendingEvent) : option SseEvent * PendingEvent :=
  match p_data_lines p with
  | [] => (None, reset p)
  | _ :: _ =>
      let event := {| ev_event := p_event p; ev_data := join newline (p_data_lines p);
                      ev_id := p_id p |} in
      (Some event, reset p)
  end.

Record SseDecoder := { buffer : string; pending : PendingEvent }.
Definition SseDecoder_new : SseDecoder :=
  {| buffer := EmptyString; pending := PendingEvent_default |}.

(** The body of the loop of [feed] on one complete line. *)
Definition feed_line (line : string) (p : PendingEvent) : list SseEvent * PendingEvent :=
  let line := strip_last CR line in
  if is_empty line then
    let '(event, p') := dispatch p in (option_list event, p')
  else ([], apply_line line p).

(** The loop of [feed]; every turn removes a line, so the buffer's length
    bounds the number of turns. *)
Fixpoint feed_loop (fuel : nat) (d : SseDecoder) (events : list SseEvent)
  : list SseEvent * SseDecoder :=
  match fuel with
  | O => (events, d)
  | S fuel' =>
      match split_once NL (buffer d) with
      | Some (line, rest) =>
          let '(new, p') := feed_line line (pending d) in
          feed_loop fuel' {| buffer := rest; pending := p' |} (events ++ new)
      | None => (events, d)
      end
  end.

Definition feed (chunk : string) (d : SseDecoder) : list SseEvent * SseDecoder :=
  let d := {| buffer := buffer d +:+ chunk; pending := pending d |} in
  feed_loop (S (String.length (buffer d))) d [].

(** ** The decoder one byte at a time *)

Definition feed_byte (a : ascii) (ed : list SseEvent * SseDecoder) : list SseEvent * SseDecoder :=
  let '(events, d) := ed in
  if decide (a = NL) then
    let '(new, p') := feed_line (buffer d) (pending d) in
    (events ++ new, {| buffer := EmptyString; pending := p' |})
  else (events, {| buffer := buffer d +:+ String a EmptyString; pending := pending d |}).

Fixpoint feed_bytes (s : string) (ed : list SseEvent * SseDecoder) : list SseEvent * SseDecoder :=
  match s with EmptyString => ed | String a s' => feed_bytes s' (feed_byte a ed) end.

Lemma feed_bytes_app s1 s2 ed : feed_bytes (s1 +:+ s2) ed = feed_bytes s2 (feed_bytes s1 ed).
Proof. revert ed. induction s1 as [|a s1 IH]; intros ed; cbn; [done|apply IH]. Qed.

Lemma feed_loop_bytes s : forall b p fuel events,
  str_free NL b = true -> String.length s < fuel ->
  feed_loop fuel {| buffer := b +:+ s; pending := p |} events
  = feed_bytes s (events, {| buffer := b; pending := p |}).
Proof.
  induction s as [|a s IH]; intros b p fuel events Hb Hf; cbn in Hf;
    (destruct fuel as [|fuel]; [lia|]).
  - cbn. by rewrite str_app_nil_r, split_once_none.
  - cbn [feed_bytes]. unfold feed_byte. cbn [buffer pending]. case_decide as Ha.
    + subst a. cbn [feed_loop buffer pending]. rewrite split_once_free by done.
      destruct (feed_line b p) as [new p'] eqn:Hl. rewrite (IH EmptyString); [done|done|lia].
    + change (String a s) with (String a EmptyString +:+ s).
      rewrite str_app_assoc, (IH (b +:+ String a EmptyString) p (S fuel)); [done| |lia].
      rewrite str_free_app, Hb. cbn. by rewrite bool_decide_true.
Qed.


Lemma feed_feed_bytes chunk d : str_free NL (buffer d) = true -> feed chunk d = feed_bytes chunk ([], d).
Proof.
  intros Hd. unfold feed. cbn [buffer]. rewrite feed_loop_bytes; [by destruct d|done|].
  rewrite str_length_app. lia.
Qed.

Lemma feed_bytes_events s : forall events d,
  feed_bytes s (events, d)
  = (events ++ fst (feed_bytes s ([], d)), snd (feed_bytes s ([], d))).
Proof.
  induction s as [|a s IH]; intros events d; cbn [feed_bytes].
  { by rewrite app_nil_r. }
  unfold feed_byte. case_decide.
  - destruct (feed_line (buffer d) (pending d)) as [new p'].
    rewrite IH, (IH ([] ++ new)). cbn. by rewrite app_assoc.
  - apply IH.
Qed.

Lemma feed_bytes_no_nl s : forall ed,
  str_free NL (buffer (snd ed)) = true -> str_free NL (buffer (snd (feed_bytes s ed))) = true.
Proof.
  induction s as [|a s IH]; intros [events d] Hd; cbn [feed_bytes]; [done|].
  apply IH. unfold feed_byte. case_decide.
  - by destruct (feed_line _ _).
  - cbn in *. rewrite str_free_app, Hd. cbn. by rewrite bool_decide_true.
Qed.

(** A decoder reached by feeding chunks to a new one. *)
Inductive reachable : SseDecoder -> Prop :=
  | r_new : reachable SseDecoder_new
  | r_feed d chunk : reachable d -> reachable (snd (feed chunk d)).

Lemma reachable_no_nl d : reachable d -> str_free NL (buffer d) = true.
Proof.
  induction 1 as [|d chunk _ IH]; [done|].
  rewrite feed_feed_bytes by done. by apply feed_bytes_no_nl.
Qed.

(** C26: framing does not depend on how the transport cuts the stream:
    feeding two chunks one after the other yields the events of feeding
    their concatenation at once and leaves the same decoder, so an event, a
    line or a character may be split at any byte. *)
Theorem feed_chunking (d : SseDecoder) (c1 c2 : string) :
  reachable d ->
  feed (c1 +:+ c2) d =
    let '(e1, d1) := feed c1 d in
    let '(e2, d2) := feed c2 d1 in (e1 ++ e2, d2).
Proof.
  intros Hd%reachable_no_nl. rewrite !feed_feed_bytes by done.
  rewrite feed_bytes_app. destruct (feed_bytes c1 ([], d)) as [e1 d1] eqn:H1.
  rewrite feed_feed_bytes.
  - rewrite feed_bytes_events. by destruct (feed_bytes c2 ([], d1)).
  - pose proof (feed_bytes_no_nl c1 ([], d) Hd) as Hn. by rewrite H1 in Hn.
Qed.

Lemma feed_chunking_witness :
  feed ("data: a" +:+ (newline +:+ newline)) SseDecoder_new =
    let '(e1, d1) := feed "data: a" SseDecoder_new in
    let '(e2, d2) := feed (newline +:+ newline) d1 in (e1 ++ e2, d2).
Proof. apply (feed_chunking SseDecoder_new "data: a" (newline +:+ newline)). apply r_new. Defined.

(** ** The decoder on encoded events *)

Lemma feed_bytes_line l p events :
  str_free NL l = true ->
  feed_bytes (l +:+ newline) (events, {| buffer := EmptyString; pending := p |})
  = (events ++ fst (feed_line l p), {| buffer := EmptyString; pending := snd (feed_line l p) |}).
Proof.
  intros Hl.
  assert (forall b, feed_bytes l (events, {| buffer := b; pending := p |})
                    = (events, {| buffer := b +:+ l; pending := p |})) as H.
  { revert Hl. induction l as [|a l IH]; cbn; intros Hl b; [by rewrite str_app_nil_r|].
    apply andb_prop in Hl as [Ha%bool_decide_eq_true Hl]. rewrite decide_False by done. cbn.
    by rewrite IH, <-str_app_assoc. }
  rewrite feed_bytes_app, H. cbn. by destruct (feed_line l p).
Qed.

Lemma str_free_first_line s : str_free NL (first_line s) = true.
Proof.
  induction s as [|a s IH]; cbn; [done|]. case_decide as Ha; [done|]. cbn.
  rewrite bool_decide_true, IH; [done|tauto].
Qed.

Lemma strip_last_first_line s : strip_last CR (first_line s) = first_line s.
Proof.
  unfold strip_last. destruct (strip_suffix _ _) as [t|] eqn:Ht; [|done].
  apply strip_suffix_Some in Ht. exfalso. revert t Ht.
  induction s as [|a s IH]; cbn; intros t Ht; [by destruct t|].
  case_decide as Ha; [by destruct t|].
  destruct t as [|b t]; cbn in Ht; injection Ht as -> Ht; [tauto|by eapply IH].
Qed.

(** What the decoder makes of the text after a field name, once the single
    space the encoder writes is stripped. *)
Lemma feed_line_field name v p :
  name = "data" \/ name = "event" \/ name = "id" ->
  feed_line (name +:+ ": " +:+ v) p =
    ([], let value := strip_last CR v in
         if decide (name = "data") then
           {| p_event := p_event p; p_id := p_id p; p_data_lines := p_data_lines p ++ [value] |}
         else if decide (name = "event") then
           {| p_event := Some value; p_id := p_id p; p_data_lines := p_data_lines p |}
         else
           {| p_event := p_event p; p_id := Some value; p_data_lines := p_data_lines p |}).
Proof.
  intros Hname. unfold feed_line.
  assert (strip_last CR (name +:+ ": " +:+ v) = name +:+ ": " +:+ strip_last CR v) as ->.
  { change (": " +:+ v) with (":" +:+ (" " +:+ v)).
    change (": " +:+ strip_last CR v) with (":" +:+ (" " +:+ strip_last CR v)).
    rewrite !str_app_assoc. by rewrite strip_last_app. }
  destruct Hname as [->|[->| ->]]; reflexivity.
Qed.

(** The event a client reads: the single-line fields cut at their first line
    break, and each data line without a trailing carriage return. *)
Definition received (e : SseEvent) : SseEvent :=
  {| ev_event := first_line <$> ev_event e;
     ev_data := join newline (strip_last CR <$> split_on NL (ev_data e));
     ev_id := first_line <$> ev_id e |}.

Lemma feed_data_lines ls : forall p events,
  Forall (fun l => str_free NL l = true) ls ->
  feed_bytes (str_concat ((fun line => "data: " +:+ line +:+ newline) <$> ls))
    (events, {| buffer := EmptyString; pending := p |})
  = (events, {| buffer := EmptyString;
                pending := {| p_event := p_event p; p_id := p_id p;
                              p_data_lines := p_data_lines p ++ (strip_last CR <$> ls) |} |}).
Proof.
  induction ls as [|l ls IH]; intros p events Hls.
  - cbn. rewrite app_nil_r. by destruct p.
  - apply Forall_cons in Hls as [Hl Hls]. cbn [fmap list_fmap str_concat].
    change ("data: " +:+ l +:+ newline) with (("data" +:+ ": " +:+ l) +:+ newline).
    rewrite feed_bytes_app, feed_bytes_line by done.
    rewrite feed_line_field by auto. cbn [fst snd]. rewrite app_nil_r, IH by done.
    rewrite decide_True by done. cbn. by rewrite <-app_assoc.
Qed.

Lemma feed_opt_field name o p events :
  name = "event" \/ name = "id" ->
  feed_bytes (match o with Some v => name +:+ ": " +:+ first_line v +:+ newline
                         | None => EmptyString end)
    (events, {| buffer := EmptyString; pending := p |})
  = (events, {| buffer := EmptyString; pending :=
      match o with
      | None => p
      | Some v => if decide (name = "event") then
          {| p_event := Some (first_line v); p_id := p_id p; p_data_lines := p_data_lines p |}
        else {| p_event := p_event p; p_id := Some (first_line v);
                p_data_lines := p_data_lines p |}
      end |}).
Proof.
  intros Hname. destruct o as [v|]; [|done].
  rewrite !str_app_assoc, <-(str_app_assoc name ": "), feed_bytes_line.
  - rewrite feed_line_field by tauto. rewrite strip_last_first_line. cbn [fst snd].
    rewrite app_nil_r. by destruct Hname as [->| ->].
  - rewrite !str_free_app, str_free_first_line. by destruct Hname as [->| ->].
Qed.

Lemma feed_encoded e events :
  feed_bytes (encode_sse_event e) (events, SseDecoder_new) = (events ++ [received e], SseDecoder_new).
Proof.
  unfold encode_sse_event.
  assert (forall o name, (match o with Some v => EmptyString +:+ name +:+ first_line v +:+ newline
      | None => EmptyString end) = match o with Some v => name +:+ first_line v +:+ newline
      | None => EmptyString end) as Hs by (by intros [v|]).
  set (E := match ev_event e with Some name => _ | None => _ end).
  set (I := match ev_id e with Some id => _ | None => _ end).
  assert (I = E +:+ match ev_id e with Some v => "id" +:+ ": " +:+ first_line v +:+ newline
                                 | None => EmptyString end) as ->.
  { subst I. destruct (ev_id e); [done|by rewrite str_app_nil_r]. }
  rewrite !feed_bytes_app. subst E.
  change (match ev_event e with Some name => EmptyString +:+ "event: " +:+ first_line name +:+ newline
      | None => EmptyString end)
    with (match ev_event e with Some v => "event" +:+ ": " +:+ first_line v +:+ newline
      | None => EmptyString end).
  unfold SseDecoder_new. rewrite feed_opt_field by auto. rewrite feed_opt_field by auto.
  rewrite feed_data_lines by apply split_on_free.
  lazymatch goal with |- feed_bytes _ ?ed = _ =>
    change (feed_bytes newline ed) with (feed_bytes (EmptyString +:+ newline) ed) end.
  rewrite feed_bytes_line by done.
  destruct (split_on_cons NL (ev_data e)) as (l & ls & Hl).
  unfold feed_line, received, dispatch. cbn. rewrite Hl. cbn.
  by destruct (ev_event e), (ev_id e).
Qed.

(** A client that reads a stream of encoded events gets exactly those
    events, in order and nothing else, each with its single-line fields cut
    at their first line break and a carriage return at the end of a data
    line dropped, and its decoder is back in the initial state. *)
Theorem decode_encoded_stream (es : list SseEvent) :
  feed (str_concat (encode_sse_event <$> es)) SseDecoder_new = (received <$> es, SseDecoder_new).
Proof.
  rewrite feed_feed_bytes by done.
  assert (forall events, feed_bytes (str_concat (encode_sse_event <$> es)) (events, SseDecoder_new)
                         = (events ++ (received <$> es), SseDecoder_new)) as H.
  { induction es as [|e es IH]; intros events; cbn [fmap list_fmap str_concat].
    - cbn. by rewrite app_nil_r.
    - rewrite feed_bytes_app, feed_encoded, IH. cbn. by rewrite <-app_assoc. }
  apply H.
Qed.

(** An event whose single-line fields hold no line break and whose data
    lines do not end in a carriage return survives encoding and decoding
    unchanged: multi-line and empty data included. *)
Theorem sse_roundtrip (e : SseEvent) :
  (first_line <$> ev_event e) = ev_event e -> (first_line <$> ev_id e) = ev_id e ->
  Forall (fun l => strip_last CR l = l) (split_on NL (ev_data e)) ->
  feed (encode_sse_event e) SseDecoder_new = ([e], SseDecoder_new).
Proof.
  intros He Hi Hd. rewrite feed_feed_bytes by done. rewrite feed_encoded. cbn. f_equal. f_equal.
  unfold received. rewrite He, Hi.
  replace (strip_last CR <$> split_on NL (ev_data e)) with (split_on NL (ev_data e)).
  - unfold newline. change (ascii_char 10) with (String NL EmptyString).
    rewrite join_split_on. by destruct e.
  - induction Hd as [|l ls Hl _ IH]; cbn; [done|]. by rewrite Hl, <-IH.
Qed.

Lemma sse_roundtrip_witness :
  let e := {| ev_event := Some "ping"; ev_data := "a" +:+ newline +:+ newline +:+ "b";
              ev_id := Some "7" |} in
  feed (encode_sse_event e) SseDecoder_new = ([e], SseDecoder_new).
Proof. cbv zeta. apply sse_roundtrip; [reflexivity|reflexivity|]. repeat constructor. Defined.

(** ** The demo stream *)

Definition DEMO_EVENT_COUNT : Z := 5.
(** Milliseconds. *)
Definition DEMO_EVENT_PERIOD : Z := 2000.

Record DemoPingStream := { remaining : Z; sequence : Z }.
Definition DemoPingStream_new (count : Z) : DemoPingStream :=
  {| remaining := count; sequence := 0 |}.

Inductive Poll := Pending | ReadyNone | ReadySome (bytes : string).

(** [poll_next]; [ticked] is whether the interval's tick is ready. *)
Definition poll_next (ticked : bool) (this : DemoPingStream) : Poll * DemoPingStream :=
  if (remaining this =? 0)%Z then (ReadyNone, this)
  else if negb ticked then (Pending, this)
  else
    let this := {| remaining := remaining this - 1; sequence := sequence this + 1 |} in
    let event := {| ev_event := Some "ping";
                    ev_data := "{" +:+ dquote +:+ "seq" +:+ dquote +:+ ":"
                               +:+ pretty (sequence this) +:+ "}";
                    ev_id := Some (pretty (sequence this)) |} in
    (ReadySome (encode_sse_event event), this).

(** The bytes of the body for a schedule of polls. *)
Fixpoint run_polls (ticks : list bool) (this : DemoPingStream) : string * DemoPingStream :=
  match ticks with
  | [] => (EmptyString, this)
  | t :: ticks' =>
      let '(p, this') := poll_next t this in
      let '(out, this'') := run_polls ticks' this' in
      (match p with ReadySome b => b +:+ out | _ => out end, this'')
  end.

Definition demo_event (n : Z) : SseEvent :=
  {| ev_event := Some "ping";
     ev_data := "{" +:+ dquote +:+ "seq" +:+ dquote +:+ ":" +:+ pretty n +:+ "}";
     ev_id := Some (pretty n) |}.

Lemma run_polls_spec ticks : forall this, (0 <= remaining this)%Z ->
  let k := Z.min (remaining this) (Z.of_nat (length (filter (fun t => t = true) ticks))) in
  fst (run_polls ticks this)
  = str_concat ((fun i => encode_sse_event (demo_event (sequence this + i))) <$> seqZ 1 k).
Proof.
  induction ticks as [|t ticks IH]; intros [r q] Hr; cbn in Hr.
  { cbn. by rewrite Z.min_r. }
  cbn [run_polls]. unfold poll_next. cbn [remaining sequence].
  destruct (Z.eqb_spec r 0) as [->|Hne].
  - specialize (IH {| remaining := 0; sequence := q |} ltac:(done)). cbn in IH |- *.
    destruct (run_polls _ _) as [out s]. cbn in *. rewrite IH. by rewrite !Z.min_l by lia.
  - destruct t; cbn [negb].
    + specialize (IH {| remaining := r - 1; sequence := q + 1 |} ltac:(cbn; lia)).
      cbn [remaining sequence] in IH. destruct (run_polls _ _) as [out s]. cbn [fst] in *.
      rewrite IH. rewrite filter_cons, decide_True by done. cbn [length].
      set (n := length _). cbv zeta.
      replace (Z.min r (Z.of_nat (S n))) with (Z.succ (Z.min (r - 1) (Z.of_nat n))) by lia.
      rewrite (seqZ_cons 1 (Z.succ _)) by lia. cbn [fmap list_fmap str_concat].
      f_equal. rewrite Z.pred_succ. rewrite <-(fmap_add_seqZ 1 1), <-list_fmap_compose.
      f_equal. apply list_fmap_ext. intros i x _. cbn. by rewrite Z.add_assoc.
    + specialize (IH {| remaining := r; sequence := q |} ltac:(cbn; lia)).
      cbn [remaining sequence] in IH. destruct (run_polls _ _) as [out s]. cbn [fst] in *.
      rewrite IH. by rewrite filter_cons, decide_False.
Qed.

(** However the interval's ticks arrive, the demo body is a valid SSE
    stream of ping events numbered from 1 without gaps: one per ready tick
    until the configured count, nothing after it. *)
Theorem demo_stream_decodes (ticks : list bool) :
  let k := Z.min DEMO_EVENT_COUNT (Z.of_nat (length (filter (fun t => t = true) ticks))) in
  feed (fst (run_polls ticks (DemoPingStream_new DEMO_EVENT_COUNT))) SseDecoder_new
  = (received <$> (demo_event <$> seqZ 1 k), SseDecoder_new).
Proof.
  cbv zeta. rewrite run_polls_spec by (cbn; unfold DEMO_EVENT_COUNT; lia). cbn [sequence remaining DemoPingStream_new].
  rewrite <-decode_encoded_stream. do 2 f_equal. rewrite <-list_fmap_compose.
  apply list_fmap_ext. intros i x _. cbn. by rewrite Z.add_0_l.
Qed.
