(* ===== verification/McpServer.v ===== *)
(** * MCP session dispatch (crates/mcp-server)

    tool.rs, registry.rs, audit.rs, session.rs and the two smoke-test tools.
    A tool runs in a state [W] (whatever the tools of the process share); the
    session adds its [initialized] flag and the audit trail, the list of the
    events handed to the [AuditLogger] in order. *)
From S2P Require Import Prelude RustStr Json JsonRpc.

Definition PROTOCOL_VERSION : string := "2025-06-18".
(** [env!("CARGO_PKG_VERSION")], from the workspace's Cargo.toml. *)
Definition CARGO_PKG_VERSION : string := "0.1.3".

(** ** tool.rs *)

Inductive McpToolError := InvalidArguments (m : string) | ToolFailed (m : string).
Definition McpToolError_to_string (e : McpToolError) : string :=
  match e with
  | InvalidArguments m => "invalid arguments: " +:+ m
  | ToolFailed m => m
  end.

Record ContentBlock := { cb_kind : string; cb_text : string }.
Definition ContentBlock_text (text : string) : ContentBlock :=
  {| cb_kind := "text"; cb_text := text |}.
Definition ContentBlock_to_value (b : ContentBlock) : Value :=
  json_object [("type", JString (cb_kind b)); ("text", JString (cb_text b))].

Record CallToolResult := {
  content : list ContentBlock; is_error : bool; structured_content : option Value }.

Section call_tool_result.
(** [serde_json::to_string_pretty], which does not fail on a [Value]. *)
Context (to_string_pretty : Value -> string).
Definition CallToolResult_success (value : Value) : CallToolResult :=
  {| content := [ContentBlock_text (to_string_pretty value)]; is_error := false;
     structured_content := Some value |}.
End call_tool_result.

Definition CallToolResult_error (message : string) : CallToolResult :=
  {| content := [ContentBlock_text message]; is_error := true; structured_content := None |}.
Definition into_value (r : CallToolResult) : Value :=
  json_object ([("content", JArray (ContentBlock_to_value <$> content r));
                ("isError", JBool (is_error r))]
               ++ opt_field "structuredContent" (structured_content r)).

Record ToolDescriptor := { td_name : string; td_description : string; td_input_schema : Value }.
Definition ToolDescriptor_to_value (d : ToolDescriptor) : Value :=
  json_object [("name", JString (td_name d)); ("description", JString (td_description d));
               ("inputSchema", td_input_schema d)].

(** The trait, as the record of its methods. *)
Record McpTool (W : Type) := {
  tool_name : string;
  tool_description : string;
  tool_input_schema : Value;
  tool_call : option Value -> eff W McpToolError Value;
}.
Arguments tool_name {W} _. Arguments tool_description {W} _.
Arguments tool_input_schema {W} _. Arguments tool_call {W} _.

Definition descriptor {W} (t : McpTool W) : ToolDescriptor :=
  {| td_name := tool_name t; td_description := tool_description t;
     td_input_schema := tool_input_schema t |}.

(** ** tools/echo.rs, tools/ping.rs *)

Definition EchoTool {W} : McpTool W := {|
  tool_name := "echo";
  tool_description := "Echoes back the " +:+ quoted "message" +:+ " argument.";
  tool_input_schema := json_object [("type", JString "object");
    ("properties", json_object [("message", json_object [("type", JString "string")])]);
    ("required", json_strings ["message"]); ("additionalProperties", JBool false)];
  tool_call arguments :=
    args ← lift (ok_or (InvalidArguments "missing arguments") arguments);
    message ← lift (ok_or (InvalidArguments (quoted "message" +:+ " must be a string"))
                      (value_get "message" args ≫= as_str));
    mret (json_object [("message", JString message)])
|}.

Definition PingTool {W} : McpTool W := {|
  tool_name := "ping";
  tool_description := "Health check; returns " +:+ quoted "pong" +:+ " and the server version.";
  tool_input_schema := json_object [("type", JString "object"); ("properties", json_object []);
    ("additionalProperties", JBool false)];
  tool_call _ :=
    mret (json_object [("status", JString "pong"); ("version", JString CARGO_PKG_VERSION)])
|}.

(** ** audit.rs *)

Inductive AuditOutcome := AuditOk | AuditError (code : Z).
Definition from_result {A} (r : result JsonRpcError A) : AuditOutcome :=
  match r with Ok _ => AuditOk | Err err => AuditError (err_code err) end.
Record AuditEvent := {
  ev_method : string; ev_tool_name : option string; ev_outcome : AuditOutcome }.

(** ** registry.rs *)

Inductive ToolCallError := Unknown (name : string) | Failed (e : McpToolError).
Definition UnknownTool_to_string (name : string) : string := "no such tool: " +:+ name.

Definition name_le (a b : ToolDescriptor) : Prop := String.leb (td_name a) (td_name b) = true.
#[export] Instance name_le_dec : RelDecision name_le.
Proof. intros a b. unfold name_le. apply _. Defined.

Section registry.
Context {W : Type}.

(** [tools: HashMap<String, Arc<dyn McpTool>>] *)
Abbreviation McpToolRegistry := (gmap string (McpTool W)).

Definition McpToolRegistry_new : McpToolRegistry := ∅.
Definition register (t : McpTool W) (tools : McpToolRegistry) : McpToolRegistry :=
  <[tool_name t := t]> tools.
Definition register_all (ts : list (McpTool W)) (tools : McpToolRegistry) : McpToolRegistry :=
  foldl (fun m t => register t m) tools ts.

(** [descriptors] for an iteration order of the map's values. *)
Definition sorted_descriptors (iteration : list (McpTool W)) : list ToolDescriptor :=
  merge_sort name_le (descriptor <$> iteration).
Definition descriptors (tools : McpToolRegistry) : list ToolDescriptor :=
  sorted_descriptors (map_to_list tools).*2.

Definition registry_call (tools : McpToolRegistry) (name : string) (arguments : option Value)
  : eff W ToolCallError Value :=
  tool ← lift (ok_or (Unknown name) (tools !! name));
  eff_map_err Failed (tool_call tool arguments).
End registry.
Arguments McpToolRegistry_new : clear implicits.

(** ** session.rs *)

Record ToolCallParams := { tc_name : string; tc_arguments : option Value }.

Record McpSession (W : Type) := { initialized : bool; audit : list AuditEvent; world : W }.
Arguments initialized {W} _. Arguments audit {W} _. Arguments world {W} _.
Definition McpSession_new {W} (w : W) : McpSession W :=
  {| initialized := false; audit := []; world := w |}.

Section session.
Context {W : Type}.
(** serde: the pretty printer and the derived [Deserialize]. *)
Context (to_string_pretty : Value -> string).
Context (from_value : Value -> result string ToolCallParams).
Context (registry : gmap string (McpTool W)).

Definition require_initialized (s : McpSession W) : result JsonRpcError unit :=
  if initialized s then Ok tt
  else Err (invalid_request ("session is not initialized; call " +:+ quoted "initialize"
                             +:+ " first")).

Definition handle_initialize (s : McpSession W)
  : result JsonRpcError Value * McpSession W :=
  (Ok (json_object [
         ("protocolVersion", JString PROTOCOL_VERSION);
         ("serverInfo", json_object [("name", JString "db-headless-mcp");
                                     ("version", JString CARGO_PKG_VERSION)]);
         ("capabilities", json_object [("tools", json_object [])])]),
   {| initialized := true; audit := audit s; world := world s |}).

Definition handle_tools_list (s : McpSession W) : result JsonRpcError Value :=
  _ ← require_initialized s;
  Ok (json_object [("tools", JArray (ToolDescriptor_to_value <$> descriptors registry))]).

Definition set_world (w : W) (s : McpSession W) : McpSession W :=
  {| initialized := initialized s; audit := audit s; world := w |}.

Abbreviation dispatched := (result JsonRpcError Value * option string * AuditOutcome)%type.

(** What the reply and the audit outcome are for a finished call. *)
Definition map_call_result (result : result ToolCallError Value)
  : Prelude.result JsonRpcError Value * AuditOutcome :=
  match result with
  | Ok value => (Ok (into_value (CallToolResult_success to_string_pretty value)), AuditOk)
  | Err (Unknown unknown) =>
      let error := method_not_found (UnknownTool_to_string unknown) in
      (Err error, AuditError (err_code error))
  | Err (Failed err) =>
      let code := match err with
                  | InvalidArguments _ => INVALID_PARAMS
                  | ToolFailed _ => INTERNAL_ERROR
                  end in
      (Ok (into_value (CallToolResult_error (McpToolError_to_string err))), AuditError code)
  end.

Definition handle_tools_call (params : option Value) (s : McpSession W)
  : dispatched * McpSession W :=
  match require_initialized s with
  | Err err => ((Err err, None, AuditError (err_code err)), s)
  | Ok _ =>
      match from_value <$> params with
      | Some (Err err) =>
          let error := invalid_params ("invalid " +:+ quoted "tools/call" +:+ " params: "
                                       +:+ err) in
          ((Err error, None, AuditError (err_code error)), s)
      | None =>
          let error := invalid_params (quoted "tools/call" +:+ " requires params") in
          ((Err error, None, AuditError (err_code error)), s)
      | Some (Ok params) =>
          let '(result, w) := registry_call registry (tc_name params) (tc_arguments params)
                                (world s) in
          let '(mapped, outcome) := map_call_result result in
          ((mapped, Some (tc_name params), outcome), set_world w s)
      end
  end.

Definition dispatch_request (request : JsonRpcRequest) (s : McpSession W)
  : dispatched * McpSession W :=
  if decide (req_method request = "initialize") then
    let '(result, s) := handle_initialize s in ((result, None, from_result result), s)
  else if decide (req_method request = "tools/list") then
    let result := handle_tools_list s in ((result, None, from_result result), s)
  else if decide (req_method request = "tools/call") then
    handle_tools_call (req_params request) s
  else
    let result := Err (method_not_found ("unknown method: " +:+ req_method request)) in
    ((result, None, from_result result), s).

Definition record (ev : AuditEvent) (s : McpSession W) : McpSession W :=
  {| initialized := initialized s; audit := audit s ++ [ev]; world := world s |}.

Definition handle_request (request : JsonRpcRequest) (s : McpSession W)
  : JsonRpcMessage * McpSession W :=
  let '((result, tool_name, outcome), s) := dispatch_request request s in
  let s := record {| ev_method := req_method request; ev_tool_name := tool_name;
                     ev_outcome := outcome |} s in
  match result with
  | Ok value => (SuccessResponse (JsonRpcSuccessResponse_new (req_id request) value), s)
  | Err error => (ErrorResponse (JsonRpcErrorResponse_new (Some (req_id request)) error), s)
  end.

(** A debug line, another one when the notification is not
    [notifications/initialized]: no change of the session either way. *)
Definition handle_notification (notification : JsonRpcNotification) (s : McpSession W) : McpSession W := s.

Definition handle (message : JsonRpcMessage) (s : McpSession W)
  : option JsonRpcMessage * McpSession W :=
  match message with
  | Request request => let '(reply, s) := handle_request request s in (Some reply, s)
  | Notification notification => (None, handle_notification notification s)
  | SuccessResponse _ | ErrorResponse _ => (None, s)
  end.

(** A transport's sequence of messages. *)
Fixpoint handle_all (messages : list JsonRpcMessage) (s : McpSession W)
  : list (option JsonRpcMessage) * McpSession W :=
  match messages with
  | [] => ([], s)
  | m :: messages' =>
      let '(reply, s) := handle m s in
      let '(replies, s) := handle_all messages' s in
      (reply :: replies, s)
  end.
End session.

(** ** The descriptors do not depend on registration or iteration order *)

Lemma name_le_antisym a b : name_le a b -> name_le b a -> td_name a = td_name b.
Proof. intros H1 H2. by apply String.leb_antisym. Qed.

#[export] Instance name_le_total : Total name_le.
Proof. intros a b. unfold name_le. destruct (String.leb_total (td_name a) (td_name b)); auto. Qed.

Lemma string_leb_trans s1 s2 s3 :
  String.leb s1 s2 = true -> String.leb s2 s3 = true -> String.leb s1 s3 = true.
Proof.
  unfold String.leb. revert s2 s3.
  induction s1 as [|a s1 IH]; intros [|b s2] [|c s3]; cbn; try done.
  unfold Ascii.compare. specialize (IH s2 s3).
  destruct (N.compare_spec (N_of_ascii a) (N_of_ascii b)),
    (N.compare_spec (N_of_ascii b) (N_of_ascii c)),
    (N.compare_spec (N_of_ascii a) (N_of_ascii c)); try done; try lia; auto.
Qed.

#[export] Instance name_le_trans : Transitive name_le.
Proof. intros a b c. apply string_leb_trans. Qed.

Section descriptors.
Context {W : Type}.

(** Every tool is stored under its own name. *)
Definition registry_wf (tools : gmap string (McpTool W)) : Prop :=
  map_Forall (fun k t => tool_name t = k) tools.

Lemma register_all_wf ts m : registry_wf m -> registry_wf (register_all ts m).
Proof.
  revert m. induction ts as [|t ts IH]; intros m Hm; [done|]. apply IH.
  unfold register. by apply map_Forall_insert_2.
Qed.

Lemma register_all_lookup (ts : list (McpTool W)) m k :
  register_all ts m !! k
  = match list_find (fun t : McpTool W => tool_name t = k) (rev ts) with
    | Some (_, t) => Some t | None => m !! k end.
Proof.
  revert m. induction ts as [|t ts IH] using rev_ind; intros m; [done|].
  unfold register_all in *. rewrite foldl_app. cbn [foldl]. rewrite rev_unit.
  unfold register at 1. cbn [list_find]. case_decide as Hk.
  - subst k. by rewrite lookup_insert_eq.
  - rewrite lookup_insert_ne by done. rewrite IH.
    by destruct (list_find _ (rev ts)) as [[? ?]|].
Qed.

Lemma sorted_descriptors_unique (l1 l2 : list (McpTool W)) :
  l1 ≡ₚ l2 -> NoDup (tool_name <$> l1) -> sorted_descriptors l1 = sorted_descriptors l2.
Proof.
  intros Hp Hn. unfold sorted_descriptors.
  apply (StronglySorted_unique_strong name_le).
  - intros d1 d2 H1 H2 Hle1 Hle2. rewrite merge_sort_Permutation in H1, H2.
    apply list_elem_of_fmap in H1 as (t1 & -> & H1), H2 as (t2 & -> & H2).
    rewrite <-Hp in H2. pose proof (name_le_antisym _ _ Hle1 Hle2) as Hname. cbn in Hname.
    apply list_elem_of_lookup in H1 as [i Hi], H2 as [j Hj].
    assert (i = j) as ->.
    { eapply NoDup_lookup; [exact Hn| |]; rewrite list_lookup_fmap;
        [rewrite Hi|rewrite Hj]; cbn; by rewrite ?Hname. }
    congruence.
  - apply StronglySorted_merge_sort; apply _.
  - apply StronglySorted_merge_sort; apply _.
  - by rewrite !merge_sort_Permutation, Hp.
Qed.

(** [tools/list] is deterministic: tools registered under distinct
    names, in any two orders and with any two iteration orders of the hash
    map, give the same descriptor list, sorted by name and made of exactly
    the registered tools. *)
Theorem descriptors_deterministic (ts1 ts2 it1 it2 : list (McpTool W)) :
  ts1 ≡ₚ ts2 -> NoDup (tool_name <$> ts1) ->
  it1 ≡ₚ (map_to_list (register_all ts1 ∅)).*2 ->
  it2 ≡ₚ (map_to_list (register_all ts2 ∅)).*2 ->
  sorted_descriptors it1 = sorted_descriptors it2
  /\ StronglySorted name_le (sorted_descriptors it1)
  /\ sorted_descriptors it1 ≡ₚ descriptor <$> ts1.
Proof.
  intros Hp Hn Hi1 Hi2.
  assert (forall ts, NoDup (tool_name <$> ts) ->
    (map_to_list (register_all ts (∅ : gmap string (McpTool W)))).*2 ≡ₚ ts) as Hall.
  { clear. intros ts. induction ts as [|t ts IH] using rev_ind; intros Hn; [done|].
    rewrite fmap_app, NoDup_app in Hn. destruct Hn as (Hn & Hd & _).
    unfold register_all in *. rewrite foldl_app. cbn [foldl]. unfold register at 1.
    rewrite map_to_list_insert.
    - cbn. rewrite IH by done. by rewrite <-Permutation_cons_append.
    - pose proof (register_all_lookup ts ∅ (tool_name t)) as Hl. unfold register_all in Hl.
      rewrite Hl. destruct (list_find _ _) as [[i t']|] eqn:Hf; [|done].
      apply list_find_Some in Hf as (Ht & Hname & _). exfalso.
      apply (Hd (tool_name t)); cbn; [|by constructor].
      rewrite <-Hname. apply list_elem_of_fmap_2.
      apply list_elem_of_In, in_rev. rewrite <-list_elem_of_In.
      by eapply list_elem_of_lookup_2. }
  rewrite Hall in Hi1 by done.
  rewrite Hall in Hi2 by (by rewrite <-Hp).
  split; [|split].
  - apply sorted_descriptors_unique; [by rewrite Hi1, Hi2|by rewrite Hi1].
  - apply StronglySorted_merge_sort; apply _.
  - unfold sorted_descriptors. by rewrite merge_sort_Permutation, Hi1.
Qed.
End descriptors.

Lemma descriptors_deterministic_witness :
  let ts1 : list (McpTool unit) := [PingTool; EchoTool] in
  let ts2 : list (McpTool unit) := [EchoTool; PingTool] in
  NoDup (tool_name <$> ts1)
  /\ sorted_descriptors (map_to_list (register_all ts1 ∅)).*2
     = sorted_descriptors (map_to_list (register_all ts2 ∅)).*2
  /\ td_name <$> sorted_descriptors (map_to_list (register_all ts1 ∅)).*2 = ["echo"; "ping"].
Proof.
  cbv zeta.
  assert (NoDup (tool_name <$> [PingTool (W := unit); EchoTool])) as Hn.
  { apply NoDup_cons; split; [|apply NoDup_singleton]. rewrite list_elem_of_singleton. discriminate. }
  split; [exact Hn|]. split; [|vm_compute; reflexivity].
  apply (descriptors_deterministic [PingTool; EchoTool] [EchoTool; PingTool] _ _
    (Permutation_swap _ _ []) Hn (reflexivity _) (reflexivity _)).
Defined.

(** ** Replies, audit trail and the initialize gate *)

Definition is_initialize (m : JsonRpcMessage) : bool :=
  match m with Request r => bool_decide (req_method r = "initialize") | _ => false end.

(** A result the client sees as a failed tool call. *)
Definition reports_tool_error (v : Value) : bool :=
  match value_get "isError" v with Some (JBool b) => b | _ => false end.

Section session_theorems.
Context {W : Type}.
Context (to_string_pretty : Value -> string).
Context (from_value : Value -> result string ToolCallParams).
Context (registry : gmap string (McpTool W)).

#[local] Abbreviation handle := (handle to_string_pretty from_value registry).
#[local] Abbreviation handle_all := (handle_all to_string_pretty from_value registry).
#[local] Abbreviation dispatch_request := (dispatch_request to_string_pretty from_value registry).

(** The audit outcome a reply deserves. *)
Definition outcome_matches (outcome : AuditOutcome) (r : result JsonRpcError Value) : Prop :=
  match outcome, r with
  | AuditOk, Ok v => reports_tool_error v = false
  | AuditError code, Err e => err_code e = code
  | AuditError code, Ok v =>
      reports_tool_error v = true /\ (code = INVALID_PARAMS \/ code = INTERNAL_ERROR)
  | AuditOk, Err _ => False
  end.

Lemma reports_tool_error_into_value r : reports_tool_error (into_value r) = is_error r.
Proof.
  unfold reports_tool_error, into_value, opt_field.
  by destruct (structured_content r); cbn [app]; obj_simpl.
Qed.

Lemma map_call_result_matches r :
  outcome_matches (snd (map_call_result to_string_pretty r))
    (fst (map_call_result to_string_pretty r)).
Proof.
  destruct r as [v|[name|[m|m]]]; cbn; rewrite ?reports_tool_error_into_value; auto.
Qed.

Lemma dispatch_request_matches request s :
  let '((r, _, outcome), s') := dispatch_request request s in
  outcome_matches outcome r /\ audit s' = audit s.
Proof.
  unfold McpServer.dispatch_request, handle_tools_list, handle_tools_call.
  repeat case_decide; cbn; try done.
  - destruct (require_initialized s); done.
  - destruct (require_initialized s); [|done].
    destruct (from_value <$> req_params request) as [[p|]|]; try done.
    destruct (registry_call _ _ _ _) as [r w].
    pose proof (map_call_result_matches r) as Hm. by destruct (map_call_result _ r).
Qed.

(** C17: every request gets exactly one reply, with its own id, and leaves
    exactly one audit event naming its method; the event says [AuditOk] only
    for a success the client sees as one, and an error event carries the
    code of the error reply, or stands for a reply whose isError flag is
    set.  Notifications and responses are never answered and change nothing. *)
Theorem handle_answers_and_audits (message : JsonRpcMessage) (s : McpSession W) :
  let '(reply, s') := handle message s in
  match message with
  | Request request =>
      exists r ev,
        reply = Some match r with
          | Ok v => SuccessResponse (JsonRpcSuccessResponse_new (req_id request) v)
          | Err e => ErrorResponse (JsonRpcErrorResponse_new (Some (req_id request)) e)
          end
        /\ audit s' = audit s ++ [ev] /\ ev_method ev = req_method request
        /\ outcome_matches (ev_outcome ev) r
  | _ => reply = None /\ s' = s
  end.
Proof.
  destruct message as [request| | |]; cbn; try done. unfold handle_request.
  pose proof (dispatch_request_matches request s) as Hd.
  destruct (dispatch_request request s) as [[[r tn] outcome] s1]. destruct Hd as [Hm Ha].
  destruct r as [v|e]; (eexists (_ : result _ _), _; split; [|split; [|split]]);
    [by instantiate (1 := Ok v)|cbn; by rewrite Ha|done|done
    |by instantiate (1 := Err e)|cbn; by rewrite Ha|done|done].
Qed.

(** The reply of a session that was not initialized. *)
Definition gated_reply (m : JsonRpcMessage) : option (JsonRpcId * Z) :=
  match m with
  | Request r =>
      Some (req_id r, if decide (req_method r = "tools/list" \/ req_method r = "tools/call")
                      then INVALID_REQUEST else METHOD_NOT_FOUND)
  | _ => None
  end.
Definition is_error_reply (reply : option JsonRpcMessage) (want : option (JsonRpcId * Z)) : Prop :=
  match reply, want with
  | Some (ErrorResponse e), Some (id, c) => er_id e = Some id /\ err_code (er_error e) = c
  | None, None => True
  | _, _ => False
  end.

Lemma handle_gated m s :
  initialized s = false -> is_initialize m = false ->
  let '(reply, s') := handle m s in
  initialized s' = false /\ world s' = world s /\ is_error_reply reply (gated_reply m).
Proof.
  intros Hi Hm. destruct m as [r| | |]; cbn; try done.
  apply bool_decide_eq_false in Hm. unfold handle_request, McpServer.dispatch_request.
  rewrite decide_False by done. unfold handle_tools_list, handle_tools_call, require_initialized.
  rewrite Hi. repeat (case_decide; cbn; try naive_solver).
Qed.

(** Before [initialize] is handled no tool ever runs: any sequence of
    messages without it leaves the tools' state untouched, refuses every
    tools/list and tools/call with INVALID_REQUEST (other methods with
    METHOD_NOT_FOUND) and leaves the session closed. *)
Theorem initialize_gate (messages : list JsonRpcMessage) (s : McpSession W) :
  initialized s = false -> Forall (fun m => is_initialize m = false) messages ->
  let '(replies, s') := handle_all messages s in
  world s' = world s /\ initialized s' = false
  /\ Forall2 (fun m reply => is_error_reply reply (gated_reply m)) messages replies.
Proof.
  intros Hi Hms. revert s Hi. induction Hms as [|m ms Hm Hms IH]; intros s Hi; cbn; [auto|].
  pose proof (handle_gated m s Hi Hm) as Hh. destruct (handle m s) as [reply s1].
  destruct Hh as (Hi1 & Hw1 & Hr). specialize (IH s1 Hi1).
  destruct (handle_all ms s1) as [replies s2]. destruct IH as (Hw & Hi2 & Hrs).
  split; [congruence|]. auto.
Qed.

(** Once the session is open it stays open, and a tools/call is the
    tool's own result, state and all: a value comes back as the result's
    structuredContent and, pretty printed, as its text; a failure of the
    tool as text with isError set; only an unknown name or malformed
    params are protocol errors, and those run nothing. *)
Theorem tools_call_runs_tool (request : JsonRpcRequest) (p : Value) (call : ToolCallParams)
    (t : McpTool W) (s : McpSession W) :
  initialized s = true -> req_method request = "tools/call" ->
  req_params request = Some p -> from_value p = Ok call -> registry !! tc_name call = Some t ->
  let '(reply, s') := handle (Request request) s in
  let '(r, w) := tool_call t (tc_arguments call) (world s) in
  world s' = w /\ initialized s' = true
  /\ exists v, reply = Some (SuccessResponse (JsonRpcSuccessResponse_new (req_id request) v))
    /\ reports_tool_error v = negb (is_ok r)
    /\ value_get "structuredContent" v = result_ok r
    /\ value_get "content" v = Some (JArray [json_object [("type", JString "text");
         ("text", JString match r with
                          | Ok a => to_string_pretty a
                          | Err e => McpToolError_to_string e
                          end)]]).
Proof.
  intros Hi Hm Hp Hc Ht. cbn. unfold handle_request, McpServer.dispatch_request.
  rewrite Hm, !decide_False, decide_True by done. unfold handle_tools_call, require_initialized.
  rewrite Hi, Hp. cbn. rewrite Hc. unfold registry_call. rewrite Ht. eff_simpl.
  destruct (tool_call t (tc_arguments call) (world s)) as [[v|e] w]; cbn;
    (split; [done|]; split; [done|]); eexists; (split; [done|]);
    rewrite reports_tool_error_into_value; (split; [done|]);
    unfold into_value, opt_field; cbn [app structured_content content is_error CallToolResult_success
      CallToolResult_error]; obj_simpl; auto.
Qed.
End session_theorems.

Definition echo_call_params (v : Value) : result string ToolCallParams :=
  match value_get "name" v with
  | Some (JString n) => Ok {| tc_name := n; tc_arguments := value_get "arguments" v |}
  | _ => Err "missing field `name`"
  end.
Definition echo_request : JsonRpcRequest :=
  JsonRpcRequest_new (IdNumber 1) "tools/call"
    (Some (JObject [("arguments", JObject [("message", JString "hi")]); ("name", JString "echo")])).
Definition smoke_registry : gmap string (McpTool unit) := register_all [PingTool; EchoTool] ∅.

Lemma initialize_gate_witness :
  Forall (fun m => is_initialize m = false) [Request echo_request] /\
  let '(replies, s') := handle_all (fun _ => "") echo_call_params smoke_registry
                          [Request echo_request] (McpSession_new tt) in
  world s' = tt /\ initialized s' = false
  /\ Forall2 (fun m reply => is_error_reply reply (gated_reply m)) [Request echo_request] replies.
Proof.
  assert (Forall (fun m => is_initialize m = false) [Request echo_request]) as Hf
    by (repeat constructor).
  split; [exact Hf|].
  apply (initialize_gate (fun _ => "") echo_call_params smoke_registry [Request echo_request]
    (McpSession_new tt) eq_refl Hf).
Defined.

Lemma tools_call_runs_tool_witness :
  let s := {| initialized := true; audit := []; world := tt |} in
  exists v, fst (handle (fun _ => "pretty") echo_call_params smoke_registry
                   (Request echo_request) s)
            = Some (SuccessResponse (JsonRpcSuccessResponse_new (IdNumber 1) v))
    /\ reports_tool_error v = false
    /\ value_get "structuredContent" v = Some (JObject [("message", JString "hi")]).
Proof.
  cbv zeta.
  pose proof (tools_call_runs_tool (fun _ => "pretty") echo_call_params smoke_registry
    echo_request _ {| tc_name := "echo"; tc_arguments := Some (JObject [("message", JString "hi")]) |}
    EchoTool {| initialized := true; audit := []; world := tt |}
    eq_refl eq_refl eq_refl eq_refl eq_refl) as H.
  destruct (handle _ _ _ _ _) as [reply s']. cbn in H.
  destruct H as (_ & _ & v & Hr & He & Hs & _). exists v. auto.
Defined.
