(* ===== verification/Transport.v ===== *)
(** * The two transports (crates/transport-stdio, crates/transport-http)

    [Stdio] is the line loop over a sequence of [next_line] outcomes; [Http]
    is the router with its layers, from the rate limiter inwards.  Sockets,
    pipes, the tokio line reader, axum's extractors, the governor limiter
    and serde_json are parameters. *)
From S2P Require Import Prelude RustStr Json JsonRpc Sse McpServer.

Module Stdio.

(** One outcome of [lines.next_line()]; the end of the list is EOF. *)
Inductive read := Line (line : string) | ReadError.

Section stdio.
Context {W O : Type}.
Context (decode_message : list byte -> result JsonRpcError JsonRpcMessage).
Context (handle : JsonRpcMessage -> McpSession W -> option JsonRpcMessage * McpSession W).
(** [serde_json::to_vec], and the writer with its I/O errors. *)
Context (to_vec : Value -> result string (list byte)).
Context (write_all : list byte -> eff O string unit) (flush : eff O string unit).

Definition write_reply (reply : JsonRpcMessage) : eff O string unit :=
  match to_vec (to_value reply) with
  | Err _ => mret tt
  | Ok serialized => _ ← write_all (serialized ++ [Byte.x0a]); flush
  end.

(** The reply to one non-blank line. *)
Definition reply_to (line : string) (s : McpSession W)
  : option JsonRpcMessage * McpSession W :=
  match decode_message (as_bytes line) with
  | Ok message => handle message s
  | Err error => (Some (ErrorResponse (JsonRpcErrorResponse_new None error)), s)
  end.

Fixpoint run (lines : list read) (s : McpSession W) (o : O)
  : result string unit * McpSession W * O :=
  match lines with
  | [] => (Ok tt, s, o)
  | ReadError :: lines' => run lines' s o
  | Line line :: lines' =>
      if is_empty (trim line) then run lines' s o
      else
        let '(reply, s) := reply_to line s in
        match reply with
        | None => run lines' s o
        | Some reply =>
            match write_reply reply o with
            | (Ok _, o) => run lines' s o
            | (Err e, o) => (Err e, s, o)
            end
        end
  end.

(** What the loop is meant to do: skip what is not a message, answer the
    others one after the other. *)
Definition texts (lines : list read) : list string :=
  omap (fun r => match r with
                 | Line l => if is_empty (trim l) then None else Some l
                 | ReadError => None
                 end) lines.
Fixpoint replies (ls : list string) (s : McpSession W) : list JsonRpcMessage * McpSession W :=
  match ls with
  | [] => ([], s)
  | l :: ls' =>
      let '(r, s) := reply_to l s in
      let '(rs, s) := replies ls' s in
      (match r with Some r => r :: rs | None => rs end, s)
  end.
End stdio.

Section stdio_theorems.
Context {W : Type}.
Context (decode_message : list byte -> result JsonRpcError JsonRpcMessage).
Context (handle : JsonRpcMessage -> McpSession W -> option JsonRpcMessage * McpSession W).
Context (to_vec : Value -> result string (list byte)).

(** An in-memory pipe. *)
Definition push (bs : list byte) : eff (list byte) string unit := fun o => (Ok tt, o ++ bs).
Definition no_flush : eff (list byte) string unit := mret tt.

Definition frame (m : JsonRpcMessage) : list byte :=
  match to_vec (to_value m) with Ok bs => bs ++ [Byte.x0a] | Err _ => [] end.

(** Over a pipe that does not fail, the loop reads to the end of the
    input whatever the lines are: the output is the newline-terminated
    replies, in the order of the lines that ask for them, and the session
    ends where handling the decodable lines in order leaves it; blank
    lines, unreadable lines and notifications produce no output, a line
    that does not decode produces one error reply and does not touch the
    session. *)
Theorem run_reads_to_end (lines : list read) (s : McpSession W) (o : list byte) :
  run decode_message handle to_vec push no_flush lines s o
  = (Ok tt, snd (replies decode_message handle (texts lines) s),
     o ++ (fst (replies decode_message handle (texts lines) s) ≫= frame)).
Proof.
  revert s o. induction lines as [|[l|] lines IH]; intros s o; cbn;
    [by rewrite app_nil_r| |apply IH].
  destruct (is_empty (trim l)) eqn:Hb; [apply IH|]. cbn [replies].
  destruct (reply_to _ _ l s) as [r s1]. fold (texts lines).
  destruct r as [r|]; [|rewrite IH; by destruct (replies _ _ (texts lines) s1)].
  unfold write_reply, push, no_flush.
  assert (frame r = match to_vec (to_value r) with Ok bs => bs ++ [Byte.x0a] | Err _ => [] end)
    as Hf by done.
  destruct (to_vec (to_value r)) as [bs|e];
    eff_simpl; rewrite IH; destruct (replies _ _ (texts lines) s1) as [rs s2]; cbn;
    rewrite Hf; by rewrite <-?app_assoc.
Qed.
End stdio_theorems.
End Stdio.

Module Http.

(** [axum::response::Response], as far as the crate sets it. *)
Record Response := { status : Z; resp_headers : list (string * string); resp_body : list byte }.
Definition into_response (status : Z) (body : string) : Response :=
  {| status := status; resp_headers := []; resp_body := as_bytes body |}.

Definition OK : Z := 200.
Definition ACCEPTED : Z := 202.
Definition UNAUTHORIZED : Z := 401.
Definition NOT_FOUND : Z := 404.
Definition METHOD_NOT_ALLOWED : Z := 405.
Definition TOO_MANY_REQUESTS : Z := 429.
Definition INTERNAL_SERVER_ERROR : Z := 500.

Definition BEARER_PREFIX : string := "Bearer ".

(** The address is that of [ConnectInfo]; [req_authorization] is the first
    value of the Authorization header; [req_body] is what the [Bytes]
    extractor makes of the body, a response of its own when it refuses it. *)
Record HttpRequest (Ip : Type) := {
  req_ip : Ip;
  req_verb : string;
  req_path : string;
  req_authorization : option (list byte);
  req_body : result Response (list byte);
}.
Arguments req_ip {Ip} _. Arguments req_verb {Ip} _. Arguments req_path {Ip} _.
Arguments req_authorization {Ip} _. Arguments req_body {Ip} _.

Record HttpTransportConfig (Addr : Type) := {
  bind_addr : Addr; cfg_bearer_token : string; rate_limit_per_minute : Z }.
Arguments bind_addr {Addr} _. Arguments cfg_bearer_token {Addr} _.
Arguments rate_limit_per_minute {Addr} _.

(** The limiter's store is the only other thing a request changes. *)
Record AppState (W L : Type) := {
  session : McpSession W; bearer_token : string; limiter : L }.
Arguments session {W L} _. Arguments bearer_token {W L} _. Arguments limiter {W L} _.

Section http.
Context {W L Ip : Type}.
Context (decode_message : list byte -> result JsonRpcError JsonRpcMessage).
Context (handle : JsonRpcMessage -> McpSession W -> option JsonRpcMessage * McpSession W).
Context (to_vec : Value -> result string (list byte)).
(** [HeaderValue::to_str], [ConstantTimeEq::ct_eq], the keyed limiter. *)
Context (to_str : list byte -> option string).
Context (ct_eq : list byte -> list byte -> bool).
Context (check_key : Ip -> L -> bool * L).
(** What [GET /mcp/stream] streams as its body. *)
Context (stream_body : list byte).

Abbreviation state := (AppState W L).
(** A service; [next.run] is one. *)
Abbreviation service := (HttpRequest Ip -> state -> Response * state).

Definition set_session (s : McpSession W) (st : state) : state :=
  {| session := s; bearer_token := bearer_token st; limiter := limiter st |}.
Definition set_limiter (l : L) (st : state) : state :=
  {| session := session st; bearer_token := bearer_token st; limiter := l |}.

Definition json_response (status : Z) (body : JsonRpcMessage) : Response :=
  match to_vec (to_value body) with
  | Ok bytes => {| status := status; resp_headers := [("content-type", "application/json")];
                   resp_body := bytes |}
  | Err _ => into_response INTERNAL_SERVER_ERROR ""
  end.

Definition handle_mcp : service := fun request st =>
  match req_body request with
  | Err rejection => (rejection, st)
  | Ok body =>
      match decode_message body with
      | Ok message =>
          let '(reply, s) := handle message (session st) in
          (match reply with
           | Some reply => json_response OK reply
           | None => into_response ACCEPTED ""
           end, set_session s st)
      | Err error =>
          (json_response OK (ErrorResponse (JsonRpcErrorResponse_new None error)), st)
      end
  end.

Definition stream_demo : service := fun request st =>
  ({| status := OK; resp_headers := [("content-type", "text/event-stream");
                                     ("cache-control", "no-cache")];
      resp_body := stream_body |}, st).

Definition extract_bearer_token (authorization : option (list byte)) : option string :=
  raw ← authorization;
  raw ← to_str raw;
  strip_prefix BEARER_PREFIX raw.

Definition tokens_match (provided expected : string) : bool :=
  ct_eq (as_bytes provided) (as_bytes expected).

Definition require_bearer_token (next : service) : service := fun request st =>
  match extract_bearer_token (req_authorization request) with
  | Some token =>
      if tokens_match token (bearer_token st) then next request st
      else (into_response UNAUTHORIZED "unauthorized", st)
  | None => (into_response UNAUTHORIZED "unauthorized", st)
  end.

Definition enforce_rate_limit (next : service) : service := fun request st =>
  let '(allowed, l) := check_key (req_ip request) (limiter st) in
  if allowed then next request (set_limiter l st)
  else (into_response TOO_MANY_REQUESTS "rate limit exceeded", set_limiter l st).

(** [build_limiter]: governor takes no zero; [keyed] is
    [RateLimiter::keyed(Quota::per_minute(burst))]. *)
Definition build_limiter (keyed : Z -> L) (requests_per_minute : Z) : L :=
  keyed (if (requests_per_minute =? 0)%Z then 1%Z else requests_per_minute).

(** The state [build_router] hands to every layer and handler. *)
Definition build_state {Addr} (keyed : Z -> L) (s : McpSession W)
    (config : HttpTransportConfig Addr) : state :=
  {| session := s; bearer_token := cfg_bearer_token config;
     limiter := build_limiter keyed (rate_limit_per_minute config) |}.

(** axum's method routers: any other method on a known path is a 405. *)
Definition post (handler : service) : service := fun request st =>
  if decide (req_verb request = "POST") then handler request st
  else (into_response METHOD_NOT_ALLOWED "", st).
Definition get (handler : service) : service := fun request st =>
  if decide (req_verb request = "GET") then handler request st
  else if decide (req_verb request = "HEAD") then
    let '(resp, st) := handler request st in
    ({| status := status resp; resp_headers := resp_headers resp; resp_body := [] |}, st)
  else (into_response METHOD_NOT_ALLOWED "", st).

(** [build_router]: the bearer check is a layer of the one route, the
    rate limit a layer of everything, the 404 included. *)
Definition router : service := enforce_rate_limit (fun request st =>
  if decide (req_path request = "/mcp") then require_bearer_token (post handle_mcp) request st
  else if decide (req_path request = "/mcp/stream") then get stream_demo request st
  else (into_response NOT_FOUND "", st)).

Fixpoint serve (requests : list (HttpRequest Ip)) (st : state) : list Response * state :=
  match requests with
  | [] => ([], st)
  | r :: requests' =>
      let '(resp, st) := router r st in
      let '(resps, st) := serve requests' st in
      (resp :: resps, st)
  end.
End http.

Section http_theorems.
Context {W L Ip : Type}.
Context (decode_message : list byte -> result JsonRpcError JsonRpcMessage).
Context (handle : JsonRpcMessage -> McpSession W -> option JsonRpcMessage * McpSession W).
Context (to_vec : Value -> result string (list byte)).
Context (to_str : list byte -> option string).
Context (ct_eq : list byte -> list byte -> bool).
Context (check_key : Ip -> L -> bool * L).
Context (stream_body : list byte).

#[local] Abbreviation router :=
  (router decode_message handle to_vec to_str ct_eq check_key stream_body).
#[local] Abbreviation serve :=
  (serve decode_message handle to_vec to_str ct_eq check_key stream_body).

#[local] Arguments strip_prefix : simpl never.

(** The documented behaviour of [subtle]'s slice comparison. *)
Definition ct_eq_is_equality : Prop := forall a b, ct_eq a b = bool_decide (a = b).

(** The header value a client presents, and the one it must present. *)
Definition presented (r : HttpRequest Ip) : option string := req_authorization r ≫= to_str.
Definition credential (st : AppState W L) : string := BEARER_PREFIX +:+ bearer_token st.

Lemma token_check (Heq : ct_eq_is_equality) r (st : AppState W L) :
  match extract_bearer_token to_str (req_authorization r) with
  | Some token => tokens_match ct_eq token (bearer_token st)
  | None => false
  end = bool_decide (presented r = Some (credential st)).
Proof.
  unfold extract_bearer_token, presented, tokens_match, credential.
  destruct (req_authorization r) as [raw|]; cbn; [|done].
  destruct (to_str raw) as [s|]; cbn; [|done].
  destruct (strip_prefix BEARER_PREFIX s) as [token|] eqn:Hs.
  - apply strip_prefix_Some in Hs as ->. rewrite (Heq _ _). apply bool_decide_ext.
    split; [intros H%as_bytes_inj; by subst|].
    intros [= H]. by subst.
  - symmetry. apply bool_decide_eq_false. intros [= ->].
    assert (strip_prefix BEARER_PREFIX (BEARER_PREFIX +:+ bearer_token st)
            = Some (bearer_token st)) as Hx by (by apply strip_prefix_Some).
    cbn in Hx. congruence.
Qed.

Lemma router_config r st :
  bearer_token (snd (router r st)) = bearer_token st.
Proof.
  unfold Http.router, enforce_rate_limit, require_bearer_token, post, get, handle_mcp,
    stream_demo.
  destruct (check_key _ _) as [[] l]; [|done]. cbn.
  repeat (first [case_decide | case_match]; simplify_eq/=; try done).
Qed.

Lemma router_unauthorized r st :
  ct_eq_is_equality -> presented r <> Some (credential st) ->
  session (snd (router r st)) = session st
  /\ (req_path r = "/mcp" ->
      status (fst (router r st)) = UNAUTHORIZED
      \/ status (fst (router r st)) = TOO_MANY_REQUESTS).
Proof.
  intros Heq Hp. unfold Http.router, enforce_rate_limit.
  destruct (check_key _ _) as [[] l]; cbn; [|auto].
  case_decide as Hpath.
  - pose proof (token_check Heq r (set_limiter l st)) as Ht.
    rewrite bool_decide_eq_false_2 in Ht by done.
    unfold require_bearer_token. destruct (extract_bearer_token _ _); [rewrite Ht|]; auto.
  - unfold get, stream_demo. repeat case_decide; cbn; (split; [done|by intros ?%Hpath]).
Qed.

Lemma serve_unauthorized (requests : list (HttpRequest Ip)) (st : AppState W L) :
  ct_eq_is_equality ->
  Forall (fun r => presented r <> Some (credential st)) requests ->
  let '(responses, st') := serve requests st in
  session st' = session st
  /\ Forall2 (fun r resp => req_path r = "/mcp" ->
       status resp = UNAUTHORIZED \/ status resp = TOO_MANY_REQUESTS) requests responses.
Proof.
  intros Heq. revert st. induction requests as [|r rs IH]; intros st Hall; cbn; [auto|].
  apply Forall_cons in Hall as [Hr Hall].
  pose proof (router_unauthorized r st Heq Hr) as [Hs Hst].
  pose proof (router_config r st) as Hc. specialize (IH (snd (router r st))).
  destruct (router r st) as [resp st1]; cbn in *.
  assert (credential st1 = credential st) as Hcr by (unfold credential; by rewrite Hc).
  assert (Forall (fun r => presented r <> Some (credential st1)) rs) as Hall1
    by (eapply Forall_impl; [exact Hall|]; intros x; cbv beta; by rewrite Hcr).
  specialize (IH Hall1).
  destruct (serve rs st1) as [resps st2]. destruct IH as [IHs IHf].
  split; [congruence|]. by constructor.
Qed.

(** Requests without the configured bearer token never reach the
    session: whatever they contain and however many there are, the
    session (its tools, its audit trail) is left exactly as it was, and
    every one of them to /mcp is refused with 401, or with 429. *)
Theorem no_token_no_session (requests : list (HttpRequest Ip)) (st : AppState W L) :
  ct_eq_is_equality ->
  Forall (fun r => presented r <> Some (credential st)) requests ->
  let '(responses, st') := serve requests st in
  session st' = session st
  /\ Forall2 (fun r resp => req_path r = "/mcp" ->
       status resp = UNAUTHORIZED \/ status resp = TOO_MANY_REQUESTS) requests responses.
Proof. apply serve_unauthorized. Qed.

End http_theorems.

(** A server whose token is secret, with a limiter that always allows. *)
Definition example_state : AppState unit unit :=
  {| session := McpSession_new tt; bearer_token := "secret"; limiter := () |}.
Definition example_request (authorization : string) : HttpRequest unit :=
  {| req_ip := tt; req_verb := "POST"; req_path := "/mcp";
     req_authorization := Some (as_bytes authorization); req_body := Ok (as_bytes "{}") |}.
Definition example_to_str (bs : list byte) : option string := Some (String.string_of_list_byte bs).
Definition example_ct_eq (a b : list byte) : bool := bool_decide (a = b).
Definition example_decode (bs : list byte) : result JsonRpcError JsonRpcMessage :=
  decode_message (fun _ => Ok JNull) read_error bs.
Definition example_handle (m : JsonRpcMessage) (s : McpSession unit)
  : option JsonRpcMessage * McpSession unit :=
  handle (fun _ => EmptyString) echo_call_params smoke_registry m s.
Definition example_to_vec (v : Value) : result string (list byte) := Ok [Byte.x7b].

Lemma no_token_no_session_witness :
  Forall (fun r => presented example_to_str r <> Some (credential example_state))
    [example_request "Bearer guess"] /\
  let '(responses, st') := serve example_decode example_handle example_to_vec example_to_str
                             example_ct_eq (fun _ l => (true, l)) []
                             [example_request "Bearer guess"] example_state in
  session st' = session example_state /\ status <$> responses = [UNAUTHORIZED].
Proof.
  assert (Forall (fun r => presented example_to_str r <> Some (credential example_state))
    [example_request "Bearer guess"]) as Hf by (repeat constructor; vm_compute; discriminate).
  split; [exact Hf|].
  pose proof (no_token_no_session example_decode example_handle example_to_vec example_to_str
    example_ct_eq (fun _ l => (true, l)) [] _ example_state (fun a b => eq_refl) Hf) as H.
  destruct H as [Hs _]. split; [exact Hs|vm_compute; reflexivity].
Defined.

End Http.
