(* ===== verification/Clients.v ===== *)
(** * Many clients of one HTTP server at once (crates/transport-http:
    router.rs, handlers.rs; crates/mcp-server: session.rs)

    axum serves every request in a task of its own, and all share one
    [McpSession], whose [handle] takes [&self].  Here the handling of a
    request is cut at its [.await]s: the body, the tool, the audit record.
    Between two of them other requests run, and at each of them the task is
    dropped when its client closes the connection.  What a tool does to the
    state of the process while it runs is left open. *)
From S2P Require Import Prelude RustStr Tasks Json JsonRpc Sse McpServer Transport.

Section clients.
Context {W L Ip : Type}.
Context (decode_message : list byte -> result JsonRpcError JsonRpcMessage).
Context (to_string_pretty : Value -> string).
Context (from_value : Value -> result string ToolCallParams).
Context (registry : gmap string (McpTool W)).
Context (to_vec : Value -> result string (list byte)).
Context (to_str : list byte -> option string).
Context (ct_eq : list byte -> list byte -> bool).
Context (check_key : Ip -> L -> bool * L).
Context (stream_body : list byte).
#[local] Abbreviation request := (Http.HttpRequest Ip).
#[local] Abbreviation dispatched := (result JsonRpcError Value * option string * AuditOutcome)%type.
#[local] Abbreviation dispatch := (dispatch_request to_string_pretty from_value registry).

(** How far the handling of a request is; [audited] is the JSON-RPC request
    an answer is for, with the event that was recorded for it. *)
Inductive stage :=
  | Arrived
  | Reading
  | Running (rq : JsonRpcRequest) (call : ToolCallParams)
  | Recording (rq : JsonRpcRequest) (d : dispatched)
  | Answered (resp : Http.Response) (audited : option (JsonRpcRequest * AuditEvent))
  | Gone.

Record shared := {
  k_tasks : gmap nat (request * stage);
  k_state : Http.AppState W L;
}.
Definition start (requests : gmap nat request) (st : Http.AppState W L) : shared :=
  {| k_tasks := (., Arrived) <$> requests; k_state := st |}.
Definition goto (i : nat) (r : request) (g : stage) (st : Http.AppState W L) (s : shared) : shared :=
  {| k_tasks := <[i := (r, g)]> (k_tasks s); k_state := st |}.

(** The layers and the routes, up to where [handle_mcp] waits for the body. *)
Definition refused (status : Z) (text : string) : stage := Answered (Http.into_response status text) None.
Definition arrive (r : request) (st : Http.AppState W L) : stage * Http.AppState W L :=
  let '(allowed, l) := check_key (Http.req_ip r) (Http.limiter st) in
  let st := Http.set_limiter l st in
  if allowed then
    if decide (Http.req_path r = "/mcp") then
      match Http.extract_bearer_token to_str (Http.req_authorization r) with
      | Some token =>
          if Http.tokens_match ct_eq token (Http.bearer_token st) then
            if decide (Http.req_verb r = "POST") then (Reading, st)
            else (refused Http.METHOD_NOT_ALLOWED "", st)
          else (refused Http.UNAUTHORIZED "unauthorized", st)
      | None => (refused Http.UNAUTHORIZED "unauthorized", st)
      end
    else if decide (Http.req_path r = "/mcp/stream") then
      let '(resp, st) := Http.get (Http.stream_demo stream_body) r st in (Answered resp None, st)
    else (refused Http.NOT_FOUND "", st)
  else (refused Http.TOO_MANY_REQUESTS "rate limit exceeded", st).

(** The tool a request has to wait for, if [dispatch_request] gets that far. *)
Definition awaits_tool (rq : JsonRpcRequest) (s : McpSession W) : option ToolCallParams :=
  if decide (req_method rq = "tools/call") then
    if initialized s then
      match from_value <$> req_params rq with
      | Some (Ok call) => if decide (is_Some (registry !! tc_name call)) then Some call else None
      | _ => None
      end
    else None
  else None.

(** The body is there: it is decoded and dispatched. *)
Definition receive (r : request) (st : Http.AppState W L) : stage * Http.AppState W L :=
  match Http.req_body r with
  | Err rejection => (Answered rejection None, st)
  | Ok body =>
      match decode_message body with
      | Ok (Request rq) =>
          match awaits_tool rq (Http.session st) with
          | Some call => (Running rq call, st)
          | None => let '(d, s) := dispatch rq (Http.session st) in
                    (Recording rq d, Http.set_session s st)
          end
      | Ok _ => (refused Http.ACCEPTED "", st)
      | Err error =>
          (Answered (Http.json_response to_vec Http.OK
             (ErrorResponse (JsonRpcErrorResponse_new None error))) None, st)
      end
  end.

(** The tool's result, as [handle_tools_call] maps it. *)
Definition returned (call : ToolCallParams) (r : result McpToolError Value) : dispatched :=
  let '(mapped, outcome) := map_call_result to_string_pretty (map_err Failed r) in
  (mapped, Some (tc_name call), outcome).

Definition event_of (rq : JsonRpcRequest) (d : dispatched) : AuditEvent :=
  let '(_, tool_name, outcome) := d in
  {| ev_method := req_method rq; ev_tool_name := tool_name; ev_outcome := outcome |}.
Definition reply_of (rq : JsonRpcRequest) (r : result JsonRpcError Value) : JsonRpcMessage :=
  match r with
  | Ok v => SuccessResponse (JsonRpcSuccessResponse_new (req_id rq) v)
  | Err e => ErrorResponse (JsonRpcErrorResponse_new (Some (req_id rq)) e)
  end.
Definition answered (rq : JsonRpcRequest) (d : dispatched) : stage :=
  Answered (Http.json_response to_vec Http.OK (reply_of rq (fst (fst d)))) (Some (rq, event_of rq d)).

(** ** Steps *)

(** [Works]: a running tool changes the state of the process; [Returns]: it
    ends; [Drops]: the client closed the connection. *)
Inductive event := Goes | Works (w : W) | Returns (r : result McpToolError Value) | Drops.

Definition turn (i : nat) (e : event) (s : shared) : option shared :=
  let st := k_state s in
  match k_tasks s !! i, e with
  | Some (r, Arrived), Goes => let '(g, st) := arrive r st in Some (goto i r g st s)
  | Some (r, Reading), Goes => let '(g, st) := receive r st in Some (goto i r g st s)
  | Some (r, Running rq call), Works w =>
      Some (goto i r (Running rq call) (Http.set_session (McpServer.set_world w (Http.session st)) st) s)
  | Some (r, Running rq call), Returns result =>
      Some (goto i r (Recording rq (returned call result)) st s)
  | Some (r, Recording rq d), Goes =>
      Some (goto i r (answered rq d)
              (Http.set_session (record (event_of rq d) (Http.session st)) st) s)
  | Some (r, Reading), Drops | Some (r, Running _ _), Drops | Some (r, Recording _ _), Drops =>
      Some (goto i r Gone st s)
  | _, _ => None
  end.
Definition turns : list (nat * event) -> shared -> option shared := follow (fun '(i, e) => turn i e).

(** ** What one request can do *)

Lemma dispatch_quiet rq s :
  awaits_tool rq s = None ->
  let '(d, s') := dispatch rq s in
  outcome_matches (snd d) (fst (fst d)) /\ audit s' = audit s /\ world s' = world s
  /\ initialized s' = initialized s || bool_decide (req_method rq = "initialize").
Proof.
  intros Ha. pose proof (dispatch_request_matches to_string_pretty from_value registry rq s) as Hd.
  destruct (dispatch rq s) as [[[r tn] o] s'] eqn:He. destruct Hd as [Hm Hau]. split; [done|]. split; [done|].
  unfold dispatch_request in He. destruct (decide (req_method rq = "initialize")) as [Hi|Hi].
  { rewrite bool_decide_eq_true_2 by done. injection He as _ _ _ <-. by rewrite orb_true_r. }
  rewrite bool_decide_eq_false_2, orb_false_r by done. destruct (decide (req_method rq = "tools/list")) as [_|_]; [by injection He as _ _ _ <-|].
  unfold awaits_tool in Ha. destruct (decide (req_method rq = "tools/call")) as [_|_]; [|by injection He as _ _ _ <-].
  unfold handle_tools_call, require_initialized in He. destruct (initialized s) eqn:His; [|by injection He as _ _ _ <-].
  destruct (from_value <$> req_params rq) as [[call|e]|]; [|by injection He as _ _ _ <-..].
  unfold registry_call in He. destruct (registry !! tc_name call) as [t|]; [by rewrite decide_True in Ha|].
  cbn in He. by injection He as _ _ _ <-.
Qed.
Lemma returned_matches call r :
  outcome_matches (snd (returned call r)) (fst (fst (returned call r))).
Proof.
  unfold returned. pose proof (map_call_result_matches to_string_pretty (map_err Failed r)) as Hm.
  by destruct (map_call_result to_string_pretty (map_err Failed r)).
Qed.

(** The header value a client presents is the right one. *)
Definition authorized (token : string) (r : request) : Prop :=
  Http.req_authorization r ≫= to_str = Some (Http.BEARER_PREFIX +:+ token).
(** A stage only the handler of [POST /mcp] is in. *)
Definition inside (g : stage) : bool :=
  match g with Reading | Running _ _ | Recording _ _ | Answered _ (Some _) | Gone => true | _ => false end.

Lemma arrive_spec (Heq : Http.ct_eq_is_equality ct_eq) r st :
  let '(g, st') := arrive r st in
  Http.session st' = Http.session st /\ Http.bearer_token st' = Http.bearer_token st
  /\ (g = Reading /\ authorized (Http.bearer_token st) r
      \/ exists resp, g = Answered resp None
         /\ (Http.req_path r = "/mcp" -> ~ authorized (Http.bearer_token st) r ->
             Http.status resp = Http.UNAUTHORIZED \/ Http.status resp = Http.TOO_MANY_REQUESTS)).
Proof.
  unfold arrive. destruct (check_key _ _) as [[] l]; cbn; [|by eauto 10].
  case_decide as Hp.
  - pose proof (Http.token_check to_str ct_eq Heq r (Http.set_limiter l st)) as Ht. cbn in Ht.
    destruct (Http.extract_bearer_token _ _) as [token|]; [|by eauto 10].
    destruct (Http.tokens_match _ _ _); [|by eauto 10].
    symmetry in Ht. apply bool_decide_eq_true in Ht. case_decide; [by eauto 10|].
    split; [done|]. split; [done|]. right. eexists. split; [done|]. intros _ Hn. by destruct Hn.
  - unfold Http.get, Http.stream_demo. repeat case_decide; cbn;
      (split; [done|]; split; [done|]; right; eexists; split; [done|by intros ?%Hp]).
Qed.

(** ** The invariant *)

(** The JSON-RPC request a POST carries. *)
Definition carries (r : request) (rq : JsonRpcRequest) : Prop :=
  exists body, Http.req_body r = Ok body /\ decode_message body = Ok (Request rq).
Definition event_in (g : stage) : option AuditEvent :=
  match g with Answered _ (Some (_, ev)) => Some ev | _ => None end.
(** The events of the requests that were answered. *)
Definition events_of (ts : gmap nat (request * stage)) : list AuditEvent :=
  omap (fun it => event_in (snd (snd it))) (map_to_list ts).

Definition stage_ok (token : string) (r : request) (g : stage) : Prop :=
  (inside g = true -> authorized token r)
  /\ match g with
     | Running rq _ => carries r rq
     | Recording rq d => carries r rq /\ outcome_matches (snd d) (fst (fst d))
     | Answered resp (Some (rq, ev)) =>
         carries r rq /\ exists res, resp = Http.json_response to_vec Http.OK (reply_of rq res)
           /\ ev_method ev = req_method rq /\ outcome_matches (ev_outcome ev) res
     | Answered resp None =>
         Http.req_path r = "/mcp" -> ~ authorized token r ->
         Http.status resp = Http.UNAUTHORIZED \/ Http.status resp = Http.TOO_MANY_REQUESTS
     | _ => True
     end.

Lemma events_put i r old g ts :
  ts !! i = Some (r, old) -> event_in old = None ->
  events_of (<[i := (r, g)]> ts) ≡ₚ events_of ts ++ option_list (event_in g).
Proof.
  intros Hi Ho. unfold events_of. rewrite <-insert_delete_eq.
  rewrite (map_to_list_insert (delete i ts)) by apply lookup_delete_eq.
  rewrite <-(map_to_list_delete ts i (r, old)) by done. cbn. rewrite Ho.
  destruct (event_in g) as [ev|]; cbn; [by rewrite Permutation_app_comm|by rewrite app_nil_r].
Qed.

(** ** The steps of one request are the router *)

#[local] Abbreviation handle := (handle to_string_pretty from_value registry).
#[local] Abbreviation router :=
  (Http.router decode_message handle to_vec to_str ct_eq check_key stream_body).
(** The task [i] gets from [s] to an answer alone. *)
Definition runs_to (i : nat) (r : request) (s : shared) (out : Http.Response * Http.AppState W L) : Prop :=
  exists events s', turns ((i,.) <$> events) s = Some s' /\ k_state s' = snd out
    /\ exists au, k_tasks s' !! i = Some (r, Answered (fst out) au).
Lemma runs_now i r s resp au st :
  k_tasks s !! i = Some (r, Answered resp au) -> k_state s = st -> runs_to i r s (resp, st).
Proof. intros Hs <-. exists [], s. split; [done|]. split; [done|]. by exists au. Qed.
Lemma runs_step i r e s s1 out : turn i e s = Some s1 -> runs_to i r s1 out -> runs_to i r s out.
Proof.
  intros Ht (events & s' & Hr & H). exists (e :: events), s'. split; [|done].
  cbn [fmap list_fmap]. unfold turns. cbn [follow]. by rewrite Ht.
Qed.
Lemma goto_task i r g st s : k_tasks (goto i r g st s) !! i = Some (r, g).
Proof. cbn. by rewrite lookup_insert_eq. Qed.

(** The step [Ht] answers the request. *)
#[local] Ltac answers Ht :=
  eapply runs_step; [exact Ht|]; eapply runs_now; [apply goto_task|];
  first [done | by destruct (k_state _) as [[]]].

Lemma recorded i r rq d s out :
  k_tasks s !! i = Some (r, Recording rq d) ->
  out = (Http.json_response to_vec Http.OK (reply_of rq (fst (fst d))),
         Http.set_session (record (event_of rq d) (Http.session (k_state s))) (k_state s)) ->
  runs_to i r s out.
Proof.
  intros Hold ->. eapply (runs_step i r Goes); [unfold turn; by rewrite Hold|].
  eapply runs_now; [apply goto_task|done].
Qed.
Lemma handle_request_eq rq s :
  handle_request to_string_pretty from_value registry rq s
  = let '(d, s) := dispatch rq s in (reply_of rq (fst (fst d)), record (event_of rq d) s).
Proof. unfold handle_request. destruct (dispatch rq s) as [[[[v|e] tn] o] s']; done. Qed.
(** Dispatching a call of a tool is running it. *)
Lemma dispatch_tool rq call t s :
  awaits_tool rq s = Some call -> registry !! tc_name call = Some t ->
  dispatch rq s = let '(r, w) := tool_call t (tc_arguments call) (world s) in
                  (returned call r, McpServer.set_world w s).
Proof.
  unfold awaits_tool. case_decide as Hm; [|done]. destruct (initialized s) eqn:Hi; [|done].
  destruct (from_value <$> req_params rq) as [[c|e]|] eqn:Hp; try done. case_decide; [|done].
  intros [= ->] Ht. unfold dispatch_request. rewrite Hm, !decide_False, decide_True by done.
  unfold handle_tools_call, require_initialized. rewrite Hi, Hp. unfold registry_call. rewrite Ht.
  eff_simpl. unfold returned. destruct (tool_call t (tc_arguments call) (world s)) as [r w].
  by destruct (map_call_result to_string_pretty (map_err Failed r)).
Qed.
Lemma received i r s :
  k_tasks s !! i = Some (r, Reading) ->
  runs_to i r s (Http.handle_mcp decode_message handle to_vec r (k_state s)).
Proof.
  intros Hold.
  assert (turn i Goes s = let '(g, st) := receive r (k_state s) in Some (goto i r g st s)) as Ht
    by (unfold turn; by rewrite Hold).
  unfold Http.handle_mcp. unfold receive in Ht. destruct (Http.req_body r) as [body|rej].
  2: answers Ht.
  destruct (decode_message body) as [[rq| | |]|e];
    try answers Ht.
  cbn [McpServer.handle]. rewrite handle_request_eq.
  destruct (awaits_tool rq (Http.session (k_state s))) as [call|] eqn:Ha.
  - assert (is_Some (registry !! tc_name call)) as [t Hreg].
    { unfold awaits_tool in Ha. repeat case_match; simplify_eq; done. }
    rewrite (dispatch_tool rq call t) by done.
    destruct (tool_call t (tc_arguments call) (world (Http.session (k_state s)))) as [res w].
    eapply runs_step; [exact Ht|]. eapply (runs_step i r (Works w)); [unfold turn; by rewrite goto_task|].
    eapply (runs_step i r (Returns res)); [unfold turn; by rewrite goto_task|]. eapply recorded; [apply goto_task|done].
  - destruct (dispatch rq (Http.session (k_state s))) as [d s1].
    eapply runs_step; [exact Ht|]. eapply recorded; [apply goto_task|done].
Qed.

(** A request whose task runs alone is handled as the router does: the steps
    are those of [router], cut. *)
Theorem request_alone_is_router i r s :
  k_tasks s !! i = Some (r, Arrived) -> runs_to i r s (router r (k_state s)).
Proof.
  intros Hold.
  assert (turn i Goes s = let '(g, st) := arrive r (k_state s) in Some (goto i r g st s)) as Ht
    by (unfold turn; by rewrite Hold).
  unfold arrive in Ht. unfold Http.router, Http.enforce_rate_limit.
  destruct (check_key (Http.req_ip r) (Http.limiter (k_state s))) as [[] l].
  2: answers Ht.
  destruct (decide (Http.req_path r = "/mcp")) as [Hp|Hp].
  - unfold Http.require_bearer_token. destruct (Http.extract_bearer_token to_str (Http.req_authorization r)) as [tok|].
    2: answers Ht.
    destruct (Http.tokens_match ct_eq tok (Http.bearer_token (Http.set_limiter l (k_state s)))).
    2: answers Ht.
    unfold Http.post. destruct (decide (Http.req_verb r = "POST")).
    2: answers Ht.
    eapply runs_step; [exact Ht|]. apply received, goto_task.
  - destruct (decide (Http.req_path r = "/mcp/stream")).
    2: answers Ht.
    destruct (Http.get _ r _) as [resp st]. answers Ht.
Qed.

(** ** Any number of requests *)

Context (Heq : Http.ct_eq_is_equality ct_eq).
Context (requests : gmap nat request) (st0 : Http.AppState W L).
#[local] Abbreviation token := (Http.bearer_token st0).
#[local] Abbreviation session s := (Http.session (k_state s)).

(** A client with the token has asked to initialize the session. *)
Definition asked_to_open : Prop := exists i r rq,
  requests !! i = Some r /\ authorized token r /\ carries r rq /\ req_method rq = "initialize".
Definition running (g : stage) : bool := match g with Running _ _ => true | _ => false end.

Record inv (s : shared) : Prop := {
  inv_tasks : forall i r g, k_tasks s !! i = Some (r, g) ->
    requests !! i = Some r /\ stage_ok token r g /\ (running g = true -> initialized (session s) = true);
  inv_token : Http.bearer_token (k_state s) = token;
  inv_audit : exists new, audit (session s) = audit (Http.session st0) ++ new
                          /\ new ≡ₚ events_of (k_tasks s);
  inv_gate : initialized (session s) = true -> initialized (Http.session st0) = true \/ asked_to_open;
  inv_world : initialized (session s) = false -> world (session s) = world (Http.session st0);
}.

Lemma serving_start : inv (start requests st0).
Proof.
  assert (forall i r g, k_tasks (start requests st0) !! i = Some (r, g) ->
            requests !! i = Some r /\ g = Arrived) as Hw.
  { intros i r g. cbn. rewrite lookup_fmap. destruct (requests !! i) eqn:Hr; [|done]. by intros [= <- <-]. }
  split; try done; [|  |by left].
  - intros i r g Hi. destruct (Hw i r g Hi) as [? ->]. by repeat split.
  - exists []. split; [by rewrite app_nil_r|]. unfold events_of.
    assert (forall l, (forall it, it ∈ l -> event_in (snd (snd it)) = None) ->
              omap (fun it : nat * (request * stage) => event_in (snd (snd it))) l = []) as Hnil.
    { induction l as [|it l IH]; intros Hl; [done|]. cbn.
      rewrite (Hl it) by (by left). apply IH. intros x Hx. apply Hl. by right. }
    rewrite Hnil; [done|]. intros [i [r g]] Hit%elem_of_map_to_list. by destruct (Hw i r g Hit) as [_ ->].
Qed.

(** A task moves on. *)
Lemma serving_goto i r old g st b s :
  inv s -> k_tasks s !! i = Some (r, old) -> event_in old = None -> stage_ok token r g ->
  Http.bearer_token st = token ->
  audit (Http.session st) = audit (session s) ++ option_list (event_in g) ->
  initialized (Http.session st) = initialized (session s) || b -> (b = true -> asked_to_open) ->
  (initialized (Http.session st) = false -> world (Http.session st) = world (session s)) ->
  (running g = true -> initialized (Http.session st) = true) ->
  inv (goto i r g st s).
Proof.
  intros Hi Hold Ho Hg Ht Ha Hin Hb Hw Hr. destruct Hi as [H1 H2 H3 H4 H5].
  assert (initialized (session s) = true -> initialized (Http.session st) = true) as Hmono
    by (intros He; by rewrite Hin, He).
  split; cbn [goto k_tasks k_state].
  - intros j r' g'. rewrite lookup_insert_Some. intros [[<- [= <- <-]]|[_ Hj]].
    + split; [by eapply H1|done].
    + destruct (H1 j r' g' Hj) as (? & ? & ?). auto.
  - done.
  - destruct H3 as (new & Hn & Hp). exists (new ++ option_list (event_in g)).
    rewrite Ha, Hn, app_assoc. split; [done|]. by rewrite (events_put i r old), Hp.
  - rewrite Hin. intros [?|?]%orb_true_iff; [by apply H4|right; by apply Hb].
  - intros Hf. rewrite Hw by done. apply H5. destruct (initialized (session s)); [|done].
    by rewrite Hmono in Hf.
Qed.

(** It leaves the session alone. *)
Lemma serving_same i r old g st s :
  inv s -> k_tasks s !! i = Some (r, old) -> event_in old = None -> event_in g = None ->
  stage_ok token r g -> Http.session st = session s -> Http.bearer_token st = Http.bearer_token (k_state s) ->
  (running g = true -> initialized (session s) = true) -> inv (goto i r g st s).
Proof.
  intros Hi Hold Ho Hn Hg Hs Ht Hr. pose proof (inv_token s Hi) as Htok.
  apply (serving_goto i r old g st false s Hi Hold Ho Hg); rewrite ?Hs, ?Hn; cbn;
    rewrite ?app_nil_r, ?orb_false_r; congruence || done.
Qed.

Lemma serving_receive i r s :
  inv s -> k_tasks s !! i = Some (r, Reading) ->
  inv (goto i r (fst (receive r (k_state s))) (snd (receive r (k_state s))) s).
Proof.
  intros Hi Hold. destruct (inv_tasks s Hi i r Reading Hold) as (Hreq & [Hau _] & _).
  pose proof (inv_token s Hi) as Ht. specialize (Hau eq_refl).
  assert (forall resp, inv (goto i r (Answered resp None) (k_state s) s)) as Hrefuse.
  { intros resp. by apply (serving_same i r Reading). }
  unfold receive. destruct (Http.req_body r) as [body|rej] eqn:Hb; [|apply Hrefuse].
  destruct (decode_message body) as [[rq| | |]|e] eqn:Hd; try apply Hrefuse.
  assert (carries r rq) as Hc by (by exists body).
  destruct (awaits_tool rq (session s)) as [call|] eqn:Haw; cbn [fst snd].
  - apply (serving_same i r Reading); try done.
    intros _. unfold awaits_tool in Haw. case_decide; [|done]. by destruct (initialized (session s)).
  - pose proof (dispatch_quiet rq (session s) Haw) as Hq.
    destruct (dispatch rq (session s)) as [d s'] eqn:Hdis. destruct Hq as (Hm & Ha & Hw & Hin). cbn [fst snd].
    eapply (serving_goto i r Reading _ _ _ s); try done; cbn; try apply Hin; try by rewrite ?app_nil_r.
    intros Hopen%bool_decide_eq_true. by exists i, r, rq.
Qed.

Lemma serving_turn i e s s' : inv s -> turn i e s = Some s' -> inv s'.
Proof.
  intros Hi. unfold turn. destruct (k_tasks s !! i) as [[r g]|] eqn:Hold; [|done].
  destruct (inv_tasks s Hi i r g Hold) as (Hreq & [Hau Hg] & Hrun). pose proof (inv_token s Hi) as Ht.
  assert (event_in g = None -> inside g = true -> inv (goto i r Gone (k_state s) s)) as Hgone.
  { intros He Hin. apply (serving_same i r g); try done. split; [|done]. intros _. by apply Hau. }
  destruct g as [| |rq call|rq d|resp au|], e as [|w|result|]; try done;
    try (intros [= <-]; by apply Hgone).
  - pose proof (arrive_spec Heq r (k_state s)) as Hsp. destruct (arrive r (k_state s)) as [g st].
    rewrite Ht in Hsp. destruct Hsp as (Hs & Htk & Hcase). intros [= <-].
    apply (serving_same i r Arrived); try done; [..|congruence|]; by destruct Hcase as [[-> ?]|(resp & -> & ?)].
  - pose proof (serving_receive i r s Hi Hold) as Hr. destruct (receive r (k_state s)) as [g st].
    by intros [= <-].
  - intros [= <-]. specialize (Hrun eq_refl).
    apply (serving_goto i r (Running rq call) _ _ false s); try done; cbn; rewrite ?app_nil_r, ?orb_false_r; try done.
    by rewrite Hrun.
  - intros [= <-]. apply (serving_same i r (Running rq call)); try done.
    split; [done|]. split; [done|]. apply returned_matches.
  - intros [= <-]. destruct Hg as [Hc Hm]. destruct d as [[res tn] o].
    apply (serving_goto i r (Recording rq (res, tn, o)) _ _ false s); try done; cbn; try by rewrite orb_false_r.
    split; [done|]. split; [done|]. exists res. by repeat split.
Qed.
Lemma serving_turns schedule s : turns schedule (start requests st0) = Some s -> inv s.
Proof.
  apply (follow_keeps (fun '(i, e) => turn i e) inv); [|apply serving_start]. intros [i e] s1 s2. apply serving_turn.
Qed.

(** C12: however many clients the server has and however their requests
    interleave, and wherever connections are closed, a client without the
    token gets no further than the layers: on [/mcp] it is answered 401 or
    429 and nothing else; and until a client with the token has asked to
    [initialize], no tool runs and nothing they share is touched. *)
Theorem concurrent_clients_gated (schedule : list (nat * event)) (s : shared) :
  initialized (Http.session st0) = false -> turns schedule (start requests st0) = Some s ->
  (forall i r g, k_tasks s !! i = Some (r, g) ->
     requests !! i = Some r
     /\ (~ authorized token r ->
         g = Arrived \/ exists resp, g = Answered resp None
                       /\ (Http.req_path r = "/mcp" ->
                           Http.status resp = Http.UNAUTHORIZED \/ Http.status resp = Http.TOO_MANY_REQUESTS)))
  /\ (asked_to_open
      \/ world (session s) = world (Http.session st0)
         /\ map_Forall (fun _ rg => running (snd rg) = false) (k_tasks s)).
Proof.
  intros H0 Hi%serving_turns. split.
  - intros i r g Hg. destruct (inv_tasks s Hi i r g Hg) as (Hr & [Hau Hok] & _). split; [done|].
    intros Hno. destruct g as [| | | |resp [|]|]; try (by destruct (Hno (Hau eq_refl))); [by left|].
    right. exists resp. split; [done|]. intros Hp. by apply Hok.
  - destruct (initialized (session s)) eqn:Hin.
    + left. destruct (inv_gate s Hi Hin) as [?|?]; [congruence|done].
    + right. split; [by apply (inv_world s Hi)|]. intros i [r g] Hg. cbn.
      destruct (running g) eqn:Hr; [|done].
      destruct (inv_tasks s Hi i r g Hg) as (_ & _ & Hrun). by rewrite Hrun in Hin.
Qed.

End clients.

(** ** A concrete run *)

(** Two bodies: one asks to initialize, the others call the echo tool. *)
Definition clients_decode (bs : list byte) : result JsonRpcError JsonRpcMessage :=
  Ok (Request (if decide (bs = as_bytes "init") then JsonRpcRequest_new (IdNumber 0) "initialize" None
               else echo_request)).
Definition client (authorization body : string) : Http.HttpRequest unit :=
  {| Http.req_ip := tt; Http.req_verb := "POST"; Http.req_path := "/mcp";
     Http.req_authorization := Some (as_bytes authorization); Http.req_body := Ok (as_bytes body) |}.
Definition three_clients : gmap nat (Http.HttpRequest unit) :=
  {[0 := client "Bearer secret" "init"; 1 := client "Bearer secret" "call"; 2 := client "Bearer guess" "init"]}.
#[local] Abbreviation example_turns :=
  (turns clients_decode (fun _ => EmptyString) echo_call_params smoke_registry Http.example_to_vec
     Http.example_to_str Http.example_ct_eq (fun _ l => (true, l)) []).
#[local] Abbreviation after_turns schedule :=
  (default (start ∅ Http.example_state) (example_turns schedule (start three_clients Http.example_state))).
(** The call is dispatched before the initialize is answered, and answered
    first. *)
Definition crossed : list (nat * event (W := unit)) :=
  [(2, Goes); (0, Goes); (0, Goes); (1, Goes); (1, Goes); (1, Works tt); (1, Returns (Ok JNull));
   (1, Goes); (0, Goes)].

Lemma concurrent_clients_gated_witness :
  let s := after_turns [(2, Goes); (1, Goes); (1, Goes)] in
  let refused := Http.into_response Http.UNAUTHORIZED "unauthorized" in
  k_tasks s !! 2 = Some (client "Bearer guess" "init", Answered refused None)
  /\ exists resp, (Answered refused None : stage) = Answered resp None
       /\ (Http.status resp = Http.UNAUTHORIZED \/ Http.status resp = Http.TOO_MANY_REQUESTS).
Proof.
  intros s refused.
  assert (k_tasks s !! 2 = Some (client "Bearer guess" "init", Answered refused None)) as H2 by by vm_compute.
  split; [exact H2|].
  destruct (proj1 (concurrent_clients_gated clients_decode (fun _ => EmptyString) echo_call_params
    smoke_registry Http.example_to_vec Http.example_to_str Http.example_ct_eq (fun _ l => (true, l)) []
    (fun a b => eq_refl) three_clients Http.example_state [(2, Goes); (1, Goes); (1, Goes)] s eq_refl
    ltac:(by vm_compute)) 2 _ _ H2) as [_ Hno].
  destruct (Hno ltac:(vm_compute; discriminate)) as [?|(resp & He & Hr)]; [done|].
  exists resp. split; [exact He|]. exact (Hr eq_refl).
Defined.

(** A client that goes away while its tool runs: the tool has run, and the
    audit trail does not know. *)
Example unaudited_call :
  let s := after_turns [(0, Goes); (0, Goes); (0, Goes); (1, Goes); (1, Goes); (1, Works tt); (1, Drops)] in
  ev_method <$> audit (Http.session (k_state s)) = ["initialize"]
  /\ k_tasks s !! 1 = Some (client "Bearer secret" "call", Gone).
Proof. by vm_compute. Qed.
