(* ===== verification/FileStore.v ===== *)
(** * Files written atomically

    The disk the two file-backed stores share their idiom on: [write_atomic]
    of secrets/src/file_store.rs and connection-profiles/src/metadata_store.rs
    (the two are the same code over two error types), one system call per
    line, any of which may fail, and the [read_file]/[write_file] pair over a
    map that serde_json parses and prints. *)
From S2P Require Import Prelude RustStr.

Record file := { f_contents : list byte; f_mode : Z }.

(** [faults]: for each coming system call, [Some n] makes it fail (a write
    after [n] bytes reached the file); past the end of the list none does. *)
Record disk := { files : gmap string file; faults : list (option nat) }.

Definition set_files (fs : gmap string file) (d : disk) : disk :=
  {| files := fs; faults := faults d |}.

(** The permission bits of a file a process creates. *)
Definition default_mode : Z := 384.
(** [0o600] *)
Definition OWNER_ONLY : Z := 384.

Inductive syscall :=
  | CreateDirAll
  | CreateTemp (tmp : string)
  | WriteAll (p : string) (bytes : list byte)
  | SyncAll (p : string)
  | SetPermissions (p : string) (mode : Z)
  | Rename (p q : string).

(** What a call that succeeds does to the files; directories are not files. *)
Definition sys_effect (c : syscall) (fs : gmap string file) : gmap string file :=
  match c with
  | CreateDirAll | SyncAll _ => fs
  | CreateTemp tmp => <[tmp := {| f_contents := []; f_mode := default_mode |}]> fs
  | WriteAll p bytes =>
      alter (fun f => {| f_contents := f_contents f ++ bytes; f_mode := f_mode f |}) p fs
  | SetPermissions p mode => alter (fun f => {| f_contents := f_contents f; f_mode := mode |}) p fs
  | Rename p q => match fs !! p with Some f => <[q := f]> (delete p fs) | None => fs end
  end.
(** What one that fails may have done before. *)
Definition sys_partial (n : nat) (c : syscall) (fs : gmap string file) : gmap string file :=
  match c with WriteAll p bytes => sys_effect (WriteAll p (take n bytes)) fs | _ => fs end.

Section fs.
Context {E : Type}.
(** [From<std::io::Error>] of the store's error type. *)
Context (Io : E).
(** The name [NamedTempFile::new_in] picks: one that is not taken. *)
Context (temp_name : gmap string file -> string).

Definition sys (c : syscall) : eff disk E unit := fun d =>
  match faults d with
  | Some n :: rest => (Err Io, {| files := sys_partial n c (files d); faults := rest |})
  | None :: rest => (Ok tt, {| files := sys_effect c (files d); faults := rest |})
  | [] => (Ok tt, {| files := sys_effect c (files d); faults := [] |})
  end.

(** Dropping a [NamedTempFile] that was not persisted removes it. *)
Definition drop_temp {A} (tmp : string) (m : eff disk E A) : eff disk E A := fun d =>
  match m d with
  | (Ok a, d) => (Ok a, d)
  | (Err e, d) => (Err e, set_files (delete tmp (files d)) d)
  end.

Definition set_owner_only_permissions (p : string) : eff disk E unit :=
  sys (SetPermissions p OWNER_ONLY).

Definition write_atomic (path : string) (contents : list byte) : eff disk E unit :=
  _ ← sys CreateDirAll;
  tmp ← gets (fun d => temp_name (files d));
  _ ← sys (CreateTemp tmp);
  drop_temp tmp (
    _ ← sys (WriteAll tmp contents);
    _ ← sys (SyncAll tmp);
    _ ← set_owner_only_permissions tmp;
    sys (Rename tmp path)).

(** [std::fs::read] *)
Definition read (path : string) : eff disk E (list byte) := fun d =>
  match faults d with
  | Some _ :: rest => (Err Io, {| files := files d; faults := rest |})
  | _ => match files d !! path with
         | Some f => (Ok (f_contents f), {| files := files d; faults := tail (faults d) |})
         | None => (Err Io, {| files := files d; faults := tail (faults d) |})
         end
  end.

Section store.
(** The map of the file, with serde_json's parser and pretty printer. *)
Context {V : Type}.
Context (from_slice : list byte -> result string (gmap string V)).
Context (to_vec_pretty : gmap string V -> result string (list byte)).
Context (parse_failed print_failed : string -> E).

Definition read_file (path : string) : eff disk E (gmap string V) :=
  exists_ ← gets (fun d => bool_decide (is_Some (files d !! path)));
  if negb exists_ then mret ∅ else
  bytes ← read path;
  match bytes with
  | [] => mret ∅
  | _ => lift (map_err parse_failed (from_slice bytes))
  end.

Definition write_file (path : string) (f : gmap string V) : eff disk E unit :=
  json ← lift (map_err print_failed (to_vec_pretty f));
  write_atomic path json.
End store.
End fs.

(** ** The calls of a write, one by one *)

(** The system calls [write_atomic] makes when none fails. *)
Definition write_atomic_calls (tmp path : string) (contents : list byte) : list syscall :=
  [CreateDirAll; CreateTemp tmp; WriteAll tmp contents; SyncAll tmp;
   SetPermissions tmp OWNER_ONLY; Rename tmp path].

(** What is on disk if the process dies during the [k]th of the calls [cs],
    [n] bytes into it when it is a write. *)
Fixpoint crash (k n : nat) (cs : list syscall) (fs : gmap string file) {struct cs}
  : gmap string file :=
  match cs, k with
  | [], _ => fs
  | c :: _, 0 => sys_partial n c fs
  | c :: cs', S k' => crash k' n cs' (sys_effect c fs)
  end.

Definition written (contents : list byte) : file :=
  {| f_contents := contents; f_mode := OWNER_ONLY |}.

Section atomic.
Context {E : Type} (Io : E) (temp_name : gmap string file -> string).

Definition temp_is_fresh : Prop := forall fs, fs !! temp_name fs = None.

Lemma sys_cases c d :
  (exists rest, sys Io c d = (Ok tt, {| files := sys_effect c (files d); faults := rest |}))
  \/ exists n rest, sys Io c d = (Err Io, {| files := sys_partial n c (files d); faults := rest |}).
Proof. unfold sys. destruct (faults d) as [|[n|] rest]; eauto. Qed.

(** The calls after the temporary file exists touch nothing but it, the
    rename apart. *)
Lemma sys_effect_other c fs tmp q :
  (c = CreateTemp tmp \/ (exists b, c = WriteAll tmp b) \/ c = SyncAll tmp
   \/ (exists m, c = SetPermissions tmp m) \/ c = CreateDirAll) ->
  q <> tmp -> sys_effect c fs !! q = fs !! q /\ forall n, sys_partial n c fs !! q = fs !! q.
Proof.
  intros [->|[[b ->]|[->|[[m ->]| ->]]]] Hq; cbn; try done.
  - by rewrite lookup_insert_ne.
  - split; [by rewrite lookup_alter_ne|]. intros n. by rewrite lookup_alter_ne.
  - split; [by rewrite lookup_alter_ne|done].
Qed.

Lemma written_temp tmp contents fs :
  sys_effect (SetPermissions tmp OWNER_ONLY) (sys_effect (SyncAll tmp)
    (sys_effect (WriteAll tmp contents) (sys_effect (CreateTemp tmp) (sys_effect CreateDirAll fs))))
  = <[tmp := written contents]> fs.
Proof.
  cbn. apply map_eq. intros i. destruct (decide (i = tmp)) as [->|Hi].
  - by rewrite !lookup_alter_eq, !lookup_insert_eq.
  - by rewrite !lookup_alter_ne, !lookup_insert_ne by done.
Qed.

Ltac sys_step :=
  rewrite eff_bind_eq;
  match goal with |- context [sys Io ?c ?d] =>
    let f := fresh "f" in let n := fresh "n" in
    destruct (sys_cases c d) as [[f ->]|(n & f & ->)]; cbn -[sys sys_effect sys_partial]
  end.

Lemma write_atomic_spec path contents d r d' :
  temp_is_fresh -> write_atomic Io temp_name path contents d = (r, d') ->
  files d' = match r with Ok _ => <[path := written contents]> (files d) | Err _ => files d end.
Proof.
  intros Hfresh. specialize (Hfresh (files d)). unfold write_atomic, set_owner_only_permissions.
  sys_step; [|by intros [= <- <-]]. rewrite eff_bind_eq. unfold gets. cbn -[sys sys_effect].
  set (tmp := temp_name (files d)) in *.
  sys_step; [|by intros [= <- <-]]. unfold drop_temp.
  assert (forall fs, (forall q, q <> tmp -> fs !! q = files d !! q) -> delete tmp fs = files d) as Hdel.
  { intros fs Hfs. apply map_eq. intros i. destruct (decide (i = tmp)) as [->|Hi].
    - by rewrite lookup_delete_eq, Hfresh.
    - rewrite lookup_delete_ne by done. by apply Hfs. }
  do 3 (sys_step; [|intros [= <- <-]; apply Hdel; intros q Hq; cbn;
                    by rewrite ?lookup_alter_ne, ?lookup_insert_ne]).
  match goal with |- context [sys Io ?c ?d] =>
    destruct (sys_cases c d) as [[f4 ->]|(n4 & f4 & ->)] end; cbn -[sys_effect];
    intros [= <- <-]; cbn -[sys_effect].
  - pose proof (written_temp tmp contents (files d)) as Hw. cbn in Hw |- *. subst tmp.
    rewrite Hw, lookup_insert_eq. f_equal. apply Hdel. intros q Hq. by rewrite lookup_insert_ne.
  - apply Hdel. intros q Hq. cbn. by rewrite ?lookup_alter_ne, ?lookup_insert_ne.
Qed.

(** C21: a write of the store file is atomic, whatever fails and whenever the
    process dies: after a crash inside any of the system calls the file
    holds its old content or, whole and readable by its owner only, the new
    one, and no other file than the temporary one has changed; and a write
    that returns says which: [Ok] exactly for the new content in place, an
    error exactly for a disk that is as it was. *)
Theorem write_atomic_atomic (path : string) (contents : list byte) (d : disk) (k n : nat) :
  temp_is_fresh -> path <> temp_name (files d) ->
  let fs := crash k n (write_atomic_calls (temp_name (files d)) path contents) (files d) in
  (fs !! path = files d !! path \/ fs !! path = Some (written contents))
  /\ (forall q, q <> path -> q <> temp_name (files d) -> fs !! q = files d !! q)
  /\ let '(r, d') := write_atomic Io temp_name path contents d in
     files d' = match r with
                | Ok _ => <[path := written contents]> (files d)
                | Err _ => files d
                end.
Proof.
  intros Hfresh Hne fs. split_and!.
  3: { destruct (write_atomic _ _ _ _ _) as [r d'] eqn:Hw. by eapply write_atomic_spec. }
  all: set (tmp := temp_name (files d)) in *; unfold write_atomic_calls in fs.
  - pose proof (written_temp tmp contents (files d)) as Hw.
    destruct k as [|[|[|[|[|[|k]]]]]]; cbn -[sys_effect] in fs; subst fs.
    6, 7: cbn in Hw |- *; subst tmp; rewrite ?Hw.
    6: left; by rewrite lookup_insert_ne.
    6: right; by rewrite !lookup_insert_eq.
    all: left; cbn; by rewrite ?lookup_alter_ne, ?lookup_insert_ne.
  - intros q Hq Ht.
    destruct k as [|[|[|[|[|[|k]]]]]]; cbn -[sys_effect] in fs; subst fs.
    7: pose proof (written_temp tmp contents (files d)) as Hw; cbn in Hw |- *; subst tmp; rewrite Hw;
      by rewrite lookup_insert_eq, lookup_insert_ne, lookup_delete_ne, lookup_insert_ne.
    all: cbn; by rewrite ?lookup_alter_ne, ?lookup_insert_ne.
Qed.
End atomic.

(** A name that is not taken. *)
Definition fresh_name (fs : gmap string file) : string := fresh (map_to_list fs).*1.

Lemma fresh_name_is_fresh : temp_is_fresh fresh_name.
Proof.
  intros fs. apply eq_None_not_Some. intros [f Hf].
  apply (infinite_is_fresh (map_to_list fs).*1). apply list_elem_of_fmap.
  exists (fresh_name fs, f). split; [done|]. by apply elem_of_map_to_list.
Qed.

Lemma write_atomic_atomic_witness :
  let old := {| f_contents := [Byte.x61]; f_mode := 384 |} in
  let d := {| files := {["store" := old]}; faults := [None; None; Some 1] |} in
  let fs := crash 2 1 (write_atomic_calls (fresh_name (files d)) "store" [Byte.x62; Byte.x63]) (files d) in
  "store" <> fresh_name (files d)
  /\ (fs !! "store" = Some old \/ fs !! "store" = Some (written [Byte.x62; Byte.x63])).
Proof.
  intros old d fs.
  assert ("store" <> fresh_name (files d)) as Hne.
  { intros Heq. pose proof (fresh_name_is_fresh (files d)) as Hf. rewrite <-Heq in Hf.
    discriminate Hf. }
  split; [exact Hne|].
  exact (proj1 (write_atomic_atomic (E := unit) tt fresh_name "store" [Byte.x62; Byte.x63] d 2 1
                  fresh_name_is_fresh Hne)).
Defined.

(** ** The store of a map in such a file *)

Section map_file.
Context {E V : Type} (Io : E) (temp_name : gmap string file -> string).
Context (from_slice : list byte -> result string (gmap string V)).
Context (to_vec_pretty : gmap string V -> result string (list byte)).
Context (parse_failed print_failed : string -> E).

(** What serde_json gives: what was printed parses back, and is not empty. *)
Class Prints : Prop := {
  prints_back : forall f bs, to_vec_pretty f = Ok bs -> from_slice bs = Ok f;
  prints_something : forall f, to_vec_pretty f <> Ok [];
}.

(** The map in the file at [path]; a file that is missing or empty holds the
    empty one, one that does not parse none. *)
Definition stored (path : string) (d : disk) : option (gmap string V) :=
  match files d !! path with
  | None => Some ∅
  | Some f => match f_contents f with
              | [] => Some ∅
              | bs => result_ok (from_slice bs)
              end
  end.

Lemma read_file_spec path d r d' :
  read_file Io from_slice parse_failed path d = (r, d') ->
  files d' = files d /\ forall f, r = Ok f -> stored path d = Some f.
Proof using Type.
  unfold read_file, read, stored, lift, gets, mret, eff_ret. rewrite eff_bind_eq. cbn.
  destruct (files d !! path) as [f|] eqn:Hf; cbn; [|by intros [= <- <-]; split; [|intros ? [= <-]]].
  rewrite eff_bind_eq. cbn. rewrite Hf.
  destruct (faults d) as [|[n|] rest]; cbn; [|by intros [= <- <-]; split; [|intros ? [=]]|];
    (destruct (f_contents f) as [|b bs]; intros [= <- <-]; (split; [done|]); intros m;
     [by intros [= <-]|]; by destruct (from_slice (b :: bs)); intros [= <-]).
Qed.

Lemma write_file_spec `{Prints} path f d r d' :
  temp_is_fresh temp_name ->
  write_file Io temp_name to_vec_pretty print_failed path f d = (r, d') ->
  match r with Ok _ => stored path d' = Some f | Err _ => files d' = files d end.
Proof.
  intros Hfresh. unfold write_file. eff_simpl.
  destruct (to_vec_pretty f) as [bs|e] eqn:Hp; cbn; [|by intros [= <- <-]].
  intros Hw. pose proof (write_atomic_spec Io temp_name path bs d r d' Hfresh Hw) as Hd.
  destruct r as [[]|e]; [|done]. unfold stored. rewrite Hd, lookup_insert_eq. cbn.
  destruct bs as [|b bs]; [by apply prints_something in Hp|]. by rewrite (prints_back f _ Hp).
Qed.

Lemma sys_error c d e d' : sys Io c d = (Err e, d') -> e = Io.
Proof. destruct (sys_cases Io c d) as [[f ->]|(n & f & ->)]; by intros [= <- <-]. Qed.

(** The errors a call can return. *)
Lemma read_file_error path d e d' :
  read_file Io from_slice parse_failed path d = (Err e, d') ->
  e = Io \/ exists s, e = parse_failed s.
Proof using Type.
  unfold read_file, read, lift, gets, mret, eff_ret. rewrite eff_bind_eq.
  cbn. destruct (files d !! path) as [f|] eqn:Hf; cbn; [|done].
  rewrite eff_bind_eq. cbn. rewrite Hf.
  destruct (faults d) as [|[n|] rest]; cbn; [|intros [= <- <-]; by left|];
    (destruct (f_contents f) as [|b bs]; [done|]; destruct (from_slice (b :: bs)); cbn;
     intros [= <- <-]; eauto).
Qed.

Lemma write_atomic_error path contents d e d' :
  write_atomic Io temp_name path contents d = (Err e, d') -> e = Io.
Proof using Type.
  unfold write_atomic, set_owner_only_permissions, drop_temp, gets. rewrite eff_bind_eq.
  destruct (sys _ CreateDirAll d) as [[[]|e1] d1] eqn:H1; [|intros [= <- <-]; by eapply sys_error].
  rewrite eff_bind_eq. cbn -[sys]. rewrite eff_bind_eq.
  destruct (sys _ _ d1) as [[[]|e2] d2] eqn:H2; [|intros [= <- <-]; by eapply sys_error].
  rewrite eff_bind_eq.
  destruct (sys _ _ d2) as [[[]|e3] d3] eqn:H3; [|intros [= <- <-]; by eapply sys_error].
  rewrite eff_bind_eq.
  destruct (sys _ _ d3) as [[[]|e4] d4] eqn:H4; [|intros [= <- <-]; by eapply sys_error].
  rewrite eff_bind_eq.
  destruct (sys _ _ d4) as [[[]|e5] d5] eqn:H5; [|intros [= <- <-]; by eapply sys_error].
  destruct (sys _ _ d5) as [[[]|e6] d6] eqn:H6; intros [= <- <-]. by eapply sys_error.
Qed.

Lemma write_file_error path f d e d' :
  write_file Io temp_name to_vec_pretty print_failed path f d = (Err e, d') ->
  e = Io \/ exists s, e = print_failed s.
Proof using Type.
  unfold write_file, lift. rewrite eff_bind_eq.
  destruct (to_vec_pretty f) as [bs|s]; cbn; [|intros [= <- <-]; eauto].
  intros ?%write_atomic_error. auto.
Qed.

Lemma stored_files path d d' : files d' = files d -> stored path d' = stored path d.
Proof. unfold stored. by intros ->. Qed.
End map_file.

(** ** A printer and parser that satisfy [Prints] *)

Section example_serde.
Context {V : Type} `{Countable V}.

Fixpoint bits (p : positive) : list byte :=
  match p with
  | xH => []
  | xO p => Byte.x30 :: bits p
  | xI p => Byte.x31 :: bits p
  end.
Fixpoint of_bits (bs : list byte) : positive :=
  match bs with
  | [] => xH
  | Byte.x31 :: bs => xI (of_bits bs)
  | _ :: bs => xO (of_bits bs)
  end.

Definition print_map (f : gmap string V) : result string (list byte) :=
  Ok (Byte.x7b :: bits (encode f)).
Definition parse_map (bs : list byte) : result string (gmap string V) :=
  ok_or "not a map" (decode (of_bits (tail bs))).

Lemma of_bits_bits p : of_bits (bits p) = p.
Proof. by induction p as [p IH|p IH|]; cbn; rewrite ?IH. Qed.

Lemma parse_print : Prints parse_map print_map.
Proof.
  split; [|done]. intros f bs [= <-]. unfold parse_map. cbn. by rewrite of_bits_bits, decode_encode.
Qed.
End example_serde.
