(* ===== verification/Secrets.v ===== *)
(** * The encrypted secret store (crates/secrets)

    [SecretStore] is the trait of store.rs as a class, with the laws its
    clients may rely on; the rest is master_key.rs and file_store.rs.  The
    cipher, base64, hex and the random source are parameters. *)
From S2P Require Import Prelude RustStr FileStore.

Definition MASTER_KEY_ENV_VAR : string := "DB_HEADLESS_MASTER_KEY".
Definition KEY_LEN_BYTES : nat := 32.
Definition NONCE_LEN_BYTES : nat := 12.

(** ** error.rs *)

Inductive SecretError :=
  | Io
  | MissingMasterKey
  | InvalidMasterKey (reason : string)
  | EmptyKey
  | EncryptionFailed (key : string)
  | DecryptionFailed (key : string)
  | Corrupted (reason : string).

(** ** store.rs *)

(** The trait; the secrets are the exposed strings. *)
Class SecretStore (S : Type) := {
  store_get : string -> eff S SecretError (option string);
  store_set : string -> string -> eff S SecretError unit;
  store_delete : string -> eff S SecretError unit;
}.

(** What it promises: the store is a map of secrets; reading does not change
    it and returns what it holds, a write either happens or leaves it alone. *)
Class SecretStoreLaws (S : Type) `{SecretStore S} := {
  view : S -> gmap string string;
  get_law : forall k s,
    let '(r, s') := store_get k s in
    view s' = view s /\ forall o, r = Ok o -> o = view s !! k;
  set_law : forall k v s,
    let '(r, s') := store_set k v s in
    view s' = match r with Ok _ => <[k := v]> (view s) | Err _ => view s end;
  delete_law : forall k s,
    let '(r, s') := store_delete k s in
    view s' = match r with Ok _ => delete k (view s) | Err _ => view s end;
}.

(** ** master_key.rs *)

Section master_key.
(** [hex::decode], and [env::var]. *)
Context (hex_decode : string -> option (list byte)).
Context (env_var : string -> option string).

Definition from_hex (hex_str : string) : result SecretError (list byte) :=
  decoded ← ok_or (InvalidMasterKey "master key must be valid hex") (hex_decode (trim hex_str));
  if decide (length decoded = KEY_LEN_BYTES) then Ok decoded
  else Err (InvalidMasterKey ("master key must decode to " +:+ pretty (Z.of_nat KEY_LEN_BYTES)
                              +:+ " bytes, got " +:+ pretty (Z.of_nat (length decoded)))).

Definition from_env : result SecretError (list byte) :=
  raw ← ok_or MissingMasterKey (env_var MASTER_KEY_ENV_VAR);
  from_hex raw.
End master_key.

(** ** file_store.rs *)

Module EncryptedFile.

Record StoredSecret := { nonce : string; ciphertext : string }.
Abbreviation StoreFile := (gmap string StoredSecret).

Record world := { disk_ : disk; rng : Z }.

Definition on_disk {A} (m : eff disk SecretError A) : eff world SecretError A := fun w =>
  let '(r, d) := m (disk_ w) in (r, {| disk_ := d; rng := rng w |}).

Definition validate_key (key : string) : result SecretError unit :=
  if is_empty key then Err EmptyKey else Ok tt.

Section file_store.
Context (path : string).
(** The cipher under the master key: AES-256-GCM by nonce. *)
Context (cipher_encrypt : list byte -> list byte -> option (list byte)).
Context (cipher_decrypt : list byte -> list byte -> option (list byte)).
(** base64, the OS random source, and [String::from_utf8]. *)
Context (b64_encode : list byte -> string) (b64_decode : string -> option (list byte)).
Context (fill_bytes : Z -> list byte * Z).
Context (from_utf8 : list byte -> option string).
Context (temp_name : gmap string file -> string).
Context (from_slice : list byte -> result string StoreFile).
Context (to_vec_pretty : StoreFile -> result string (list byte)).

Definition read_file : eff world SecretError StoreFile :=
  on_disk (FileStore.read_file Io from_slice
    (fun source => Corrupted ("failed to parse secret store file: " +:+ source)) path).
Definition write_file (f : StoreFile) : eff world SecretError unit :=
  on_disk (FileStore.write_file Io temp_name to_vec_pretty
    (fun source => Corrupted ("failed to serialize secret store file: " +:+ source)) path f).

Definition encrypt (key : string) (plaintext : list byte) : eff world SecretError StoredSecret :=
  fun w =>
  let '(nonce_bytes, r) := fill_bytes (rng w) in
  (match cipher_encrypt nonce_bytes plaintext with
   | Some ciphertext =>
       Ok {| nonce := b64_encode nonce_bytes; ciphertext := b64_encode ciphertext |}
   | None => Err (EncryptionFailed key)
   end, {| disk_ := disk_ w; rng := r |}).

Definition decrypt (key : string) (stored : StoredSecret) : result SecretError (list byte) :=
  nonce_bytes ← ok_or (Corrupted ("nonce for key '" +:+ key +:+ "' is not valid base64"))
                  (b64_decode (nonce stored));
  ciphertext ← ok_or (Corrupted ("ciphertext for key '" +:+ key +:+ "' is not valid base64"))
                 (b64_decode (ciphertext stored));
  if decide (length nonce_bytes = NONCE_LEN_BYTES) then
    ok_or (DecryptionFailed key) (cipher_decrypt nonce_bytes ciphertext)
  else Err (Corrupted ("nonce for key '" +:+ key +:+ "' has the wrong length")).

Definition get (key : string) : eff world SecretError (option string) :=
  _ ← lift (validate_key key);
  file ← read_file;
  match file !! key with
  | None => mret None
  | Some stored =>
      plaintext ← lift (decrypt key stored);
      text ← lift (ok_or (DecryptionFailed key) (from_utf8 plaintext));
      mret (Some text)
  end.

Definition set (key : string) (value : string) : eff world SecretError unit :=
  _ ← lift (validate_key key);
  file ← read_file;
  stored ← encrypt key (as_bytes value);
  write_file (<[key := stored]> file).

Definition delete (key : string) : eff world SecretError unit :=
  _ ← lift (validate_key key);
  file ← read_file;
  write_file (base.delete key file).

(** ** The store as a map of secrets *)

(** The secret an entry holds, if it can be decrypted. *)
Definition secret_of (stored : StoredSecret) : option string :=
  plaintext ← result_ok (decrypt "" stored);
  from_utf8 plaintext.
(** The readable secrets on disk; a file that does not parse has none. *)
Definition secrets_on_disk (w : world) : gmap string string :=
  match stored from_slice path (disk_ w) with
  | Some f => omap secret_of f
  | None => ∅
  end.

(** The documented behaviour of the parameters: decryption and decoding
    invert encryption and encoding, and a nonce is twelve bytes. *)
Record crypto_ok : Prop := {
  decrypt_encrypt : forall n p c, cipher_encrypt n p = Some c -> cipher_decrypt n c = Some p;
  b64_inverse : forall bs, b64_decode (b64_encode bs) = Some bs;
  nonce_length : forall r, length (fst (fill_bytes r)) = NONCE_LEN_BYTES;
  utf8_inverse : forall s, from_utf8 (as_bytes s) = Some s;
  fresh_temp : temp_is_fresh temp_name;
  serde_inverse : Prints from_slice to_vec_pretty;
}.

Lemma decrypt_key k stored p : decrypt k stored = Ok p -> decrypt "" stored = Ok p.
Proof.
  unfold decrypt. destruct (b64_decode (nonce stored)); cbn; [|done].
  destruct (b64_decode (ciphertext stored)); cbn; [|done].
  case_decide; [|done]. by destruct (cipher_decrypt _ _).
Qed.

Lemma read_file_world w r w' :
  read_file w = (r, w') ->
  files (disk_ w') = files (disk_ w)
  /\ forall f, r = Ok f -> stored from_slice path (disk_ w) = Some f.
Proof.
  unfold read_file, on_disk. destruct (FileStore.read_file _ _ _ _ _) as [r0 d] eqn:H.
  intros [= <- <-]. by apply read_file_spec in H.
Qed.

Lemma secrets_same_files w w' :
  files (disk_ w') = files (disk_ w) -> secrets_on_disk w' = secrets_on_disk w.
Proof. unfold secrets_on_disk. intros H. by rewrite (stored_files from_slice path _ _ H). Qed.

Lemma write_file_world f w r w' :
  crypto_ok -> write_file f w = (r, w') ->
  match r with
  | Ok _ => secrets_on_disk w' = omap secret_of f
  | Err _ => secrets_on_disk w' = secrets_on_disk w
  end.
Proof.
  intros Hok. unfold write_file, on_disk.
  destruct (FileStore.write_file _ _ _ _ _ _ _) as [r0 d] eqn:H. intros [= <- <-].
  apply (write_file_spec Io temp_name from_slice) in H; [|apply serde_inverse, Hok|apply Hok].
  destruct r0 as [u|e]; [|by apply secrets_same_files].
  unfold secrets_on_disk. cbn. by rewrite H.
Qed.

Lemma get_spec k w :
  let '(r, w') := get k w in
  secrets_on_disk w' = secrets_on_disk w /\ forall o, r = Ok o -> o = secrets_on_disk w !! k.
Proof.
  unfold get, lift. rewrite eff_bind_eq. destruct (validate_key k); cbn; [|naive_solver].
  rewrite eff_bind_eq. destruct (read_file w) as [[f|e] w1] eqn:Hr;
    apply read_file_world in Hr as [Hf Hs]; [|split; [by apply secrets_same_files|done]].
  assert (secrets_on_disk w !! k = f !! k ≫= secret_of) as Hv.
  { unfold secrets_on_disk. by rewrite (Hs f eq_refl), lookup_omap. }
  rewrite Hv. destruct (f !! k) as [st|] eqn:Hk; cbn.
  2: { split; [by apply secrets_same_files|naive_solver]. }
  rewrite eff_bind_eq. unfold secret_of.
  destruct (decrypt k st) as [p|e] eqn:Hd; [|split; [by apply secrets_same_files|done]].
  rewrite (decrypt_key _ _ _ Hd). rewrite eff_bind_eq. cbn.
  destruct (from_utf8 p); cbn; (split; [by apply secrets_same_files|naive_solver]).
Qed.

Lemma set_spec k v w :
  crypto_ok ->
  let '(r, w') := set k v w in
  secrets_on_disk w'
  = match r with Ok _ => <[k := v]> (secrets_on_disk w) | Err _ => secrets_on_disk w end.
Proof.
  intros Hok. unfold set, lift. rewrite eff_bind_eq. destruct (validate_key k); cbn; [|naive_solver].
  rewrite eff_bind_eq. destruct (read_file w) as [[f|e] w1] eqn:Hr;
    apply read_file_world in Hr as [Hf Hs]; [|by apply secrets_same_files].
  rewrite eff_bind_eq. unfold encrypt.
  pose proof (nonce_length Hok (rng w1)) as Hn. destruct (fill_bytes (rng w1)) as [n g].
  destruct (cipher_encrypt n (as_bytes v)) as [c|] eqn:Hc; [|by apply secrets_same_files].
  destruct (write_file _ _) as [r w2] eqn:Hw. apply write_file_world in Hw; [|done].
  destruct r as [u|e]; rewrite Hw; [|by apply (secrets_same_files w)].
  unfold secrets_on_disk. rewrite (Hs f eq_refl). rewrite omap_insert.
  unfold secret_of at 1, decrypt. cbn. rewrite !(b64_inverse Hok). cbn. cbn in Hn.
  rewrite decide_True by done. rewrite (decrypt_encrypt Hok _ _ _ Hc). cbn.
  by rewrite (utf8_inverse Hok).
Qed.

Lemma delete_spec k w :
  crypto_ok ->
  let '(r, w') := delete k w in
  secrets_on_disk w'
  = match r with Ok _ => base.delete k (secrets_on_disk w) | Err _ => secrets_on_disk w end.
Proof.
  intros Hok. unfold delete, lift. rewrite eff_bind_eq. destruct (validate_key k); cbn; [|naive_solver].
  rewrite eff_bind_eq. destruct (read_file w) as [[f|e] w1] eqn:Hr;
    apply read_file_world in Hr as [Hf Hs]; [|by apply secrets_same_files].
  destruct (write_file _ _) as [r w2] eqn:Hw. apply write_file_world in Hw; [|done].
  destruct r as [u|e]; rewrite Hw; [|by apply (secrets_same_files w)].
  unfold secrets_on_disk. rewrite (Hs f eq_refl). by rewrite omap_delete.
Qed.

(** The file store implements the interface. *)
#[local] Instance file_store : SecretStore world :=
  {| store_get := get; store_set := set; store_delete := delete |}.
Definition file_store_laws (Hok : crypto_ok) : SecretStoreLaws world :=
  {| view := secrets_on_disk; get_law := get_spec; set_law k v w := set_spec k v w Hok;
     delete_law k w := delete_spec k w Hok |}.

(** C5: the encrypted file is a map of secrets whatever I/O fails: a secret
    that was set is the one read back, under any number of sets and deletes
    of other keys in between; a call that fails leaves every secret as it
    was; and an empty key is always refused without touching the disk. *)
Theorem store_is_a_map (k k' v : string) (w : world) :
  crypto_ok ->
  (let '(r, w1) := set k v w in
   is_ok r = true ->
   forall w2, secrets_on_disk w2 !! k = secrets_on_disk w1 !! k ->
   forall o, fst (get k w2) = Ok o -> o = Some v)
  /\ (let '(r, w1) := set k v w in
      k' <> k \/ is_ok r = false -> secrets_on_disk w1 !! k' = secrets_on_disk w !! k')
  /\ (let '(r, w1) := delete k w in
      secrets_on_disk w1 !! k'
      = if decide (is_ok r = true /\ k' = k) then None else secrets_on_disk w !! k')
  /\ set "" v w = (Err EmptyKey, w) /\ get "" w = (Err EmptyKey, w)
  /\ delete "" w = (Err EmptyKey, w).
Proof.
  intros Hok. pose proof (set_spec k v w Hok) as Hset. pose proof (delete_spec k w Hok) as Hdel.
  destruct (set k v w) as [r w1], (delete k w) as [r' w1'].
  split; [|split; [|split; [|done]]].
  - intros Hr w2 H2 o Hg. pose proof (get_spec k w2) as Hget. destruct (get k w2) as [rg w3].
    destruct Hget as [_ Hget]. rewrite (Hget o Hg), H2, Hset. destruct r; [|done].
    apply lookup_insert_eq.
  - intros Hk. rewrite Hset. destruct r; [|done]. apply lookup_insert_ne. naive_solver.
  - rewrite Hdel. destruct r' as [u|e]; cbn.
    + destruct (decide (k' = k)) as [->|Hk].
      * rewrite decide_True by done. apply lookup_delete_eq.
      * rewrite decide_False by naive_solver. by apply lookup_delete_ne.
    + by rewrite decide_False by naive_solver.
Qed.
End file_store.

(** An entry store with a cipher that only reverses its input. *)
#[export] Instance StoredSecret_eq_dec : EqDecision StoredSecret.
Proof. solve_decision. Defined.
#[export] Instance StoredSecret_countable : Countable StoredSecret.
Proof.
  refine (inj_countable' (fun s => (nonce s, ciphertext s))
            (fun p => {| nonce := fst p; ciphertext := snd p |}) _).
  by intros [].
Defined.

Definition toy_from_utf8 (bs : list byte) : option string := Some (String.string_of_list_byte bs).
Definition toy_b64_decode (s : string) : option (list byte) := Some (as_bytes s).
Definition toy_fill (r : Z) : list byte * Z := (replicate NONCE_LEN_BYTES Byte.x00, r).

Lemma toy_crypto_ok :
  crypto_ok (fun _ p => Some (reverse p)) (fun _ c => Some (reverse c))
    String.string_of_list_byte toy_b64_decode toy_fill toy_from_utf8 fresh_name parse_map print_map.
Proof.
  split.
  - intros n p c [= <-]. by rewrite reverse_involutive.
  - intros bs. unfold toy_b64_decode, as_bytes. by rewrite String.list_byte_of_string_of_list_byte.
  - done.
  - intros s. unfold toy_from_utf8, as_bytes. by rewrite String.string_of_list_byte_of_string.
  - apply fresh_name_is_fresh.
  - apply parse_print.
Qed.

Lemma store_is_a_map_witness :
  let set := set "secrets.json" (fun _ p => Some (reverse p)) String.string_of_list_byte toy_fill
               fresh_name parse_map print_map in
  let w := {| disk_ := {| files := ∅; faults := [] |}; rng := 0 |} in
  set "" "pw" w = (Err EmptyKey, w).
Proof.
  intros set w.
  destruct (store_is_a_map "secrets.json" (fun _ p => Some (reverse p)) (fun _ c => Some (reverse c))
    String.string_of_list_byte toy_b64_decode toy_fill toy_from_utf8 fresh_name parse_map print_map
    "k" "other" "pw" w toy_crypto_ok) as (_ & _ & _ & H & _).
  exact H.
Defined.
End EncryptedFile.
