(* ===== verification/Profiles.v ===== *)
(** * Saved connection profiles (crates/connection-profiles)

    profile.rs, metadata_store.rs and manager.rs: the metadata in a plain
    JSON file written atomically, the password in an injected [SecretStore],
    of which only the interface is known here. *)
From S2P Require Import Prelude RustStr Core FileStore Secrets.

(** ** profile.rs *)

Record ConnectionProfile := {
  cp_name : string;
  cp_database_type : string;
  cp_host : string;
  cp_port : Z;
  cp_username : string;
  cp_database : option string;
  cp_ssl_mode : option SslMode;
  cp_read_only : bool;
  cp_has_password : bool;
  cp_created_at_unix_ms : Z;
  cp_updated_at_unix_ms : Z;
}.

(** ** error.rs *)

Inductive ProfileError :=
  | PIo
  | PCorrupted (reason : string)
  | EmptyName
  | NotFound (name : string)
  | Secret (e : SecretError).

(** ** metadata_store.rs *)

Abbreviation ProfileFile := (gmap string ConnectionProfile).

Definition key_le {V} (a b : string * V) : Prop := String.leb (fst a) (fst b) = true.
#[export] Instance key_le_dec {V} : RelDecision (@key_le V).
Proof. intros a b. unfold key_le. apply _. Defined.
(** The values of a [BTreeMap], in key order. *)
Definition into_values {V} (m : gmap string V) : list V := (merge_sort key_le (map_to_list m)).*2.

Section metadata_store.
Context (path : string).
Context (temp_name : gmap string file -> string).
Context (from_slice : list byte -> result string ProfileFile).
Context (to_vec_pretty : ProfileFile -> result string (list byte)).

Definition read_profiles : eff disk ProfileError ProfileFile :=
  read_file PIo from_slice
    (fun source => PCorrupted ("failed to parse connection profile store file: " +:+ source)) path.
Definition write_profiles : ProfileFile -> eff disk ProfileError unit :=
  write_file PIo temp_name to_vec_pretty
    (fun source => PCorrupted ("failed to serialize connection profile store file: " +:+ source))
    path.

Definition metadata_list : eff disk ProfileError (list ConnectionProfile) :=
  file ← read_profiles; mret (into_values file).
Definition metadata_get (name : string) : eff disk ProfileError (option ConnectionProfile) :=
  file ← read_profiles; mret (file !! name).
Definition metadata_upsert (profile : ConnectionProfile) : eff disk ProfileError unit :=
  file ← read_profiles;
  write_profiles (<[cp_name profile := profile]> file).
Definition metadata_remove (name : string) : eff disk ProfileError bool :=
  file ← read_profiles;
  let removed := bool_decide (is_Some (file !! name)) in
  _ ← write_profiles (delete name file);
  mret removed.
End metadata_store.

(** ** manager.rs *)

Record SaveProfileParams := {
  sp_name : string;
  sp_database_type : string;
  sp_host : string;
  sp_port : Z;
  sp_username : string;
  sp_password : option string;
  sp_database : option string;
  sp_ssl_mode : option SslMode;
  sp_read_only : option bool;
}.

Record ResolvedProfile := { rp_database_type : string; rp_config : ConnectionConfig }.

Definition secret_key (name : string) : string := "profile:" +:+ name +:+ ":password".

Definition validate_name (name : string) : result ProfileError unit :=
  if is_empty name then Err EmptyName else Ok tt.

Definition profile_le (a b : ConnectionProfile) : Prop := String.leb (cp_name a) (cp_name b) = true.
#[export] Instance profile_le_dec : RelDecision profile_le.
Proof. intros a b. unfold profile_le. apply _. Defined.

(** The manager's world: the disk with the metadata file, the secret store
    and the wall clock, in milliseconds since the epoch. *)
Record pworld (S : Type) := { p_disk : disk; p_secrets : S; p_clock : Z }.
Arguments p_disk {S} _. Arguments p_secrets {S} _. Arguments p_clock {S} _.

Section manager.
Context {S : Type} `{SecretStore S}.
Context (path : string) (temp_name : gmap string file -> string).
Context (from_slice : list byte -> result string ProfileFile).
Context (to_vec_pretty : ProfileFile -> result string (list byte)).

Definition metadata {A} (m : eff disk ProfileError A) : eff (pworld S) ProfileError A := fun w =>
  let '(r, d) := m (p_disk w) in
  (r, {| p_disk := d; p_secrets := p_secrets w; p_clock := p_clock w |}).
Definition secrets {A} (m : eff S SecretError A) : eff (pworld S) ProfileError A := fun w =>
  let '(r, s) := m (p_secrets w) in
  (map_err Secret r, {| p_disk := p_disk w; p_secrets := s; p_clock := p_clock w |}).

Definition now_unix_ms : eff (pworld S) ProfileError Z :=
  gets (fun w => Z.min (Z.max 0 (p_clock w)) u64_max).

(** [save] up to the profile it will write. *)
Definition save_prepare (params : SaveProfileParams) : eff (pworld S) ProfileError ConnectionProfile :=
  _ ← lift (validate_name (sp_name params));
  existing ← metadata (metadata_get path from_slice (sp_name params));
  has_password ← match sp_password params with
    | Some password =>
        _ ← secrets (store_set (secret_key (sp_name params)) password); mret true
    | None => mret (match existing with Some p => cp_has_password p | None => false end)
    end;
  let read_only := match sp_read_only params with
    | Some b => b
    | None => match existing with Some p => cp_read_only p | None => false end
    end in
  now ← now_unix_ms;
  let created_at_unix_ms := match existing with
    | Some p => cp_created_at_unix_ms p | None => now end in
  mret {| cp_name := sp_name params; cp_database_type := sp_database_type params;
          cp_host := sp_host params; cp_port := sp_port params;
          cp_username := sp_username params; cp_database := sp_database params;
          cp_ssl_mode := sp_ssl_mode params; cp_read_only := read_only;
          cp_has_password := has_password; cp_created_at_unix_ms := created_at_unix_ms;
          cp_updated_at_unix_ms := now |}.

Definition save_commit (profile : ConnectionProfile) : eff (pworld S) ProfileError unit :=
  metadata (metadata_upsert path temp_name from_slice to_vec_pretty profile).

Definition save (params : SaveProfileParams) : eff (pworld S) ProfileError unit :=
  profile ← save_prepare params; save_commit profile.

Definition list_profiles : eff (pworld S) ProfileError (list ConnectionProfile) :=
  profiles ← metadata (metadata_list path from_slice);
  mret (merge_sort profile_le profiles).

Definition resolve (name : string) : eff (pworld S) ProfileError ResolvedProfile :=
  _ ← lift (validate_name name);
  found ← metadata (metadata_get path from_slice name);
  profile ← lift (ok_or (NotFound name) found);
  password ← secrets (store_get (secret_key name));
  mret {| rp_database_type := cp_database_type profile;
          rp_config := {|
            cfg_host := cp_host profile; cfg_port := cp_port profile;
            cfg_username := cp_username profile; cfg_password := password;
            cfg_database := cp_database profile;
            cfg_ssl := {| mode := cp_ssl_mode profile; ca_path := None;
                          client_cert_path := None; client_key_path := None |};
            cfg_read_only := cp_read_only profile; cfg_additional_fields := ∅ |} |}.

Definition delete_profile (name : string) : eff (pworld S) ProfileError unit :=
  _ ← lift (validate_name name);
  removed ← metadata (metadata_remove path temp_name from_slice to_vec_pretty name);
  if negb removed then throw (NotFound name)
  else secrets (store_delete (secret_key name)).

(** ** What the operations do to the two stores *)

Context `{!SecretStoreLaws S}.
Context (Hfresh : temp_is_fresh temp_name) (Hserde : Prints from_slice to_vec_pretty).

(** The profiles on disk, when the file parses, and the secrets. *)
Definition profiles_of (w : pworld S) : option ProfileFile := stored from_slice path (p_disk w).
Definition secrets_of (w : pworld S) : gmap string string := view (p_secrets w).

Lemma read_profiles_spec d r d' :
  read_profiles path from_slice d = (r, d') ->
  stored from_slice path d' = stored from_slice path d
  /\ forall f, r = Ok f -> stored from_slice path d = Some f.
Proof.
  intros Hr. apply read_file_spec in Hr as [Hf Hr]; [|done..].
  split; [by apply stored_files|done].
Qed.

Lemma metadata_get_spec name w r w' :
  metadata (metadata_get path from_slice name) w = (r, w') ->
  profiles_of w' = profiles_of w /\ p_secrets w' = p_secrets w /\ p_clock w' = p_clock w
  /\ forall o, r = Ok o -> exists f, profiles_of w = Some f /\ o = f !! name.
Proof.
  unfold metadata, metadata_get. rewrite eff_bind_eq.
  destruct (read_profiles _ _ _) as [[f|e] d] eqn:Hr; cbn; intros [= <- <-];
    apply read_profiles_spec in Hr as [Hs Hr]; (split_and!; [done..|]).
  - intros o [= <-]. eauto.
  - done.
Qed.

Lemma metadata_write_spec (g : ProfileFile -> ProfileFile) w r w' :
  metadata (file ← read_profiles path from_slice;
            write_profiles path temp_name to_vec_pretty (g file)) w = (r, w') ->
  p_secrets w' = p_secrets w /\ p_clock w' = p_clock w
  /\ match r with
     | Ok _ => exists f, profiles_of w = Some f /\ profiles_of w' = Some (g f)
     | Err _ => profiles_of w' = profiles_of w
     end.
Proof using Hfresh Hserde.
  unfold metadata. rewrite eff_bind_eq.
  destruct (read_profiles _ _ _) as [[f|e] d] eqn:Hr; apply read_profiles_spec in Hr as [Hs Hr].
  2: { intros [= <- <-]. done. }
  destruct (write_profiles _ _ _ _ _) as [[[]|e] d'] eqn:Hw; intros [= <- <-];
    apply (write_file_spec PIo temp_name from_slice) in Hw; try done; (split_and!; [done..|]).
  - exists f. unfold profiles_of. cbn. auto.
  - unfold profiles_of. cbn. by rewrite (stored_files _ _ _ _ Hw).
Qed.

Lemma save_commit_spec profile w r w' :
  save_commit profile w = (r, w') ->
  p_secrets w' = p_secrets w /\ p_clock w' = p_clock w
  /\ match r with
     | Ok _ => exists f, profiles_of w = Some f
                         /\ profiles_of w' = Some (<[cp_name profile := profile]> f)
     | Err _ => profiles_of w' = profiles_of w
     end.
Proof using Hfresh Hserde. apply (metadata_write_spec (<[cp_name profile := profile]>)). Qed.

Lemma metadata_remove_spec name w r w' :
  metadata (metadata_remove path temp_name from_slice to_vec_pretty name) w = (r, w') ->
  p_secrets w' = p_secrets w /\ p_clock w' = p_clock w
  /\ match r with
     | Ok removed => exists f, profiles_of w = Some f /\ profiles_of w' = Some (delete name f)
                               /\ removed = bool_decide (is_Some (f !! name))
     | Err _ => profiles_of w' = profiles_of w
     end.
Proof using Hfresh Hserde.
  pose proof (metadata_write_spec (delete name) w) as Hw. revert Hw.
  unfold metadata, metadata_remove. rewrite !eff_bind_eq.
  destruct (read_profiles _ _ _) as [[f|e] d] eqn:Hr; intros Hw.
  2: { intros [= <- <-]. by destruct (Hw _ _ eq_refl). }
  rewrite eff_bind_eq. apply read_profiles_spec in Hr as [_ Hr].
  destruct (write_profiles _ _ _ _ _) as [[[]|e] d']; intros [= <- <-];
    destruct (Hw _ _ eq_refl) as (Hs & Hc & Hp); (split_and!; [done..|]); [|done].
  destruct Hp as (f' & Hf & Hp). pose proof (Hr _ eq_refl) as Hf'. unfold profiles_of in Hf.
  rewrite Hf' in Hf. simplify_eq. eauto.
Qed.

(** The metadata store never reports a secret store's error. *)
Lemma metadata_remove_error name w e w' :
  metadata (metadata_remove path temp_name from_slice to_vec_pretty name) w = (Err e, w') ->
  forall e', e <> Secret e'.
Proof using Type.
  unfold metadata, metadata_remove. rewrite !eff_bind_eq.
  destruct (read_profiles _ _ _) as [[f|e0] d] eqn:Hr.
  - rewrite eff_bind_eq. destruct (write_profiles _ _ _ _ _) as [[[]|e0] d'] eqn:Hw; [done|].
    intros [= <- <-] e'. apply write_file_error in Hw as [->|[s ->]]; done.
  - intros [= <- <-] e'. apply read_file_error in Hr as [->|[s ->]]; done.
Qed.

Lemma secret_key_inj n1 n2 : secret_key n1 = secret_key n2 -> n1 = n2.
Proof.
  unfold secret_key. intros Hk. injection Hk as Hk.
  assert (strip_suffix ":password" (n1 +:+ ":password") = Some n1) as H1 by (by apply strip_suffix_Some).
  rewrite Hk in H1. pose proof (proj2 (strip_suffix_Some ":password" (n2 +:+ ":password") n2) eq_refl).
  congruence.
Qed.

(** The profile a save writes over [existing]. *)
Definition saved_profile (params : SaveProfileParams) (existing : option ConnectionProfile) (now : Z)
  : ConnectionProfile :=
  {| cp_name := sp_name params; cp_database_type := sp_database_type params;
     cp_host := sp_host params; cp_port := sp_port params;
     cp_username := sp_username params; cp_database := sp_database params;
     cp_ssl_mode := sp_ssl_mode params;
     cp_read_only := default (from_option cp_read_only false existing) (sp_read_only params);
     cp_has_password := match sp_password params with
                        | Some _ => true | None => from_option cp_has_password false existing end;
     cp_created_at_unix_ms := from_option cp_created_at_unix_ms now existing;
     cp_updated_at_unix_ms := now |}.
(** The secrets after a save that got that far. *)
Definition saved_secrets (params : SaveProfileParams) (m : gmap string string) : gmap string string :=
  match sp_password params with Some p => <[secret_key (sp_name params) := p]> m | None => m end.

Lemma save_prepare_spec params w r w' :
  save_prepare params w = (r, w') ->
  profiles_of w' = profiles_of w
  /\ match r with
     | Ok p => secrets_of w' = saved_secrets params (secrets_of w)
               /\ exists f now, profiles_of w = Some f
                           /\ p = saved_profile params (f !! sp_name params) now
     | Err _ => secrets_of w' = secrets_of w
     end.
Proof using Type.
  unfold save_prepare, lift. rewrite eff_bind_eq. destruct (validate_name _) as [[]|e]; cbn;
    [|by intros [= <- <-]].
  rewrite eff_bind_eq. destruct (metadata _ w) as [[ex|e] w1] eqn:Hg;
    apply metadata_get_spec in Hg as (Hp & Hs & Hc & Hg).
  2: { intros [= <- <-]. split; [done|]. unfold secrets_of. by rewrite Hs. }
  destruct (Hg _ eq_refl) as (f & Hf & ->).
  assert (secrets_of w1 = secrets_of w) as Hs1 by (unfold secrets_of; by rewrite Hs).
  rewrite eff_bind_eq. unfold saved_secrets, saved_profile.
  destruct (sp_password params) as [pw|].
  - rewrite eff_bind_eq. unfold secrets.
    pose proof (set_law (secret_key (sp_name params)) pw (p_secrets w1)) as Hset.
    destruct (store_set _ _ _) as [[[]|e] s]; cbn.
    + intros [= <- <-]. split; [done|]. split.
      * unfold secrets_of in *. cbn. by rewrite Hset, Hs1.
      * eexists f, _. split; [done|]. by destruct (f !! _), (sp_read_only params).
    + intros [= <- <-]. split; [done|]. unfold secrets_of in *. cbn. by rewrite Hset, Hs1.
  - intros [= <- <-]. split; [done|]. split; [done|].
    eexists f, _. split; [done|]. by destruct (f !! _), (sp_read_only params).
Qed.

Lemma save_spec params w r w' :
  save params w = (r, w') ->
  match r with
  | Ok _ => secrets_of w' = saved_secrets params (secrets_of w)
      /\ exists f now, profiles_of w = Some f /\ profiles_of w'
           = Some (<[sp_name params := saved_profile params (f !! sp_name params) now]> f)
  | Err _ => profiles_of w' = profiles_of w
      /\ (secrets_of w' = secrets_of w \/ secrets_of w' = saved_secrets params (secrets_of w))
  end.
Proof using Hfresh Hserde.
  unfold save. rewrite eff_bind_eq. destruct (save_prepare _ _) as [[p|e] w1] eqn:Hp;
    apply save_prepare_spec in Hp as [Hpr Hp]; [|intros [= <- <-]; auto].
  destruct Hp as (Hs & f & now & Hf & ->). intros Hc. apply save_commit_spec in Hc as (Hs' & _ & Hc).
  assert (secrets_of w' = secrets_of w1) as Hsw by (unfold secrets_of; by rewrite Hs').
  destruct r as [[]|e]; [|rewrite Hc, Hpr, Hsw; auto].
  rewrite Hsw. split; [done|]. destruct Hc as (f' & Hf' & Hc). rewrite Hpr, Hf in Hf'. simplify_eq.
  rewrite Hc. eauto.
Qed.

Lemma delete_profile_spec name w r w' :
  delete_profile name w = (r, w') ->
  match r with
  | Ok _ => exists f, profiles_of w = Some f /\ is_Some (f !! name)
      /\ profiles_of w' = Some (delete name f)
      /\ secrets_of w' = delete (secret_key name) (secrets_of w)
  | Err _ => secrets_of w' = secrets_of w
      /\ (profiles_of w' = profiles_of w
          \/ exists f, profiles_of w = Some f /\ profiles_of w' = Some (delete name f))
  end.
Proof using Hfresh Hserde.
  unfold delete_profile, lift. rewrite eff_bind_eq. destruct (validate_name _) as [[]|e]; cbn;
    [|intros [= <- <-]; auto].
  rewrite eff_bind_eq. destruct (metadata _ w) as [[b|e] w1] eqn:Hm;
    apply metadata_remove_spec in Hm as (Hs & Hc & Hm);
    (assert (secrets_of w1 = secrets_of w) as Hs1 by (unfold secrets_of; by rewrite Hs)).
  2: { intros [= <- <-]. auto. }
  destruct Hm as (f & Hf & Hf1 & ->). unfold throw, secrets.
  case_bool_decide as Hb; cbn; [|intros [= <- <-]; eauto].
  pose proof (delete_law (secret_key name) (p_secrets w1)) as Hd.
  destruct (store_delete _ _) as [[[]|e] s]; cbn; intros [= <- <-];
    unfold secrets_of, profiles_of in *; cbn; rewrite Hd, Hs1; eauto 10.
Qed.

Lemma resolve_spec name w r w' :
  resolve name w = (r, w') ->
  profiles_of w' = profiles_of w /\ secrets_of w' = secrets_of w
  /\ forall p, r = Ok p -> exists f c, profiles_of w = Some f /\ f !! name = Some c
      /\ rp_database_type p = cp_database_type c
      /\ rp_config p = {|
            cfg_host := cp_host c; cfg_port := cp_port c; cfg_username := cp_username c;
            cfg_password := secrets_of w !! secret_key name; cfg_database := cp_database c;
            cfg_ssl := {| mode := cp_ssl_mode c; ca_path := None;
                          client_cert_path := None; client_key_path := None |};
            cfg_read_only := cp_read_only c; cfg_additional_fields := ∅ |}.
Proof using Type.
  unfold resolve, lift. rewrite eff_bind_eq. destruct (validate_name _) as [[]|e]; cbn;
    [|by intros [= <- <-]].
  rewrite eff_bind_eq. destruct (metadata _ w) as [[ex|e] w1] eqn:Hg;
    apply metadata_get_spec in Hg as (Hp & Hs & _ & Hg);
    (assert (secrets_of w1 = secrets_of w) as Hs1 by (unfold secrets_of; by rewrite Hs));
    [|by intros [= <- <-]].
  destruct (Hg _ eq_refl) as (f & Hf & ->). rewrite eff_bind_eq.
  destruct (f !! name) as [c|] eqn:Hc; cbn; [|by intros [= <- <-]].
  rewrite eff_bind_eq. unfold secrets. pose proof (get_law (secret_key name) (p_secrets w1)) as Hl.
  destruct (store_get _ _) as [[o|e] s]; cbn; intros [= <- <-]; unfold secrets_of, profiles_of in *;
    cbn; destruct Hl as [Hv Ho]; (split_and!; [done|by rewrite Hv|]); [|done].
  intros p [= <-]. exists f, c. cbn. rewrite (Ho o eq_refl), <-Hs1. auto.
Qed.

(** ** What clients may rely on *)

Inductive request := Save (params : SaveProfileParams) | Delete (name : string) | Resolve (name : string).
Definition run_request (q : request) (w : pworld S) : pworld S :=
  match q with
  | Save params => snd (save params w)
  | Delete name => snd (delete_profile name w)
  | Resolve name => snd (resolve name w)
  end.

(** Every profile is filed under its name, and one that says it has a
    password has one in the secret store. *)
Definition passwords_stored (w : pworld S) : Prop :=
  forall f, profiles_of w = Some f ->
    map_Forall (fun name p => cp_name p = name /\ (cp_has_password p = true ->
                                is_Some (secrets_of w !! secret_key name))) f.

Lemma saved_secrets_mono params m k : is_Some (m !! k) -> is_Some (saved_secrets params m !! k).
Proof.
  unfold saved_secrets. destruct (sp_password params) as [pw|]; [|done].
  intros Hk. apply lookup_insert_is_Some'. auto.
Qed.

Lemma passwords_stored_mono w w' :
  profiles_of w' = profiles_of w ->
  (forall k, is_Some (secrets_of w !! k) -> is_Some (secrets_of w' !! k)) ->
  passwords_stored w -> passwords_stored w'.
Proof.
  intros Hp Hs Hw f Hf name p Hn. rewrite Hp in Hf. destruct (Hw f Hf name p Hn) as [H1 H2].
  split; [done|]. intros Hb. by apply Hs, H2.
Qed.

Lemma run_request_stored q w : passwords_stored w -> passwords_stored (run_request q w).
Proof using Hfresh Hserde.
  intros Hw. destruct q as [params|name|name]; cbn.
  - destruct (save params w) as [r w'] eqn:Hq. apply save_spec in Hq. cbn. destruct r as [[]|e].
    + destruct Hq as (Hs & f & now & Hf & Hf'). intros f' Hf''. rewrite Hf' in Hf''. simplify_eq.
      intros name p Hn. rewrite Hs. apply lookup_insert_Some in Hn as [[<- <-]|[Hne Hn]].
      * split; [done|]. unfold saved_profile, saved_secrets. cbn.
        destruct (sp_password params) as [pw|]; [intros _; rewrite lookup_insert_eq; by eexists|].
        destruct (f !! sp_name params) as [c|] eqn:Hc; [|done]. cbn. by apply (Hw f Hf).
      * destruct (Hw f Hf name p Hn) as [H1 H2]. split; [done|]. intros Hb.
        by apply saved_secrets_mono, H2.
    + destruct Hq as [Hp Hs]. apply (passwords_stored_mono w); [done| |done].
      intros k Hk. destruct Hs as [->| ->]; [done|]. by apply saved_secrets_mono.
  - destruct (delete_profile name w) as [r w'] eqn:Hq. apply delete_profile_spec in Hq. cbn.
    destruct r as [[]|e].
    + destruct Hq as (f & Hf & _ & Hf' & Hs). intros f' Hf''. rewrite Hf' in Hf''. simplify_eq.
      intros n p [Hne Hn]%lookup_delete_Some. destruct (Hw f Hf n p Hn) as [H1 H2].
      split; [done|]. intros Hb. rewrite Hs, lookup_delete_ne; [by apply H2|].
      by intros ?%secret_key_inj.
    + destruct Hq as [Hs [Hp|(f & Hf & Hf')]].
      * apply (passwords_stored_mono w); [done| |done]. by rewrite Hs.
      * intros f' Hf''. rewrite Hf' in Hf''. simplify_eq. rewrite Hs.
        by apply map_Forall_delete, Hw.
  - destruct (resolve name w) as [r w'] eqn:Hq. apply resolve_spec in Hq as (Hp & Hs & _). cbn.
    apply (passwords_stored_mono w); [done| |done]. by rewrite Hs.
Qed.

(** C22: whatever sequence of saves, deletes and resolves the manager runs,
    and whatever I/O or secret-store errors interrupt them, a profile that
    claims to have a stored password has one under its own key, and every
    profile stays filed under its own name. *)
Theorem has_password_is_true (requests : list request) (w : pworld S) :
  passwords_stored w -> passwords_stored (foldl (fun w q => run_request q w) w requests).
Proof using Hfresh Hserde.
  revert w. induction requests as [|q qs IH]; intros w Hw; [done|]. by apply IH, run_request_stored.
Qed.

(** C37: a profile that was saved resolves to what was saved: after a save
    that succeeds, a resolve that succeeds returns its driver, host, port,
    user, database and TLS mode, the password it gave or, when it gave none,
    the one stored before, and the read-only flag it gave or, when it gave
    none, the one the profile had, never a silently dropped one. *)
Theorem save_then_resolve (params : SaveProfileParams) (w w1 w2 : pworld S) (p : ResolvedProfile) :
  save params w = (Ok tt, w1) -> resolve (sp_name params) w1 = (Ok p, w2) ->
  exists f, profiles_of w = Some f
  /\ rp_database_type p = sp_database_type params
  /\ rp_config p = {|
       cfg_host := sp_host params; cfg_port := sp_port params; cfg_username := sp_username params;
       cfg_password := match sp_password params with
                       | Some pw => Some pw
                       | None => secrets_of w !! secret_key (sp_name params)
                       end;
       cfg_database := sp_database params;
       cfg_ssl := {| mode := sp_ssl_mode params; ca_path := None;
                     client_cert_path := None; client_key_path := None |};
       cfg_read_only := default (from_option cp_read_only false (f !! sp_name params))
                          (sp_read_only params);
       cfg_additional_fields := ∅ |}.
Proof using Hfresh Hserde.
  intros Hs Hr. apply save_spec in Hs as (Hs & f & now & Hf & Hf').
  apply resolve_spec in Hr as (_ & _ & Hr). destruct (Hr p eq_refl) as (f' & c & Hf'' & Hc & Ht & Hcfg).
  rewrite Hf' in Hf''. simplify_eq. rewrite lookup_insert_eq in Hc. simplify_eq.
  exists f. split; [done|]. split; [done|]. rewrite Hcfg. cbn. rewrite Hs. unfold saved_secrets.
  destruct (sp_password params) as [pw|]; [|done]. by rewrite lookup_insert_eq.
Qed.

(** Deletion is not atomic across the two stores: when the secret store
    refuses its half, the profile is gone but its password is not, and a
    profile saved later under the same name without any password, which
    says it has none, connects with the old one. *)
Theorem failed_delete_leaves_password (name : string) (e : SecretError) (params : SaveProfileParams)
    (w w1 w2 w3 : pworld S) (p : ResolvedProfile) :
  delete_profile name w = (Err (Secret e), w1) ->
  sp_name params = name -> sp_password params = None ->
  save params w1 = (Ok tt, w2) -> resolve name w2 = (Ok p, w3) ->
  (exists f c, profiles_of w2 = Some f /\ f !! name = Some c /\ cp_has_password c = false)
  /\ cfg_password (rp_config p) = secrets_of w !! secret_key name.
Proof using Hfresh Hserde.
  intros Hd <- Hpw Hs Hr.
  assert (exists f, profiles_of w1 = Some f /\ f !! sp_name params = None) as (f1 & Hf1 & Hn1).
  { revert Hd. unfold delete_profile, lift. rewrite eff_bind_eq.
    unfold validate_name. destruct (is_empty _); cbn; [by intros [=]|]. rewrite eff_bind_eq.
    destruct (metadata _ w) as [[b|e0] w0] eqn:Hm.
    2: { intros [= -> <-]. by destruct (metadata_remove_error _ _ _ _ Hm e). }
    apply metadata_remove_spec in Hm as (_ & _ & f & Hf & Hf0 & _).
    destruct b; cbn; [|by intros [=]]. unfold secrets. destruct (store_delete _ _) as [[]];
      intros [= _ <-]; exists (delete (sp_name params) f); (split; [done|]); apply lookup_delete_eq. }
  assert (secrets_of w1 = secrets_of w) as Hs1 by (by apply delete_profile_spec in Hd as [? _]).
  apply save_spec in Hs as (Hs & f & now & Hf & Hf'). rewrite Hf1 in Hf. simplify_eq.
  apply resolve_spec in Hr as (_ & _ & Hr). destruct (Hr p eq_refl) as (f' & c & Hf'' & Hc & _ & Hcfg).
  split.
  - do 2 eexists. split; [exact Hf'|]. split; [apply lookup_insert_eq|].
    cbn. by rewrite Hpw, Hn1.
  - rewrite Hcfg. cbn. rewrite Hs. unfold saved_secrets. by rewrite Hpw, Hs1.
Qed.
End manager.

(** ** A secret store in memory, whose deletes may be made to fail *)

Definition memory_store : Type := gmap string string * bool.
#[export] Instance memory_secret_store : SecretStore memory_store := {|
  store_get k := gets (fun s : memory_store => fst s !! k);
  store_set k v := modify (fun s : memory_store => (<[k := v]> (fst s), snd s));
  store_delete k := fun s : memory_store =>
    if snd s then (Err Secrets.Io, s) else (Ok tt, (delete k (fst s), snd s));
|}.
#[export] Instance memory_secret_store_laws : SecretStoreLaws memory_store.
Proof.
  apply (Build_SecretStoreLaws memory_store _ fst); unfold store_get, store_set, store_delete; cbn; try done.
  - intros k s. split; [done|]. by intros o [= <-].
  - by intros k [m []].
Defined.

#[export] Instance SslMode_countable : Countable SslMode.
Proof.
  refine (inj_countable' (fun m => match m with
    | Disabled => 0 | Preferred => 1 | Required => 2 | VerifyCa => 3 | VerifyIdentity => 4 end)
    (fun n => match n with
     | 0 => Disabled | 1 => Preferred | 2 => Required | 3 => VerifyCa | _ => VerifyIdentity end) _).
  by intros [].
Defined.
#[export] Instance ConnectionProfile_eq_dec : EqDecision ConnectionProfile.
Proof. solve_decision. Defined.
#[export] Instance ConnectionProfile_countable : Countable ConnectionProfile.
Proof.
  refine (inj_countable' (fun p => (cp_name p, cp_database_type p, cp_host p, cp_port p,
      cp_username p, cp_database p, cp_ssl_mode p, cp_read_only p, cp_has_password p,
      cp_created_at_unix_ms p, cp_updated_at_unix_ms p))
    (fun '(a, b, c, d, e, f, g, h, i, j, k) => {| cp_name := a; cp_database_type := b; cp_host := c;
      cp_port := d; cp_username := e; cp_database := f; cp_ssl_mode := g; cp_read_only := h;
      cp_has_password := i; cp_created_at_unix_ms := j; cp_updated_at_unix_ms := k |}) _).
  by intros [].
Defined.

Definition example_world (deletes_fail : bool) : pworld memory_store :=
  {| p_disk := {| files := ∅; faults := [] |}; p_secrets := (∅, deletes_fail); p_clock := 7 |}.
Definition example_params (password : option string) : SaveProfileParams :=
  {| sp_name := "a"; sp_database_type := "redis"; sp_host := "h"; sp_port := 1; sp_username := "u";
     sp_password := password; sp_database := None; sp_ssl_mode := None; sp_read_only := Some true |}.
Definition example_save := save "p" fresh_name parse_map print_map (S := memory_store).
Definition example_resolve := resolve "p" parse_map (S := memory_store).
Definition example_delete := delete_profile "p" fresh_name parse_map print_map (S := memory_store).

Lemma has_password_is_true_witness :
  passwords_stored "p" parse_map (example_world false) /\
  passwords_stored "p" parse_map
    (foldl (fun w q => run_request "p" fresh_name parse_map print_map q w) (example_world false)
       [Save (example_params (Some "pw")); Delete "b"]).
Proof.
  assert (passwords_stored "p" parse_map (example_world false)) as H.
  { intros f Hf. cbn in Hf. injection Hf as <-. apply map_Forall_empty. }
  split; [exact H|].
  exact (has_password_is_true "p" fresh_name parse_map print_map fresh_name_is_fresh parse_print
           [Save (example_params (Some "pw")); Delete "b"] (example_world false) H).
Defined.

Lemma save_then_resolve_witness :
  exists w1 w2 p,
    example_save (example_params (Some "pw")) (example_world false) = (Ok tt, w1)
    /\ example_resolve "a" w1 = (Ok p, w2) /\ cfg_password (rp_config p) = Some "pw".
Proof.
  destruct (example_save (example_params (Some "pw")) (example_world false)) as [r w1] eqn:H1.
  assert (r = Ok tt) as -> by (apply (f_equal fst) in H1; vm_compute in H1; by symmetry).
  destruct (example_resolve "a" w1) as [r w2] eqn:H2.
  assert (exists p, r = Ok p) as [p ->].
  { apply (f_equal snd) in H1. cbn in H1. subst w1. apply (f_equal fst) in H2.
    vm_compute in H2. subst r. by eexists. }
  exists w1, w2, p. split; [done|]. split; [done|].
  destruct (save_then_resolve "p" fresh_name parse_map print_map fresh_name_is_fresh parse_print
    (example_params (Some "pw")) (example_world false) w1 w2 p H1 H2) as (f & _ & _ & Hc).
  by rewrite Hc.
Defined.

Lemma failed_delete_leaves_password_witness :
  exists w w1 w2 w3 p,
    example_delete "a" w = (Err (Secret Secrets.Io), w1)
    /\ example_save (example_params None) w1 = (Ok tt, w2)
    /\ example_resolve "a" w2 = (Ok p, w3) /\ cfg_password (rp_config p) = Some "pw".
Proof.
  set (w := snd (example_save (example_params (Some "pw")) (example_world true))).
  destruct (example_delete "a" w) as [r w1] eqn:H1.
  assert (r = Err (Secret Secrets.Io)) as ->
    by (apply (f_equal fst) in H1; vm_compute in H1; by symmetry).
  destruct (example_save (example_params None) w1) as [r w2] eqn:H2.
  pose proof (f_equal snd H1) as E1. cbn [snd] in E1.
  assert (r = Ok tt) as -> by (apply (f_equal fst) in H2; subst w1; vm_compute in H2; by symmetry).
  destruct (example_resolve "a" w2) as [r w3] eqn:H3.
  pose proof (f_equal snd H2) as E2. cbn [snd] in E2.
  assert (exists p, r = Ok p) as [p ->].
  { apply (f_equal fst) in H3. subst w2 w1. vm_compute in H3. subst r. by eexists. }
  exists w, w1, w2, w3, p. split_and!; [done..|].
  destruct (failed_delete_leaves_password "p" fresh_name parse_map print_map fresh_name_is_fresh
    parse_print "a" Secrets.Io (example_params None) w w1 w2 w3 p H1 eq_refl eq_refl H2 H3) as [_ Hc].
  rewrite Hc. vm_compute. reflexivity.
Defined.
