(* ===== verification/Manager.v ===== *)
(** * The connection manager (crates/connections/src/manager.rs)

    The operations as the code runs them one after the other, over a state
    made of the three maps and the drivers' world [W]; and, in [Concurrent],
    connects and disconnects of many tasks cut at the points where they may
    interleave. *)
From S2P Require Import Prelude RustStr Core Registry.

(** What the manager is given: the drivers behind the [Arc<dyn
    DatabaseDriver>] handles [D], the factories [F], random ids, the clock
    (milliseconds since the epoch, possibly before it). *)
Class Host (W D F : Type) := {
  driver_of : D -> DatabaseDriver W;
  create_driver : F -> ConnectionConfig -> W -> D * W;
  new_v4 : W -> Uuid * W;
  now_ms : W -> Z;
}.

Record ConnectionEntry (D : Type) := {
  ent_driver : D; ent_database_type : string; ent_connected_at : Z }.
Arguments ent_driver {D} _. Arguments ent_database_type {D} _. Arguments ent_connected_at {D} _.

Record ConnectionSummary := {
  cs_connection_id : Uuid; cs_database_type : string; cs_connected_at_unix_ms : Z }.

Definition from_entry {D} (id : Uuid) (entry : ConnectionEntry D) : ConnectionSummary :=
  {| cs_connection_id := id; cs_database_type := ent_database_type entry;
     cs_connected_at_unix_ms := Z.min (Z.max 0 (ent_connected_at entry)) u64_max |}.

Inductive ConnectionManagerError :=
  | UnknownDatabaseType (database_type : string)
  | NotFound (id : Uuid)
  | Superseded (id : Uuid)
  | Driver (e : DriverError).

Section to_string.
(** [Uuid]'s [Display]. *)
Context (uuid_to_string : Uuid -> string).
Definition ConnectionManagerError_to_string (e : ConnectionManagerError) : string :=
  match e with
  | UnknownDatabaseType t => "unknown database type: " +:+ t
  | NotFound id => "no such connection: " +:+ uuid_to_string id
  | Superseded id => "connection attempt for " +:+ uuid_to_string id
                     +:+ " was superseded by a newer attempt for the same id"
  | Driver e => DriverError_to_string e
  end.
End to_string.

Record manager (W D : Type) := {
  m_attempts : gmap Uuid Z;
  m_sessions : gmap Uuid D;
  m_entries : gmap Uuid (ConnectionEntry D);
  m_world : W;
}.
Arguments m_attempts {W D} _. Arguments m_sessions {W D} _.
Arguments m_entries {W D} _. Arguments m_world {W D} _.

Definition summary_le (a b : ConnectionSummary) : Prop :=
  (cs_connection_id a <= cs_connection_id b)%N.
#[export] Instance summary_le_dec : RelDecision summary_le.
Proof. intros a b. unfold summary_le. apply _. Defined.

(** [factories.insert]; it is only called before the manager is shared, and
    what it leaves is a parameter of the operations below. *)
Definition register_driver_factory {F} (database_type : string) (factory : F)
    (factories : gmap string F) : gmap string F :=
  <[database_type := factory]> factories.

Section manager.
Context {W D F : Type} `{Host W D F}.
Context (factories : gmap string F).

Abbreviation M := (eff (manager W D) ConnectionManagerError).

Definition ConnectionManager_new (w : W) : manager W D :=
  {| m_attempts := Attempts.new; m_sessions := Sessions.new; m_entries := ∅; m_world := w |}.

Definition set_world (w : W) (s : manager W D) : manager W D :=
  {| m_attempts := m_attempts s; m_sessions := m_sessions s; m_entries := m_entries s;
     m_world := w |}.
Definition set_attempts (a : gmap Uuid Z) (s : manager W D) : manager W D :=
  {| m_attempts := a; m_sessions := m_sessions s; m_entries := m_entries s;
     m_world := m_world s |}.
Definition set_sessions (m : gmap Uuid D) (s : manager W D) : manager W D :=
  {| m_attempts := m_attempts s; m_sessions := m; m_entries := m_entries s;
     m_world := m_world s |}.
Definition set_entries (m : gmap Uuid (ConnectionEntry D)) (s : manager W D) : manager W D :=
  {| m_attempts := m_attempts s; m_sessions := m_sessions s; m_entries := m;
     m_world := m_world s |}.

(** Awaiting a driver. *)
Definition on_world {E A} (m : eff W E A) : eff (manager W D) E A := fun s =>
  let '(r, w) := m (m_world s) in (r, set_world w s).

Definition finish_connect (token : AttemptToken) (driver : D) : M unit := fun s =>
  match Sessions.insert_if_current (m_attempts s) (m_attempts s) token driver (m_sessions s) with
  | (Ok None, m) => (Ok tt, set_sessions m s)
  | (Ok (Some previous), m) =>
      (_ ← attempt (on_world (disconnect (driver_of previous))); mret tt) (set_sessions m s)
  | (Err orphaned, m) =>
      (_ ← attempt (on_world (disconnect (driver_of orphaned)));
       throw (Superseded (connection_id token))) (set_sessions m s)
  end.

Definition connect (database_type : string) (config : ConnectionConfig) : M Uuid :=
  factory ← lift (ok_or (UnknownDatabaseType database_type) (factories !! database_type));
  id ← (fun s => let '(id, w) := new_v4 (m_world s) in (Ok id, set_world w s));
  token ← (fun s => let '(t, a) := Attempts.begin id (m_attempts s) in (Ok t, set_attempts a s));
  driver ← (fun s => let '(d, w) := create_driver factory config (m_world s) in
                     (Ok d, set_world w s));
  connected ← attempt (on_world (Core.connect (driver_of driver)));
  match connected with
  | Err err =>
      _ ← modify (fun s => set_attempts (Attempts.invalidate id (m_attempts s)) s);
      throw (Driver err)
  | Ok _ =>
      _ ← attempt (on_world (apply_query_timeout (driver_of driver) SERVER_SECS));
      _ ← finish_connect token driver;
      now ← gets (fun s => now_ms (m_world s));
      _ ← modify (fun s => set_entries (<[id := {| ent_driver := driver;
            ent_database_type := database_type; ent_connected_at := now |}]> (m_entries s)) s);
      mret id
  end.

Definition disconnect_id (id : Uuid) : M unit := fun s =>
  let entry := m_entries s !! id in
  let s := set_entries (delete id (m_entries s)) s in
  let s := set_sessions (snd (Sessions.remove id (m_sessions s))) s in
  let s := set_attempts (Attempts.forget id (m_attempts s)) s in
  match entry with
  | Some entry => eff_map_err Driver (on_world (disconnect (driver_of (ent_driver entry)))) s
  | None => (Ok tt, s)
  end.

Definition get (id : Uuid) (s : manager W D) : result ConnectionManagerError D :=
  ok_or (NotFound id) (ent_driver <$> m_entries s !! id).

Definition list_connections (s : manager W D) : list ConnectionSummary :=
  merge_sort summary_le ((fun '(id, e) => from_entry id e) <$> map_to_list (m_entries s)).

Definition status (id : Uuid) (s : manager W D) : result ConnectionManagerError ConnectionSummary :=
  ok_or (NotFound id) (from_entry id <$> m_entries s !! id).

(** ** One operation after the other *)

(** [sessions] and [entries] hold the same drivers. *)
Definition lockstep (s : manager W D) : Prop := m_sessions s = ent_driver <$> m_entries s.

Lemma on_world_eq {E A} (m : eff W E A) s :
  on_world m s = (fst (m (m_world s)), set_world (snd (m (m_world s))) s).
Proof. unfold on_world. by destruct (m (m_world s)). Qed.

(** What [connect] does when its driver connects. *)
Lemma connect_eq ty config s :
  connect ty config s =
  match factories !! ty with
  | None => (Err (UnknownDatabaseType ty), s)
  | Some factory =>
      let '(id, w) := new_v4 (m_world s) in
      let '(d, w) := create_driver factory config w in
      let '(r, w) := Core.connect (driver_of d) w in
      let a := snd (Attempts.begin id (m_attempts s)) in
      match r with
      | Err e => (Err (Driver e), set_attempts (Attempts.invalidate id a) (set_world w s))
      | Ok _ =>
          let w := snd (apply_query_timeout (driver_of d) SERVER_SECS w) in
          let w := match m_sessions s !! id with
                   | Some previous => snd (disconnect (driver_of previous) w)
                   | None => w
                   end in
          (Ok id, {| m_attempts := a; m_sessions := <[id := d]> (m_sessions s);
                     m_entries := <[id := {| ent_driver := d; ent_database_type := ty;
                                             ent_connected_at := now_ms w |}]> (m_entries s);
                     m_world := w |})
      end
  end.
Proof.
  unfold connect, lift. rewrite eff_bind_eq.
  destruct (factories !! ty) as [factory|]; cbn [ok_or]; [|done].
  rewrite eff_bind_eq. destruct (new_v4 (m_world s)) as [id w1].
  rewrite eff_bind_eq. cbn [fst snd Attempts.begin].
  rewrite eff_bind_eq. cbn [m_world set_attempts set_world].
  destruct (create_driver factory config w1) as [d w2].
  rewrite eff_bind_eq. unfold attempt at 1. rewrite on_world_eq. cbn [m_world set_attempts set_world].
  destruct (Core.connect (driver_of d) w2) as [[[]|e] w3]; cbn [fst snd]; [|done].
  rewrite eff_bind_eq. unfold attempt at 1. rewrite on_world_eq. cbn [m_world set_attempts set_world].
  destruct (apply_query_timeout (driver_of d) SERVER_SECS w3) as [rt w4]. cbn [fst snd].
  rewrite eff_bind_eq. unfold finish_connect, Sessions.insert_if_current. cbn [m_attempts set_world set_attempts m_sessions].
  pose proof (Attempts.begin_current id (m_attempts s)) as Hcur. unfold Attempts.begin in Hcur.
  cbn [fst snd] in Hcur. rewrite Hcur. cbn [negb connection_id].
  destruct (m_sessions s !! id) as [p|]; [|done].
  rewrite eff_bind_eq. unfold attempt. rewrite on_world_eq. cbn.
  by destruct (disconnect (driver_of p) w4).
Qed.

(** [connect] on every branch: an unknown driver type changes nothing; a
    driver whose connect fails reports that failure and leaves no session
    and no entry behind; otherwise, run alone, it is never superseded: it
    returns an id under which the driver it created is found, listed with
    the requested type, and no other connection is affected. *)
Theorem connect_outcomes (ty : string) (config : ConnectionConfig) (s : manager W D) :
  let '(r, s') := connect ty config s in
  match factories !! ty with
  | None => r = Err (UnknownDatabaseType ty) /\ s' = s
  | Some factory =>
      let '(id, w) := new_v4 (m_world s) in
      let '(d, w) := create_driver factory config w in
      match fst (Core.connect (driver_of d) w) with
      | Err e => r = Err (Driver e) /\ m_sessions s' = m_sessions s /\ m_entries s' = m_entries s
      | Ok _ => r = Ok id /\ get id s' = Ok d
          /\ (exists summary, status id s' = Ok summary /\ cs_database_type summary = ty
                              /\ summary ∈ list_connections s')
          /\ forall id', id' <> id -> get id' s' = get id' s /\ status id' s' = status id' s
      end
  end.
Proof.
  rewrite connect_eq. destruct (factories !! ty) as [factory|]; [|done].
  destruct (new_v4 (m_world s)) as [id w1]. destruct (create_driver factory config w1) as [d w2].
  destruct (Core.connect (driver_of d) w2) as [[[]|e] w3]; cbn; [|done].
  unfold get, status, list_connections. cbn. rewrite lookup_insert_eq. cbn.
  split; [done|]. split; [done|]. split.
  - eexists. split; [done|]. split; [done|]. rewrite merge_sort_Permutation.
    apply list_elem_of_fmap. eexists (id, _). split; [done|].
    apply elem_of_map_to_list. apply lookup_insert_eq.
  - intros id' Hne. by rewrite !lookup_insert_ne.
Qed.

(** After [disconnect] the id is unknown whatever the driver says, no
    other connection is affected, and the driver's own disconnect runs
    exactly when the id was known; an unknown id is a success that touches
    no driver. *)
Theorem disconnect_outcomes (id : Uuid) (s : manager W D) :
  let '(r, s') := disconnect_id id s in
  get id s' = Err (NotFound id)
  /\ (forall id', id' <> id -> get id' s' = get id' s)
  /\ match get id s with
     | Ok d => r = map_err Driver (fst (disconnect (driver_of d) (m_world s)))
               /\ m_world s' = snd (disconnect (driver_of d) (m_world s))
     | Err _ => r = Ok tt /\ m_world s' = m_world s
     end.
Proof.
  unfold disconnect_id, get, eff_map_err.
  destruct (m_entries s !! id) as [entry|] eqn:He; cbn.
  - rewrite on_world_eq. cbn. rewrite lookup_delete_eq. split; [done|]. split; [|done].
    intros id' Hne. by rewrite lookup_delete_ne.
  - rewrite lookup_delete_eq. split; [done|]. split; [|done].
    intros id' Hne. by rewrite lookup_delete_ne.
Qed.

Inductive op := Connect (ty : string) (config : ConnectionConfig) | Disconnect (id : Uuid).
Definition run_op (o : op) (s : manager W D) : manager W D :=
  match o with
  | Connect ty config => snd (connect ty config s)
  | Disconnect id => snd (disconnect_id id s)
  end.

(** As long as operations do not overlap, the session registry and the
    entry map stay in lockstep: after any sequence of connects and
    disconnects, failed ones included, they hold the same driver under the
    same ids. *)
Theorem lockstep_preserved (os : list op) (w : W) :
  lockstep (foldl (fun s o => run_op o s) (ConnectionManager_new w) os).
Proof.
  assert (forall s, lockstep s -> lockstep (foldl (fun s o => run_op o s) s os)) as Hl.
  { induction os as [|o os IH]; intros s Hs; [done|]. apply IH. clear IH os.
    destruct o as [ty config|id]; cbn.
    - rewrite connect_eq. destruct (factories !! ty) as [factory|]; [|done].
      destruct (new_v4 (m_world s)) as [id w1], (create_driver factory config w1) as [d w2].
      destruct (Core.connect (driver_of d) w2) as [[[]|e] w3]; cbn; [|done].
      unfold lockstep in *. cbn. by rewrite Hs, fmap_insert.
    - unfold disconnect_id, eff_map_err, lockstep in *. destruct (m_entries s !! id); cbn;
        rewrite ?on_world_eq; cbn; by rewrite Hs, fmap_delete. }
  apply Hl. unfold lockstep. cbn. by rewrite fmap_empty.
Qed.
End manager.

(** ** Overlapping connects and disconnects

    A task is cut wherever it awaits a driver or takes another lock; between
    two of its steps any other task may run.  The session lock is not
    modelled: without it more interleavings are possible, not fewer. *)
Module Concurrent.
Section concurrent.
Context {D : Type} `{Countable D}.

Inductive phase :=
  | Connecting (t : AttemptToken) (d : D)
  | Connected (t : AttemptToken) (d : D)
  | Checked1 (t : AttemptToken) (d : D)
  | Checked2 (t : AttemptToken) (d : D)
  | ClosingPrevious (id : Uuid) (d previous : D)
  | Orphaned (id : Uuid) (d : D)
  | Recording (id : Uuid) (d : D)
  | RemovingSession (id : Uuid) (entry : option D)
  | Forgetting (id : Uuid) (entry : option D)
  | Closing (d : D)
  | Finished.

(** [opened] and [closed] log the drivers whose connect succeeded and those
    whose disconnect was called; [used] is the ids drawn so far. *)
Record cstate := {
  generations : gmap Uuid Z;
  sessions : gmap Uuid D;
  entries : gmap Uuid D;
  threads : gmap nat phase;
  used : gset Uuid;
  created : gset D;
  opened : list D;
  closed : list D;
}.

Definition init : cstate :=
  {| generations := ∅; sessions := ∅; entries := ∅; threads := ∅; used := ∅; created := ∅;
     opened := []; closed := [] |}.

(** The state after thread [i] moved to [p] with the given maps and logs. *)
Definition move (i : nat) (p : phase) (g : gmap Uuid Z) (s e : gmap Uuid D) (o cl : list D)
    (c : cstate) : cstate :=
  {| generations := g; sessions := s; entries := e; threads := <[i := p]> (threads c);
     used := used c; created := created c; opened := o; closed := cl |}.

Inductive cstep (c : cstate) : cstate -> Prop :=
  | s_begin i id d :
      threads c !! i = None -> id ∉ used c -> d ∉ created c ->
      cstep c {| generations := snd (Attempts.begin id (generations c)); sessions := sessions c;
                 entries := entries c;
                 threads := <[i := Connecting (fst (Attempts.begin id (generations c))) d]> (threads c);
                 used := {[id]} ∪ used c; created := {[d]} ∪ created c;
                 opened := opened c; closed := closed c |}
  | s_connect_failed i t d :
      threads c !! i = Some (Connecting t d) ->
      cstep c (move i Finished (Attempts.invalidate (connection_id t) (generations c))
                 (sessions c) (entries c) (opened c) (closed c) c)
  | s_connected i t d :
      threads c !! i = Some (Connecting t d) ->
      cstep c (move i (Connected t d) (generations c) (sessions c) (entries c)
                 (d :: opened c) (closed c) c)
  | s_check1 i t d :
      threads c !! i = Some (Connected t d) ->
      cstep c (move i (if Attempts.is_current t (generations c) then Checked1 t d
                       else Orphaned (connection_id t) d)
                 (generations c) (sessions c) (entries c) (opened c) (closed c) c)
  | s_check2 i t d :
      threads c !! i = Some (Checked1 t d) ->
      cstep c (move i (if Attempts.is_current t (generations c) then Checked2 t d
                       else Orphaned (connection_id t) d)
                 (generations c) (sessions c) (entries c) (opened c) (closed c) c)
  | s_install i t d :
      threads c !! i = Some (Checked2 t d) ->
      cstep c (move i (match sessions c !! connection_id t with
                       | Some previous => ClosingPrevious (connection_id t) d previous
                       | None => Recording (connection_id t) d
                       end)
                 (generations c) (<[connection_id t := d]> (sessions c)) (entries c)
                 (opened c) (closed c) c)
  | s_close_previous i id d previous :
      threads c !! i = Some (ClosingPrevious id d previous) ->
      cstep c (move i (Recording id d) (generations c) (sessions c) (entries c)
                 (opened c) (previous :: closed c) c)
  | s_close_orphan i id d :
      threads c !! i = Some (Orphaned id d) ->
      cstep c (move i Finished (generations c) (sessions c) (entries c)
                 (opened c) (d :: closed c) c)
  | s_record i id d :
      threads c !! i = Some (Recording id d) ->
      cstep c (move i Finished (generations c) (sessions c) (<[id := d]> (entries c))
                 (opened c) (closed c) c)
  | s_remove_entry i id :
      threads c !! i = None ->
      cstep c (move i (RemovingSession id (entries c !! id)) (generations c) (sessions c)
                 (delete id (entries c)) (opened c) (closed c) c)
  | s_remove_session i id e :
      threads c !! i = Some (RemovingSession id e) ->
      cstep c (move i (Forgetting id e) (generations c) (delete id (sessions c)) (entries c)
                 (opened c) (closed c) c)
  | s_forget i id e :
      threads c !! i = Some (Forgetting id e) ->
      cstep c (move i (match e with Some d => Closing d | None => Finished end)
                 (Attempts.forget id (generations c)) (sessions c) (entries c)
                 (opened c) (closed c) c)
  | s_close i d :
      threads c !! i = Some (Closing d) ->
      cstep c (move i Finished (generations c) (sessions c) (entries c)
                 (opened c) (d :: closed c) c).

(** The open driver a task is responsible for. *)
Definition held (p : phase) : list D :=
  match p with
  | Connecting _ _ | Finished => []
  | Connected _ d | Checked1 _ d | Checked2 _ d | ClosingPrevious _ d _ | Orphaned _ d
  | Recording _ d | Closing d => [d]
  | RemovingSession _ e | Forgetting _ e => option_list e
  end.
Definition owned (c : cstate) : list D :=
  (Sessions.values (threads c) ≫= held) ++ Sessions.values (entries c).

(** The id a connect still works for, and whether it has installed. *)
Definition pending (p : phase) : option (Uuid * bool) :=
  match p with
  | Connecting t _ | Connected t _ | Checked1 t _ | Checked2 t _ => Some (connection_id t, false)
  | ClosingPrevious id _ _ | Recording id _ => Some (id, true)
  | _ => None
  end.
Definition pending_driver (p : phase) : list D :=
  match p with Connecting _ d => [d] | _ => [] end.

Record inv (c : cstate) : Prop := {
  inv_pending : forall i p id b, threads c !! i = Some p -> pending p = Some (id, b) ->
    id ∈ used c /\ entries c !! id = None /\ (b = false -> sessions c !! id = None)
    /\ forall j q id' b', threads c !! j = Some q -> pending q = Some (id', b') -> j <> i -> id' <> id;
  inv_previous : forall i id d p, threads c !! i <> Some (ClosingPrevious id d p);
  inv_used : forall id, is_Some (sessions c !! id) \/ is_Some (entries c !! id) -> id ∈ used c;
  inv_created : forall d, d ∈ opened c -> d ∈ created c;
  inv_connecting : forall i t d, threads c !! i = Some (Connecting t d) ->
    d ∈ created c /\ d ∉ opened c
    /\ forall j t' d', threads c !! j = Some (Connecting t' d') -> j <> i -> d' <> d;
  inv_nodup : NoDup (opened c);
  inv_owned : opened c ≡ₚ (owned c ++ closed c)%list;
}.

Lemma values_update {K V S} `{Countable K} (f : V -> list S) (m : gmap K V) k p q :
  m !! k = Some p ->
  exists rest, (Sessions.values m ≫= f) ≡ₚ f p ++ rest
    /\ (Sessions.values (<[k := q]> m) ≫= f) ≡ₚ f q ++ rest.
Proof.
  intros Hk. exists (Sessions.values (delete k m) ≫= f). split.
  - by rewrite (Sessions.values_lookup m k p Hk).
  - by rewrite (Sessions.values_insert m k q).
Qed.

Lemma values_fresh {K V S} `{Countable K} (f : V -> list S) (m : gmap K V) k q :
  m !! k = None -> (Sessions.values (<[k := q]> m) ≫= f) ≡ₚ f q ++ (Sessions.values m ≫= f).
Proof. intros Hk. rewrite (Sessions.values_insert m k q). by rewrite delete_id. Qed.

(** Cases of a lookup among the threads after one of them moved. *)
Ltac thread_cases :=
  repeat match goal with
  | H : <[_ := _]> _ !! _ = Some _ |- _ => apply lookup_insert_Some in H as [[<- <-]|[? H]]
  end.

Lemma inv_ids_step c c' : inv c -> cstep c c' ->
  (forall i p id b, threads c' !! i = Some p -> pending p = Some (id, b) ->
    id ∈ used c' /\ entries c' !! id = None /\ (b = false -> sessions c' !! id = None)
    /\ forall j q id' b', threads c' !! j = Some q -> pending q = Some (id', b') -> j <> i -> id' <> id).
Proof.
  intros Hinv Hstep j p id b Hj Hp. pose proof (inv_pending c Hinv) as IH.
  pose proof (inv_used c Hinv) as Hu. pose proof (inv_previous c Hinv) as Hprev.
  destruct Hstep as [i id0 d H1 H2 H3|i t d H1|i t d H1|i t d H1|i t d H1|i t d H1|i id0 d pr H1
    |i id0 d H1|i id0 d H1|i id0 H1|i id0 e H1|i id0 e H1|i d H1];
    cbn in *; try (by destruct (Hprev _ _ _ _ H1)); try (destruct (Attempts.is_current _ _));
    try (destruct (sessions c !! connection_id t) eqn:Hse); try (destruct e as [e|]);
    thread_cases; cbn in *; simplify_eq;
    try (pose proof (IH _ _ _ _ H1 eq_refl) as (Ia & Ib & Ic & Id); cbn in * );
    try (pose proof (IH _ _ _ _ Hj Hp) as (Ja & Jb & Jc & Jd); cbn in * );
    (split_and!; [try set_solver| | |intros k q id' b' Hk Hq Hne; thread_cases; cbn in *; simplify_eq; try done]);
    try done; try eauto.
  all: try (apply lookup_delete_None; auto).
  all: try (intros Hb; apply lookup_delete_None; auto).
  all: try (apply eq_None_not_Some; intros ?; by apply H2, Hu; auto).
  all: try (intros _; apply eq_None_not_Some; intros ?; by apply H2, Hu; auto).
  all: try (destruct (IH _ _ _ _ Hk Hq) as [? _]; set_solver).
  all: try (intros Hb; rewrite lookup_insert_ne; [by auto|]); rewrite ?lookup_insert_ne; auto.
  all: try (intros ?; subst; by eapply (Id j)).
  all: intros ?; subst; set_solver.
Qed.

Lemma inv_used_step c c' : inv c -> cstep c c' ->
  (forall id, is_Some (sessions c' !! id) \/ is_Some (entries c' !! id) -> id ∈ used c')
  /\ (forall i id d p, threads c' !! i <> Some (ClosingPrevious id d p)).
Proof.
  intros Hinv Hstep. pose proof (inv_pending c Hinv) as IH. pose proof (inv_used c Hinv) as Hu.
  pose proof (inv_previous c Hinv) as Hprev.
  assert (forall (m : gmap Uuid D) i x, is_Some (delete i m !! x) -> is_Some (m !! x)) as Hdel.
  { intros m i x [y [_ Hy]%lookup_delete_Some]. by eexists. }
  assert (forall (m : gmap Uuid D) i v x, is_Some (<[i := v]> m !! x) -> x = i \/ is_Some (m !! x)) as Hins.
  { intros m i v x [y [[-> _]|[_ Hy]]%lookup_insert_Some]; [by left|right; by eexists]. }
  destruct Hstep as [i id0 d H1 H2 H3|i t d H1|i t d H1|i t d H1|i t d H1|i t d H1|i id0 d pr H1
    |i id0 d H1|i id0 d H1|i id0 H1|i id0 e H1|i id0 e H1|i d H1];
    try (pose proof (IH _ _ _ _ H1 eq_refl) as (Ia & Ib & Ic & Id)); cbn in *;
    (split; [intros id Hid|intros j id d' p' Hj; thread_cases; try done]).
  all: try (apply lookup_insert_Some in Hj as [[_ Hj]|[_ Hj]]; simplify_eq/=).
  all: try (by eapply Hu). all: try (by apply elem_of_union_r, Hu). all: try (by eapply Hprev).
  all: try (destruct (Attempts.is_current _ _); done).
  all: try (rewrite (Ic eq_refl) in *; done).
  all: try (destruct e; done).
  all: try (destruct Hid as [Hid|Hid]; [try apply Hins in Hid as [->|Hid]; try apply Hdel in Hid
                                       |try apply Hins in Hid as [->|Hid]; try apply Hdel in Hid]; auto).
Qed.

Lemma values_entry (m : gmap Uuid D) id :
  Sessions.values m ≡ₚ option_list (m !! id) ++ Sessions.values (delete id m).
Proof.
  destruct (m !! id) as [d|] eqn:Hd; cbn.
  - by apply Sessions.values_lookup.
  - by rewrite delete_id.
Qed.

Lemma inv_owned_step c c' : inv c -> cstep c c' -> opened c' ≡ₚ (owned c' ++ closed c').
Proof.
  intros Hinv Hstep. pose proof (inv_owned c Hinv) as Ho. unfold owned in *.
  destruct Hstep as [i id0 d H1 H2 H3|i t d H1|i t d H1|i t d H1|i t d H1|i t d H1|i id0 d pr H1
    |i id0 d H1|i id0 d H1|i id0 H1|i id0 e H1|i id0 e H1|i d H1]; cbn;
    try (destruct (inv_previous c Hinv _ _ _ _ H1)).
  all: try (match goal with
    | H : threads ?c !! ?i = Some _ |- context [<[?i := ?q]> _] =>
        destruct (values_update held (threads c) i _ q H) as (rest & E1 & E2)
    end; rewrite E1 in Ho; rewrite E2; cbn in * ).
  - by rewrite (values_fresh held _ i _ H1).
  - done.
  - by rewrite Ho.
  - by destruct (Attempts.is_current _ _).
  - by destruct (Attempts.is_current _ _).
  - by destruct (sessions c !! _); cbn in *.
  - rewrite Ho. by rewrite Permutation_middle.
  - pose proof (inv_pending c Hinv _ _ _ _ H1 eq_refl) as (_ & Hn & _).
    rewrite (Sessions.values_insert (entries c)), delete_id by done. rewrite Ho.
    cbn. by rewrite <-!Permutation_middle.
  - rewrite (values_fresh held _ i _ H1), Ho. cbn.
    rewrite (values_entry (entries c) id0) at 1. rewrite <-!app_assoc. by apply Permutation_app_swap_app.
  - done.
  - by destruct e.
  - rewrite Ho. by rewrite Permutation_middle.
Qed.

Lemma inv_drivers_step c c' : inv c -> cstep c c' ->
  (forall d, d ∈ opened c' -> d ∈ created c')
  /\ (forall i t d, threads c' !! i = Some (Connecting t d) ->
       d ∈ created c' /\ d ∉ opened c'
       /\ forall j t' d', threads c' !! j = Some (Connecting t' d') -> j <> i -> d' <> d)
  /\ NoDup (opened c').
Proof.
  intros Hinv Hstep. pose proof (inv_created c Hinv) as Hc. pose proof (inv_connecting c Hinv) as Hk.
  pose proof (inv_nodup c Hinv) as Hn.
  assert (forall i q, (forall t d, q <> Connecting t d) -> forall j t d,
    <[i := q]> (threads c) !! j = Some (Connecting t d) -> j <> i /\ threads c !! j = Some (Connecting t d))
    as Hmove.
  { intros i q Hq j t d [[_ Hj]|[Hne Hj]]%lookup_insert_Some; [by destruct (Hq t d)|auto]. }
  assert (forall i q o, (forall t d, q <> Connecting t d) -> o = opened c ->
    (forall j t d, <[i := q]> (threads c) !! j = Some (Connecting t d) ->
       d ∈ created c /\ d ∉ o
       /\ forall k t' d', <[i := q]> (threads c) !! k = Some (Connecting t' d') -> k <> j -> d' <> d))
    as Hother.
  { intros i q o Hq -> j t d Hj. destruct (Hmove i q Hq j t d Hj) as [Hne Hj'].
    destruct (Hk j t d Hj') as (H1 & H2 & H3). split_and!; [done..|].
    intros k t' d' Hk' Hkj. destruct (Hmove i q Hq k t' d' Hk') as [_ Hk'']. by eapply H3. }
  destruct Hstep as [i id0 d H1 H2 H3|i t d H1|i t d H1|i t d H1|i t d H1|i t d H1|i id0 d pr H1
    |i id0 d H1|i id0 d H1|i id0 H1|i id0 e H1|i id0 e H1|i d H1]; cbn;
    try (split_and!; [done| |done]; apply Hother; [|done]; intros; repeat case_match; discriminate).
  - split_and!; [|intros j t d' Hj|done]; [intros d' Hd'; apply elem_of_union_r; by apply Hc|].
    apply lookup_insert_Some in Hj as [[<- Hj]|[Hne Hj]]; simplify_eq.
    + split_and!; [set_solver|intros ?%Hc; done|].
      intros k t' d0 [[<- _]|[_ Hk0]]%lookup_insert_Some Hki; [done|].
      destruct (Hk _ _ _ Hk0) as [? _]. intros ->. done.
    + destruct (Hk _ _ _ Hj) as (? & ? & H4). split_and!; [set_solver|done|].
      intros k t' d0 [[<- Hk0]|[_ Hk0]]%lookup_insert_Some Hki; [|by eapply H4].
      simplify_eq. intros ->. done.
  - destruct (Hk _ _ _ H1) as (H2 & H3 & H4). split_and!.
    + intros d' [->|Hd']%elem_of_cons; [done|by apply Hc].
    + intros j t' d' Hj. destruct (Hmove i (Connected t d) ltac:(discriminate) j t' d' Hj) as [Hne Hj'].
      destruct (Hk _ _ _ Hj') as (H5 & H6 & H7). split_and!; [done| |].
      * rewrite not_elem_of_cons. split; [by eapply H4|done].
      * intros k t0 d0 Hk0 Hkj. destruct (Hmove i (Connected t d) ltac:(discriminate) k t0 d0 Hk0) as [_ Hk0'].
        by eapply H7.
    + by constructor.
Qed.

Lemma inv_init : inv init.
Proof.
  split; cbn; try (by intros; simplify_map_eq); try set_solver.
  - intros id [[? Hs]|[? Hs]]; simplify_map_eq.
  - constructor.
Qed.

Lemma inv_step c c' : inv c -> cstep c c' -> inv c'.
Proof.
  intros Hinv Hstep.
  destruct (inv_used_step c c' Hinv Hstep), (inv_drivers_step c c' Hinv Hstep) as (? & ? & ?).
  split; [by eapply inv_ids_step|done..|by apply (inv_owned_step c)].
Qed.

Lemma inv_reachable c : rtc cstep init c -> inv c.
Proof.
  assert (forall a b, rtc cstep a b -> inv a -> inv b) as Hr.
  { induction 1 as [|a b d Hs _ IH]; [done|]. intros Ha. by eapply IH, inv_step. }
  intros Hc. by eapply Hr, inv_init.
Qed.
End concurrent.

(** C3: no driver is ever leaked or torn down twice, however connects,
    disconnects (of any ids, known or not), failures and lost races overlap:
    in every reachable state the drivers whose connect succeeded, each once,
    are exactly the ones a task is still responsible for, the ones the entry
    map holds, where [get] and [disconnect] find them, and the ones whose
    disconnect was called, once. *)
Theorem drivers_accounted {D : Type} `{Countable D} (c : cstate (D := D)) :
  rtc cstep init c ->
  NoDup (opened c)
  /\ opened c ≡ₚ ((Sessions.values (threads c) ≫= held) ++ Sessions.values (entries c)) ++ closed c.
Proof. intros Hr. apply inv_reachable in Hr. by split; [apply inv_nodup|apply inv_owned]. Qed.

(** A connect that got as far as an open driver. *)
Lemma drivers_accounted_witness :
  exists c, rtc cstep (init (D := nat)) c /\ opened c = [5]
    /\ opened c ≡ₚ ((Sessions.values (threads c) ≫= held) ++ Sessions.values (entries c)) ++ closed c.
Proof.
  pose proof (s_begin (init (D := nat)) 0 7%N 5 eq_refl
    ltac:(apply not_elem_of_empty) ltac:(apply not_elem_of_empty)) as H1.
  match type of H1 with cstep _ ?c =>
    pose proof (s_connected c 0 (AttemptToken_new 7 1) 5 eq_refl) as H2 end.
  pose proof (rtc_l _ _ _ _ H1 (rtc_once _ _ H2)) as Hr.
  eexists. split; [exact Hr|]. split; [reflexivity|].
  exact (proj2 (drivers_accounted _ Hr)).
Defined.
End Concurrent.
