(* ===== verification/Export.v ===== *)
(** * JSON Lines export (crates/connections/src/tools/export_query_jsonl.rs)

    The pure part of the tool: how a type name classifies a column, how a
    cell becomes a JSON value and a result set its lines.  The tool itself is
    in [Tools].  Parsing floats and printing JSON text are parameters. *)
From S2P Require Import Prelude RustStr Json Core.

Inductive TypeClass := Boolean | Integer | Float | String_.

(** One turn of the loop of [unwrap_wrappers]. *)
Definition unwrap_once (t : string) : option string :=
  inner ← match strip_prefix "nullable(" t with
          | Some inner => Some inner
          | None => strip_prefix "lowcardinality(" t
          end;
  inner ← strip_suffix ")" inner;
  Some (trim inner).

Fixpoint unwrap_loop (fuel : nat) (t : string) : string :=
  match fuel with
  | 0 => t
  | S fuel => match unwrap_once t with Some inner => unwrap_loop fuel inner | None => t end
  end.
(** Each turn shortens the name, so its length is fuel enough. *)
Definition unwrap_wrappers (type_name : string) : string :=
  unwrap_loop (S (String.length type_name)) type_name.

Definition is_float (t : string) : bool :=
  bool_decide (t ∈ ["real"; "double"; "double precision"]) || starts_with "float" t.

Definition integer_names : list string :=
  ["int2"; "int4"; "int8"; "smallint"; "integer"; "int"; "bigint"; "serial"; "serial2"; "serial4";
   "serial8"; "smallserial"; "bigserial"; "oid"].
Definition digits_after (prefix t : string) : bool :=
  match strip_prefix prefix t with
  | Some rest => negb (is_empty rest) && str_all is_ascii_digit rest
  | None => false
  end.
Definition is_integer (t : string) : bool :=
  bool_decide (t ∈ integer_names) || digits_after "int" t || digits_after "uint" t.

Definition classify (type_name : string) : TypeClass :=
  let t := unwrap_wrappers (to_ascii_lowercase (trim type_name)) in
  if bool_decide (t = "bool") || bool_decide (t = "boolean") then Boolean
  else if str_contains "decimal" t || str_contains "numeric" t then String_
  else if is_float t then Float
  else if is_integer t then Integer
  else String_.

Definition parse_bool (text : string) : option bool :=
  let t := to_ascii_lowercase (trim text) in
  if bool_decide (t ∈ ["t"; "true"; "1"; "yes"; "y"]) then Some true
  else if bool_decide (t ∈ ["f"; "false"; "0"; "no"; "n"]) then Some false
  else None.

Definition hex_encode (bytes : list byte) : string := backslash +:+ "x" +:+ hex_bytes bytes.

(** [Number::from_f64] refuses NaN and the infinities: on the 64 bits of the
    float, an exponent of all ones. *)
Definition from_f64 (bits : Z) : option Number :=
  if (Z.land (Z.shiftr bits 52) 2047 =? 2047)%Z then None else Some (Json.Float bits).

#[global] Arguments unwrap_once : simpl never.
#[global] Arguments unwrap_wrappers : simpl never.
#[global] Arguments classify : simpl never.

Section render.
(** [str::parse::<f64>] (as its bits) and [Value]'s [Display]. *)
Context (parse_f64 : string -> option Z).
Context (to_string : Value -> string).

Definition coerce_text (text type_name : string) : Value :=
  match classify type_name with
  | Boolean => from_option JBool (JString text) (parse_bool text)
  | Integer =>
      match parse_i64 text with
      | Some n => int_value n
      | None => from_option int_value (JString text) (parse_u64 text)
      end
  | Float =>
      match parse_f64 text with
      | Some f => from_option JNumber (JString text) (from_f64 f)
      | None => JString text
      end
  | String_ => JString text
  end.

Definition cell_to_json (cell : CellValue) (type_name : string) : Value :=
  match cell with
  | Null => JNull
  | Bytes bytes => JString (hex_encode bytes)
  | Text text => coerce_text text type_name
  end.

Definition render_cell (columns type_names : list string) (i : nat) (cell : CellValue) : string :=
  (if (0 <? i)%nat then "," else EmptyString)
  +:+ to_string (JString (default EmptyString (columns !! i))) +:+ ":"
  +:+ to_string (cell_to_json cell (default EmptyString (type_names !! i))).

Definition render_row (columns type_names : list string) (row : list CellValue) : string :=
  "{" +:+ str_concat (imap (render_cell columns type_names) row) +:+ "}" +:+ newline.

Definition render_jsonl (result : QueryResult) : string :=
  str_concat (render_row (columns result) (column_type_names result) <$> rows result).

#[local] Arguments render_row : simpl never.

(** ** Theorems *)

(** A cell is exported without being changed into something else: NULL,
    and only NULL, is null; bytes are their hex form; text is either kept as
    it is, or, when the column's type says so and the text really parses as
    one, the integer, boolean or finite float it denotes; text of a decimal
    or numeric column, however wrapped, is always kept as it is. *)
Theorem cell_to_json_faithful (cell : CellValue) (type_name : string) :
  (cell_to_json cell type_name = JNull <-> cell = Null)
  /\ match cell with
     | Null => True
     | Bytes bs => cell_to_json cell type_name = JString (hex_encode bs)
     | Text t =>
         cell_to_json cell type_name = JString t
         \/ (exists n, cell_to_json cell type_name = int_value n
                /\ (parse_i64 t = Some n \/ parse_u64 t = Some n) /\ classify type_name = Integer)
         \/ (exists b, cell_to_json cell type_name = JBool b
                /\ parse_bool t = Some b /\ classify type_name = Boolean)
         \/ (exists f, cell_to_json cell type_name = JNumber (Json.Float f)
                /\ parse_f64 t = Some f /\ from_f64 f <> None /\ classify type_name = Float)
     end
  /\ forall t, cell = Text t ->
       (let n := unwrap_wrappers (to_ascii_lowercase (trim type_name)) in
        str_contains "decimal" n = true \/ str_contains "numeric" n = true) ->
       cell_to_json cell type_name = JString t.
Proof.
  assert (forall n, int_value n <> JNull) as Hint by (intros n; unfold int_value; done).
  destruct cell as [|t|bs]; cbn; [split_and!; done| |split_and!; done].
  split_and!; [split; [|done]| |].
  - unfold coerce_text, from_option. destruct (classify type_name); [| | |discriminate].
    + destruct (parse_bool t); discriminate.
    + destruct (parse_i64 t); [by intros ?%Hint|]. destruct (parse_u64 t); [by intros ?%Hint|].
      discriminate.
    + destruct (parse_f64 t) as [f|]; [|discriminate]. destruct (from_f64 f); discriminate.
  - unfold coerce_text, from_option.
    destruct (classify type_name); [|  | |by left].
    + destruct (parse_bool t); [|by left]. right; right; left. eauto.
    + destruct (parse_i64 t) eqn:Hi; [right; left; eauto|].
      destruct (parse_u64 t) eqn:Hu; [right; left; eauto|by left].
    + destruct (parse_f64 t) as [f|] eqn:Hf; [|by left].
      destruct (from_f64 f) as [n|] eqn:Hn; [|by left]. right; right; right. exists f.
      split_and!; [|done|congruence|done]. revert Hn. unfold from_f64.
      destruct (_ =? _)%Z; [discriminate|]. by intros [= <-].
  - intros t' [= ->] Hd. unfold coerce_text, classify. cbv zeta in Hd.
    set (n := unwrap_wrappers _) in *.
    assert (str_contains "decimal" n || str_contains "numeric" n = true) as -> by
      (destruct Hd as [->| ->]; [done|by rewrite orb_true_r]).
    destruct (bool_decide (n = "bool") || bool_decide (n = "boolean")) eqn:Hb; [|done].
    apply orb_true_iff in Hb as [Hb|Hb]; apply bool_decide_eq_true in Hb; rewrite Hb in Hd;
      vm_compute in Hd; destruct Hd; discriminate.
Qed.

(** What the printer owes: JSON text has no raw newline. *)
Definition prints_one_line : Prop := forall v, str_free "010"%char (to_string v) = true.

Lemma render_row_line (H : prints_one_line) cs ts row :
  exists l, render_row cs ts row = l +:+ newline /\ str_free "010"%char l = true.
Proof.
  eexists. split; [unfold render_row; rewrite !str_app_assoc; reflexivity|].
  rewrite !str_free_app. cbn. rewrite andb_true_r.
  assert (forall k, str_free "010"%char (str_concat (imap (fun i => render_cell cs ts (k + i)) row)) = true)
    as Hrow; [|by apply (Hrow 0)].
  induction row as [|c row IH]; intros k; [done|]. cbn [imap str_concat].
  rewrite str_free_app. unfold render_cell at 1. rewrite !str_free_app, !H.
  rewrite (imap_ext _ (fun i => render_cell cs ts (S k + i))).
  - rewrite IH. by destruct (0 <? k + 0)%nat.
  - intros i x _. cbn. by rewrite Nat.add_succ_r.
Qed.

Lemma split_on_line l s :
  str_free "010"%char l = true ->
  split_on "010"%char (l +:+ (newline +:+ s)) = l :: split_on "010"%char s.
Proof. exact (split_on_app_free "010"%char l s). Qed.

(** The export has exactly one newline-terminated line per row and no
    other line break, so a consumer that splits on newlines gets the rows
    back one by one, each from its brace to its brace. *)
Theorem render_jsonl_lines (result : QueryResult) :
  prints_one_line ->
  exists ls, split_on "010"%char (render_jsonl result) = ls ++ [EmptyString]
    /\ length ls = length (rows result)
    /\ forall i row, rows result !! i = Some row ->
         (fun l => l +:+ newline) <$> ls !! i
         = Some (render_row (columns result) (column_type_names result) row).
Proof.
  intros H. unfold render_jsonl. set (cs := columns result). set (ts := column_type_names result).
  induction (rows result) as [|row rows IH]; cbn; [by exists []|].
  destruct IH as (ls & Hs & Hl & Hi). destruct (render_row_line H cs ts row) as (l & Hr & Hf).
  exists (l :: ls). split_and!.
  - rewrite Hr, <-str_app_assoc, split_on_line by done. by rewrite Hs.
  - cbn. by rewrite Hl.
  - intros [|i] row'; cbn; [|by apply Hi]. intros [= <-]. by rewrite Hr.
Qed.
End render.

Lemma unwrap_once_length t inner : unwrap_once t = Some inner -> String.length inner < String.length t.
Proof.
  unfold unwrap_once. intros H.
  assert (exists p, String.length p > 0 /\ exists u, t = p +:+ u
    /\ (inner ← strip_suffix ")" u; Some (trim inner)) = Some inner) as (p & Hp & u & -> & Hu).
  { destruct (strip_prefix "nullable(" t) as [u|] eqn:H1.
    - apply strip_prefix_Some in H1 as ->. exists "nullable(". split; [cbn; lia|]. eauto.
    - destruct (strip_prefix "lowcardinality(" t) as [u|] eqn:H2; [|discriminate].
      apply strip_prefix_Some in H2 as ->. exists "lowcardinality(". split; [cbn; lia|]. eauto. }
  destruct (strip_suffix ")" u) as [v|] eqn:Hv; [|discriminate]. cbn in Hu. injection Hu as <-.
  apply strip_suffix_Some in Hv as ->. rewrite !str_length_app. pose proof (trim_length v). lia.
Qed.

Lemma unwrap_loop_enough f1 f2 t :
  String.length t < f1 -> String.length t < f2 -> unwrap_loop f1 t = unwrap_loop f2 t.
Proof.
  revert f2 t. induction f1 as [|f1 IH]; intros [|f2] t H1 H2; try lia. cbn.
  destruct (unwrap_once t) as [inner|] eqn:Hu; [|done]. apply unwrap_once_length in Hu.
  apply IH; lia.
Qed.

(** Peeling the ClickHouse wrappers terminates, since every turn shortens
    the name, and ends at a name that is not wrapped any more; each wrapper
    on the outside is transparent, however many there are. *)
Theorem unwrap_wrappers_peels (t : string) :
  unwrap_once (unwrap_wrappers t) = None
  /\ unwrap_wrappers ("nullable(" +:+ t +:+ ")") = unwrap_wrappers (trim t)
  /\ unwrap_wrappers ("lowcardinality(" +:+ t +:+ ")") = unwrap_wrappers (trim t).
Proof.
  assert (forall w t, (forall u, unwrap_once (w +:+ u) = (inner ← strip_suffix ")" u; Some (trim inner))) ->
    String.length w > 0 -> unwrap_wrappers (w +:+ t +:+ ")") = unwrap_wrappers (trim t)) as Hw.
  { intros w u Hw Hl. unfold unwrap_wrappers at 1. cbn [unwrap_loop].
    rewrite Hw, (proj2 (strip_suffix_Some ")" (u +:+ ")") u) eq_refl). cbn [mbind option_bind].
    apply unwrap_loop_enough; [|lia]. rewrite !str_length_app. cbn. pose proof (trim_length u). lia. }
  split_and!.
  - unfold unwrap_wrappers. assert (String.length t < S (String.length t)) as Hl by lia.
    revert Hl. generalize (S (String.length t)) as fuel. intros fuel. revert t.
    induction fuel as [|fuel IH]; intros t Hl; [lia|]. cbn.
    destruct (unwrap_once t) as [inner|] eqn:Hu; [|done]. apply IH.
    apply unwrap_once_length in Hu. lia.
  - apply Hw; [|cbn; lia]. intros u. unfold unwrap_once.
    by rewrite (proj2 (strip_prefix_Some "nullable(" _ u) eq_refl).
  - apply Hw; [|cbn; lia]. intros u. unfold unwrap_once.
    by rewrite (proj2 (strip_prefix_Some "lowcardinality(" _ u) eq_refl).
Qed.

Lemma render_jsonl_lines_witness :
  let result := {| columns := ["a"]; column_type_names := ["int4"]; rows := [[Text "1"]; [Null]];
                   rows_affected := 0; execution_time := 0; is_truncated := false;
                   status_message := None; column_meta := None |} in
  let one_line v := match v with JNumber _ | JNull => "0" | _ => EmptyString end in
  exists ls, split_on "010"%char (render_jsonl (fun _ => None) one_line result) = ls ++ [EmptyString]
    /\ length ls = 2.
Proof.
  intros result one_line.
  assert (prints_one_line one_line) as H by (intros []; reflexivity).
  destruct (render_jsonl_lines (fun _ => None) one_line result H) as (ls & Hs & Hl & _).
  exists ls. split; [exact Hs|exact Hl].
Defined.
