(* ===== verification/ToValue.v ===== *)
(** * The serde forms of the transfer types

    The derived [Serialize] of the types of crates/core, of the connection
    summary and of the connection profile, as the JSON values the tools put
    in their results: a struct is an object of its fields, an [Option] its
    content or null, a unit variant its snake-case name, a [Duration] its
    seconds and nanoseconds. *)
From S2P Require Import Prelude RustStr Json Core Registry Manager Profiles.

Definition json_list {A} (f : A -> Value) (l : list A) : Value := JArray (f <$> l).
Definition json_opt {A} (f : A -> Value) (o : option A) : Value :=
  match o with Some a => f a | None => JNull end.

(** [tag = "kind", content = "value"] *)
Definition cell_to_value (c : CellValue) : Value :=
  match c with
  | Null => json_object [("kind", JString "null")]
  | Text s => json_object [("kind", JString "text"); ("value", JString s)]
  | Bytes bs => json_object [("kind", JString "bytes");
      ("value", json_list (fun b => int_value (Z.of_N (Byte.to_N b))) bs)]
  end.

Definition IdentityKind_name (k : IdentityKind) : string :=
  match k with Always => "always" | ByDefault => "by_default" end.
Definition TableKind_name (k : TableKind) : string :=
  match k with Table => "table" | View => "view" | MaterializedView => "materialized_view" end.

Definition column_to_value (c : ColumnInfo) : Value :=
  json_object [("name", JString (col_name c)); ("data_type", JString (col_data_type c));
    ("is_nullable", JBool (col_is_nullable c)); ("is_primary_key", JBool (col_is_primary_key c));
    ("default_value", opt_string (col_default_value c)); ("extra", opt_string (col_extra c));
    ("charset", opt_string (col_charset c)); ("collation", opt_string (col_collation c));
    ("comment", opt_string (col_comment c));
    ("identity_kind", json_opt (fun k => JString (IdentityKind_name k)) (col_identity_kind c));
    ("is_generated", JBool (col_is_generated c));
    ("allowed_values", json_opt json_strings (col_allowed_values c))].

Definition table_to_value (t : TableInfo) : Value :=
  json_object [("name", JString (ti_name t)); ("schema", opt_string (ti_schema t));
    ("kind", JString (TableKind_name (ti_kind t))); ("comment", opt_string (ti_comment t));
    ("row_count_estimate", json_opt int_value (ti_row_count_estimate t))].

Definition index_to_value (i : IndexInfo) : Value :=
  json_object [("name", JString (ix_name i)); ("columns", json_strings (ix_columns i));
    ("is_unique", JBool (ix_is_unique i)); ("is_primary", JBool (ix_is_primary i));
    ("method", opt_string (ix_method i))].

Definition foreign_key_to_value (f : ForeignKeyInfo) : Value :=
  json_object [("name", JString (fk_name f)); ("columns", json_strings (fk_columns f));
    ("referenced_table", JString (fk_referenced_table f));
    ("referenced_schema", opt_string (fk_referenced_schema f));
    ("referenced_columns", json_strings (fk_referenced_columns f));
    ("on_delete", opt_string (fk_on_delete f)); ("on_update", opt_string (fk_on_update f))].

Definition trigger_to_value (t : TriggerInfo) : Value :=
  json_object [("name", JString (tg_name t)); ("event", JString (tg_event t));
    ("timing", JString (tg_timing t)); ("definition", opt_string (tg_definition t))].

Definition table_metadata_to_value (m : TableMetadata) : Value :=
  json_object [("info", table_to_value (tm_info m));
    ("columns", json_list column_to_value (tm_columns m));
    ("indexes", json_list index_to_value (tm_indexes m));
    ("foreign_keys", json_list foreign_key_to_value (tm_foreign_keys m));
    ("triggers", json_list trigger_to_value (tm_triggers m))].

(** [std::time::Duration], from its nanoseconds. *)
Definition duration_to_value (ns : Z) : Value :=
  json_object [("secs", int_value (ns / 1000000000)); ("nanos", int_value (ns mod 1000000000))].

Definition query_result_to_value (r : QueryResult) : Value :=
  json_object [("columns", json_strings (columns r));
    ("column_type_names", json_strings (column_type_names r));
    ("rows", json_list (json_list cell_to_value) (rows r));
    ("rows_affected", int_value (rows_affected r));
    ("execution_time", duration_to_value (execution_time r));
    ("is_truncated", JBool (is_truncated r)); ("status_message", opt_string (status_message r));
    ("column_meta", json_opt (json_list column_to_value) (column_meta r))].

Section uuid.
(** [Uuid]'s text form. *)
Context (uuid_to_string : Uuid -> string).
Definition summary_to_value (s : ConnectionSummary) : Value :=
  json_object [("connection_id", JString (uuid_to_string (cs_connection_id s)));
    ("database_type", JString (cs_database_type s));
    ("connected_at_unix_ms", int_value (cs_connected_at_unix_ms s))].
End uuid.

Definition profile_to_value (p : ConnectionProfile) : Value :=
  json_object [("name", JString (cp_name p)); ("database_type", JString (cp_database_type p));
    ("host", JString (cp_host p)); ("port", int_value (cp_port p));
    ("username", JString (cp_username p)); ("database", opt_string (cp_database p));
    ("ssl_mode", json_opt (fun m => JString (SslMode_name m)) (cp_ssl_mode p));
    ("read_only", JBool (cp_read_only p)); ("has_password", JBool (cp_has_password p));
    ("created_at_unix_ms", int_value (cp_created_at_unix_ms p));
    ("updated_at_unix_ms", int_value (cp_updated_at_unix_ms p))].
