(* ===== verification/Tools.v ===== *)
(** * The database tools (crates/connections/src/tools)

    Every tool of the server that touches a connection or a profile, as an
    [McpTool] over the two managers' states.  The typed arguments are decoded
    by serde ([FromValue]); the timer is tokio's. *)
From S2P Require Import Prelude RustStr Json JsonRpc McpServer Core Registry Manager.
From S2P Require Import FileStore Secrets Profiles ToValue Export.

(** The derived [Deserialize] of an argument struct, with its error text. *)
Class FromValue (A : Type) := from_value : Value -> result string A.

(** [tokio::time::timeout]: [None] when the deadline passes first. *)
Class Timer (W : Type) :=
  timeout : forall A, Z -> eff W DriverError A -> W -> option (DriverResult A) * W.

(** What the documentation of the timer promises: a future that completes in
    time has run to its end. *)
Class TimerLaw (W : Type) `{Timer W} :=
  timeout_completes : forall A secs (m : eff W DriverError A) w r w',
    timeout A secs m w = (Some r, w') -> m w = (r, w').

(** ** The argument structs *)

Record ConnectArgs := {
  ca_profile_name : option string;
  ca_database_type : option string;
  ca_host : option string;
  ca_port : option Z;
  ca_username : option string;
  ca_password : option string;
  ca_database : option string;
  ca_ssl_mode : option string;
  ca_read_only : option bool;
}.
(** [DisconnectArgs], [GetConnectionStatusArgs], [ListDatabasesArgs] and
    [ListSchemasArgs] have this one field. *)
Record IdArgs := { ia_connection_id : string }.
(** [ExecuteQueryArgs] and [ExportQueryJsonlArgs]. *)
Record QueryArgs := {
  qa_connection_id : string;
  qa_query : string;
  qa_parameters : option (list (option string));
  qa_row_cap : option Z;
}.
Record ListTablesArgs := { lt_connection_id : string; lt_schema : option string }.
Record DescribeTableArgs := {
  dt_connection_id : string; dt_table : string; dt_schema : option string }.
Record SaveConnectionProfileArgs := {
  sa_name : string;
  sa_database_type : string;
  sa_host : string;
  sa_port : Z;
  sa_username : string;
  sa_password : option string;
  sa_database : option string;
  sa_ssl_mode : option string;
  sa_read_only : option bool;
}.
Record DeleteConnectionProfileArgs := { da_name : string }.

(** ** Schemas *)

Definition json_type (t : string) : Value := json_object [("type", JString t)].
Definition json_described (t d : string) : Value :=
  json_object [("type", JString t); ("description", JString d)].
Definition port_schema : Value :=
  json_object [("type", JString "integer"); ("minimum", int_value 0); ("maximum", int_value 65535)].
Definition ssl_mode_schema : Value :=
  json_object [("type", JString "string");
    ("enum", json_strings ["disabled"; "preferred"; "required"; "verify_ca"; "verify_identity"]);
    ("description", JString "Defaults to verify_identity when omitted.")].
Definition object_schema (properties : list (string * Value)) (required : list string) : Value :=
  json_object [("type", JString "object"); ("properties", json_object properties);
    ("required", json_strings required); ("additionalProperties", JBool false)].
Definition no_arguments_schema : Value :=
  json_object [("type", JString "object"); ("properties", json_object []);
    ("additionalProperties", JBool false)].
Definition id_schema : Value :=
  object_schema [("connection_id", json_type "string")] ["connection_id"].
Definition query_schema : Value :=
  object_schema [("connection_id", json_type "string"); ("query", json_type "string");
    ("parameters", json_object [("type", JString "array");
       ("items", json_object [("type", json_strings ["string"; "null"])]);
       ("description", JString "Bound parameters in order. null binds SQL NULL; a string binds a text value. Binary parameters are not supported through this tool.")]);
    ("row_cap", json_object [("type", JString "integer"); ("minimum", int_value 0)])]
    ["connection_id"; "query"].
Definition connect_schema : Value :=
  json_object [("type", JString "object");
    ("properties", json_object [
      ("profile_name", json_described "string" "Name of a profile saved via save_connection_profile. Cannot be combined with database_type/host/port/username/password/database.");
      ("database_type", json_described "string" ("Driver id the connection manager was registered under, e.g. " +:+ quoted "PostgreSQL" +:+ ". Required when profile_name is not given."));
      ("host", json_type "string"); ("port", port_schema); ("username", json_type "string");
      ("password", json_type "string"); ("database", json_type "string");
      ("ssl_mode", ssl_mode_schema);
      ("read_only", json_described "boolean" "When true, the connection rejects any write the underlying engine can be made to refuse. Only applies to the ad-hoc credential path; a profile_name connection uses the read_only value saved on that profile. Defaults to false.")]);
    ("oneOf", JArray [json_object [("required", json_strings ["profile_name"])];
                      json_object [("required", json_strings ["database_type"; "host"; "port"; "username"])]]);
    ("additionalProperties", JBool false)].
Definition save_schema : Value :=
  object_schema [
    ("name", json_described "string" ("Unique name for this profile, e.g. " +:+ quoted "prod-db" +:+ ". Saving again with the same name updates it."));
    ("database_type", json_described "string" ("Driver id the connection manager was registered under, e.g. " +:+ quoted "PostgreSQL" +:+ "."));
    ("host", json_type "string"); ("port", port_schema); ("username", json_type "string");
    ("password", json_described "string" "Stored encrypted-at-rest. Omit on an update to keep the existing password unchanged.");
    ("database", json_type "string"); ("ssl_mode", ssl_mode_schema);
    ("read_only", json_described "boolean" "When true, connections opened via this profile reject any write the underlying engine can be made to refuse. Omit on an update to keep the currently stored value unchanged; defaults to false for a brand new profile.")]
    ["name"; "database_type"; "host"; "port"; "username"].

(** ** Pure helpers *)

(** execute_query.rs: [to_cell_value] *)
Definition to_cell_value (arg : option string) : CellValue :=
  match arg with Some text => Text text | None => Null end.

(** connect.rs: [parse_ssl_mode] *)
Definition parse_ssl_mode (raw : option string) : result McpToolError SslMode :=
  match raw with
  | None => Ok VerifyIdentity
  | Some other =>
      if decide (other = "disabled") then Ok Disabled
      else if decide (other = "preferred") then Ok Preferred
      else if decide (other = "required") then Ok Required
      else if decide (other = "verify_ca") then Ok VerifyCa
      else if decide (other = "verify_identity") then Ok VerifyIdentity
      else Err (InvalidArguments ("unrecognized ssl_mode: " +:+ other))
  end.
(** save_connection_profile.rs: [parse_ssl_mode] *)
Definition parse_profile_ssl_mode (raw : option string) : result McpToolError (option SslMode) :=
  Some <$> parse_ssl_mode raw.

(** [ProfileError]'s and [SecretError]'s [Display]; an I/O error's own text
    is not modelled. *)
Definition SecretError_to_string (e : SecretError) : string :=
  match e with
  | Secrets.Io => "secret store I/O failure: "
  | MissingMasterKey => "missing master key: set the " +:+ MASTER_KEY_ENV_VAR
      +:+ " environment variable to 64 hex characters (32 bytes)"
  | InvalidMasterKey reason => "invalid master key: " +:+ reason
  | EmptyKey => "secret key must not be empty"
  | EncryptionFailed key => "encryption failed for key '" +:+ key +:+ "'"
  | DecryptionFailed key => "decryption failed for key '" +:+ key +:+ "'"
  | Corrupted reason => "secret store file is corrupted: " +:+ reason
  end.
Definition ProfileError_to_string (e : ProfileError) : string :=
  match e with
  | PIo => "connection profile metadata store I/O failure: "
  | PCorrupted reason => "connection profile metadata store is corrupted: " +:+ reason
  | EmptyName => "connection profile name must not be empty"
  | Profiles.NotFound name => "no such connection profile: " +:+ name
  | Secret e => SecretError_to_string e
  end.

(** connect.rs: the ad-hoc branch, up to the configuration it connects with. *)
Definition adhoc_config (args : ConnectArgs) : result McpToolError (string * ConnectionConfig) :=
  let required name := InvalidArguments (name +:+ " is required when profile_name is not given") in
  database_type ← ok_or (required "database_type") (ca_database_type args);
  host ← ok_or (required "host") (ca_host args);
  port ← ok_or (required "port") (ca_port args);
  username ← ok_or (required "username") (ca_username args);
  ssl_mode ← parse_ssl_mode (ca_ssl_mode args);
  Ok (database_type,
      {| cfg_host := host; cfg_port := port; cfg_username := username;
         cfg_password := ca_password args; cfg_database := ca_database args;
         cfg_ssl := {| mode := Some ssl_mode; ca_path := None; client_cert_path := None;
                       client_key_path := None |};
         cfg_read_only := default false (ca_read_only args);
         cfg_additional_fields := ∅ |}).
Definition has_adhoc_fields (args : ConnectArgs) : bool :=
  bool_decide (is_Some (ca_database_type args)) || bool_decide (is_Some (ca_host args))
  || bool_decide (is_Some (ca_port args)) || bool_decide (is_Some (ca_username args))
  || bool_decide (is_Some (ca_password args)) || bool_decide (is_Some (ca_database args))
  || bool_decide (is_Some (ca_ssl_mode args)) || bool_decide (is_Some (ca_read_only args)).

(** ** The tools *)

(** What the tools share: the connection manager and the profile manager. *)
Record tworld (W D S : Type) := { t_manager : manager W D; t_profiles : pworld S }.
Arguments t_manager {W D S} _. Arguments t_profiles {W D S} _.

Section tools.
Context {W D F S : Type} `{Host W D F} `{Timer W} `{SecretStore S}.
Context (factories : gmap string F).
(** Where the profile manager keeps its metadata. *)
Context (path : string) (temp_name : gmap string file -> string).
Context (from_slice : list byte -> result string ProfileFile).
Context (to_vec_pretty : ProfileFile -> result string (list byte)).
(** The [uuid] crate, float parsing and JSON text. *)
Context (parse_uuid : string -> result string Uuid) (uuid_to_string : Uuid -> string).
Context (parse_f64 : string -> option Z) (to_string : Value -> string).
Context `{!FromValue ConnectArgs} `{!FromValue IdArgs} `{!FromValue QueryArgs}
  `{!FromValue ListTablesArgs} `{!FromValue DescribeTableArgs}
  `{!FromValue SaveConnectionProfileArgs} `{!FromValue DeleteConnectionProfileArgs}.

Abbreviation T := (eff (tworld W D S) McpToolError).

Definition on_manager {E A} (m : eff (manager W D) E A) : eff (tworld W D S) E A := fun w =>
  let '(r, s) := m (t_manager w) in (r, {| t_manager := s; t_profiles := t_profiles w |}).
Definition on_profiles {E A} (m : eff (pworld S) E A) : eff (tworld W D S) E A := fun w =>
  let '(r, s) := m (t_profiles w) in (r, {| t_manager := t_manager w; t_profiles := s |}).

(** support.rs *)
Definition parse_arguments {A} `{FromValue A} (arguments : option Value) : result McpToolError A :=
  value ← ok_or (InvalidArguments "missing arguments") arguments;
  map_err InvalidArguments (from_value value).

Definition parse_connection_id (raw : string) : result McpToolError Uuid :=
  map_err (fun err => InvalidArguments ("invalid connection_id: " +:+ err)) (parse_uuid raw).

Definition map_manager_error (err : ConnectionManagerError) : McpToolError :=
  match err with
  | Manager.NotFound id => ToolFailed ("no such connection: " +:+ uuid_to_string id)
  | UnknownDatabaseType database_type => ToolFailed ("unknown database type: " +:+ database_type)
  | Superseded id => ToolFailed ("connection attempt for " +:+ uuid_to_string id
                                 +:+ " was superseded by a newer attempt")
  | Driver driver_error => ToolFailed (DriverError_to_string driver_error)
  end.

(** [self.manager.get(connection_id)] *)
Definition live_driver (id : Uuid) : T D := fun w =>
  (map_err map_manager_error (Manager.get id (t_manager w)), w).
(** [self.manager.status(connection_id)] *)
Definition live_status (id : Uuid) : T ConnectionSummary := fun w =>
  (map_err map_manager_error (Manager.status id (t_manager w)), w).
Definition driver_failed (err : DriverError) : McpToolError :=
  ToolFailed (DriverError_to_string err).
(** Awaiting a driver method and mapping its error. *)
Definition call_driver {A} (m : eff W DriverError A) : T A :=
  eff_map_err driver_failed (on_manager (on_world m)).

Definition run_user_query (connection_id : Uuid) (query : string)
    (parameters : option (list CellValue)) (row_cap : option Z) : T QueryResult :=
  driver ← live_driver connection_id;
  outcome ← (fun w => let '(o, wd) := timeout QueryResult CLIENT_BACKSTOP_SECS
               (execute_user_query (driver_of driver) query row_cap parameters)
               (m_world (t_manager w)) in
             (Ok o, {| t_manager := set_world wd (t_manager w); t_profiles := t_profiles w |}));
  match outcome with
  | Some query_result => lift (map_err driver_failed query_result)
  | None =>
      _ ← attempt (on_manager (on_world (cancel_query (driver_of driver))));
      throw (ToolFailed ("query exceeded the " +:+ pretty CLIENT_BACKSTOP_SECS +:+ "s client-side timeout and was cancelled; this connection's link may be unstable, or the query itself may be missing an index"))
  end.

(** [profiles]: whether the server was started with profile storage. *)
Definition connect_target (profiles : bool) (args : ConnectArgs)
  : T (string * ConnectionConfig) :=
  match ca_profile_name args with
  | Some profile_name =>
      if has_adhoc_fields args then
        throw (InvalidArguments "profile_name cannot be combined with database_type/host/port/username/password/database/ssl_mode/read_only")
      else if negb profiles then
        throw (ToolFailed "connection profiles are not enabled on this server (set DB_HEADLESS_MASTER_KEY to enable save_connection_profile)")
      else
        resolved ← eff_map_err (fun err => ToolFailed (ProfileError_to_string err))
                     (on_profiles (resolve path from_slice profile_name));
        mret (rp_database_type resolved, rp_config resolved)
  | None => lift (adhoc_config args)
  end.

Definition ConnectTool (profiles : bool) : McpTool (tworld W D S) := {|
  tool_name := "connect";
  tool_description := "Opens a new database connection and returns its connection_id. Pass profile_name to use credentials saved via save_connection_profile, or pass database_type/host/port/username/password directly for a one-off connection.";
  tool_input_schema := connect_schema;
  tool_call arguments :=
    args ← lift (parse_arguments arguments);
    target ← connect_target profiles args;
    connection_id ← eff_map_err map_manager_error
      (on_manager (Manager.connect factories (fst target) (snd target)));
    mret (json_object [("connection_id", JString (uuid_to_string connection_id))])
|}.

Definition DisconnectTool : McpTool (tworld W D S) := {|
  tool_name := "disconnect";
  tool_description := "Closes a live connection.";
  tool_input_schema := id_schema;
  tool_call arguments :=
    args ← lift (parse_arguments (A := IdArgs) arguments);
    connection_id ← lift (parse_connection_id (ia_connection_id args));
    _ ← eff_map_err map_manager_error (on_manager (disconnect_id connection_id));
    mret (json_object [("connection_id", JString (uuid_to_string connection_id));
                       ("disconnected", JBool true)])
|}.

Definition query_parameters (args : QueryArgs) : option (list CellValue) :=
  match qa_parameters args with Some params => Some (to_cell_value <$> params) | None => None end.

Definition ExecuteQueryTool : McpTool (tworld W D S) := {|
  tool_name := "execute_query";
  tool_description := "Executes a SQL query against a live connection and returns the result set.";
  tool_input_schema := query_schema;
  tool_call arguments :=
    args ← lift (parse_arguments (A := QueryArgs) arguments);
    connection_id ← lift (parse_connection_id (qa_connection_id args));
    result ← run_user_query connection_id (qa_query args) (query_parameters args) (qa_row_cap args);
    mret (query_result_to_value result)
|}.

Definition ExportQueryJsonlTool : McpTool (tworld W D S) := {|
  tool_name := "export_query_jsonl";
  tool_description := "Runs a SQL query against a live connection and returns the result set as JSON Lines (one JSON object per row), preserving numeric/boolean/null types that CSV would flatten to strings.";
  tool_input_schema := query_schema;
  tool_call arguments :=
    args ← lift (parse_arguments (A := QueryArgs) arguments);
    connection_id ← lift (parse_connection_id (qa_connection_id args));
    result ← run_user_query connection_id (qa_query args) (query_parameters args) (qa_row_cap args);
    mret (json_object [("jsonl", JString (render_jsonl parse_f64 to_string result));
                       ("row_count", int_value (Z.of_nat (length (rows result))));
                       ("columns", json_strings (columns result));
                       ("column_type_names", json_strings (column_type_names result));
                       ("truncated", JBool (is_truncated result))])
|}.

Definition ListDatabasesTool : McpTool (tworld W D S) := {|
  tool_name := "list_databases";
  tool_description := "Lists databases visible on a live connection.";
  tool_input_schema := id_schema;
  tool_call arguments :=
    args ← lift (parse_arguments (A := IdArgs) arguments);
    connection_id ← lift (parse_connection_id (ia_connection_id args));
    driver ← live_driver connection_id;
    databases ← call_driver (fetch_databases (driver_of driver));
    mret (json_object [("databases", json_strings databases)])
|}.

Definition ListSchemasTool : McpTool (tworld W D S) := {|
  tool_name := "list_schemas";
  tool_description := "Lists schemas visible on a live connection. Returns an empty list for a driver that does not support schemas.";
  tool_input_schema := id_schema;
  tool_call arguments :=
    args ← lift (parse_arguments (A := IdArgs) arguments);
    connection_id ← lift (parse_connection_id (ia_connection_id args));
    driver ← live_driver connection_id;
    if negb (supports_schemas (driver_of driver)) then
      mret (json_object [("schemas", json_strings [])])
    else
      schemas ← call_driver (fetch_schemas (driver_of driver));
      mret (json_object [("schemas", json_strings schemas)])
|}.

Definition ListTablesTool : McpTool (tworld W D S) := {|
  tool_name := "list_tables";
  tool_description := "Lists tables (and views) visible on a live connection, optionally scoped to a schema.";
  tool_input_schema :=
    object_schema [("connection_id", json_type "string"); ("schema", json_type "string")]
      ["connection_id"];
  tool_call arguments :=
    args ← lift (parse_arguments (A := ListTablesArgs) arguments);
    connection_id ← lift (parse_connection_id (lt_connection_id args));
    driver ← live_driver connection_id;
    tables ← call_driver (fetch_tables (driver_of driver) (lt_schema args));
    mret (json_object [("tables", json_list table_to_value tables)])
|}.

Definition DescribeTableTool : McpTool (tworld W D S) := {|
  tool_name := "describe_table";
  tool_description := "Returns columns, indexes, foreign keys, and triggers for a table.";
  tool_input_schema :=
    object_schema [("connection_id", json_type "string"); ("table", json_type "string");
                   ("schema", json_type "string")] ["connection_id"; "table"];
  tool_call arguments :=
    args ← lift (parse_arguments (A := DescribeTableArgs) arguments);
    connection_id ← lift (parse_connection_id (dt_connection_id args));
    driver ← live_driver connection_id;
    metadata ← call_driver (fetch_table_metadata (driver_of driver) (dt_table args) (dt_schema args));
    mret (table_metadata_to_value metadata)
|}.

Definition ListConnectionsTool : McpTool (tworld W D S) := {|
  tool_name := "list_connections";
  tool_description := "Lists every connection currently held open by this server.";
  tool_input_schema := no_arguments_schema;
  tool_call _ :=
    connections ← gets (fun w => list_connections (t_manager w));
    mret (json_object [("connections", json_list (summary_to_value uuid_to_string) connections)])
|}.

Definition GetConnectionStatusTool : McpTool (tworld W D S) := {|
  tool_name := "get_connection_status";
  tool_description := "Returns the status of a single connection by id.";
  tool_input_schema := id_schema;
  tool_call arguments :=
    args ← lift (parse_arguments (A := IdArgs) arguments);
    connection_id ← lift (parse_connection_id (ia_connection_id args));
    status ← live_status connection_id;
    mret (summary_to_value uuid_to_string status)
|}.

Definition SaveConnectionProfileTool : McpTool (tworld W D S) := {|
  tool_name := "save_connection_profile";
  tool_description := "Saves database credentials once under a name. Use `connect` with profile_name afterward instead of passing the password again.";
  tool_input_schema := save_schema;
  tool_call arguments :=
    args ← lift (parse_arguments (A := SaveConnectionProfileArgs) arguments);
    ssl_mode ← lift (parse_profile_ssl_mode (sa_ssl_mode args));
    _ ← eff_map_err (fun err => ToolFailed (ProfileError_to_string err))
      (on_profiles (save path temp_name from_slice to_vec_pretty {|
         sp_name := sa_name args; sp_database_type := sa_database_type args;
         sp_host := sa_host args; sp_port := sa_port args; sp_username := sa_username args;
         sp_password := sa_password args; sp_database := sa_database args;
         sp_ssl_mode := ssl_mode; sp_read_only := sa_read_only args |}));
    mret (json_object [("name", JString (sa_name args)); ("saved", JBool true)])
|}.

Definition ListConnectionProfilesTool : McpTool (tworld W D S) := {|
  tool_name := "list_connection_profiles";
  tool_description := "Lists saved connection profiles (name, host, database_type, etc). Never includes passwords.";
  tool_input_schema := no_arguments_schema;
  tool_call _ :=
    profiles ← eff_map_err (fun err => ToolFailed (ProfileError_to_string err))
      (on_profiles (list_profiles path from_slice));
    mret (json_object [("profiles", json_list profile_to_value profiles)])
|}.

Definition DeleteConnectionProfileTool : McpTool (tworld W D S) := {|
  tool_name := "delete_connection_profile";
  tool_description := "Deletes a saved connection profile and its stored password.";
  tool_input_schema := object_schema [("name", json_type "string")] ["name"];
  tool_call arguments :=
    args ← lift (parse_arguments (A := DeleteConnectionProfileArgs) arguments);
    _ ← eff_map_err (fun err => match err with
          | Profiles.NotFound name => ToolFailed ("no such connection profile: " +:+ name)
          | other => ToolFailed (ProfileError_to_string other)
          end)
      (on_profiles (delete_profile path temp_name from_slice to_vec_pretty (da_name args)));
    mret (json_object [("name", JString (da_name args)); ("deleted", JBool true)])
|}.

(** The tools in the order [build_session] of server/src/main.rs registers
    them, after ping and echo. *)
Definition database_tools (profiles : bool) : list (McpTool (tworld W D S)) :=
  [ConnectTool profiles; DisconnectTool; ExecuteQueryTool; ExportQueryJsonlTool; ListDatabasesTool;
   ListSchemasTool; ListTablesTool; DescribeTableTool; ListConnectionsTool; GetConnectionStatusTool]
  ++ (if profiles then [SaveConnectionProfileTool; ListConnectionProfilesTool;
                        DeleteConnectionProfileTool] else []).

(** ** Theorems *)

Lemma parse_ssl_mode_Ok raw m :
  parse_ssl_mode raw = Ok m -> (raw = None /\ m = VerifyIdentity) \/ raw = Some (SslMode_name m).
Proof.
  unfold parse_ssl_mode. destruct raw as [s|]; [|intros [= <-]; auto].
  repeat case_decide; intros [= <-]; subst; auto.
Qed.


(** Running a query tool on every branch: an unknown connection runs
    nothing; a query that ends within the backstop is reported as the driver
    reported it, from exactly one call of the guarded
    [execute_user_query] with the caller's row cap and parameters; one that
    does not is cancelled, in that order, and reported as failed; in every
    case no connection is lost or added and no profile is touched. *)
Theorem execute_query_outcomes `{!TimerLaw W} (v : Value) (args : QueryArgs) (id : Uuid)
    (w : tworld W D S) :
  from_value v = Ok args -> parse_uuid (qa_connection_id args) = Ok id ->
  let '(r, w') := tool_call ExecuteQueryTool (Some v) w in
  m_entries (t_manager w') = m_entries (t_manager w) /\ t_profiles w' = t_profiles w
  /\ match Manager.get id (t_manager w) with
     | Err _ => r = Err (ToolFailed ("no such connection: " +:+ uuid_to_string id)) /\ w' = w
     | Ok d =>
         let query := execute_user_query (driver_of d) (qa_query args) (qa_row_cap args)
                        (query_parameters args) in
         match timeout QueryResult CLIENT_BACKSTOP_SECS query (m_world (t_manager w)) with
         | (Some outcome, wd) =>
             query (m_world (t_manager w)) = (outcome, wd) /\ m_world (t_manager w') = wd
             /\ r = match outcome with
                    | Ok q => Ok (query_result_to_value q)
                    | Err e => Err (ToolFailed (message e))
                    end
         | (None, wd) =>
             m_world (t_manager w') = snd (cancel_query (driver_of d) wd) /\ is_ok r = false
         end
     end.
Proof.
  intros Ha Hid. cbn. unfold parse_arguments, parse_connection_id, lift. rewrite eff_bind_eq. cbn.
  rewrite Ha. cbn. rewrite eff_bind_eq. rewrite Hid. cbn. rewrite eff_bind_eq.
  unfold run_user_query. rewrite eff_bind_eq. unfold live_driver at 1.
  destruct (Manager.get id (t_manager w)) as [d|e] eqn:Hg; cbn.
  2: { unfold Manager.get in Hg. destruct (m_entries _ !! id); simplify_eq/=. done. }
  rewrite eff_bind_eq.
  destruct (timeout _ _ _ _) as [[outcome|] wd] eqn:Ht.
  - apply timeout_completes in Ht. destruct outcome as [q|e]; cbn; done.
  - rewrite eff_bind_eq. unfold attempt, on_manager. rewrite on_world_eq. cbn.
    by destruct (cancel_query (driver_of d) wd).
Qed.
End tools.

(** ** What the tools may call *)

(** A driver whose other methods do something else entirely. *)
Definition with_unguarded {W} (other d : DatabaseDriver W) : DatabaseDriver W := {|
  Core.connect := Core.connect d; disconnect := disconnect d; ping := ping other;
  execute := execute other; execute_parameterized := execute_parameterized other;
  execute_user_query := execute_user_query d; fetch_tables := fetch_tables d;
  fetch_columns := fetch_columns other; fetch_indexes := fetch_indexes other;
  fetch_foreign_keys := fetch_foreign_keys other; fetch_triggers := fetch_triggers other;
  fetch_table_ddl := fetch_table_ddl other; fetch_view_definition := fetch_view_definition other;
  fetch_table_metadata := fetch_table_metadata d; fetch_databases := fetch_databases d;
  fetch_database_metadata := fetch_database_metadata other;
  supports_schemas := supports_schemas d; fetch_schemas := fetch_schemas d;
  switch_schema := switch_schema other; current_schema := current_schema other;
  supports_transactions := supports_transactions other;
  begin_transaction := begin_transaction other; commit_transaction := commit_transaction other;
  rollback_transaction := rollback_transaction other; cancel_query := cancel_query d;
  apply_query_timeout := apply_query_timeout d; keepalive_posture := keepalive_posture other;
  server_version := server_version other; parameter_style := parameter_style other;
  create_database := create_database other; drop_database := drop_database other;
  switch_database := switch_database other; stream_rows := stream_rows other |}.
Definition unguarded_host {W D F} (other : D -> DatabaseDriver W) (H : Host W D F) : Host W D F := {|
  driver_of d := with_unguarded (other d) (driver_of d);
  create_driver := create_driver; new_v4 := new_v4; now_ms := now_ms |}.

(** No tool of the server can reach a driver's unguarded entry points:
    whatever [execute], [execute_parameterized], the transaction methods,
    [create_database], [drop_database], the switches and the stream of every
    driver do, all the tools are the same, so a write a client asks for has
    to pass the [execute_user_query] that enforces read-only and row caps. *)
Theorem tools_reach_guarded_methods_only {W D F S : Type} (H : Host W D F) `{Timer W}
    `{SecretStore S} (other : D -> DatabaseDriver W) factories path temp_name from_slice
    to_vec_pretty parse_uuid uuid_to_string parse_f64 to_string
    (f1 : FromValue ConnectArgs) (f2 : FromValue IdArgs) (f3 : FromValue QueryArgs)
    (f4 : FromValue ListTablesArgs) (f5 : FromValue DescribeTableArgs)
    (f6 : FromValue SaveConnectionProfileArgs) (f7 : FromValue DeleteConnectionProfileArgs)
    (profiles : bool) :
  let tools host := database_tools (W := W) (D := D) (F := F) (S := S) (H := host) factories path
    temp_name from_slice to_vec_pretty parse_uuid uuid_to_string parse_f64 to_string profiles in
  tools H = tools (unguarded_host other H).
Proof. intros tools. unfold tools, database_tools. destruct profiles; reflexivity. Qed.

(** ** A driver that answers every query with an empty result *)

Definition stub_driver {W} : DatabaseDriver W :=
  let fail {A} : eff W DriverError A := throw DriverError_cancelled in {|
  Core.connect := mret tt; disconnect := mret tt; ping := mret tt;
  execute _ := mret QueryResult_empty; execute_parameterized _ _ := mret QueryResult_empty;
  execute_user_query _ _ _ := mret QueryResult_empty; fetch_tables _ := mret [];
  fetch_columns _ _ := mret []; fetch_indexes _ _ := mret [];
  fetch_foreign_keys _ _ := mret []; fetch_triggers _ _ := mret [];
  fetch_table_ddl _ _ := fail; fetch_view_definition _ _ := fail;
  fetch_table_metadata _ _ := fail; fetch_databases := mret [];
  fetch_database_metadata _ := fail; supports_schemas := false; fetch_schemas := mret [];
  switch_schema _ := fail; current_schema _ := None; supports_transactions := false;
  begin_transaction := fail; commit_transaction := fail; rollback_transaction := fail;
  cancel_query := mret tt; apply_query_timeout _ := mret tt;
  keepalive_posture := Applied; server_version _ := None; parameter_style := QuestionMark;
  create_database _ := fail; drop_database _ := fail; switch_database _ := fail;
  stream_rows _ _ s := (([], Some (Ok tt)), s) |}.

#[local] Instance stub_host : Host unit nat unit := {|
  driver_of _ := stub_driver; create_driver _ _ w := (0, w); new_v4 w := (1%N, w); now_ms _ := 0%Z |}.
#[local] Instance stub_timer : Timer unit := fun A _ m w => let '(r, w) := m w in (Some r, w).
#[local] Instance stub_timer_law : TimerLaw unit.
Proof.
  intros A secs m w r w' H. unfold timeout, stub_timer in H. destruct (m w) as [r0 w0].
  by injection H as -> ->.
Qed.
#[local] Instance stub_query_args : FromValue QueryArgs := fun _ =>
  Ok {| qa_connection_id := "1"; qa_query := "q"; qa_parameters := None; qa_row_cap := None |}.
#[local] Instance stub_save_args : FromValue SaveConnectionProfileArgs := fun _ => Err "no".
#[local] Instance stub_other_args {A} : FromValue A | 100 := fun _ => Err "no".

Definition stub_world : tworld unit nat memory_store := {|
  t_manager := {| m_attempts := ∅; m_sessions := {[1%N := 0]};
    m_entries := {[1%N := {| ent_driver := 0; ent_database_type := "t"; ent_connected_at := 0 |}]};
    m_world := tt |};
  t_profiles := example_world false |}.

Lemma execute_query_outcomes_witness :
  fst (tool_call (ExecuteQueryTool (F := unit) (fun _ => Ok 1%N) (fun _ => "1")) (Some JNull) stub_world)
  = Ok (query_result_to_value QueryResult_empty).
Proof.
  pose proof (execute_query_outcomes (F := unit) (fun _ => Ok 1%N) (fun _ => "1") JNull
    {| qa_connection_id := "1"; qa_query := "q"; qa_parameters := None; qa_row_cap := None |} 1%N
    stub_world eq_refl eq_refl) as H.
  destruct (tool_call _ _ _) as [r w']. exact (proj2 (proj2 (proj2 (proj2 H)))).
Defined.

Definition stub_connect_args (ssl_mode : option string) : ConnectArgs := {|
  ca_profile_name := None; ca_database_type := Some "redis"; ca_host := Some "h"; ca_port := Some 1%Z;
  ca_username := Some "u"; ca_password := None; ca_database := None; ca_ssl_mode := ssl_mode;
  ca_read_only := None |}.

