(* ===== verification/RedisCommand.v ===== *)
(** * Redis command lines and replies (crates/driver-redis: command.rs, convert.rs)

    The tokenizer of raw command lines, the binding of placeholders, the
    read-only allow list, and the conversions of a reply to cells and JSON.
    A [redis::Cmd] is what was put into it: its name and one entry per call
    of [arg].  [str::to_uppercase], the [Display] of an [f64] and
    [serde_json]'s printer are parameters. *)
From S2P Require Import Prelude RustStr Core Json Export.

(** ** Commands *)

Inductive CmdArg := ArgStr (s : string) | ArgBytes (bs : list byte) | ArgInt (n : Z).
Record Cmd := { cmd_name : string; cmd_args : list CmdArg }.
(** [redis::cmd(name)], [cmd.arg(a)] *)
Definition new_cmd (name : string) : Cmd := {| cmd_name := name; cmd_args := [] |}.
Definition arg (a : CmdArg) (c : Cmd) : Cmd :=
  {| cmd_name := cmd_name c; cmd_args := cmd_args c ++ [a] |}.

#[export] Instance CmdArg_eq_dec : EqDecision CmdArg.
Proof. solve_decision. Defined.
#[export] Instance Cmd_eq_dec : EqDecision Cmd.
Proof. solve_decision. Defined.

Definition PLACEHOLDER : string := "?".

Definition READ_ONLY_COMMANDS : list string := [
  "GET"; "MGET"; "GETRANGE"; "STRLEN"; "SUBSTR";
  "HGET"; "HGETALL"; "HMGET"; "HKEYS"; "HVALS"; "HLEN"; "HSTRLEN"; "HEXISTS"; "HRANDFIELD"; "HSCAN";
  "LRANGE"; "LLEN"; "LINDEX"; "LPOS";
  "SMEMBERS"; "SISMEMBER"; "SMISMEMBER"; "SCARD"; "SRANDMEMBER"; "SSCAN"; "SINTER"; "SUNION"; "SDIFF";
  "ZRANGE"; "ZRANGEBYSCORE"; "ZRANGEBYLEX"; "ZREVRANGE"; "ZREVRANGEBYSCORE"; "ZREVRANGEBYLEX";
  "ZSCORE"; "ZMSCORE"; "ZCARD"; "ZCOUNT"; "ZLEXCOUNT"; "ZRANK"; "ZREVRANK"; "ZSCAN"; "ZRANDMEMBER";
  "XRANGE"; "XREVRANGE"; "XLEN"; "XREAD"; "XINFO";
  "EXISTS"; "TYPE"; "TTL"; "PTTL"; "EXPIRETIME"; "PEXPIRETIME"; "KEYS"; "SCAN"; "DBSIZE"; "RANDOMKEY";
  "DUMP"; "OBJECT"; "BITCOUNT"; "BITPOS"; "GETBIT";
  "PING"; "ECHO"; "TIME"; "COMMAND"; "INFO"; "MEMORY"].

Definition query_error (m : string) : DriverError := DriverError_new Query m.

(** [tokenize]: the [while let] loop outside a quote ([quote = None]) and the
    inner [loop] up to the closing one ([quote = Some q]), over the same
    [chars] iterator. *)
Fixpoint tokenize_loop (cs : list string) (quote : option string) (tokens : list string)
    (current : string) (has_current : bool) : DriverResult (list string) :=
  match cs, quote with
  | [], Some q => Err (query_error ("unterminated " +:+ q +:+ " quote in Redis command"))
  | [], None => Ok (if has_current then tokens ++ [current] else tokens)
  | c :: cs, Some q =>
      if decide (c = q) then tokenize_loop cs None tokens current has_current
      else tokenize_loop cs (Some q) tokens (current +:+ c) has_current
  | c :: cs, None =>
      if is_whitespace c then
        if has_current then tokenize_loop cs None (tokens ++ [current]) EmptyString false
        else tokenize_loop cs None tokens current false
      else if decide (c = dquote \/ c = squote) then tokenize_loop cs (Some c) tokens current true
      else tokenize_loop cs None tokens (current +:+ c) true
  end.
Definition tokenize (input : string) : DriverResult (list string) :=
  tokenize_loop (chars input) None [] EmptyString false.

Definition bind_parameter (cmd : Cmd) (value : CellValue) : DriverResult Cmd :=
  match value with
  | Null => Err (query_error "Redis command arguments cannot be null")
  | Text s => Ok (arg (ArgStr s) cmd)
  | Bytes b => Ok (arg (ArgBytes b) cmd)
  end.

(** The [for token in rest] loop; [next_parameter] is the iterator. *)
Fixpoint bind_tokens (rest : list string) (next_parameter : list CellValue) (cmd : Cmd)
  : DriverResult Cmd :=
  match rest with
  | [] => Ok cmd
  | token :: rest =>
      if decide (token = PLACEHOLDER) then
        match next_parameter with
        | [] => Err (query_error
                  "not enough bound parameters for the `?` placeholders in this command")
        | value :: next_parameter =>
            cmd ← bind_parameter cmd value;
            bind_tokens rest next_parameter cmd
        end
      else bind_tokens rest next_parameter (arg (ArgStr token) cmd)
  end.

Section command.
Context (to_uppercase : string -> string).

Definition require_read_only (query : string) : DriverResult unit :=
  tokens ← tokenize query;
  name ← ok_or (query_error "empty Redis command") (head tokens);
  let name := to_uppercase name in
  if decide (name ∈ READ_ONLY_COMMANDS) then Ok tt
  else Err (query_error ("read-only connection: command '" +:+ name +:+ "' is not permitted")).

Definition build_command (tokens : list string) (parameters : option (list CellValue))
  : DriverResult Cmd :=
  match tokens with
  | [] => Err (query_error "empty Redis command")
  | name :: rest =>
      bind_tokens rest (default [] parameters) (new_cmd (to_uppercase name))
  end.
End command.

(** ** Replies *)

(** [redis::Value]; of its parts only those the program looks at are kept: an
    attribute's data, a push's data, a verbatim string's text, a big number's
    decimal digits and a server error's [Debug] text. *)
#[warnings="-register-all"]
Inductive RValue :=
  | RNil
  | RInt (i : Z)
  | RBulkString (bytes : list byte)
  | RArray (items : list RValue)
  | RSimpleString (s : string)
  | ROkay
  | RMap (pairs : list (RValue * RValue))
  | RAttribute (data : RValue)
  | RSet (items : list RValue)
  | RDouble (bits : Z)
  | RBoolean (b : bool)
  | RVerbatimString (text : string)
  | RBigNumber (digits : string)
  | RPush (data : list RValue)
  | RServerError (debug : string).

Definition bytes_to_text (bytes : list byte) : string := from_utf8_lossy bytes.
Definition bool_to_string (b : bool) : string := if b then "true" else "false".

Section convert.
(** The [Display] of an [f64] and of a [serde_json::Value]. *)
Context (f64_to_string : Z -> string) (json_to_string : Value -> string).

(** [JsonValue::from(f64)]: null for the numbers JSON cannot write. *)
Definition json_f64 (bits : Z) : Value :=
  match from_f64 bits with Some n => JNumber n | None => JNull end.

(** The text of a map's key, given its JSON form. *)
Definition key_text (value : RValue) (json : Value) : string :=
  match value with
  | RBulkString bytes => bytes_to_text bytes
  | RSimpleString s => s
  | _ => json_to_string json
  end.

Fixpoint value_to_json (value : RValue) : Value :=
  match value with
  | RNil => JNull
  | RInt i => int_value i
  | RBulkString bytes => JString (bytes_to_text bytes)
  | RSimpleString s => JString s
  | ROkay => JString "OK"
  | RArray items | RSet items => JArray (value_to_json <$> items)
  | RMap pairs =>
      JObject (foldl (fun object kv =>
        obj_insert (key_text (fst kv) (value_to_json (fst kv))) (value_to_json (snd kv)) object)
        [] pairs)
  | RAttribute data => value_to_json data
  | RDouble d => json_f64 d
  | RBoolean b => JBool b
  | RVerbatimString text => JString text
  | RBigNumber n => JString n
  | RPush data => JArray (value_to_json <$> data)
  | RServerError err => JString err
  end.

(** [json_key], which the map case above calls on each key. *)
Definition json_key (value : RValue) : string := key_text value (value_to_json value).

Definition value_to_cell (value : RValue) : CellValue :=
  match value with
  | RNil => Null
  | RInt i => Text (pretty i)
  | RBulkString bytes => Text (bytes_to_text bytes)
  | RSimpleString s => Text s
  | ROkay => Text "OK"
  | RDouble d => Text (f64_to_string d)
  | RBoolean b => Text (bool_to_string b)
  | RVerbatimString text => Text text
  | RBigNumber n => Text n
  | RServerError err => Text err
  | RArray _ | RSet _ | RMap _ | RAttribute _ | RPush _ =>
      Text (json_to_string (value_to_json value))
  end.
End convert.

(** [items.chunks(2)], the incomplete last chunk filtered out. *)
Fixpoint pairs_of (items : list RValue) : list (RValue * RValue) :=
  match items with
  | a :: b :: items => (a, b) :: pairs_of items
  | _ => []
  end.
Definition flat_pairs (value : RValue) : list (RValue * RValue) :=
  match value with
  | RMap pairs => pairs
  | RArray items | RSet items => pairs_of items
  | _ => []
  end.
Definition array_items (value : RValue) : list RValue :=
  match value with
  | RArray items | RSet items => items
  | RNil => []
  | other => [other]
  end.

(** ** Tokenizing what was quoted *)

(** An argument as it is written on a command line: bare, or between two
    quotes of one kind. *)
Definition written_arg (q : option string) (t : string) : string :=
  match q with Some q => q +:+ t +:+ q | None => t end.
(** What the way of writing needs: a quoted argument does not contain its own
    quote; a bare one is not empty and has neither quotes nor whitespace. *)
Definition writable (q : option string) (t : string) : Prop :=
  str_ok t /\
  match q with
  | Some q => (q = dquote \/ q = squote) /\ q ∉ chars t
  | None => t <> EmptyString
            /\ Forall (fun c => is_whitespace c = false /\ c <> dquote /\ c <> squote) (chars t)
  end.

Lemma tokenize_in_quote q cs rest tokens current :
  q ∉ cs -> tokenize_loop (cs ++ q :: rest) (Some q) tokens current true
            = tokenize_loop rest None tokens (current +:+ str_concat cs) true.
Proof.
  revert current. induction cs as [|c cs IH]; intros current Hq; cbn.
  - rewrite decide_True by done. by rewrite str_app_nil_r.
  - apply not_elem_of_cons in Hq as [Hc Hq]. rewrite decide_False by done.
    rewrite IH by done. by rewrite str_app_assoc.
Qed.

Lemma tokenize_bare cs rest tokens current has :
  Forall (fun c => is_whitespace c = false /\ c <> dquote /\ c <> squote) cs ->
  tokenize_loop (cs ++ rest) None tokens current has
  = tokenize_loop rest None tokens (current +:+ str_concat cs)
      (match cs with [] => has | _ => true end).
Proof.
  revert current has. induction cs as [|c cs IH]; intros current has Hcs; cbn.
  - by rewrite str_app_nil_r.
  - inversion Hcs as [|? ? (Hw & Hd & Hs) Hcs']; subst. rewrite Hw.
    rewrite decide_False by tauto. rewrite IH by done. rewrite str_app_assoc. by destruct cs.
Qed.

Lemma quote_not_space q : q = dquote \/ q = squote -> is_whitespace q = false /\ chars q = [q].
Proof. intros [-> | ->]; by vm_compute. Qed.

Lemma written_ok q t : writable q t -> str_ok (written_arg q t).
Proof. intros [Ht Hq]. destruct q as [q|]; [|done]. by destruct Hq as [[-> | ->] _]. Qed.

Lemma tokenize_written q t rest tokens :
  writable q t ->
  tokenize_loop (chars (written_arg q t) ++ rest) None tokens EmptyString false
  = tokenize_loop rest None tokens t true.
Proof.
  intros [Ht Hq]. destruct q as [q|]; cbn [written_arg].
  - destruct Hq as [Hq Hin]. destruct (quote_not_space q Hq) as [Hw Hc].
    assert (str_ok q) as Hqok by (by destruct Hq as [-> | ->]).
    assert (str_ok (t +:+ q)) as Htq by (unfold str_ok in *; by destruct t).
    rewrite chars_app, (chars_app t) by done. rewrite Hc, <-!app_assoc. cbn. rewrite Hw.
    rewrite decide_True by done. rewrite tokenize_in_quote by done.
    cbn. by rewrite str_concat_chars.
  - destruct Hq as [Hne Hcs]. rewrite tokenize_bare by done. cbn.
    rewrite str_concat_chars. destruct t as [|a t]; [done|].
    by destruct (chars_nonempty a t) as (c & cs & ->).
Qed.

Lemma tokenize_space rest tokens t :
  tokenize_loop (chars " " ++ rest) None tokens t true
  = tokenize_loop rest None (tokens ++ [t]) EmptyString false.
Proof. reflexivity. Qed.

Lemma tokenize_arguments (args : list (option string * string)) tokens :
  Forall (fun a => writable (fst a) (snd a)) args ->
  tokenize_loop (chars (join " " ((fun a => written_arg (fst a) (snd a)) <$> args)))
    None tokens EmptyString false
  = Ok (tokens ++ args.*2).
Proof.
  intros H. revert tokens. induction H as [|[q t] args Hqt Hargs IH]; intros tokens.
  - cbn. by rewrite app_nil_r.
  - destruct args as [|[q' t'] args].
    + cbn [fmap list_fmap join fst snd]. rewrite <-(app_nil_r (chars _)).
      by rewrite tokenize_written.
    + assert (str_ok (written_arg q' t')) as Hok'
        by (apply written_ok; by inversion Hargs).
      set (more := join " " ((fun a => written_arg (fst a) (snd a)) <$> (q', t') :: args)) in *.
      assert (str_ok more) as Hmore.
      { subst more. destruct args; [done|]. cbn in Hok' |- *.
        unfold str_ok in *. by destruct (written_arg q' t'). }
      change (join " " _) with (written_arg q t +:+ " " +:+ more).
      rewrite chars_app by done. rewrite (chars_app " ") by done.
      rewrite tokenize_written by done.
      rewrite tokenize_space, IH. cbn. by rewrite <-app_assoc.
Qed.

(** Quoting works: a command line whose arguments are written bare, or in
    single or double quotes, and separated by spaces is tokenized into exactly
    those arguments, whatever spaces, newlines, other quotes or placeholders
    the quoted ones contain, empty ones included. *)
Theorem tokenize_unquotes (args : list (option string * string)) :
  Forall (fun a => writable (fst a) (snd a)) args ->
  tokenize (join " " ((fun a => written_arg (fst a) (snd a)) <$> args)) = Ok args.*2.
Proof. intros H. unfold tokenize. by rewrite tokenize_arguments. Qed.

Lemma tokenize_unquotes_witness :
  tokenize ("SET 'my key' " +:+ dquote +:+ "it's" +:+ newline +:+ " ?" +:+ dquote)
  = Ok ["SET"; "my key"; "it's" +:+ newline +:+ " ?"].
Proof.
  apply (tokenize_unquotes
           [(None, "SET"); (Some squote, "my key"); (Some dquote, "it's" +:+ newline +:+ " ?")]).
  repeat (apply Forall_cons; split); [..|by apply Forall_nil]; (split; [done|]);
    cbn [fst snd]; (split; [try done; auto|apply (bool_decide_unpack _); by vm_compute]).
Defined.

(** ** Binding *)

(** The argument a parameter becomes. *)
Definition bound_arg (v : CellValue) : option CmdArg :=
  match v with Null => None | Text s => Some (ArgStr s) | Bytes b => Some (ArgBytes b) end.
Definition placeholders (tokens : list string) : nat := length (filter (eq PLACEHOLDER) tokens).
#[global] Arguments placeholders : simpl never.

Lemma placeholders_cons t ts :
  placeholders (t :: ts) = if decide (t = PLACEHOLDER) then S (placeholders ts) else placeholders ts.
Proof. unfold placeholders. rewrite filter_cons. by repeat case_decide. Qed.

Lemma bind_parameter_Ok c v c' :
  bind_parameter c v = Ok c' <-> exists a, bound_arg v = Some a /\ c' = arg a c.
Proof. destruct v; cbn; naive_solver. Qed.

Lemma bind_tokens_args rest ps c c' :
  bind_tokens rest ps c = Ok c' ->
  cmd_name c' = cmd_name c
  /\ exists args, cmd_args c' = cmd_args c ++ args /\ length args = length rest
     /\ forall i t, rest !! i = Some t ->
          args !! i = if decide (t = PLACEHOLDER)
                      then ps !! placeholders (take i rest) ≫= bound_arg else Some (ArgStr t).
Proof.
  revert ps c. induction rest as [|t rest IH]; intros ps c; cbn.
  - intros [= <-]. split; [done|]. exists []. by rewrite app_nil_r.
  - intros H.
    assert (exists ps' a, bind_tokens rest ps' (arg a c) = Ok c' /\
              if decide (t = PLACEHOLDER) then exists v, ps = v :: ps' /\ bound_arg v = Some a
              else ps' = ps /\ a = ArgStr t) as (ps' & a & Hb & Ha).
    { case_decide as Ht; [|by eauto]. destruct ps as [|v ps]; [done|].
      apply result_bind_Ok in H as (c1 & (a & Ha & ->)%bind_parameter_Ok & H). eauto 6. }
    apply IH in Hb as (Hn & args & Hargs & Hlen & Hi). split; [done|].
    exists (a :: args). split; [by rewrite Hargs; cbn; rewrite <-app_assoc|].
    split; [by cbn; rewrite Hlen|].
    intros [|i] t' Ht'; cbn in Ht' |- *.
    + injection Ht' as <-. case_decide; [|by destruct Ha as [_ ->]].
      by destruct Ha as (v & -> & <-).
    + rewrite placeholders_cons. etransitivity; [by apply Hi|]. repeat case_decide; try done.
      * by destruct Ha as (v & -> & _).
      * by destruct Ha as [-> _].
Qed.

Lemma build_command_name up tokens ps c :
  build_command up tokens ps = Ok c -> exists name, head tokens = Some name /\ cmd_name c = up name.
Proof.
  destruct tokens as [|name rest]; cbn; [done|]. intros (Hn & _)%bind_tokens_args. by exists name.
Qed.

(** Binding never reinterprets a value: a command that is built has the
    upper-cased first token as its name and exactly one argument per further
    token; the k-th placeholder becomes the k-th parameter, whole, whatever
    bytes it holds, and every other token is passed through unchanged.  It is
    built exactly when there is a parameter for every placeholder and none of
    those is null. *)
Theorem build_command_binds (up : string -> string) (tokens : list string)
    (ps : option (list CellValue)) :
  match build_command up tokens ps with
  | Ok c =>
      exists name rest, tokens = name :: rest /\ cmd_name c = up name
      /\ length (cmd_args c) = length rest
      /\ forall i t, rest !! i = Some t ->
           cmd_args c !! i = (if decide (t = PLACEHOLDER)
             then default [] ps !! placeholders (take i rest) ≫= bound_arg else Some (ArgStr t))
  | Err e =>
      kind e = Query
      /\ (tokens = []
          \/ exists k, k < placeholders (tail tokens)
                       /\ default [] ps !! k ≫= bound_arg = None)
  end.
Proof.
  destruct tokens as [|name rest]; [by cbn; auto|]. cbn [build_command tail].
  destruct (bind_tokens rest (default [] ps) (new_cmd (up name))) as [c|e] eqn:Hb.
  - apply bind_tokens_args in Hb as (Hn & args & Hargs & Hlen & Hi). cbn in Hargs.
    exists name, rest. rewrite Hargs. auto.
  - generalize (new_cmd (up name)) as c, (default [] ps) as ps', Hb. clear.
    induction rest as [|t rest IH]; intros c ps Hb; cbn in Hb; [done|].
    rewrite placeholders_cons. case_decide as Ht.
    + destruct ps as [|v ps]; [injection Hb as <-; split; [done|]; right; exists 0; split; [lia|done]|].
      destruct v as [|s|b]; cbn in Hb.
      * injection Hb as <-. split; [done|]. right. exists 0. split; [lia|done].
      * apply IH in Hb as (Hk & [[=]|(k & Hlt & Hnone)]). split; [done|].
        right. exists (S k). split; [lia|done].
      * apply IH in Hb as (Hk & [[=]|(k & Hlt & Hnone)]). split; [done|].
        right. exists (S k). split; [lia|done].
    + apply IH in Hb as (Hk & [[=]|(k & Hlt & Hnone)]). eauto.
Qed.

Example tokenize_example :
  tokenize ("SET  key " +:+ dquote +:+ "a b" +:+ dquote +:+ "c") = Ok ["SET"; "key"; "a bc"].
Proof. by vm_compute. Qed.
Example tokenize_unterminated :
  tokenize "GET 'x" = Err (query_error "unterminated ' quote in Redis command").
Proof. by vm_compute. Qed.
