(* ===== verification/Redis.v ===== *)
(** * The Redis driver (crates/driver-redis: config.rs, error.rs, query.rs,
    schema.rs, stream.rs, driver.rs)

    [RedisLib] is the redis crate: clients, connections and the replies of
    commands, over a world [W] that holds the server and the clock.  The
    driver's own fields, and the detached tasks it spawned, are its state
    [rstate].  The reading of a CA file, [str::to_uppercase],
    [str::to_lowercase], [Debug] text and number printing are parameters. *)
From S2P Require Import Prelude RustStr Core Json Export RedisCommand.

(** ** config.rs *)

Inductive ConnectionAddr :=
  | Tcp (host : string) (port : Z)
  | TcpTls (host : string) (port : Z) (insecure : bool).
Record ConnectionInfo := {
  addr : ConnectionAddr;
  db : Z;
  username : option string;
  password : option string;
}.
Definition set_db (n : Z) (info : ConnectionInfo) : ConnectionInfo :=
  {| addr := addr info; db := n; username := username info; password := password info |}.

(** redis::ErrorKind, the kinds the driver tells apart. *)
Inductive RedisErrorKind := AuthenticationFailed | IoError | OtherError.

(** [ConnectionManagerConfig]; delays in milliseconds, the timeout in seconds. *)
Record ManagerConfig := { number_of_retries : Z; max_delay : Z; connection_timeout : Z }.

Class RedisLib (W Client Conn RedisError : Type) := {
  client_open : ConnectionInfo -> W -> result RedisError Client;
  client_build_with_tls : ConnectionInfo -> option (list byte) -> W -> result RedisError Client;
  get_connection_manager : Client -> ManagerConfig -> eff W RedisError Conn;
  get_multiplexed_connection : Client -> eff W RedisError Conn;
  query_value : Conn -> Cmd -> eff W RedisError RValue;
  query_i64 : Conn -> Cmd -> eff W RedisError Z;
  query_scan : Conn -> Cmd -> eff W RedisError (Z * list (list byte));
  err_kind : RedisError -> RedisErrorKind;
  err_to_string : RedisError -> string;
  err_code : RedisError -> option string;
  err_detail : RedisError -> option string;
  instant_now : W -> Z;
}.

(** What the redis crate has no part in. *)
Class RedisHost (W : Type) := {
  fs_read : string -> W -> result string (list byte);
  to_uppercase : string -> string;
  to_lowercase : string -> string;
  str_debug : string -> string;
  f64_to_string : Z -> string;
  json_to_string : Value -> string;
}.

Section driver.
Context {W Client Conn RedisError : Type} `{!RedisLib W Client Conn RedisError} `{!RedisHost W}.
#[local] Abbreviation io := (eff W DriverError).
(** A value read from the world. *)
#[local] Definition reads {A} (f : W -> DriverResult A) : io A := fun w => (f w, w).

Definition parse_db_index (database : option string) : DriverResult Z :=
  match trim <$> database with
  | None => Ok 0%Z
  | Some s =>
      if decide (s = EmptyString) then Ok 0%Z
      else ok_or (query_error ("Redis database must be a numeric index, got " +:+ str_debug s))
             (parse_i64 s)
  end.

Definition build_connection_info (config : ConnectionConfig) : DriverResult ConnectionInfo :=
  db ← parse_db_index (cfg_database config);
  let host := cfg_host config in
  let port := cfg_port config in
  Ok {| addr := match mode (cfg_ssl config) with
                | Some Disabled => Tcp host port
                | Some Preferred | Some Required => TcpTls host port true
                | Some VerifyCa | Some VerifyIdentity | None => TcpTls host port false
                end;
        db := db;
        username := if is_empty (cfg_username config) then None else Some (cfg_username config);
        password := cfg_password config |}.

Definition root_cert_pem (config : ConnectionConfig) : io (option (list byte)) :=
  match ca_path (cfg_ssl config) with
  | Some path =>
      pem ← reads (fun w => map_err (fun err => DriverError_new Connection
                     ("failed to read ssl.ca_path " +:+ path +:+ ": " +:+ err)) (fs_read path w));
      mret (Some pem)
  | None => mret None
  end.

(** ** error.rs *)

Definition map_error (err : RedisError) (fallback_kind : DriverErrorKind) : DriverError :=
  let kind := match err_kind err with
              | AuthenticationFailed => Auth
              | IoError => Connection
              | OtherError => fallback_kind
              end in
  let driver_error := DriverError_new kind (err_to_string err) in
  let driver_error := match err_code err with
                      | Some code => with_code code driver_error | None => driver_error end in
  match err_detail err with
  | Some detail => with_detail detail driver_error | None => driver_error
  end.
Definition map_connect_error (err : RedisError) : DriverError := map_error err Connection.
Definition map_query_error (err : RedisError) : DriverError := map_error err Query.

(** [build_client] (config.rs) *)
Definition build_client (config : ConnectionConfig) (db_override : option Z) : io Client :=
  info ← lift (build_connection_info config);
  let info := match db_override with Some n => set_db n info | None => info end in
  match mode (cfg_ssl config) with
  | Some Disabled => reads (fun w => map_err map_connect_error (client_open info w))
  | m =>
      root_cert ← (match m with
                   | Some Preferred | Some Required => mret None
                   | _ => root_cert_pem config
                   end);
      reads (fun w => map_err map_connect_error (client_build_with_tls info root_cert w))
  end.

(** ** query.rs *)

Definition text_result (column : string) (rows : list (list CellValue)) : QueryResult :=
  {| columns := [column]; column_type_names := ["text"]; rows := rows;
     rows_affected := Z.of_nat (length rows); execution_time := 0; is_truncated := false;
     status_message := None; column_meta := None |}.

Definition to_json := value_to_json json_to_string.
Definition to_cell := value_to_cell f64_to_string json_to_string.

Definition value_to_query_result (value : RValue) : QueryResult :=
  match value with
  | RArray items | RSet items => text_result "value" ((fun item => [to_cell item]) <$> items)
  | RMap pairs =>
      text_result "value" ((fun kv => [Text (json_to_string
        (json_object [("key", to_json (fst kv)); ("value", to_json (snd kv))]))]) <$> pairs)
  | scalar => text_result "result" [[to_cell scalar]]
  end.

Definition set_execution_time (ns : Z) (r : QueryResult) : QueryResult :=
  {| columns := columns r; column_type_names := column_type_names r; rows := rows r;
     rows_affected := rows_affected r; execution_time := ns; is_truncated := is_truncated r;
     status_message := status_message r; column_meta := column_meta r |}.
(** [rows.truncate(cap)] and the two counters. *)
Definition cap_rows (cap : Z) (r : QueryResult) : QueryResult :=
  let over := (cap <? Z.of_nat (length (rows r)))%Z in
  let kept := if over then take (Z.to_nat cap) (rows r) else rows r in
  {| columns := columns r; column_type_names := column_type_names r; rows := kept;
     rows_affected := Z.of_nat (length kept); execution_time := execution_time r;
     is_truncated := if over then true else is_truncated r;
     status_message := status_message r; column_meta := column_meta r |}.

Definition run_cmd (c : Conn) (cmd : Cmd) : io RValue :=
  eff_map_err map_query_error (query_value c cmd).

Definition execute_parameterized (manager : Conn) (query : string) (parameters : list CellValue)
  : io QueryResult := fun w0 =>
  (tokens ← (lift (tokenize query) : io _);
   cmd ← lift (build_command to_uppercase tokens (Some parameters));
   value ← run_cmd manager cmd;
   reads (fun w => Ok (set_execution_time (saturating_sub (instant_now w) (instant_now w0))
                         (value_to_query_result value)))) w0.
Definition execute (manager : Conn) (query : string) : io QueryResult :=
  execute_parameterized manager query [].

Definition execute_user_query (manager : Conn) (query : string) (row_cap : option Z)
    (parameters : option (list CellValue)) (read_only : bool) : io QueryResult :=
  _ ← (if read_only then lift (require_read_only to_uppercase query) else mret tt);
  let cap := clamp_row_cap row_cap in
  result ← execute_parameterized manager query (default [] parameters);
  mret (cap_rows cap result).

(** ** schema.rs *)

Definition PSEUDO_TABLES : list string := ["string"; "hash"; "list"; "set"; "zset"; "stream"].
Definition PSEUDO_TABLE_COMMENT : string :=
  "Redis pseudo-table: a synthetic view over one Redis data type, not a real schema object.".
Definition DEFAULT_DATABASE_COUNT : Z := 16.

Definition unknown_pseudo_table (name : string) : DriverError :=
  query_error ("unknown Redis pseudo-table " +:+ str_debug name
               +:+ "; expected one of string, hash, list, set, zset, stream").
Definition validate_pseudo_table (name : string) : DriverResult unit :=
  if decide (name ∈ PSEUDO_TABLES) then Ok tt else Err (unknown_pseudo_table name).

Definition pseudo_table_info (name : string) : TableInfo :=
  {| ti_name := name; ti_schema := None; ti_kind := Table; ti_comment := Some PSEUDO_TABLE_COMMENT;
     ti_row_count_estimate := None |}.
Definition pseudo_tables : list TableInfo := pseudo_table_info <$> PSEUDO_TABLES.

Definition pseudo_column (name : string) : ColumnInfo :=
  {| col_name := name; col_data_type := "text"; col_is_nullable := false;
     col_is_primary_key := false; col_default_value := None; col_extra := None;
     col_charset := None; col_collation := None; col_comment := None; col_identity_kind := None;
     col_is_generated := false; col_allowed_values := None |}.
Definition column_names (table : string) : DriverResult (list string) :=
  if decide (table = "string") then Ok ["key"; "value"]
  else if decide (table = "hash") then Ok ["key"; "field"; "value"]
  else if decide (table = "list") then Ok ["key"; "index"; "value"]
  else if decide (table = "set") then Ok ["key"; "member"]
  else if decide (table = "zset") then Ok ["key"; "member"; "score"]
  else if decide (table = "stream") then Ok ["key"; "id"; "fields"]
  else Err (unknown_pseudo_table table).
Definition columns_for (table : string) : DriverResult (list ColumnInfo) :=
  (fun names => map pseudo_column names) <$> column_names table.

Definition database_count_from_value (value : RValue) : option Z :=
  match value with
  | RBulkString bytes => s ← from_utf8 bytes; parse_i64 (trim s)
  | RSimpleString s => parse_i64 (trim s)
  | RInt i => Some i
  | _ => None
  end.
(** [pairs.iter().find_map(..)] *)
Fixpoint find_map {A B} (f : A -> option B) (l : list A) : option B :=
  match l with
  | [] => None
  | x :: l => match f x with Some y => Some y | None => find_map f l end
  end.
Definition configured_database_count (value : RValue) : option Z :=
  match value with
  | RArray (_ :: item :: _) | RSet (_ :: item :: _) => database_count_from_value item
  | RMap pairs => find_map (fun kv => database_count_from_value (snd kv)) pairs
  | _ => None
  end.
Definition config_get_databases : Cmd :=
  arg (ArgStr "databases") (arg (ArgStr "GET") (new_cmd "CONFIG")).
Definition redis_databases (manager : Conn) : io (list string) :=
  reply ← attempt (query_value manager config_get_databases);
  let count := default DEFAULT_DATABASE_COUNT (value ← result_ok reply; configured_database_count value) in
  mret (pretty <$> seqZ 0 count).

(** ** stream.rs *)

Definition DEFAULT_SCAN_COUNT : Z := 500.
Record ScanSpec := { ss_table : string; ss_pattern : string; ss_count : Z }.

(** The [while index < rest.len()] loop. *)
Fixpoint parse_clauses (rest : list string) (pattern : string) (count : Z)
  : DriverResult (string * Z) :=
  match rest with
  | [] => Ok (pattern, count)
  | clause :: rest =>
      let clause := to_uppercase clause in
      if decide (clause = "MATCH") then
        match rest with
        | [] => Err (query_error "MATCH requires a pattern argument")
        | value :: rest => parse_clauses rest value count
        end
      else if decide (clause = "COUNT") then
        match rest with
        | [] => Err (query_error "COUNT requires a numeric argument")
        | value :: rest =>
            match parse_usize value with
            | Some count => parse_clauses rest pattern count
            | None => Err (query_error ("COUNT must be a positive integer, got " +:+ str_debug value))
            end
        end
      else Err (query_error ("unrecognized stream_rows clause " +:+ str_debug clause
                             +:+ "; expected MATCH or COUNT"))
  end.
Definition parse_scan_spec (query : string) : DriverResult ScanSpec :=
  tokens ← tokenize query;
  match tokens with
  | [] => Err (query_error
      "stream_rows requires a pseudo-table name (string, hash, list, set, zset, or stream)")
  | table :: rest =>
      let table := to_lowercase table in
      _ ← validate_pseudo_table table;
      '(pattern, count) ← parse_clauses rest "*" DEFAULT_SCAN_COUNT;
      Ok {| ss_table := table; ss_pattern := pattern; ss_count := count |}
  end.

Definition keyed (key_text : string) (cells : list CellValue) : list CellValue := Text key_text :: cells.
Definition key_cmd (name : string) (key : list byte) (more : list CmdArg) : Cmd :=
  foldl (fun c a => arg a c) (arg (ArgBytes key) (new_cmd name)) more.

Definition field_json_key (value : RValue) : string :=
  match value with
  | RBulkString bytes => bytes_to_text bytes
  | RSimpleString s => s
  | other => json_to_string (to_json other)
  end.
(** One entry of an [XRANGE] reply. *)
Definition stream_entry_row (key_text : string) (entry : RValue) : list CellValue :=
  let entry_items := array_items entry in
  let id := default Null (to_cell <$> head entry_items) in
  let fields_value := default (RArray []) (entry_items !! 1) in
  let fields_object := foldl (fun m kv =>
    obj_insert (field_json_key (fst kv)) (to_json (snd kv)) m) [] (flat_pairs fields_value) in
  [Text key_text; id; Text (json_to_string (JObject fields_object))].

Definition fetch_rows_for_key (manager : Conn) (table : string) (key : list byte) (key_text : string)
  : io (list (list CellValue)) :=
  let pair_rows value := (fun kv => keyed key_text [to_cell (fst kv); to_cell (snd kv)])
                         <$> flat_pairs value in
  if decide (table = "string") then
    value ← run_cmd manager (key_cmd "GET" key []);
    mret [keyed key_text [to_cell value]]
  else if decide (table = "hash") then
    value ← run_cmd manager (key_cmd "HGETALL" key []);
    mret (pair_rows value)
  else if decide (table = "list") then
    value ← run_cmd manager (key_cmd "LRANGE" key [ArgInt 0; ArgInt (-1)]);
    mret (imap (fun index item => keyed key_text [Text (pretty index); to_cell item])
               (array_items value))
  else if decide (table = "set") then
    value ← run_cmd manager (key_cmd "SMEMBERS" key []);
    mret ((fun member => keyed key_text [to_cell member]) <$> array_items value)
  else if decide (table = "zset") then
    value ← run_cmd manager (key_cmd "ZRANGE" key [ArgInt 0; ArgInt (-1); ArgStr "WITHSCORES"]);
    mret (pair_rows value)
  else if decide (table = "stream") then
    value ← run_cmd manager (key_cmd "XRANGE" key [ArgStr "-"; ArgStr "+"]);
    mret (stream_entry_row key_text <$> array_items value)
  else throw (unknown_pseudo_table table).

(** The [for key in &keys] loop. *)
Fixpoint fetch_batch (manager : Conn) (table : string) (keys : list (list byte))
  : io (list (list CellValue)) :=
  match keys with
  | [] => mret []
  | key :: keys =>
      key_rows ← fetch_rows_for_key manager table key (bytes_to_text key);
      more ← fetch_batch manager table keys;
      mret (key_rows ++ more)
  end.

Definition scan_cmd (cursor : Z) (spec : ScanSpec) : Cmd :=
  foldl (fun c a => arg a c) (new_cmd "SCAN")
    [ArgInt cursor; ArgStr "MATCH"; ArgStr (ss_pattern spec); ArgStr "COUNT"; ArgInt (ss_count spec);
     ArgStr "TYPE"; ArgStr (ss_table spec)].

Definition after (els : list StreamElement) (o : StreamOutcome * W) : StreamOutcome * W :=
  let '((els', r), w) := o in ((els ++ els', r), w).

(** The [loop]; [rounds] is how many turns the consumer waits for. *)
Fixpoint scan_loop (rounds : nat) (manager : Conn) (spec : ScanSpec) (cursor total : Z) (w : W)
  : StreamOutcome * W :=
  match rounds with
  | O => (([], None), w)
  | S rounds =>
      if (EMERGENCY_MAX <=? total)%Z then (([], Some (Ok tt)), w)
      else
        match eff_map_err map_query_error (query_scan manager (scan_cmd cursor spec)) w with
        | (Err e, w) => (([], Some (Err e)), w)
        | (Ok (next_cursor, keys), w) =>
            match fetch_batch manager (ss_table spec) keys w with
            | (Err e, w) => (([], Some (Err e)), w)
            | (Ok batch, w) =>
                let batch := if (EMERGENCY_MAX <? total + Z.of_nat (length batch))%Z
                             then take (Z.to_nat (EMERGENCY_MAX - total)) batch else batch in
                let total := (total + Z.of_nat (length batch))%Z in
                let yielded := match batch with [] => [] | _ => [Rows batch] end in
                if (EMERGENCY_MAX <=? total)%Z || (next_cursor =? 0)%Z
                then ((yielded, Some (Ok tt)), w)
                else after yielded (scan_loop rounds manager spec next_cursor total w)
            end
        end
  end.

(** [stream_rows]: the outcome of the stream over the world. *)
Definition redis_stream (connection : option Conn) (not_connected : DriverError) (query : string)
    (rounds : nat) (w : W) : StreamOutcome * W :=
  match parse_scan_spec query with
  | Err e => (([], Some (Err e)), w)
  | Ok spec =>
      match connection with
      | None => (([], Some (Err not_connected)), w)
      | Some manager =>
          match columns_for (ss_table spec) with
          | Err e => (([], Some (Err e)), w)
          | Ok header_columns =>
              after [Header {| sh_columns := col_name <$> header_columns;
                               sh_column_type_names := col_data_type <$> header_columns |}]
                (scan_loop rounds manager spec 0 0 w)
          end
      end
  end.

(** ** driver.rs *)

(** [connection] and [client_id] of the driver, and the client ids of the
    detached [CLIENT KILL] tasks that have not run yet. *)
Record rstate := {
  r_world : W;
  r_connection : option Conn;
  r_client_id : option Z;
  r_kills : list Z;
}.
#[local] Abbreviation R := (eff rstate DriverError).
Definition set_r_world (w : W) (s : rstate) : rstate :=
  {| r_world := w; r_connection := r_connection s; r_client_id := r_client_id s;
     r_kills := r_kills s |}.
Definition on_server {A} (m : io A) : R A := fun s =>
  let '(r, w) := m (r_world s) in (r, set_r_world w s).

Definition not_connected_error : DriverError := DriverError_new Connection "not connected".
Definition unsupported_transaction_error : DriverError :=
  query_error "Redis transactions are not supported through this interface yet".
Definition fixed_database_pool_error (verb : string) : DriverError :=
  query_error ("Redis's numbered databases are a fixed pool sized by the server's `databases` config directive (which requires a server restart to resize); there is no per-connection way to "
               +:+ verb +:+ " one").

Definition connection_manager_config : ManagerConfig :=
  {| number_of_retries := 2; max_delay := 1000; connection_timeout := 5 |}.

Definition RedisDriver_new (w : W) : rstate :=
  {| r_world := w; r_connection := None; r_client_id := None; r_kills := [] |}.

Section config.
Context (config : ConnectionConfig).

Definition manager : R Conn := fun s => (ok_or not_connected_error (r_connection s), s).

Definition client_id_cmd : Cmd := arg (ArgStr "ID") (new_cmd "CLIENT").
Definition establish (db_override : option Z) : io (Conn * Z) :=
  client ← build_client config db_override;
  manager ← eff_map_err map_connect_error (get_connection_manager client connection_manager_config);
  client_id ← eff_map_err map_connect_error (query_i64 manager client_id_cmd);
  mret (manager, client_id).
(** [adopt] sets the connection under the write lock and the client id once it
    gave the lock back, as [disconnect] does. *)
Definition set_connection (connection : option Conn) (s : rstate) : rstate :=
  {| r_world := r_world s; r_connection := connection; r_client_id := r_client_id s;
     r_kills := r_kills s |}.
Definition set_client_id (client_id : option Z) (s : rstate) : rstate :=
  {| r_world := r_world s; r_connection := r_connection s; r_client_id := client_id;
     r_kills := r_kills s |}.
Definition adopt (manager : Conn) (client_id : Z) : R unit :=
  _ ← modify (set_connection (Some manager));
  modify (set_client_id (Some client_id)).

Definition redis_connect : R unit :=
  '(manager, client_id) ← on_server (establish None);
  adopt manager client_id.
Definition redis_disconnect : R unit :=
  _ ← modify (set_connection None);
  modify (set_client_id None).
Definition redis_ping : R unit :=
  m ← manager;
  _ ← on_server (run_cmd m (new_cmd "PING"));
  mret tt.
Definition redis_switch_database (database : string) : R unit :=
  db ← lift (parse_db_index (Some database));
  '(manager, client_id) ← on_server (establish (Some db));
  adopt manager client_id.
Definition redis_cancel_query : R unit :=
  client_id ← (fun s => (ok_or not_connected_error (r_client_id s), s)) : R Z;
  modify (fun s => {| r_world := r_world s; r_connection := r_connection s;
                      r_client_id := r_client_id s; r_kills := r_kills s ++ [client_id] |}).

(** [kill_client], and the step of the runtime that runs the oldest detached
    task: whatever it reports is only logged. *)
Definition kill_cmd (client_id : Z) : Cmd :=
  foldl (fun c a => arg a c) (new_cmd "CLIENT") [ArgStr "KILL"; ArgStr "ID"; ArgInt client_id].
Definition kill_client (client_id : Z) : io unit :=
  client ← build_client config None;
  connection ← eff_map_err map_connect_error (get_multiplexed_connection client);
  _ ← run_cmd connection (kill_cmd client_id);
  mret tt.
Definition run_detached (s : rstate) : rstate :=
  match r_kills s with
  | [] => s
  | client_id :: more =>
      {| r_world := snd (kill_client client_id (r_world s)); r_connection := r_connection s;
         r_client_id := r_client_id s; r_kills := more |}
  end.

(** [self.manager().await?; Ok(a)] and the like. *)
Definition if_connected {A} (r : DriverResult A) : R A := _ ← manager; lift r.
Definition redis_fetch_columns (table : string) (schema : option string) : R (list ColumnInfo) :=
  if_connected (columns_for table).

Definition RedisDriver : DatabaseDriver rstate := {|
  connect := redis_connect;
  disconnect := redis_disconnect;
  ping := redis_ping;
  Core.execute query := m ← manager; on_server (execute m query);
  Core.execute_parameterized query parameters :=
    m ← manager; on_server (execute_parameterized m query parameters);
  Core.execute_user_query query row_cap parameters :=
    m ← manager; on_server (execute_user_query m query row_cap parameters (cfg_read_only config));
  fetch_tables schema := if_connected (Ok pseudo_tables);
  fetch_columns := redis_fetch_columns;
  fetch_indexes table schema := if_connected (Ok []);
  fetch_foreign_keys table schema := if_connected (Ok []);
  fetch_triggers table schema := if_connected (Ok []);
  fetch_table_ddl table schema := if_connected (Err (query_error
    "DDL is not applicable to Redis: pseudo-tables are a browsing convenience over a data type, not real schema objects with a definition to reconstruct"));
  fetch_view_definition view schema :=
    if_connected (Err (query_error "views are not applicable to Redis"));
  fetch_table_metadata table schema :=
    columns ← redis_fetch_columns table schema;
    mret {| tm_info := pseudo_table_info table; tm_columns := columns; tm_indexes := [];
            tm_foreign_keys := []; tm_triggers := [] |};
  fetch_databases := m ← manager; on_server (redis_databases m);
  fetch_database_metadata database :=
    if_connected (Ok {| dm_name := database; dm_schemas := []; dm_size_bytes := None |});
  supports_schemas := false;
  fetch_schemas := default_fetch_schemas;
  switch_schema := default_switch_schema;
  current_schema := default_current_schema;
  supports_transactions := false;
  begin_transaction := throw unsupported_transaction_error;
  commit_transaction := throw unsupported_transaction_error;
  rollback_transaction := throw unsupported_transaction_error;
  cancel_query := redis_cancel_query;
  apply_query_timeout := default_apply_query_timeout;
  keepalive_posture := NotSupported "redis-rs 0.27 exposes no TCP keepalive control; commands here are sub-millisecond request/response with no silent in-flight window, and ConnectionManager transparently reconnects a culled connection on the next command";
  server_version := default_server_version;
  parameter_style := QuestionMark;
  create_database request := throw (fixed_database_pool_error "create");
  drop_database name := throw (fixed_database_pool_error "drop");
  switch_database := redis_switch_database;
  stream_rows query rounds s :=
    let '(o, w) := redis_stream (r_connection s) not_connected_error query rounds (r_world s) in
    (o, set_r_world w s) |}.
End config.

Definition DATABASE_TYPE_ID : string := "Redis".

(** ** What the driver guarantees *)

Lemma emergency_max_nonneg : (0 < EMERGENCY_MAX)%Z.
Proof. done. Qed.
#[local] Opaque EMERGENCY_MAX.

Lemma on_server_eq {A} (m : io A) s :
  on_server m s = (fst (m (r_world s)), set_r_world (snd (m (r_world s))) s).
Proof. unfold on_server. by destruct (m (r_world s)). Qed.

Lemma map_err_Ok {E F A} (f : E -> F) (r : result E A) a : map_err f r = Ok a -> r = Ok a.
Proof. destruct r; cbn; [by intros [= ->]|done]. Qed.

(** C39: a connection is exactly as protected as its TLS mode asks: plain TCP
    only for an explicit disabled mode; certificate checks off only for an
    explicit preferred or required; in every other case, a missing mode
    included, the certificate and hostname are checked, against the
    configured CA when there is one, and an unreadable CA file is an error
    rather than a fallback; the credentials are the configured ones. *)
Theorem connection_as_secure_as_asked (config : ConnectionConfig) (db_override : option Z)
    (w w' : W) (c : Client) :
  build_client config db_override w = (Ok c, w') ->
  w' = w
  /\ exists n root,
       let host := cfg_host config in
       let port := cfg_port config in
       let info a :=
         {| addr := a; db := n;
            username := if is_empty (cfg_username config) then None else Some (cfg_username config);
            password := cfg_password config |} in
       match mode (cfg_ssl config) with
       | Some Disabled => client_open (info (Tcp host port)) w = Ok c
       | Some Preferred | Some Required =>
           client_build_with_tls (info (TcpTls host port true)) None w = Ok c
       | Some VerifyCa | Some VerifyIdentity | None =>
           client_build_with_tls (info (TcpTls host port false)) root w = Ok c
           /\ match ca_path (cfg_ssl config) with
              | Some p => exists pem, fs_read p w = Ok pem /\ root = Some pem
              | None => root = None
              end
       end.
Proof.
  intros H. unfold build_client, build_connection_info, root_cert_pem in H.
  destruct (parse_db_index (cfg_database config)) as [n|e]; [|done].
  eff_simpl. unfold reads in H.
  destruct db_override as [m|], (mode (cfg_ssl config)) as [[]|], (ca_path (cfg_ssl config)) as [p|];
    cbn in H; rewrite ?eff_bind_eq in H; cbn in H;
    try (destruct (fs_read p w) as [pem|] eqn:Hp; cbn in H; [|done]);
    injection H as H <-; apply map_err_Ok in H; (split; [done|]);
    first [ solve [eexists; exists None; exact H]
          | solve [eexists; exists None; split; [exact H|done]]
          | eexists; exists (Some pem); split; [exact H|by eauto] ].
Qed.

(** What one parameterized command does: nothing, or exactly one command. *)
Lemma execute_parameterized_cases m query ps w r w' :
  execute_parameterized m query ps w = (r, w') ->
  (exists e, r = Err e /\ w' = w)
  \/ (exists tokens c, tokenize query = Ok tokens /\ build_command to_uppercase tokens (Some ps) = Ok c
      /\ w' = snd (query_value m c w)
      /\ match fst (query_value m c w) with
         | Ok v => exists ns, r = Ok (set_execution_time ns (value_to_query_result v))
         | Err err => r = Err (map_query_error err)
         end).
Proof.
  unfold execute_parameterized, run_cmd, reads. intros H.
  destruct (tokenize query) as [tokens|e] eqn:Ht; eff_simpl; [|simplify_eq; eauto].
  destruct (build_command to_uppercase tokens (Some ps)) as [c|e] eqn:Hc; eff_simpl;
    [|simplify_eq; eauto].
  right. exists tokens, c. destruct (query_value m c w) as [[v|err] w1]; cbn in *; simplify_eq; eauto 6.
Qed.

(** What a read-only user query may do. *)
Lemma read_only_user_query (config : ConnectionConfig) (query : string) (row_cap : option Z)
    (ps : option (list CellValue)) (s : rstate) :
  cfg_read_only config = true ->
  let '(r, s') := Core.execute_user_query (RedisDriver config) query row_cap ps s in
  (exists e, r = Err e /\ s' = s)
  \/ (exists m c, r_connection s = Some m /\ cmd_name c ∈ READ_ONLY_COMMANDS
      /\ s' = set_r_world (snd (query_value m c (r_world s))) s).
Proof.
  intros Hro. cbn [RedisDriver Core.execute_user_query]. unfold manager. rewrite eff_bind_eq, Hro.
  destruct (r_connection s) as [m|] eqn:Hm; cbn [ok_or]; [|by eauto].
  rewrite on_server_eq. unfold execute_user_query, require_read_only. eff_simpl.
  assert (set_r_world (r_world s) s = s) as Hsame by (by destruct s).
  destruct (tokenize query) as [tokens|e] eqn:Ht; cbn; [|rewrite Hsame; by eauto].
  destruct (head tokens) as [name|] eqn:Hh; cbn; [|rewrite Hsame; by eauto].
  case_decide as Hin; cbn; [|rewrite Hsame; by eauto].
  destruct (execute_parameterized m query (default [] ps) (r_world s)) as [r w'] eqn:He.
  apply execute_parameterized_cases in He as [(e & -> & ->)|(tokens' & c & Ht' & Hc & -> & Hr)].
  - cbn. rewrite Hsame. by eauto.
  - right. exists m, c. split; [done|]. rewrite Ht in Ht'. injection Ht' as <-.
    pose proof (build_command_name _ _ _ _ Hc) as (name' & Hrest & Hname).
    rewrite Hh in Hrest. injection Hrest as ->. rewrite Hname. split; [done|]. by destruct r.
Qed.

(** C10: on a read-only connection a user query either is refused before
    anything is sent, or sends exactly one command, and that command's name
    is on the list of commands known not to write; nothing else of the driver
    changes. *)
Theorem read_only_sends_listed (config : ConnectionConfig) (query : string) (row_cap : option Z)
    (ps : option (list CellValue)) (s : rstate) :
  cfg_read_only config = true ->
  let '(r, s') := Core.execute_user_query (RedisDriver config) query row_cap ps s in
  (exists e, r = Err e /\ s' = s)
  \/ (exists m c, r_connection s = Some m /\ cmd_name c ∈ READ_ONLY_COMMANDS
      /\ s' = set_r_world (snd (query_value m c (r_world s))) s).
Proof. apply read_only_user_query. Qed.

(** The row cap: what a user query returns has at most the rows asked
    for, and never more than the ceiling; unless it is marked truncated it
    has all rows of the reply, and truncated it has exactly as many as the
    cap allows, the reply's first ones; the affected-row count is the number
    of rows returned. *)
Theorem user_query_row_cap (m : Conn) (query : string) (row_cap : option Z)
    (ps : option (list CellValue)) (read_only : bool) (w w' : W) (r : QueryResult) :
  execute_user_query m query row_cap ps read_only w = (Ok r, w') ->
  (0 <= default 0 row_cap)%Z ->
  exists v, let all := rows (value_to_query_result v) in
    let n := clamp_row_cap row_cap in
    (exists c, fst (query_value m c w) = Ok v)
    /\ (Z.of_nat (length (rows r)) <= n)%Z
    /\ is_truncated r = (n <? Z.of_nat (length all))%Z
    /\ rows r = (if is_truncated r then take (Z.to_nat n) all else all)
    /\ (is_truncated r = true -> Z.of_nat (length (rows r)) = n)
    /\ rows_affected r = Z.of_nat (length (rows r)).
Proof.
  intros H Hcap. unfold execute_user_query in H.
  assert (exists r0 w1, execute_parameterized m query (default [] ps) w = (Ok r0, w1)
            /\ r = cap_rows (clamp_row_cap row_cap) r0) as (r0 & w1 & He & ->).
  { destruct read_only; eff_simpl;
      [destruct (require_read_only to_uppercase query) as [[]|]; [|done]; cbn in H|];
      destruct (execute_parameterized m query (default [] ps) w) as [[r0|] w1]; simplify_eq; eauto. }
  clear H. apply execute_parameterized_cases in He as [(e & [=] & _)|(tokens & c & _ & _ & _ & Hr)].
  destruct (fst (query_value m c w)) as [v|err] eqn:Hv; [|done]. destruct Hr as [ns [= ->]].
  exists v. split; [by eauto|].
  assert (is_truncated (value_to_query_result v) = false) as Hnt by (by destruct v).
  cbn. rewrite Hnt. unfold cap_rows. cbn.
  assert (0 <= clamp_row_cap row_cap)%Z as Hn.
  { unfold clamp_row_cap. destruct row_cap; cbn in *; pose proof emergency_max_nonneg; lia. }
  destruct (Z.ltb_spec (clamp_row_cap row_cap) (Z.of_nat (length (rows (value_to_query_result v))))).
  - rewrite length_take. repeat split; lia.
  - repeat split; [lia|done].
Qed.

(** Every row of a pseudo-table has the columns its header announces. *)
Definition of_arity (names : list string) (row : list CellValue) : Prop :=
  length row = length names.

Lemma fetch_rows_arity m table names key text w rows w' :
  column_names table = Ok names ->
  fetch_rows_for_key m table key text w = (Ok rows, w') -> Forall (of_arity names) rows.
Proof.
  unfold column_names, fetch_rows_for_key, run_cmd. intros Hn.
  repeat (case_decide; [injection Hn as <-|]); [..|done]; rewrite eff_bind_eq; unfold eff_map_err;
    destruct (query_value _ _ _) as [[v|e] w1]; cbn; intros Hr; try done; unfold mret, eff_ret in Hr; injection Hr as <- _;
    apply Forall_forall; intros row Hrow; unfold of_arity.
  - by apply list_elem_of_singleton in Hrow as ->.
  - by apply list_elem_of_fmap in Hrow as (kv & -> & _).
  - apply elem_of_lookup_imap in Hrow as (k & x & -> & _). done.
  - by apply list_elem_of_fmap in Hrow as (kv & -> & _).
  - by apply list_elem_of_fmap in Hrow as (kv & -> & _).
  - by apply list_elem_of_fmap in Hrow as (kv & -> & _).
Qed.

Lemma fetch_batch_arity m table names keys w rows w' :
  column_names table = Ok names ->
  fetch_batch m table keys w = (Ok rows, w') -> Forall (of_arity names) rows.
Proof.
  intros Hn. revert w rows w'. induction keys as [|key keys IH]; intros w rows w' H; cbn in H.
  - by injection H as <- _.
  - rewrite eff_bind_eq in H. destruct (fetch_rows_for_key m table key _ w) as [[r1|] w1] eqn:H1; [|done].
    rewrite eff_bind_eq in H. destruct (fetch_batch m table keys w1) as [[r2|] w2] eqn:H2; [|done].
    injection H as <- _. apply Forall_app. split; [by eapply fetch_rows_arity|by eapply IH].
Qed.

(** The batches of a run, with how it ended. *)
Definition batches_ok (names : list string) (total : Z) (batches : list (list (list CellValue))) : Prop :=
  (total + Z.of_nat (sum_list_with length batches) <= EMERGENCY_MAX)%Z
  /\ Forall (fun b => b <> [] /\ Forall (of_arity names) b) batches.

Lemma scan_loop_batches rounds m spec names cursor total w :
  column_names (ss_table spec) = Ok names -> (0 <= total <= EMERGENCY_MAX)%Z ->
  exists batches, fst (fst (scan_loop rounds m spec cursor total w)) = Rows <$> batches
    /\ batches_ok names total batches.
Proof.
  intros Hn. revert cursor total w. induction rounds as [|rounds IH]; intros cursor total w Ht; cbn [scan_loop].
  { exists []. repeat split; [cbn; lia|done]. }
  assert (exists batches, [] = Rows <$> batches /\ batches_ok names total batches) as Hnone
    by (exists []; repeat split; [cbn; lia|done]).
  destruct (Z.leb_spec EMERGENCY_MAX total); [exact Hnone|].
  destruct (eff_map_err map_query_error (query_scan m (scan_cmd cursor spec)) w) as [[[next keys]|e] w1];
    [|exact Hnone].
  destruct (fetch_batch m (ss_table spec) keys w1) as [[batch|e] w2] eqn:Hb; [|exact Hnone].
  apply (fetch_batch_arity _ _ names) in Hb; [|done].
  set (kept := if (EMERGENCY_MAX <? total + Z.of_nat (length batch))%Z
               then take (Z.to_nat (EMERGENCY_MAX - total)) batch else batch).
  assert (Forall (of_arity names) kept) as Hk by (subst kept; case_match; [by apply Forall_take|done]).
  assert (total + Z.of_nat (length kept) <= EMERGENCY_MAX)%Z as Hle.
  { subst kept. destruct (Z.ltb_spec EMERGENCY_MAX (total + Z.of_nat (length batch)));
      [rewrite length_take; lia|lia]. }
  clearbody kept. set (yielded := match kept with [] => [] | _ => [Rows kept] end).
  assert (exists bs, yielded = Rows <$> bs /\ sum_list_with length bs = length kept
            /\ Forall (fun b => b <> [] /\ Forall (of_arity names) b) bs) as (bs & -> & Hsum & Hbs).
  { subst yielded. destruct kept as [|x kept]; [by exists []|]. exists [x :: kept]. cbn.
    repeat split; [lia|]. apply Forall_singleton. by split. }
  case_match.
  - exists bs. repeat split; [rewrite Hsum; lia|done].
  - destruct (IH next (total + Z.of_nat (length kept))%Z w2) as (more & Hmore & Hmt & Hmf); [lia|].
    destruct (scan_loop rounds m spec next _ w2) as [[els r] w3]. cbn in *.
    exists (bs ++ more). rewrite fmap_app, Hmore. repeat split.
    + rewrite sum_list_with_app, Hsum. lia.
    + by apply Forall_app.
Qed.

(** C32: browsing a pseudo-table, over any server and for as long as the
    consumer cares to read: the stream either fails before yielding anything
    or yields the table's header first and then only non-empty batches of
    rows that have exactly the header's columns, never more rows in total
    than the ceiling; the connection and the cancellation handle are left as
    they were. *)
Theorem stream_shape (config : ConnectionConfig) (query : string) (rounds : nat) (s : rstate) :
  let '((els, r), s') := Core.stream_rows (RedisDriver config) query rounds s in
  s' = set_r_world (r_world s') s
  /\ ((els = [] /\ exists e, r = Some (Err e))
      \/ exists table names batches,
           column_names table = Ok names
           /\ els = Header {| sh_columns := names; sh_column_type_names := (fun _ => "text") <$> names |}
                    :: (Rows <$> batches)
           /\ (Z.of_nat (sum_list_with length batches) <= EMERGENCY_MAX)%Z
           /\ Forall (fun b => b <> [] /\ Forall (of_arity names) b) batches).
Proof.
  cbn [RedisDriver Core.stream_rows]. unfold redis_stream.
  destruct (parse_scan_spec query) as [spec|e]; [|split; [done|left; by eauto]].
  destruct (r_connection s) as [m|]; [|split; [done|left; by eauto]].
  unfold columns_for. destruct (column_names (ss_table spec)) as [names|e] eqn:Hn; cbn;
    [|split; [done|left; by eauto]].
  destruct (scan_loop_batches rounds m spec names 0 0 (r_world s)) as (batches & Hels & Hsum & Hbs);
    [done|pose proof emergency_max_nonneg; lia|].
  destruct (scan_loop rounds m spec 0 0 (r_world s)) as [[els r] w']. cbn in *. subst els.
  split; [done|]. right. exists (ss_table spec), names, batches. split; [done|].
  assert (col_name <$> map pseudo_column names = names) as ->
    by (clear; induction names; cbn; congruence).
  assert (col_data_type <$> map pseudo_column names = (fun _ => "text") <$> names) as ->
    by (clear; induction names; cbn; congruence).
  done.
Qed.
End driver.

(** ** A concrete server, for the instances below *)

(** It remembers the commands it was sent and answers each with the same
    three-element array. *)
#[local] Instance log_lib : RedisLib (list Cmd) (bool * ConnectionInfo) nat string := {|
  client_open info _ := Ok (false, info);
  client_build_with_tls info _ _ := Ok (true, info);
  get_connection_manager _ _ w := (Ok 0, w);
  get_multiplexed_connection _ w := (Ok 1, w);
  query_value _ c w := (Ok (RArray [RInt 1; RNil; ROkay]), w ++ [c]);
  query_i64 _ c w := (Ok 7%Z, w ++ [c]);
  query_scan _ c w := (Ok (0%Z, [as_bytes "k"]), w ++ [c]);
  err_kind _ := OtherError; err_to_string e := e; err_code _ := None; err_detail _ := None;
  instant_now w := Z.of_nat (length w) |}.
#[local] Instance log_host : RedisHost (list Cmd) := {|
  fs_read p _ := Ok (as_bytes p);
  to_uppercase := to_ascii_uppercase; to_lowercase := to_ascii_lowercase;
  str_debug s := dquote +:+ s +:+ dquote; f64_to_string _ := "0"; json_to_string _ := "{}" |}.

Definition example_config (m : option SslMode) (read_only : bool) : ConnectionConfig :=
  {| cfg_host := "h"; cfg_port := 6379; cfg_username := EmptyString; cfg_password := Some "pw";
     cfg_database := Some " 3 ";
     cfg_ssl := {| mode := m; ca_path := Some "ca.pem"; client_cert_path := None;
                   client_key_path := None |};
     cfg_read_only := read_only; cfg_additional_fields := ∅ |}.
Definition connected : rstate (W := list Cmd) (Conn := nat) :=
  {| r_world := []; r_connection := Some 0; r_client_id := Some 7%Z; r_kills := [] |}.

Lemma connection_as_secure_as_asked_witness :
  let client := (true, {| addr := TcpTls "h" 6379 false; db := 3; username := None;
                          password := Some "pw" |}) in
  build_client (example_config None true) None [] = (Ok client, [])
  /\ ([] : list Cmd) = [].
Proof.
  intros client.
  assert (build_client (example_config None true) None [] = (Ok client, [])) as H by by vm_compute.
  split; [exact H|]. exact (proj1 (connection_as_secure_as_asked _ _ _ _ _ H)).
Defined.

Lemma read_only_sends_listed_witness :
  let run q := Core.execute_user_query (RedisDriver (example_config None true)) q None None connected in
  is_ok (fst (run "get k")) = true
  /\ fst (run "set k v") = Err (query_error "read-only connection: command 'SET' is not permitted")
  /\ let '(r, s') := run "get k" in
     (exists e, r = Err e /\ s' = connected)
     \/ (exists m c, r_connection connected = Some m /\ cmd_name c ∈ READ_ONLY_COMMANDS
         /\ s' = set_r_world (snd (query_value m c [])) connected).
Proof.
  split; [by vm_compute|]. split; [by vm_compute|].
  apply (read_only_sends_listed (example_config None true) "get k" None None connected).
  reflexivity.
Defined.

Lemma user_query_row_cap_witness :
  exists r w', execute_user_query 0 "LRANGE l 0 ?" (Some 2%Z) (Some [Text "-1"]) false [] = (Ok r, w')
  /\ rows r = [[Text "1"]; [Null]] /\ is_truncated r = true
  /\ rows_affected r = Z.of_nat (length (rows r)).
Proof.
  do 2 eexists. split; [by vm_compute|]. split; [done|]. split; [done|].
  edestruct (user_query_row_cap 0 "LRANGE l 0 ?" (Some 2%Z) (Some [Text "-1"]) false [])
    as (v & _ & _ & _ & _ & _ & Ha); [by vm_compute|by vm_compute|exact Ha].
Defined.

Example stream_example :
  fst (Core.stream_rows (RedisDriver (example_config None true)) "List match 'a *'" 5 connected)
  = ([Header {| sh_columns := ["key"; "index"; "value"]; sh_column_type_names := ["text"; "text"; "text"] |};
      Rows [[Text "k"; Text "0"; Text "1"]; [Text "k"; Text "1"; Null]; [Text "k"; Text "2"; Text "OK"]]],
     Some (Ok tt)).
Proof. by vm_compute. Qed.
