(* ===== verification/RedisCalls.v ===== *)
(** * Concurrent calls of one Redis driver, dropped anywhere
    (crates/driver-redis: driver.rs)

    The driver's methods take the connection out from behind the lock and give
    the lock back before they wait for anything, so the calls of many clients
    interleave freely with [connect], [switch_database] and [disconnect].
    Here they are cut at their [.await]s and where they give the lock back:
    [turn] is one step of one task, over the driver's own state; [happen] is
    what the server and the runtime do by themselves.  A connection is known
    by the number of its opening. *)
From S2P Require Import Prelude RustStr Tasks Core Json Export RedisCommand Redis.

(** The server's sessions by client id, with the connection of this driver
    each belongs to, if it is one of ours; the ids given out so far, never
    twice ([CLIENT ID]); what it was sent on each connection. *)
Record server := {
  sv_opened : nat;
  sv_sessions : gmap Z (option nat);
  sv_given : gset Z;
  sv_log : list (nat * Cmd);
}.
#[local] Abbreviation driver_state := (rstate (W := server) (Conn := nat)).

Inductive call := Asks (script : list Cmd) | Connects | Disconnects | Cancels.

(** [Using]: a call with its clone of the connection; [Opened]: [establish]
    waits for the answer to [CLIENT ID]; [Adopting]: [adopt] waits for the
    write lock; [Settling] and [Clearing]: the lock is given back, the client
    id not set yet. *)
Inductive phase :=
  | Waiting (c : call)
  | Using (on : nat) (todo : list Cmd)
  | Opened (on : nat)
  | Adopting (on : nat) (client_id : Z)
  | Settling (client_id : Z)
  | Clearing
  | Done.

(** The last two fields only serve the statements: the id each connection was
    adopted with, and whether a task took the write lock while another one had
    still to set the client id. *)
Record shared := {
  k_tasks : gmap nat phase;
  k_driver : driver_state;
  k_answered : gmap nat Z;
  k_raced : bool;
}.
Definition no_server : server :=
  {| sv_opened := 0; sv_sessions := ∅; sv_given := ∅; sv_log := [] |}.
Definition start (calls : gmap nat call) : shared :=
  {| k_tasks := Waiting <$> calls; k_driver := RedisDriver_new no_server;
     k_answered := ∅; k_raced := false |}.

Definition put (i : nat) (p : phase) (s : shared) : shared :=
  {| k_tasks := <[i := p]> (k_tasks s); k_driver := k_driver s;
     k_answered := k_answered s; k_raced := k_raced s |}.
Definition on_driver (f : driver_state -> driver_state) (s : shared) : shared :=
  {| k_tasks := k_tasks s; k_driver := f (k_driver s); k_answered := k_answered s;
     k_raced := k_raced s |}.
Definition on_sessions (f : server -> server) : shared -> shared :=
  on_driver (fun d => set_r_world (f (r_world d)) d).
Definition answer (c : nat) (id : Z) (s : shared) : shared :=
  {| k_tasks := k_tasks s; k_driver := k_driver s; k_answered := <[c := id]> (k_answered s);
     k_raced := k_raced s |}.

Definition unsettled (p : phase) : bool :=
  match p with Settling _ | Clearing => true | _ => false end.
Definition settled (s : shared) : bool :=
  bool_decide (map_Forall (fun _ p => unsettled p = false) (k_tasks s)).
(** A task takes the write lock. *)
Definition take (s : shared) : shared :=
  {| k_tasks := k_tasks s; k_driver := k_driver s; k_answered := k_answered s;
     k_raced := k_raced s || negb (settled s) |}.

(** ** The server *)

Definition open (id : Z) (owner : option nat) (sv : server) : server :=
  {| sv_opened := sv_opened sv; sv_sessions := <[id := owner]> (sv_sessions sv);
     sv_given := {[id]} ∪ sv_given sv; sv_log := sv_log sv |}.
Definition dial (id : Z) (sv : server) : server :=
  let sv' := open id (Some (sv_opened sv)) sv in
  {| sv_opened := S (sv_opened sv); sv_sessions := sv_sessions sv'; sv_given := sv_given sv';
     sv_log := sv_log sv |}.
Definition close (id : Z) (sv : server) : server :=
  {| sv_opened := sv_opened sv; sv_sessions := delete id (sv_sessions sv);
     sv_given := sv_given sv; sv_log := sv_log sv |}.
Definition say (c : nat) (cmd : Cmd) (sv : server) : server :=
  {| sv_opened := sv_opened sv; sv_sessions := sv_sessions sv; sv_given := sv_given sv;
     sv_log := sv_log sv ++ [(c, cmd)] |}.
Definition session_of (c : nat) (id : Z) (sv : server) : Prop := sv_sessions sv !! id = Some (Some c).

(** ** Steps *)

(** [Goes]: the task goes on, [ok] being whether what it waited for went
    well; [Gets]: the server gives a session or tells its id; [Drops]. *)
Inductive event := Goes (ok : bool) | Gets (id : Z) | Drops.

Definition turn (i : nat) (e : event) (s : shared) : option shared :=
  let sv := r_world (k_driver s) in
  match k_tasks s !! i, e with
  | Some (Waiting (Asks script)), Goes _ =>
      Some (put i (match r_connection (k_driver s) with
                   | Some c => Using c script | None => Done end) s)
  | Some (Using c (cmd :: todo)), Goes ok =>
      Some (put i (if ok then Using c todo else Done) (on_sessions (say c cmd) s))
  | Some (Using c []), Goes _ => Some (put i Done s)
  | Some (Waiting Connects), Gets id =>
      if decide (id ∈ sv_given sv) then None
      else Some (put i (Opened (sv_opened sv)) (on_sessions (dial id) s))
  | Some (Waiting Connects), Goes false => Some (put i Done s)
  | Some (Opened c), Gets id =>
      if decide (sv_sessions sv !! id = Some (Some c))
      then Some (put i (Adopting c id) (answer c id (on_sessions (say c client_id_cmd) s))) else None
  | Some (Opened c), Goes false => Some (put i Done s)
  | Some (Adopting c id), Goes _ =>
      Some (put i (Settling id) (on_driver (set_connection (Some c)) (take s)))
  | Some (Settling id), Goes _ => Some (put i Done (on_driver (set_client_id (Some id)) s))
  | Some (Waiting Disconnects), Goes _ =>
      Some (put i Clearing (on_driver (set_connection None) (take s)))
  | Some Clearing, Goes _ => Some (put i Done (on_driver (set_client_id None) s))
  | Some (Waiting Cancels), Goes _ =>
      Some (put i Done (on_driver (fun d => snd (redis_cancel_query d)) s))
  | Some (Waiting _), Drops | Some (Using _ _), Drops | Some (Opened _), Drops
  | Some (Adopting _ _), Drops => Some (put i Done s)
  | _, _ => None
  end.

(** What happens outside the driver: another client connects; a session of a
    connection of ours ends, or is opened again by its [ConnectionManager];
    the oldest detached kill reaches the server, or fails to. *)
Inductive happening :=
  | Stranger (id : Z)
  | Culled (id : Z)
  | Reopened (c : nat) (id : Z)
  | Kills (reached : bool).
Definition pop_kill (d : driver_state) : driver_state :=
  {| r_world := r_world d; r_connection := r_connection d; r_client_id := r_client_id d;
     r_kills := tail (r_kills d) |}.
Definition happen (h : happening) (s : shared) : option shared :=
  let sv := r_world (k_driver s) in
  match h with
  | Stranger id =>
      if decide (id ∈ sv_given sv) then None else Some (on_sessions (open id None) s)
  | Culled id => Some (on_sessions (close id) s)
  | Reopened c id =>
      if decide ((id ∉ sv_given sv) /\ c < sv_opened sv
                 /\ map_Forall (fun _ owner => owner <> Some c) (sv_sessions sv))
      then Some (on_sessions (open id (Some c)) s) else None
  | Kills reached =>
      match r_kills (k_driver s) with
      | [] => None
      | id :: _ =>
          let s := on_driver pop_kill s in
          Some (if reached then on_sessions (close id) s else s)
      end
  end.
Definition step (l : (nat * event) + happening) : shared -> option shared :=
  match l with inl (i, e) => turn i e | inr h => happen h end.
Definition steps_of : list ((nat * event) + happening) -> shared -> option shared := follow step.

(** ** Whose sessions are killed *)

(** An id the server has given out, and not to another client's session. *)
Definition ours (s : shared) (id : Z) : Prop :=
  id ∈ sv_given (r_world (k_driver s)) /\ sv_sessions (r_world (k_driver s)) !! id <> Some None.
(** The client id a task has in hand. *)
Definition knows (p : phase) : option Z :=
  match p with Adopting _ id | Settling id => Some id | _ => None end.

Record own (s : shared) : Prop := {
  own_given : forall id, is_Some (sv_sessions (r_world (k_driver s)) !! id) ->
    id ∈ sv_given (r_world (k_driver s));
  own_tasks : forall i p id, k_tasks s !! i = Some p -> knows p = Some id -> ours s id;
  own_client : forall id, r_client_id (k_driver s) = Some id -> ours s id;
  own_kills : Forall (ours s) (r_kills (k_driver s));
}.

(** The server goes on: no id is given twice, and none of ours becomes
    another client's. *)
Definition server_grows (sv sv' : server) : Prop :=
  sv_given sv ⊆ sv_given sv'
  /\ (forall id, is_Some (sv_sessions sv' !! id) -> id ∈ sv_given sv')
  /\ (forall id, id ∈ sv_given sv -> sv_sessions sv' !! id = Some None -> sv_sessions sv !! id = Some None).

Lemma ours_grows s s' id :
  server_grows (r_world (k_driver s)) (r_world (k_driver s')) -> ours s id -> ours s' id.
Proof. intros (Hg & _ & Hn) [Hid Hs]. split; [by apply Hg|]. intros Hs'. by apply Hs, Hn. Qed.

(** A step: the server goes on, and the ids the driver and its tasks know were
    known before or are ours. *)
Lemma own_step s s' :
  own s -> server_grows (r_world (k_driver s)) (r_world (k_driver s')) ->
  (forall i p id, k_tasks s' !! i = Some p -> knows p = Some id ->
     ours s' id \/ exists q, k_tasks s !! i = Some q /\ knows q = Some id) ->
  (forall id, r_client_id (k_driver s') = Some id ->
     r_client_id (k_driver s) = Some id \/ exists i q, k_tasks s !! i = Some q /\ knows q = Some id) ->
  (forall id, id ∈ r_kills (k_driver s') ->
     id ∈ r_kills (k_driver s) \/ r_client_id (k_driver s) = Some id) -> own s'.
Proof.
  intros [H1 H2 H3 H4] Hg Ht Hc Hk. pose proof (fun id => ours_grows s s' id Hg) as Hours.
  rewrite Forall_forall in H4. split.
  - apply Hg.
  - intros i p id Hi Hp. destruct (Ht i p id Hi Hp) as [?|(q & Hq & Hk')]; [done|]. eauto.
  - intros id Hid. destruct (Hc id Hid) as [?|(i & q & Hq & Hkn)]; eauto.
  - apply Forall_forall. intros id Hid. destruct (Hk id Hid); eauto.
Qed.

Lemma grows_refl sv : (forall id, is_Some (sv_sessions sv !! id) -> id ∈ sv_given sv) -> server_grows sv sv.
Proof. by split. Qed.
Lemma grows_say c cmd sv :
  (forall id, is_Some (sv_sessions sv !! id) -> id ∈ sv_given sv) -> server_grows sv (say c cmd sv).
Proof. by split. Qed.
Lemma grows_close id sv :
  (forall id, is_Some (sv_sessions sv !! id) -> id ∈ sv_given sv) -> server_grows sv (close id sv).
Proof.
  intros Hs. split; [done|]. split; cbn.
  - intros x [o Hx]. apply lookup_delete_Some in Hx as [_ Hx]. eauto.
  - intros x _ Hx. by apply lookup_delete_Some in Hx as [_ Hx].
Qed.
Lemma grows_open id owner sv n :
  (forall id, is_Some (sv_sessions sv !! id) -> id ∈ sv_given sv) -> id ∉ sv_given sv ->
  server_grows sv {| sv_opened := n; sv_sessions := sv_sessions (open id owner sv);
                     sv_given := sv_given (open id owner sv); sv_log := sv_log sv |}.
Proof.
  intros Hs Hid. split; [set_solver|]. split; cbn.
  - intros x [o Hx]. apply lookup_insert_Some in Hx as [[<- _]|[_ Hx]]; [set_solver|].
    apply elem_of_union_r. eauto.
  - intros x Hx Hl. apply lookup_insert_Some in Hl as [[<- _]|[_ Hl]]; done.
Qed.

Lemma own_start calls : own (start calls).
Proof.
  split; cbn; [by intros id [o Ho]| |done|constructor].
  intros i p id. rewrite lookup_fmap. destruct (calls !! i); [|done]. by intros [= <-].
Qed.

(** The task that moved knows nothing new. *)
Lemma knows_put i p old s id0 j q :
  k_tasks s !! i = Some old -> (knows p = None \/ knows p = knows old) ->
  <[i := p]> (k_tasks s) !! j = Some q -> knows q = Some id0 ->
  exists r, k_tasks s !! j = Some r /\ knows r = Some id0.
Proof.
  intros Hold Hp. rewrite lookup_insert_Some. intros [[<- <-]|[_ Hj]] Hq; [|by eauto].
  exists old. split; [done|]. by destruct Hp as [Hp|Hp]; rewrite Hp in Hq.
Qed.
(** A step of a task that keeps what it knows and leaves the client id and the
    kills alone. *)
Lemma own_move i p old f s s' :
  own s -> k_tasks s !! i = Some old -> (knows p = None \/ knows p = knows old) ->
  k_tasks s' = <[i := p]> (k_tasks s) -> r_world (k_driver s') = f (r_world (k_driver s)) ->
  r_client_id (k_driver s') = r_client_id (k_driver s) -> r_kills (k_driver s') = r_kills (k_driver s) ->
  server_grows (r_world (k_driver s)) (f (r_world (k_driver s))) -> own s'.
Proof.
  intros Ho Hold Hp Ht Hw Hc Hk Hg. apply (own_step s s' Ho).
  - by rewrite Hw.
  - intros j q id. rewrite Ht. intros Hj Hq. right.
    destruct (knows_put i p old s id j q Hold Hp Hj Hq) as (r & Hr & Hkr). eauto.
  - rewrite Hc. auto.
  - rewrite Hk. auto.
Qed.

Lemma cancel_fields (d : driver_state) :
  r_connection (snd (redis_cancel_query d)) = r_connection d
  /\ r_client_id (snd (redis_cancel_query d)) = r_client_id d
  /\ r_world (snd (redis_cancel_query d)) = r_world d
  /\ fst (redis_cancel_query d)
     = (match r_client_id d with Some _ => Ok tt | None => Err not_connected_error end)
  /\ r_kills (snd (redis_cancel_query d)) = r_kills d ++ option_list (r_client_id d).
Proof.
  unfold redis_cancel_query. rewrite eff_bind_eq.
  destruct (r_client_id d) eqn:Hd; cbn; rewrite ?Hd, ?app_nil_r; cbn; by rewrite ?app_nil_r.
Qed.

Lemma own_cancel i s :
  own s -> k_tasks s !! i = Some (Waiting Cancels) ->
  own (put i Done (on_driver (fun d => snd (redis_cancel_query d)) s)).
Proof.
  intros Ho Hold. set (s' := put i Done _).
  destruct (cancel_fields (k_driver s)) as (_ & Hc & Hw & _ & Hk).
  apply (own_step s s' Ho).
  - cbn. rewrite Hw. apply grows_refl, (own_given s Ho).
  - intros j q n Hj Hq. right. by apply (knows_put i Done _ s n j q Hold); [left|..].
  - cbn. rewrite Hc. auto.
  - cbn. rewrite Hk. intros n. rewrite elem_of_app. intros [?|Hn]; [by left|right].
    destruct (r_client_id (k_driver s)) as [m|]; [|by apply not_elem_of_nil in Hn].
    apply list_elem_of_singleton in Hn. by subst.
Qed.
Lemma own_settle i id s :
  own s -> k_tasks s !! i = Some (Settling id) -> own (put i Done (on_driver (set_client_id (Some id)) s)).
Proof.
  intros Ho Hold. apply (own_step s _ Ho); [apply grows_refl, (own_given s Ho)| | |by auto].
  - intros j q n. cbn. intros Hj Hq. right. by apply (knows_put i Done _ s n j q Hold); [left|..].
  - intros n [= ->]. right. by exists i, (Settling n).
Qed.
Lemma own_clear i s :
  own s -> k_tasks s !! i = Some Clearing -> own (put i Done (on_driver (set_client_id None) s)).
Proof.
  intros Ho Hold. apply (own_step s _ Ho); [apply grows_refl, (own_given s Ho)| |done|by auto].
  intros j q n. cbn. intros Hj Hq. right. by apply (knows_put i Done _ s n j q Hold); [left|..].
Qed.
Lemma own_turn i e s s' : own s -> turn i e s = Some s' -> own s'.
Proof.
  intros Ho. pose proof (own_given s Ho) as Hs. pose proof (grows_refl _ Hs) as Hrefl. unfold turn.
  destruct (k_tasks s !! i) as [p|] eqn:Hold; [|done].
  assert (forall p' s', (knows p' = None \/ knows p' = knows p) -> k_tasks s' = <[i := p']> (k_tasks s) ->
    r_world (k_driver s') = r_world (k_driver s) -> r_client_id (k_driver s') = r_client_id (k_driver s) ->
    r_kills (k_driver s') = r_kills (k_driver s) -> own s') as Hpass.
  { intros p' s1 Hp Ht Hw Hc Hk. by apply (own_move i p' p (fun sv => sv) s s1 Ho Hold). }
  destruct p as [[script| | |]|c [|cmd todo]|c|c x|x| |], e as [[]|y|]; try done;
    try case_decide as Hx; try done; intros [= <-];
    try (eapply Hpass; cycle 1; [reflexivity..|try case_match; by auto]).
  - apply (own_move i (Opened (sv_opened (r_world (k_driver s)))) _ (dial y) s _ Ho Hold); try done; [by left|].
    by apply grows_open.
  - by apply own_cancel.
  - by apply own_cancel.
  - by apply (own_move i (Using c todo) _ (say c cmd) s _ Ho Hold); [left|..].
  - by apply (own_move i Done _ (say c cmd) s _ Ho Hold); [left|..].
  - apply (own_step s _ Ho); [by apply grows_say| |by auto..].
    intros j q n. cbn [put answer on_sessions on_driver k_tasks]. rewrite lookup_insert_Some.
    intros [[<- <-]|[_ Hj]] Hq; [|by eauto]. injection Hq as <-. left. unfold ours. cbn. rewrite Hx.
    split; [by apply Hs; rewrite Hx|done].
  - by apply (own_settle i x s).
  - by apply (own_settle i x s).
  - by apply own_clear.
  - by apply own_clear.
Qed.

Lemma own_happen h s s' : own s -> happen h s = Some s' -> own s'.
Proof.
  intros Ho. pose proof (own_given s Ho) as Hs.
  assert (forall f, server_grows (r_world (k_driver s)) (f (r_world (k_driver s))) -> own (on_sessions f s)) as Hserver.
  { intros f Hg. apply (own_step s _ Ho); [done|..]; by eauto. }
  destruct h as [n|n|c n|reached]; cbn [happen].
  - case_decide as Hn; [done|]. intros [= <-]. by apply Hserver, grows_open.
  - intros [= <-]. by apply Hserver, grows_close.
  - case_decide as Hn; [|done]. destruct Hn as (Hn & _). intros [= <-]. by apply Hserver, grows_open.
  - destruct (r_kills (k_driver s)) as [|n more] eqn:Hk; [done|].
    intros Hs'. assert (server_grows (r_world (k_driver s)) (r_world (k_driver s'))
      /\ k_tasks s' = k_tasks s /\ r_client_id (k_driver s') = r_client_id (k_driver s)
      /\ r_kills (k_driver s') = more) as (Hg & Ht & Hc & Hmore).
    { injection Hs' as <-. destruct reached; cbn; rewrite Hk; (split; [|done]);
        [by apply grows_close|by apply grows_refl]. }
    apply (own_step s s' Ho); rewrite ?Ht, ?Hc, ?Hmore; eauto.
    intros x Hx. left. rewrite Hk. by right.
Qed.
Lemma own_steps calls schedule s : steps_of schedule (start calls) = Some s -> own s.
Proof.
  apply (follow_keeps step own); [|apply own_start].
  intros [[i e]|h] s1 s2; [apply own_turn|apply own_happen].
Qed.

(** ** What the cached id names *)

(** The cached client id is the one the stored connection was adopted with. *)
Definition coherent (s : shared) : Prop :=
  match r_connection (k_driver s) with
  | Some c => exists id, r_client_id (k_driver s) = Some id /\ k_answered s !! c = Some id
  | None => r_client_id (k_driver s) = None
  end.
(** While nobody raced: at most one task has still to set the client id, and
    it will set the right one. *)
Record orderly (s : shared) : Prop := {
  ord_once : forall i j p q, k_tasks s !! i = Some p -> k_tasks s !! j = Some q ->
    unsettled p = true -> unsettled q = true -> i = j;
  ord_settling : forall i id, k_tasks s !! i = Some (Settling id) ->
    exists c, r_connection (k_driver s) = Some c /\ k_answered s !! c = Some id;
  ord_clearing : forall i, k_tasks s !! i = Some Clearing -> r_connection (k_driver s) = None;
  ord_coherent : settled s = true -> coherent s;
}.
Record coh (s : shared) : Prop := {
  coh_opened : forall i c, k_tasks s !! i = Some (Opened c) ->
    c < sv_opened (r_world (k_driver s)) /\ k_answered s !! c = None;
  coh_once : forall i j c, k_tasks s !! i = Some (Opened c) -> k_tasks s !! j = Some (Opened c) -> i = j;
  coh_adopting : forall i c id, k_tasks s !! i = Some (Adopting c id) -> k_answered s !! c = Some id;
  coh_known : forall c, is_Some (k_answered s !! c) -> c < sv_opened (r_world (k_driver s));
  coh_orderly : k_raced s = false -> orderly s;
}.

Lemma settled_spec s :
  settled s = true <-> forall i p, k_tasks s !! i = Some p -> unsettled p = false.
Proof. unfold settled. by rewrite bool_decide_eq_true. Qed.

(** A task that had nothing to set still has not. *)
Lemma orderly_move i old p s s' :
  orderly s -> k_tasks s !! i = Some old -> unsettled old = false -> unsettled p = false ->
  k_tasks s' = <[i := p]> (k_tasks s) -> r_connection (k_driver s') = r_connection (k_driver s) ->
  r_client_id (k_driver s') = r_client_id (k_driver s) -> k_answered s ⊆ k_answered s' -> orderly s'.
Proof.
  intros [H1 H2 H3 H4] Hold Ho Hp Ht Hc Hid Ha.
  assert (forall j q, k_tasks s' !! j = Some q -> unsettled q = true -> k_tasks s !! j = Some q) as Hun.
  { intros j q. rewrite Ht, lookup_insert_Some. intros [[<- <-]|[_ Hj]]; [congruence|done]. }
  split.
  - intros j k q r Hj Hk Hq Hr. eapply H1; eauto.
  - intros j id Hj. apply Hun in Hj; [|done]. destruct (H2 j id Hj) as (c & Hcc & Hac). exists c.
    rewrite Hc. split; [done|]. by eapply lookup_weaken.
  - intros j Hj. apply Hun in Hj; [|done]. rewrite Hc. by eapply H3.
  - rewrite settled_spec. intros Hs. assert (settled s = true) as Hset.
    { apply settled_spec. intros j q Hj. destruct (decide (j = i)) as [->|Hne]; [by rewrite Hold in Hj; injection Hj as <-|].
      apply (Hs j). by rewrite Ht, lookup_insert_ne. }
    specialize (H4 Hset). unfold coherent in *. rewrite Hc, Hid.
    destruct (r_connection (k_driver s)) as [c|]; [|done]. destruct H4 as (id & ? & ?). exists id.
    split; [done|]. by eapply lookup_weaken.
Qed.
Lemma coh_move i old p s s' :
  coh s -> k_tasks s !! i = Some old -> unsettled old = false -> unsettled p = false ->
  (forall c, p <> Opened c) -> (forall c id, p <> Adopting c id) ->
  k_tasks s' = <[i := p]> (k_tasks s) -> r_connection (k_driver s') = r_connection (k_driver s) ->
  r_client_id (k_driver s') = r_client_id (k_driver s) -> k_answered s' = k_answered s ->
  sv_opened (r_world (k_driver s')) = sv_opened (r_world (k_driver s)) -> k_raced s' = k_raced s -> coh s'.
Proof.
  intros [H1 H2 H3 H4 H5] Hold Ho Hp Hpo Hpa Ht Hc Hid Ha Hop Hr. split; rewrite ?Ht, ?Ha, ?Hop.
  - intros j c. rewrite lookup_insert_Some. intros [[_ Hj]|[_ Hj]]; [by destruct (Hpo c)|by eapply H1].
  - intros j k c. rewrite !lookup_insert_Some.
    intros [[_ Hj]|[_ Hj]] [[_ Hk]|[_ Hk]]; try (by destruct (Hpo c)). by eapply H2.
  - intros j c id. rewrite lookup_insert_Some. intros [[_ Hj]|[_ Hj]]; [by destruct (Hpa c id)|by eapply H3].
  - done.
  - rewrite Hr. intros Hrf. apply (orderly_move i old p s s' (H5 Hrf) Hold); try done. by rewrite Ha.
Qed.
(** What happens outside the tasks. *)
Lemma coh_server s s' :
  coh s -> k_tasks s' = k_tasks s -> r_connection (k_driver s') = r_connection (k_driver s) ->
  r_client_id (k_driver s') = r_client_id (k_driver s) -> k_answered s' = k_answered s ->
  sv_opened (r_world (k_driver s')) = sv_opened (r_world (k_driver s)) -> k_raced s' = k_raced s -> coh s'.
Proof.
  intros [H1 H2 H3 H4 H5] Ht Hc Hid Ha Hop Hr. split; rewrite ?Ht, ?Ha, ?Hop; try done.
  rewrite Hr. intros Hrf. destruct (H5 Hrf) as [O1 O2 O3 O4].
  split; rewrite ?Ht, ?Hc, ?Ha; try done. unfold settled, coherent. by rewrite Ht, Hc, Hid, Ha.
Qed.

Lemma coh_dial i id s :
  coh s -> k_tasks s !! i = Some (Waiting Connects) ->
  coh (put i (Opened (sv_opened (r_world (k_driver s)))) (on_sessions (dial id) s)).
Proof.
  intros [H1 H2 H3 H4 H5] Hold. set (n := sv_opened (r_world (k_driver s))) in *.
  assert (k_answered s !! n = None) as Hn.
  { destruct (k_answered s !! n) eqn:Ha; [|done]. assert (n < n) by (apply H4; eauto). lia. }
  assert (forall j, k_tasks s !! j <> Some (Opened n)) as Hno.
  { intros j Hj. destruct (H1 j n Hj). lia. }
  split; cbn [put on_sessions on_driver k_tasks k_answered k_raced k_driver set_r_world r_world sv_opened dial].
  - intros j c. rewrite lookup_insert_Some. intros [[_ [= <-]]|[_ Hj]]; [split; [lia|done]|].
    destruct (H1 j c Hj). split; [lia|done].
  - intros j k c. rewrite !lookup_insert_Some.
    intros [[<- [= <-]]|[_ Hj]] [[<- Hk]|[_ Hk]]; try done; [by apply Hno in Hk| |by eapply H2].
    injection Hk as <-. by apply Hno in Hj.
  - intros j c x. rewrite lookup_insert_Some. intros [[_ ?]|[_ Hj]]; [done|by eapply H3].
  - intros c Hc. apply H4 in Hc. lia.
  - intros Hr. by apply (orderly_move i _ (Opened n) s _ (H5 Hr) Hold).
Qed.
Lemma coh_answered i c id s :
  coh s -> k_tasks s !! i = Some (Opened c) ->
  coh (put i (Adopting c id) (answer c id (on_sessions (say c client_id_cmd) s))).
Proof.
  intros [H1 H2 H3 H4 H5] Hold. destruct (H1 i c Hold) as [Hlt Hnone].
  assert (forall d, d <> c -> k_answered s !! d = <[c := id]> (k_answered s) !! d) as Hother.
  { intros d Hd. by rewrite lookup_insert_ne. }
  split; cbn [put answer on_sessions on_driver k_tasks k_answered k_raced k_driver set_r_world r_world sv_opened say].
  - intros j d. rewrite lookup_insert_Some. intros [[_ ?]|[Hne Hj]]; [done|].
    assert (d <> c) as Hd by (intros ->; apply Hne; by eapply H2).
    rewrite <-Hother by done. by eapply H1.
  - intros j k d. rewrite !lookup_insert_Some. intros [[_ ?]|[_ Hj]] [[_ ?]|[_ Hk]]; try done. by eapply H2.
  - intros j d x. rewrite lookup_insert_Some. intros [[_ [= <- <-]]|[_ Hj]]; [by rewrite lookup_insert_eq|].
    pose proof (H3 j d x Hj) as Hd. rewrite <-Hother; [done|congruence].
  - intros d [x Hx]. apply lookup_insert_Some in Hx as [[<- _]|[_ Hx]]; [done|]. eauto.
  - intros Hr. apply (orderly_move i _ (Adopting c id) s _ (H5 Hr) Hold); try done. by apply insert_subseteq.
Qed.
(** A task takes the write lock, stores a connection or none, and has the
    client id still to set. *)
Lemma coh_take i old p o s :
  coh s -> k_tasks s !! i = Some old -> (forall c, p <> Opened c) -> (forall c id, p <> Adopting c id) ->
  (forall id, p = Settling id -> exists c, o = Some c /\ k_answered s !! c = Some id) ->
  (p = Clearing -> o = None) -> unsettled p = true ->
  coh (put i p (on_driver (set_connection o) (take s))).
Proof.
  intros [H1 H2 H3 H4 H5] Hold Hpo Hpa Hset Hcl Hp.
  split; cbn [put take on_driver k_tasks k_answered k_raced k_driver set_connection r_world].
  - intros j c. rewrite lookup_insert_Some. intros [[_ Hj]|[_ Hj]]; [by destruct (Hpo c)|by eapply H1].
  - intros j k c. rewrite !lookup_insert_Some.
    intros [[_ Hj]|[_ Hj]] [[_ Hk]|[_ Hk]]; try (by destruct (Hpo c)). by eapply H2.
  - intros j c id. rewrite lookup_insert_Some. intros [[_ Hj]|[_ Hj]]; [by destruct (Hpa c id)|by eapply H3].
  - done.
  - rewrite orb_false_iff, negb_false_iff, settled_spec. intros [Hr Hs].
    assert (forall j q, <[i := p]> (k_tasks s) !! j = Some q -> unsettled q = true -> j = i /\ q = p) as Honly.
    { intros j q. rewrite lookup_insert_Some. intros [[<- <-]|[_ Hj]] Hq; [done|].
      rewrite (Hs j q Hj) in Hq. done. }
    split; cbn [put take on_driver k_tasks k_answered k_raced k_driver set_connection r_connection].
    + intros j k q r Hj Hk Hq Hr'. by destruct (Honly j q Hj Hq) as [-> _], (Honly k r Hk Hr') as [-> _].
    + intros j id Hj. destruct (Honly j _ Hj eq_refl) as [_ Heq]. by apply Hset.
    + intros j Hj. destruct (Honly j _ Hj eq_refl) as [_ Heq]. by apply Hcl.
    + rewrite settled_spec. intros Hset'. assert (unsettled p = false); [|congruence].
      apply (Hset' i). cbn. by rewrite lookup_insert_eq.
Qed.
(** The task sets the client id. *)
Lemma coh_set i old o s :
  coh s -> k_tasks s !! i = Some old ->
  old = Clearing /\ o = None \/ (exists id, old = Settling id /\ o = Some id) ->
  coh (put i Done (on_driver (set_client_id o) s)).
Proof.
  intros [H1 H2 H3 H4 H5] Hold Ho. assert (unsettled old = true) as Hun by (by destruct Ho as [[-> _]|(id & -> & _)]).
  split; cbn [put on_driver k_tasks k_answered k_raced k_driver set_client_id r_world].
  - intros j c. rewrite lookup_insert_Some. intros [[_ ?]|[_ Hj]]; [done|by eapply H1].
  - intros j k c. rewrite !lookup_insert_Some. intros [[_ ?]|[_ Hj]] [[_ ?]|[_ Hk]]; try done. by eapply H2.
  - intros j c id. rewrite lookup_insert_Some. intros [[_ ?]|[_ Hj]]; [done|by eapply H3].
  - done.
  - intros Hr. destruct (H5 Hr) as [O1 O2 O3 O4].
    assert (forall j q, <[i := Done]> (k_tasks s) !! j = Some q -> unsettled q = false) as Hnone.
    { intros j q. rewrite lookup_insert_Some. intros [[_ <-]|[Hne Hj]]; [done|].
      destruct (unsettled q) eqn:Hq; [|done]. by destruct Hne; eapply O1. }
    split; cbn [put on_driver k_tasks k_answered k_raced k_driver set_client_id r_connection r_client_id].
    + intros j k q r Hj _ Hq. by rewrite (Hnone j q Hj) in Hq.
    + intros j id Hj. by apply Hnone in Hj.
    + intros j Hj. by apply Hnone in Hj.
    + intros _. unfold coherent. cbn. destruct Ho as [[-> ->]|(id & -> & ->)].
      * by rewrite (O3 i Hold).
      * destruct (O2 i id Hold) as (c & -> & Hc). by exists id.
Qed.

Lemma coh_turn i e s s' : coh s -> turn i e s = Some s' -> coh s'.
Proof.
  intros Hc. unfold turn. destruct (k_tasks s !! i) as [p|] eqn:Hold; [|done].
  assert (unsettled p = false -> forall p' f, unsettled p' = false -> (forall c, p' <> Opened c) ->
    (forall c id, p' <> Adopting c id) ->
    (forall d, r_connection (f d) = r_connection d /\ r_client_id (f d) = r_client_id d
               /\ sv_opened (r_world (f d)) = sv_opened (r_world d)) ->
    coh (put i p' (on_driver f s))) as Hpass.
  { intros Hp p' f Hp' Ho Ha Hf. destruct (Hf (k_driver s)) as (? & ? & ?).
    by apply (coh_move i p p' s _ Hc Hold). }
  destruct p as [[script| | |]|c [|cmd todo]|c|c x|x| |], e as [[]|y|]; try done;
    try case_decide as Hx; try done; intros [= <-];
    try (by apply (Hpass eq_refl _ (fun d => d))); try (by apply (Hpass eq_refl));
    try (by apply coh_dial); try (by apply coh_answered);
    try (by apply (coh_set i _ _ s Hc Hold); eauto);
    try (apply (coh_take i _ _ _ s Hc Hold); try done).
  - apply (Hpass eq_refl _ (fun d => d)); by destruct (r_connection (k_driver s)).
  - apply (Hpass eq_refl _ (fun d => d)); by destruct (r_connection (k_driver s)).
  - apply (Hpass eq_refl); try done. intros d. by destruct (cancel_fields d) as (-> & -> & -> & _).
  - apply (Hpass eq_refl); try done. intros d. by destruct (cancel_fields d) as (-> & -> & -> & _).
  - intros id [= <-]. exists c. split; [done|]. by apply (coh_adopting s Hc i).
  - intros id [= <-]. exists c. split; [done|]. by apply (coh_adopting s Hc i).
Qed.
Lemma coh_happen h s s' : coh s -> happen h s = Some s' -> coh s'.
Proof.
  intros Hc. destruct h as [n|n|c n|reached]; cbn [happen].
  - case_decide; [done|]. intros [= <-]. by apply (coh_server s).
  - intros [= <-]. by apply (coh_server s).
  - case_decide; [|done]. intros [= <-]. by apply (coh_server s).
  - destruct (r_kills (k_driver s)) as [|n more]; [done|]. intros [= <-].
    destruct reached; by apply (coh_server s).
Qed.
Lemma coh_steps calls schedule s : steps_of schedule (start calls) = Some s -> coh s.
Proof.
  apply (follow_keeps step coh); [intros [[i e]|h] s1 s2; [apply coh_turn|apply coh_happen]|].
  assert (forall i p, k_tasks (start calls) !! i = Some p -> exists c, p = Waiting c) as Hw.
  { intros i p. cbn. rewrite lookup_fmap. destruct (calls !! i); [|done]. intros [= <-]. eauto. }
  split.
  - intros i c Hi. by apply Hw in Hi as [? ?].
  - intros i j c Hi. by apply Hw in Hi as [? ?].
  - intros i c id Hi. by apply Hw in Hi as [? ?].
  - intros c [? ?]. done.
  - intros _. split; try done.
    + intros i j p q Hi _ Hp. by apply Hw in Hi as [? ->].
    + intros i id Hi. by apply Hw in Hi as [? ?].
Qed.


(** *** A session that is over *)

Definition dead (id : Z) (s : shared) : Prop :=
  id ∈ sv_given (r_world (k_driver s)) /\ sv_sessions (r_world (k_driver s)) !! id = None.
Lemma dead_server id f s :
  dead id s -> sv_given (r_world (k_driver s)) ⊆ sv_given (f (r_world (k_driver s))) ->
  sv_sessions (f (r_world (k_driver s))) !! id = None -> dead id (on_sessions f s).
Proof. intros [Hg _] Hs Hn. split; cbn; [by apply Hs|done]. Qed.
Lemma dead_open id n owner sv :
  id ∈ sv_given sv -> n ∉ sv_given sv -> sv_sessions sv !! id = None ->
  sv_sessions (open n owner sv) !! id = None.
Proof. intros Hid Hn Hs. cbn. rewrite lookup_insert_ne; [done|]. by intros ->. Qed.
Lemma dead_step l id s s' : dead id s -> step l s = Some s' -> dead id s'.
Proof.
  intros Hd. pose proof Hd as [Hg Hn].
  assert (forall i p (s' : shared), r_world (k_driver s') = r_world (k_driver s) -> dead id (put i p s')) as Hsame.
  { intros i p s1 Hw. unfold dead. cbn. by rewrite Hw. }
  destruct l as [[i e]|h]; cbn [step].
  - unfold turn. destruct (k_tasks s !! i) as [p|] eqn:Hold; [|done].
    destruct p as [[script| | |]|c [|cmd todo]|c|c x|x| |], e as [[]|y|]; try done;
      try case_decide as Hx; try done; intros [= <-]; try (by apply Hsame); try (by split).
    + split; cbn; [by apply elem_of_union_r|]. by eapply (dead_open id y).
    + apply Hsame. exact (proj1 (proj2 (proj2 (cancel_fields _)))).
    + apply Hsame. exact (proj1 (proj2 (proj2 (cancel_fields _)))).
  - destruct h as [n|n|c n|reached]; cbn [happen].
    + case_decide as Hx; [done|]. intros [= <-].
      apply dead_server; [done|cbn; by apply union_subseteq_r|by apply dead_open].
    + intros [= <-]. apply dead_server; [done|done|]. cbn. by rewrite lookup_delete_None; auto.
    + case_decide as Hx; [|done]. destruct Hx as (Hx & _). intros [= <-].
      apply dead_server; [done|cbn; by apply union_subseteq_r|by apply dead_open].
    + destruct (r_kills (k_driver s)) as [|n more]; [done|]. intros [= <-].
      destruct reached; [|by split]. apply dead_server; [by split|done|]. cbn. by rewrite lookup_delete_None; auto.
Qed.

(** The connection's session ended, and its [ConnectionManager] opened another
    one by itself, as it does after every kill: from then on a cancel still
    answers Ok and queues a kill of the old id, and whenever that reaches the
    server it ends nothing. *)
Theorem cancel_after_reconnect_kills_nothing (calls : gmap nat call)
    (schedule later : list ((nat * event) + happening)) (s s' : shared) (id : Z) :
  steps_of schedule (start calls) = Some s ->
  r_client_id (k_driver s) = Some id -> sv_sessions (r_world (k_driver s)) !! id = None ->
  let cancelled := on_driver (fun d => snd (redis_cancel_query d)) s in
  steps_of later cancelled = Some s' ->
  fst (redis_cancel_query (k_driver s)) = Ok tt
  /\ r_kills (k_driver cancelled) = r_kills (k_driver s) ++ [id]
  /\ sv_sessions (close id (r_world (k_driver s'))) = sv_sessions (r_world (k_driver s')).
Proof.
  intros Hs Hid Hn cancelled Hl. destruct (cancel_fields (k_driver s)) as (_ & _ & Hw & -> & Hk).
  split; [by rewrite Hid|]. split; [unfold cancelled; cbn; by rewrite Hk, Hid|].
  assert (dead id s') as [_ Hd].
  { apply (follow_keeps step (dead id)) with (schedule := later) (s := cancelled); [|  |done].
    - intros l s1 s2. apply dead_step.
    - split; unfold cancelled; cbn; rewrite Hw; [|done]. by apply (own_client s (own_steps _ _ _ Hs) id). }
  cbn. by apply delete_id.
Qed.

(** ** Concrete runs *)

Definition redis_example_calls : gmap nat call :=
  {[0 := Connects; 1 := Asks [new_cmd "PING"]; 2 := Cancels]}.
#[local] Abbreviation after_steps schedule calls := (default (start ∅) (steps_of schedule (start calls))).
(** A connect that gets the client id 7, and another client. *)
Definition to_connected : list ((nat * event) + happening) :=
  [inl (0, Gets 7); inl (0, Gets 7); inl (0, Goes true); inl (0, Goes true); inr (Stranger 8)].
(** The cancel of a call that is dropped, and the connection opened again. *)
Definition to_reopened : list ((nat * event) + happening) :=
  to_connected ++ [inl (1, Goes true); inl (1, Drops); inl (2, Goes true);
                   inr (Kills true); inr (Reopened 0 9)].

Lemma cancel_after_reconnect_kills_nothing_witness :
  let s := after_steps to_reopened redis_example_calls in
  sv_sessions (r_world (k_driver s)) !! 9%Z = Some (Some 0)
  /\ fst (redis_cancel_query (k_driver s)) = Ok tt
  /\ r_kills (snd (redis_cancel_query (k_driver s))) = [7%Z].
Proof.
  intros s. split; [by vm_compute|].
  destruct (cancel_after_reconnect_kills_nothing redis_example_calls to_reopened [] s
    (on_driver (fun d => snd (redis_cancel_query d)) s) 7
    ltac:(by vm_compute) ltac:(by vm_compute) ltac:(by vm_compute) eq_refl) as (Hok & Hk & _).
  split; [exact Hok|]. transitivity (r_kills (k_driver s) ++ [7%Z]); [exact Hk|by vm_compute].
Defined.

(** Two connects, one overtaking the other between its two writes: the driver
    uses the second connection and cancels the first. *)
Example overtaken :
  let s := after_steps [inl (0, Gets 7); inl (0, Gets 7); inl (1, Gets 8); inl (1, Gets 8);
                        inl (0, Goes true); inl (1, Goes true); inl (1, Goes true); inl (0, Goes true)]
             {[0 := Connects; 1 := Connects]} in
  r_connection (k_driver s) = Some 1 /\ r_client_id (k_driver s) = Some 7%Z /\ k_raced s = true.
Proof. by vm_compute. Qed.
(** A [disconnect] that overtakes a [connect]: no connection, but a client id
    to kill, which [cancel_query] answers Ok for. *)
Example cancels_after_disconnect :
  let s := after_steps [inl (0, Gets 7); inl (0, Gets 7); inl (0, Goes true); inl (1, Goes true);
                        inl (1, Goes true); inl (0, Goes true)] {[0 := Connects; 1 := Disconnects]} in
  r_connection (k_driver s) = None /\ fst (redis_cancel_query (k_driver s)) = Ok tt.
Proof. by vm_compute. Qed.
