(* ===== verification/ClickHouseText.v ===== *)
(** * ClickHouse's texts (crates/driver-clickhouse: ident.rs, params.rs,
    tsv.rs, statement.rs, jsonl.rs)

    Quoting, the rewriting of placeholders, the two response formats and the
    statement heuristic, all pure.  [serde_json] and [char::is_alphanumeric]
    are parameters. *)
From S2P Require Import Prelude RustStr Core Json.

(** ** ident.rs *)

Definition quote_ident (name : string) : string := backtick +:+ double_char backtick name +:+ backtick.
Definition quote_literal (value : string) : string := squote +:+ double_char squote value +:+ squote.

(** ** params.rs *)

Inductive lexer := Outside | InSingleQuote | InBacktick.

Definition prepend (s : string) (o : string * nat) : string * nat := (s +:+ fst o, snd o).
Definition placeholder (n : nat) : string := "unhex({p" +:+ pretty n +:+ ":String})".

(** The [while let] loop of [rewrite_question_marks]: the flags
    [in_single_quote] and [in_backtick], never both set, are the state; the
    text written and the final [placeholder_count] are the result. *)
Fixpoint rewrite_loop (st : lexer) (placeholder_count : nat) (cs : list string) : string * nat :=
  match cs with
  | [] => (EmptyString, placeholder_count)
  | ch :: cs =>
      match st with
      | InSingleQuote =>
          if decide (ch = backslash) then
            match cs with
            | escaped :: cs => prepend (ch +:+ escaped) (rewrite_loop InSingleQuote placeholder_count cs)
            | [] => prepend ch (EmptyString, placeholder_count)
            end
          else if decide (ch = squote) then
            match cs with
            | c :: cs' =>
                if decide (c = squote)
                then prepend (ch +:+ c) (rewrite_loop InSingleQuote placeholder_count cs')
                else prepend ch (rewrite_loop Outside placeholder_count cs)
            | [] => prepend ch (EmptyString, placeholder_count)
            end
          else prepend ch (rewrite_loop InSingleQuote placeholder_count cs)
      | InBacktick =>
          if decide (ch = backtick) then
            match cs with
            | c :: cs' =>
                if decide (c = backtick)
                then prepend (ch +:+ c) (rewrite_loop InBacktick placeholder_count cs')
                else prepend ch (rewrite_loop Outside placeholder_count cs)
            | [] => prepend ch (EmptyString, placeholder_count)
            end
          else prepend ch (rewrite_loop InBacktick placeholder_count cs)
      | Outside =>
          if decide (ch = squote) then prepend ch (rewrite_loop InSingleQuote placeholder_count cs)
          else if decide (ch = backtick) then prepend ch (rewrite_loop InBacktick placeholder_count cs)
          else if decide (ch = "?") then
            prepend (placeholder (S placeholder_count)) (rewrite_loop Outside (S placeholder_count) cs)
          else prepend ch (rewrite_loop Outside placeholder_count cs)
      end
  end.
Definition rewrite_question_marks (sql : string) : string * nat := rewrite_loop Outside 0 (chars sql).

Definition to_hex (bytes : list byte) : string := hex_bytes bytes.

Definition NULL_PARAMETER : DriverError := DriverError_new Query
  "binding a NULL parameter is not supported yet: ClickHouse HTTP named parameters are typed (this driver types every placeholder as `String`), and making a placeholder correctly Nullable requires type information this driver does not have".
Definition param_query_pair (index : nat) (value : CellValue) : DriverResult (string * string) :=
  let key := "param_p" +:+ pretty (index + 1) in
  match value with
  | Text text => Ok (key, to_hex (as_bytes text))
  | Bytes bytes => Ok (key, to_hex bytes)
  | Null => Err NULL_PARAMETER
  end.
Definition build_param_query_pairs (values : list CellValue) : DriverResult (list (string * string)) :=
  collect (imap param_query_pair values).

(** ** tsv.rs *)

Definition unescape_char (c : string) : string :=
  if decide (c = "t") then tab
  else if decide (c = "n") then newline
  else if decide (c = "r") then cr
  else if decide (c = "0") then ascii_char 0
  else if decide (c = "b") then ascii_char 8
  else if decide (c = "f") then ascii_char 12
  else if decide (c = "a") then ascii_char 7
  else if decide (c = "v") then ascii_char 11
  else if decide (c = backslash) then backslash
  else if decide (c = squote) then squote
  else c.
Fixpoint unescape_chars (cs : list string) : string :=
  match cs with
  | [] => EmptyString
  | ch :: cs =>
      if decide (ch = backslash) then
        match cs with
        | c :: cs => unescape_char c +:+ unescape_chars cs
        | [] => backslash
        end
      else ch +:+ unescape_chars cs
  end.
Definition unescape_text (input : string) : string := unescape_chars (chars input).

Definition parse_data_cell (raw : string) : CellValue :=
  if decide (raw = backslash +:+ "N") then Null else Text (unescape_text raw).

Definition NL : ascii := "010"%char.
Definition TAB : ascii := "009"%char.

(** [body.split('\n')] without a last empty piece. *)
Definition split_lines (body : string) : list string :=
  let lines := split_on NL body in
  if decide (last lines = Some EmptyString) then removelast lines else lines.

Definition header_mismatch : DriverError := DriverError_new Protocol
  "TabSeparatedWithNamesAndTypes header had a mismatched number of names and types".
Definition header_cells (line : string) : list string := unescape_text <$> split_on TAB line.

Definition parse_header (body : string) : DriverResult (list string * list string) :=
  let lines := split_lines body in
  let columns := header_cells (default EmptyString (lines !! 0)) in
  let column_type_names := header_cells (default EmptyString (lines !! 1)) in
  if decide (length columns = length column_type_names) then Ok (columns, column_type_names)
  else Err header_mismatch.

Definition parse_full (body : string)
  : DriverResult (list string * list string * list (list CellValue)) :=
  if is_empty body then Ok ([], [], [])
  else
    match split_lines body with
    | names_line :: types_line :: lines =>
        let columns := header_cells names_line in
        let column_type_names := header_cells types_line in
        if decide (length columns = length column_type_names) then
          Ok (columns, column_type_names,
              (fun line => parse_data_cell <$> split_on TAB line) <$> lines)
        else Err header_mismatch
    | _ => Err (DriverError_new Protocol
             "TabSeparatedWithNamesAndTypes response was missing its header lines")
    end.

(** ** statement.rs *)

Definition ROW_RETURNING_KEYWORDS : list string :=
  ["SELECT"; "WITH"; "SHOW"; "DESCRIBE"; "DESC"; "EXPLAIN"].

(** The [loop]; every turn that does not return shortens the text. *)
Fixpoint skip_loop (fuel : nat) (rest : string) : string :=
  match fuel with
  | O => trim_start rest
  | S fuel =>
      let trimmed := trim_start rest in
      match strip_prefix "--" trimmed with
      | Some after_marker =>
          skip_loop fuel (match split_once NL after_marker with Some (_, r) => r | None => EmptyString end)
      | None =>
          match strip_prefix "/*" trimmed with
          | Some after_marker =>
              skip_loop fuel (match split_at_str "*/" after_marker with
                              | Some (_, r) => r | None => EmptyString end)
          | None => trimmed
          end
      end
  end.
Definition skip_whitespace_and_comments (sql : string) : string := skip_loop (String.length sql) sql.

Section texts.
(** [char::is_alphanumeric]; [serde_json::from_str], its error as text, and
    the printer. *)
Context (is_alphanumeric : string -> bool)
  (from_str : string -> result string Value) (to_string : Value -> string).

Definition starts_with_keyword (text keyword : string) : bool :=
  (String.length keyword <=? String.length text)
  && bool_decide (to_ascii_lowercase (String.substring 0 (String.length keyword) text)
                  = to_ascii_lowercase keyword)
  && match chars (String.substring (String.length keyword) (String.length text) text) with
     | [] => true
     | next :: _ => negb (is_alphanumeric next || bool_decide (next = "_"))
     end.
Definition is_row_returning_statement (sql : string) : bool :=
  let rest := skip_whitespace_and_comments sql in
  existsb (starts_with_keyword rest) ROW_RETURNING_KEYWORDS.

(** ** jsonl.rs *)

Definition json_value_to_cell (value : option Value) : CellValue :=
  match value with
  | None | Some JNull => Null
  | Some (JString text) => Text text
  | Some other => Text (to_string other)
  end.
Definition parse_row (line : string) (columns : list string) : DriverResult (list CellValue) :=
  parsed ← map_err (fun err => DriverError_new Protocol
             ("failed to parse a JSONEachRow line: " +:+ err)) (from_str line);
  object ← ok_or (DriverError_new Protocol "a JSONEachRow line was not a JSON object")
             (as_object parsed);
  Ok ((fun column => json_value_to_cell (obj_get column object)) <$> columns).
End texts.

Example rewrite_example :
  rewrite_question_marks "SELECT '?''\'?', `?` WHERE a = ? AND b = ?"
  = ("SELECT '?''\'?', `?` WHERE a = unhex({p1:String}) AND b = unhex({p2:String})", 2).
Proof. by vm_compute. Qed.
Example skip_example :
  skip_whitespace_and_comments (" -- c" +:+ newline +:+ "/* x */ select 1") = "select 1".
Proof. by vm_compute. Qed.

(** ** Quoting *)

Lemma is_char_quote q : q = backtick \/ q = squote -> is_char q.
Proof. intros [-> | ->]; by split; vm_compute. Qed.

Lemma prepend_app s t o : prepend s (prepend t o) = prepend (s +:+ t) o.
Proof. unfold prepend. cbn. by rewrite str_app_assoc. Qed.

(** The state a quote opens, and what it takes for the text inside to stay
    inside: in a literal a backslash would escape what follows it. *)
Definition quote_state (q : string) : lexer := if decide (q = squote) then InSingleQuote else InBacktick.
Definition stays_inside (q : string) (cs : list string) : Prop := q = squote -> backslash ∉ cs.

Lemma quote_state_backtick : quote_state backtick = InBacktick.
Proof. done. Qed.
Lemma quote_state_squote : quote_state squote = InSingleQuote.
Proof. done. Qed.

Lemma rewrite_open q n cs : q = backtick \/ q = squote ->
  rewrite_loop Outside n (q :: cs) = prepend q (rewrite_loop (quote_state q) n cs).
Proof. by intros [-> | ->]. Qed.
Lemma rewrite_doubled q n cs : q = backtick \/ q = squote ->
  rewrite_loop (quote_state q) n (q :: q :: cs) = prepend (q +:+ q) (rewrite_loop (quote_state q) n cs).
Proof. by intros [-> | ->]. Qed.
Lemma rewrite_close q n cs : q = backtick \/ q = squote -> head cs <> Some q ->
  rewrite_loop (quote_state q) n (q :: cs) = prepend q (rewrite_loop Outside n cs).
Proof.
  intros Hq Hcs. destruct cs as [|c cs]; [by destruct Hq as [-> | ->]|].
  assert (c <> q) as Hc by (cbn in Hcs; congruence).
  destruct Hq as [-> | ->]; rewrite ?quote_state_backtick, ?quote_state_squote; cbn [rewrite_loop].
  - rewrite (decide_True (P := backtick = backtick)) by done. by rewrite decide_False.
  - rewrite (decide_False (P := squote = backslash)), (decide_True (P := squote = squote)) by done.
    by rewrite decide_False.
Qed.
Lemma rewrite_char q c n cs : q = backtick \/ q = squote -> c <> q -> (q = squote -> c <> backslash) ->
  rewrite_loop (quote_state q) n (c :: cs) = prepend c (rewrite_loop (quote_state q) n cs).
Proof.
  intros Hq Hc Hb. destruct Hq as [-> | ->]; rewrite ?quote_state_backtick, ?quote_state_squote;
    cbn [rewrite_loop].
  - by rewrite decide_False.
  - rewrite decide_False by auto. by rewrite decide_False.
Qed.

Lemma rewrite_inside q n cs rest :
  q = backtick \/ q = squote -> stays_inside q cs -> head rest <> Some q ->
  let doubled := double_chars q cs in
  rewrite_loop (quote_state q) n (doubled ++ q :: rest)
  = prepend (str_concat doubled +:+ q) (rewrite_loop Outside n rest).
Proof.
  intros Hq Hin Hrest. cbn zeta. unfold double_chars. induction cs as [|c cs IH].
  - cbn [mbind list_bind app str_concat]. by rewrite rewrite_close.
  - assert (stays_inside q cs) as Hcs.
    { intros He. specialize (Hin He). by apply not_elem_of_cons in Hin as [_ ?]. }
    specialize (IH Hcs). cbn [mbind list_bind]. rewrite str_concat_app, <-app_assoc.
    case_decide as Hc.
    + subst c. cbn [app str_concat]. rewrite rewrite_doubled, IH, prepend_app by done.
      by rewrite str_app_nil_r, !str_app_assoc.
    + cbn [app str_concat]. rewrite rewrite_char, IH, prepend_app; [|done|done|].
      * by rewrite str_app_nil_r, !str_app_assoc.
      * intros He ->. specialize (Hin He). by apply not_elem_of_cons in Hin as [? _].
Qed.

Lemma rewrite_quoted q s n rest :
  q = backtick \/ q = squote -> str_ok s -> stays_inside q (chars s) -> head rest <> Some q ->
  rewrite_loop Outside n (chars (q +:+ double_char q s +:+ q) ++ rest)
  = prepend (q +:+ double_char q s +:+ q) (rewrite_loop Outside n rest).
Proof.
  intros Hq Hs Hin Hrest. pose proof (is_char_quote q Hq) as Hc.
  rewrite chars_quoted by (done || by apply double_ok). rewrite chars_double by done. cbn [app]. rewrite rewrite_open by done.
  rewrite <-app_assoc. cbn [app]. rewrite rewrite_inside by done. by rewrite prepend_app.
Qed.

(** A quoted identifier, and a quoted literal whose value has no
    backslash, is one token of the statement it is spliced into: the
    placeholder rewriter copies it unchanged, whatever quotes, semicolons or
    question marks the name contains, and reads what follows as outside it. *)
Theorem quoted_is_one_token (name : string) (n : nat) (rest : list string) :
  str_ok name ->
  (head rest <> Some backtick ->
     rewrite_loop Outside n (chars (quote_ident name) ++ rest)
     = prepend (quote_ident name) (rewrite_loop Outside n rest))
  /\ (head rest <> Some squote -> backslash ∉ chars name ->
     rewrite_loop Outside n (chars (quote_literal name) ++ rest)
     = prepend (quote_literal name) (rewrite_loop Outside n rest)).
Proof.
  intros Hok. split; intros Hrest.
  - apply rewrite_quoted; [by left|done| |done]. by intros [=].
  - intros Hb. apply rewrite_quoted; [by right|done|by intros _|done].
Qed.

Lemma quoted_is_one_token_witness :
  rewrite_question_marks ("DROP DATABASE " +:+ quote_ident "a`; DROP ?" +:+ " -- ?")
  = ("DROP DATABASE `a``; DROP ?` -- unhex({p1:String})", 1)
  /\ rewrite_loop Outside 0 (chars (quote_ident "a`; DROP ?") ++ chars " -- ?")
     = prepend (quote_ident "a`; DROP ?") (rewrite_loop Outside 0 (chars " -- ?")).
Proof.
  split; [by vm_compute|].
  exact (proj1 (quoted_is_one_token "a`; DROP ?" 0 (chars " -- ?") ltac:(reflexivity))
           ltac:(discriminate)).
Defined.

(** A backslash does escape: with one at its end, a quoted literal is not
    closed for the rewriter, and a placeholder after it is not seen. *)
Example literal_backslash :
  rewrite_question_marks (quote_literal backslash +:+ " = ?") = ("'\' = ?", 0).
Proof. by vm_compute. Qed.

(** ** Placeholders *)

(** The statement cut at its placeholders, put together again with the bound
    expressions, numbered from [n + 1]. *)
Fixpoint with_placeholders (n : nat) (pieces : list string) : string :=
  match pieces with
  | [] => EmptyString
  | [p] => p
  | p :: pieces => p +:+ placeholder (S n) +:+ with_placeholders (S n) pieces
  end.

Definition cut_at (n : nat) (s : string) (o : string * nat) : Prop :=
  exists p pieces, s = join "?" (p :: pieces) /\ o = (with_placeholders n (p :: pieces), n + length pieces).

Lemma cut_at_prepend c n s o : cut_at n s o -> cut_at n (c +:+ s) (prepend c o).
Proof.
  intros (p & pieces & -> & ->). exists (c +:+ p), pieces. unfold prepend. cbn [fst snd].
  destruct pieces as [|p' pieces]; [done|]. cbn [join with_placeholders].
  by rewrite !str_app_assoc.
Qed.
Lemma cut_at_placeholder n s o :
  cut_at (S n) s o -> cut_at n ("?" +:+ s) (prepend (placeholder (S n)) o).
Proof.
  intros (p & pieces & -> & ->). exists EmptyString, (p :: pieces). split; [done|].
  unfold prepend. cbn [fst snd length]. by rewrite Nat.add_succ_r.
Qed.
Lemma cut_at_nil n : cut_at n EmptyString (EmptyString, n).
Proof. exists EmptyString, []. by rewrite Nat.add_0_r. Qed.

Lemma rewrite_loop_cuts st n cs : cut_at n (str_concat cs) (rewrite_loop st n cs).
Proof.
  remember (length cs) as k eqn:Hk. revert st n cs Hk.
  induction k as [k IH] using lt_wf_ind; intros st n cs ->.
  destruct cs as [|ch cs]; [apply cut_at_nil|]. cbn [str_concat].
  assert (forall st n, cut_at n (str_concat cs) (rewrite_loop st n cs)) as Hcs
    by (intros; eapply IH; [|done]; cbn; lia).
  assert (forall c cs' st n, cs = c :: cs' ->
            cut_at n (str_concat cs') (rewrite_loop st n cs')) as Hcs'
    by (intros c cs' st' n' ->; eapply IH; [|done]; cbn; lia).
  assert (cut_at n (ch +:+ EmptyString) (prepend ch (EmptyString, n))) as Hend
    by apply cut_at_prepend, cut_at_nil.
  destruct st; cbn [rewrite_loop].
  - repeat case_decide; try (by apply cut_at_prepend, Hcs).
    subst ch. by apply cut_at_placeholder, Hcs.
  - case_decide; [|case_decide; [|by apply cut_at_prepend, Hcs]].
    + destruct cs as [|c cs']; [done|]. cbn [str_concat]. rewrite str_app_assoc.
      by apply cut_at_prepend, (Hcs' c).
    + destruct cs as [|c cs']; [done|]. case_decide.
      * cbn [str_concat]. rewrite str_app_assoc. by apply cut_at_prepend, (Hcs' c).
      * by apply cut_at_prepend, Hcs.
  - case_decide; [|by apply cut_at_prepend, Hcs].
    destruct cs as [|c cs']; [done|]. case_decide.
    + cbn [str_concat]. rewrite str_app_assoc. by apply cut_at_prepend, (Hcs' c).
    + by apply cut_at_prepend, Hcs.
Qed.

(** Rewriting changes nothing but placeholders: for every statement the
    result is the statement cut at some of its question marks, as many as the
    reported count, with the expressions for the parameters 1, 2, ... in
    their place; no value is ever part of it. *)
Theorem rewrite_only_placeholders (sql : string) :
  exists p pieces, sql = join "?" (p :: pieces)
    /\ rewrite_question_marks sql = (with_placeholders 0 (p :: pieces), length pieces).
Proof.
  destruct (rewrite_loop_cuts Outside 0 (chars sql)) as (p & pieces & Hs & Ho).
  rewrite str_concat_chars in Hs. exists p, pieces. by split.
Qed.

(** ** Parameters *)

(** ClickHouse's [unhex] on lower-case digits. *)
Definition hex_value (a : ascii) : option N :=
  let n := N_of_ascii a in
  if (48 <=? n)%N && (n <=? 57)%N then Some (n - 48)%N
  else if (97 <=? n)%N && (n <=? 102)%N then Some (n - 87)%N else None.
Fixpoint unhex (s : string) : option (list byte) :=
  match s with
  | EmptyString => Some []
  | String a (String b s) =>
      x ← hex_value a; y ← hex_value b; c ← Byte.of_N (x * 16 + y); cs ← unhex s; Some (c :: cs)
  | String _ EmptyString => None
  end.
Definition value_bytes (v : CellValue) : option (list byte) :=
  match v with Null => None | Text t => Some (as_bytes t) | Bytes bs => Some bs end.

Lemma unhex_to_hex bs : unhex (to_hex bs) = Some bs.
Proof.
  unfold to_hex, hex_bytes. induction bs as [|b bs IH]; [done|]. cbn [fmap list_fmap str_concat].
  transitivity (cs ← unhex (str_concat (hex_byte <$> bs)); Some (b :: cs)); [|by rewrite IH].
  by destruct b.
Qed.

Lemma param_query_pair_Ok i v p :
  param_query_pair i v = Ok p <->
  exists bs, value_bytes v = Some bs /\ p = ("param_p" +:+ pretty (i + 1), to_hex bs).
Proof. destruct v; cbn; naive_solver. Qed.

Lemma collect_Err {E A} (rs : list (result E A)) e : collect rs = Err e -> exists i, rs !! i = Some (Err e).
Proof.
  induction rs as [|[a|e'] rs IH]; cbn; [done| |].
  - destruct (collect rs) as [xs|e'] eqn:Hc; cbn; [done|]. intros [= ->].
    destruct IH as [i Hi]; [done|]. by exists (S i).
  - intros [= ->]. by exists 0.
Qed.

(** Parameter values travel out of band and whole: the i-th value is sent
    as [param_pi] in a form made of hexadecimal digits that decodes to
    exactly its bytes, tabs, quotes, backslashes and all; a list of values is
    refused exactly when one of them is null. *)
Theorem params_roundtrip (values : list CellValue) :
  match build_param_query_pairs values with
  | Ok ps =>
      length ps = length values
      /\ forall i k h, ps !! i = Some (k, h) ->
           k = "param_p" +:+ pretty (i + 1) /\ exists v bs, values !! i = Some v
           /\ value_bytes v = Some bs /\ unhex h = Some bs
  | Err e => e = NULL_PARAMETER /\ Null ∈ values
  end.
Proof.
  unfold build_param_query_pairs. destruct (collect _) as [ps|e] eqn:Hc.
  - split; [by rewrite (collect_length _ _ Hc), length_imap|].
    apply collect_Ok in Hc. intros i k h Hp.
    assert ((imap param_query_pair values) !! i = Some (Ok (k, h))) as Hi
      by (by rewrite Hc, list_lookup_fmap, Hp).
    rewrite list_lookup_imap in Hi. destruct (values !! i) as [v|] eqn:Hv; [|done].
    injection Hi as (bs & Hbs & [= -> ->])%param_query_pair_Ok.
    split; [done|]. exists v, bs. by rewrite unhex_to_hex.
  - apply collect_Err in Hc as [i Hi]. rewrite list_lookup_imap in Hi.
    destruct (values !! i) as [[| |]|] eqn:Hv; cbn in Hi; try done.
    injection Hi as <-. split; [done|]. by eapply list_elem_of_lookup_2.
Qed.

(** ** The TabSeparated round trip *)

(** ClickHouse's escaping of a value, the printer [parse_full] reads back. *)
Definition escape_char (c : string) : string :=
  if decide (c = tab) then backslash +:+ "t"
  else if decide (c = newline) then backslash +:+ "n"
  else if decide (c = cr) then backslash +:+ "r"
  else if decide (c = ascii_char 0) then backslash +:+ "0"
  else if decide (c = ascii_char 8) then backslash +:+ "b"
  else if decide (c = ascii_char 12) then backslash +:+ "f"
  else if decide (c = backslash) then backslash +:+ backslash
  else if decide (c = squote) then backslash +:+ squote
  else c.
Definition escape_text (s : string) : string := str_concat (escape_char <$> chars s).
Definition print_cell (c : CellValue) : string :=
  match c with Null => backslash +:+ "N" | Text t => escape_text t | Bytes _ => EmptyString end.
Definition print_line (cells : list string) : string := join tab cells +:+ newline.
Definition print_tsv (columns types : list string) (rows : list (list CellValue)) : string :=
  str_concat (print_line <$> ((escape_text <$> columns) :: (escape_text <$> types)
                              :: ((fun row => print_cell <$> row) <$> rows))).

(** What escaping does to one character. *)
Lemma escape_char_cases c : is_char c ->
  (exists a, chars (escape_char c) = [backslash; a] /\ unescape_char a = c)
  \/ (escape_char c = c /\ c <> backslash /\ c <> tab /\ c <> newline).
Proof.
  intros Hc. unfold escape_char.
  repeat (case_decide; [subst c; left; eexists; split; vm_compute; reflexivity|]).
  right. by repeat split.
Qed.

Lemma escape_char_ok c : is_char c -> str_ok (escape_char c).
Proof.
  intros Hc. destruct (escape_char_cases c Hc) as [(a & Ha & _)|(-> & _)]; [|by destruct Hc].
  unfold escape_char in *. repeat (case_decide; [done|]). by destruct Hc.
Qed.

Lemma chars_escape s : str_ok s -> chars (escape_text s) = chars s ≫= (fun c => chars (escape_char c)).
Proof.
  intros Hs. unfold escape_text. pose proof (chars_are_chars s Hs) as Hcs.
  rewrite chars_pieces.
  - by rewrite list_fmap_bind.
  - apply Forall_fmap. eapply Forall_impl; [done|]. apply escape_char_ok.
Qed.

Lemma unescape_escape s : str_ok s -> unescape_text (escape_text s) = s.
Proof.
  intros Hs. unfold unescape_text. rewrite chars_escape by done.
  rewrite <-(str_concat_chars s) at 2. pose proof (chars_are_chars s Hs) as Hcs.
  induction Hcs as [|c cs Hc Hcs IH]; [done|]. cbn [mbind list_bind str_concat].
  destruct (escape_char_cases c Hc) as [(a & -> & Ha)|(-> & Hb & _)].
  - cbn [app unescape_chars]. rewrite decide_True by done. by rewrite IH, Ha.
  - destruct Hc as [-> _]. cbn [app unescape_chars]. rewrite decide_False by done. by rewrite IH.
Qed.

Lemma escape_free a s : a = TAB \/ a = NL -> str_wf s -> str_free a (escape_text s) = true.
Proof.
  intros Ha [Hok Hwf]. apply str_free_concat, Forall_fmap.
  pose proof (chars_are_chars s Hok) as Hcs. apply Forall_forall. intros c Hc.
  rewrite Forall_forall in Hwf, Hcs. specialize (Hwf c Hc). specialize (Hcs c Hc). cbn.
  unfold escape_char. repeat (case_decide; [by destruct Ha as [-> | ->]|]).
  apply utf8_char_free; [by destruct Ha as [-> | ->]|done|by destruct Ha as [-> | ->]].
Qed.

(** The cells a response can carry: text as Rust strings, and null. *)
Definition cell_wf (c : CellValue) : Prop :=
  match c with Text t => str_wf t | Null => True | Bytes _ => False end.
#[local] Instance str_wf_dec s : Decision (str_wf s).
Proof. unfold str_wf, str_ok, utf8_char. apply _. Defined.
#[local] Instance cell_wf_dec c : Decision (cell_wf c).
Proof. destruct c; cbn; apply _. Defined.

Lemma parse_print_cell c : cell_wf c -> parse_data_cell (print_cell c) = c.
Proof.
  destruct c as [|t|]; cbn; [done| |done]. intros [Hok _]. unfold parse_data_cell.
  rewrite decide_False; [by rewrite unescape_escape|].
  intros He. pose proof (unescape_escape t Hok) as Ht. rewrite He in Ht. by subst t.
Qed.

Lemma print_cell_free a c : a = TAB \/ a = NL -> cell_wf c -> str_free a (print_cell c) = true.
Proof.
  intros Ha Hc. destruct c as [|t|]; [by destruct Ha as [-> | ->]|by apply escape_free|done].
Qed.

Lemma split_lines_print ls : Forall (fun l => str_free NL l = true) ls ->
  split_lines (str_concat ((fun l => l +:+ newline) <$> ls)) = ls.
Proof.
  intros Hls. unfold split_lines.
  assert (split_on NL (str_concat ((fun l => l +:+ newline) <$> ls)) = ls ++ [EmptyString]) as ->.
  { induction Hls as [|l ls Hl Hls IH]; [done|]. cbn [fmap list_fmap str_concat].
    rewrite <-str_app_assoc. change (newline +:+ ?s) with (String NL s).
    rewrite split_on_app_free by done. by rewrite IH. }
  rewrite last_snoc, decide_True by done. apply removelast_last.
Qed.

Lemma split_cells ls : ls <> [] -> Forall (fun l => str_free TAB l = true) ls ->
  split_on TAB (join tab ls) = ls.
Proof. exact (split_on_join TAB ls). Qed.

Lemma line_free ls : Forall (fun l => str_free NL l = true) ls -> str_free NL (join tab ls) = true.
Proof. by apply str_free_join. Qed.

Lemma header_cells_print names : names <> [] -> Forall str_wf names ->
  header_cells (join tab (escape_text <$> names)) = names.
Proof.
  intros Hne Hwf. unfold header_cells. rewrite split_cells.
  - rewrite <-list_fmap_compose. clear Hne. induction Hwf as [|x xs [Hx _] Hxs IH]; [done|]. cbn.
    f_equal; [by apply unescape_escape|done].
  - by destruct names.
  - apply Forall_fmap. eapply Forall_impl; [done|]. intros x Hx. apply escape_free; auto.
Qed.

(** C35: reading back a TabSeparatedWithNamesAndTypes response gives what was
    printed: the column names, the type names and every cell, null told apart
    from every text (backslash-N as text included), whatever tabs, newlines,
    quotes and backslashes the values contain. *)
Theorem tsv_roundtrip (columns types : list string) (rows : list (list CellValue)) :
  columns <> [] -> length types = length columns ->
  Forall str_wf columns -> Forall str_wf types ->
  Forall (fun row => row <> [] /\ Forall cell_wf row) rows ->
  parse_full (print_tsv columns types rows) = Ok (columns, types, rows).
Proof.
  intros Hne Hlen Hc Ht Hr. unfold parse_full, print_tsv.
  set (lines := (escape_text <$> columns) :: (escape_text <$> types)
                :: ((fun row => print_cell <$> row) <$> rows)).
  assert (Forall (fun l => str_free NL l = true) (join tab <$> lines)) as Hfree.
  { apply Forall_fmap. subst lines.
    assert (forall xs, Forall str_wf xs -> str_free NL (join tab (escape_text <$> xs)) = true) as Hx.
    { intros xs Hxs. apply line_free, Forall_fmap. eapply Forall_impl; [done|].
      intros x Hwf. apply escape_free; auto. }
    repeat (apply Forall_cons; split); [by apply Hx..|]. apply Forall_fmap.
    eapply Forall_impl; [done|]. intros row [_ Hrow]. cbn. apply line_free, Forall_fmap.
    eapply Forall_impl; [done|]. intros c Hcell. apply print_cell_free; auto. }
  assert (print_line <$> lines = (fun l => l +:+ newline) <$> (join tab <$> lines)) as ->
    by by rewrite <-list_fmap_compose.
  assert (is_empty (str_concat ((fun l => l +:+ newline) <$> (join tab <$> lines))) = false) as ->.
  { subst lines. cbn. by destruct (join tab (escape_text <$> columns)). }
  rewrite split_lines_print by done. subst lines. cbn [fmap list_fmap].
  rewrite !header_cells_print by (done || by destruct types, columns).
  rewrite decide_True by done. do 2 f_equal. rewrite <-!list_fmap_compose.
  clear -Hr. induction Hr as [|row rows [Hrow Hcells] Hrows IH]; [done|]. cbn. f_equal; [|done].
  rewrite split_cells; [|by destruct row|].
  - rewrite <-list_fmap_compose. clear -Hcells.
    induction Hcells as [|c cs Hc Hcs IH]; [done|]. cbn. f_equal; [by apply parse_print_cell|done].
  - apply Forall_fmap. eapply Forall_impl; [done|]. intros c Hcell. apply print_cell_free; auto.
Qed.

Lemma tsv_roundtrip_witness :
  let rows := [[Text ("a" +:+ tab +:+ "b" +:+ newline); Null]; [Text (backslash +:+ "N"); Text "é"]] in
  parse_full (print_tsv ["x"; "y'z"] ["String"; "Nullable(String)"] rows)
  = Ok (["x"; "y'z"], ["String"; "Nullable(String)"], rows).
Proof.
  apply tsv_roundtrip; [done|done|..].
  1, 2: apply (bool_decide_unpack _); by vm_compute.
  apply Forall_forall; intros row Hrow. apply (bool_decide_unpack _).
  repeat (apply elem_of_cons in Hrow as [->|Hrow]; [by vm_compute|]). by apply elem_of_nil in Hrow.
Defined.
