(* ===== verification/ClickHouse.v ===== *)
(** * The ClickHouse driver (crates/driver-clickhouse: tls.rs, error.rs,
    request.rs, query.rs, stream.rs, schema.rs, driver.rs)

    [HttpLib] is reqwest, the file system, the clock and the source of fresh
    uuids over a world [W].  A response's body is the list of chunks the
    network delivers.  The driver's own mutexes and lock are the fields of
    [cstate]; the detached [KILL QUERY] tasks wait in [c_kills]. *)
From S2P Require Import Prelude RustStr Core Json ClickHouseText.

(** ** What the driver uses of its libraries *)

Record HttpRequest := {
  rq_url : string;
  rq_username : string;
  rq_password : option string;
  rq_params : list (string * string);
  rq_body : string;
}.

(** [reqwest::ClientBuilder]: the settings the driver makes. *)
Record ClientBuilder (Cert : Type) := {
  cb_keepalive : Z * Z * Z;
  cb_built_in_root_certs : bool;
  cb_root_certificates : list Cert;
}.
Arguments cb_keepalive {Cert} _. Arguments cb_built_in_root_certs {Cert} _.
Arguments cb_root_certificates {Cert} _. Arguments Build_ClientBuilder {Cert} _ _ _.

Class HttpLib (W Client Cert Response ReqError : Type) := {
  http_post : Client -> HttpRequest -> eff W ReqError Response;
  builder_build : ClientBuilder Cert -> result string Client;
  certificate_from_pem : list byte -> result string Cert;
  response_status : Response -> Z;
  (** The header [x-clickhouse-summary] as text. *)
  response_summary : Response -> option string;
  response_text : Response -> result ReqError string;
  response_chunks : Response -> list (result ReqError (list byte));
  req_is_timeout : ReqError -> bool;
  req_is_connect : ReqError -> bool;
  req_to_string : ReqError -> string;
  fs_read : string -> W -> result string (list byte);
  new_uuid : W -> string * W;
  instant_now : W -> Z;
}.

(** What the text functions take: the printing of a status code, the derived
    [Deserialize] of [ClickHouseSummary] (its [written_rows]), [serde_json]
    and the Unicode tables. *)
Class Texts := {
  status_to_string : Z -> string;
  summary_from_str : string -> option (option string);
  json_from_str : string -> result string Value;
  json_to_string : Value -> string;
  is_alphanumeric : string -> bool;
}.

(** ** schema.rs: reading cells and type names *)

Definition dquoted (s : string) : string := dquote +:+ s +:+ dquote.
Definition missing_column (column : string) : DriverError := DriverError_new Internal
  ("a schema-introspection query result was missing column " +:+ dquoted column).
Definition unexpected_cell_kind (column : string) : DriverError := DriverError_new Internal
  ("column " +:+ dquoted column
   +:+ " in a schema-introspection query result had an unexpected value kind").

Definition cell_text (row : list CellValue) (idx : nat) (column : string) : DriverResult string :=
  match row !! idx with
  | Some (Text text) => Ok text
  | Some Null => Ok EmptyString
  | Some (Bytes _) => Err (unexpected_cell_kind column)
  | None => Err (missing_column column)
  end.
Definition cell_opt_text (row : list CellValue) (idx : nat) (column : string)
  : DriverResult (option string) :=
  match row !! idx with
  | Some (Text text) => Ok (if is_empty text then None else Some text)
  | Some Null => Ok None
  | Some (Bytes _) => Err (unexpected_cell_kind column)
  | None => Err (missing_column column)
  end.
Definition cell_bool (row : list CellValue) (idx : nat) (column : string) : DriverResult bool :=
  text ← cell_text row idx column;
  Ok (bool_decide (text = "1")).
Definition cell_opt_number (parse : string -> option Z) (row : list CellValue) (idx : nat)
    (column : string) : DriverResult (option Z) :=
  text ← cell_opt_text row idx column;
  match text with
  | None => Ok None
  | Some text => Some <$> ok_or (unexpected_cell_kind column) (parse text)
  end.
Definition cell_opt_i64 := cell_opt_number parse_i64.
Definition cell_opt_u64 := cell_opt_number parse_u64.

(** [split_top_level_commas]: the loop over the characters. *)
Fixpoint split_commas (cs : list string) (depth : Z) (parts : list string) (current : string)
  : list string :=
  match cs with
  | [] => if is_empty (trim current) then parts else parts ++ [trim current]
  | ch :: cs =>
      if decide (ch = "(") then split_commas cs (depth + 1) parts (current +:+ ch)
      else if decide (ch = ")") then split_commas cs (depth - 1) parts (current +:+ ch)
      else if decide (ch = "," /\ depth = 0%Z)
      then split_commas cs depth (parts ++ [trim current]) EmptyString
      else split_commas cs depth parts (current +:+ ch)
  end.
Definition split_top_level_commas (input : string) : list string :=
  split_commas (chars input) 0 [] EmptyString.

Definition unwrap_nullable (type_name : string) : string :=
  default type_name (rest ← strip_prefix "Nullable(" type_name; strip_suffix ")" rest).
(** The two loops of [parse_enum_labels]: outside a label ([None]) and inside
    one; a label the text ends in is kept. *)
Fixpoint enum_labels (cs : list string) (label : option string) : list string :=
  match cs, label with
  | [], None => []
  | [], Some label => [label]
  | ch :: cs, None =>
      if decide (ch = squote) then enum_labels cs (Some EmptyString) else enum_labels cs None
  | ch :: cs, Some label =>
      if decide (ch = squote) then label :: enum_labels cs None
      else enum_labels cs (Some (label +:+ ch))
  end.
Definition parse_enum_labels (type_name : string) : option (list string) :=
  let inner := unwrap_nullable type_name in
  rest ← (match strip_prefix "Enum8(" inner with
          | Some rest => Some rest | None => strip_prefix "Enum16(" inner end);
  body ← strip_suffix ")" rest;
  match enum_labels (chars body) None with [] => None | labels => Some labels end.

Definition table_kind_from_engine (engine : string) : TableKind :=
  if decide (engine = "View") then View
  else if decide (engine = "MaterializedView") then MaterializedView else Table.

Definition table_info_from_row (database : string) (row : list CellValue) : DriverResult TableInfo :=
  name ← cell_text row 0 "name";
  engine ← cell_text row 1 "engine";
  comment ← cell_opt_text row 2 "comment";
  row_count_estimate ← cell_opt_i64 row 3 "total_rows";
  Ok {| ti_name := name; ti_schema := Some database; ti_kind := table_kind_from_engine engine;
        ti_comment := comment; ti_row_count_estimate := row_count_estimate |}.
Definition column_from_row (row : list CellValue) : DriverResult ColumnInfo :=
  name ← cell_text row 0 "name";
  data_type ← cell_text row 1 "type";
  default_kind ← cell_text row 2 "default_kind";
  default_expression ← cell_opt_text row 3 "default_expression";
  comment ← cell_opt_text row 4 "comment";
  is_primary_key ← cell_bool row 5 "is_in_primary_key";
  Ok {| col_name := name; col_data_type := data_type;
        col_is_nullable := starts_with "Nullable(" data_type; col_is_primary_key := is_primary_key;
        col_default_value := default_expression; col_extra := None; col_charset := None;
        col_collation := None; col_comment := comment; col_identity_kind := None;
        col_is_generated := bool_decide (default_kind = "MATERIALIZED")
                            || bool_decide (default_kind = "ALIAS");
        col_allowed_values := parse_enum_labels data_type |}.
Definition skip_index_from_row (row : list CellValue) : DriverResult IndexInfo :=
  name ← cell_text row 0 "name";
  index_type ← cell_text row 1 "type";
  expr ← cell_text row 2 "expr";
  Ok {| ix_name := name; ix_columns := [expr]; ix_is_unique := false; ix_is_primary := false;
        ix_method := Some index_type |}.
Definition primary_key_from_row (row : list CellValue) : DriverResult (list IndexInfo) :=
  primary_key ← cell_text row 0 "primary_key";
  Ok (if is_empty (trim primary_key) then []
      else [{| ix_name := "primary_key"; ix_columns := split_top_level_commas primary_key;
               ix_is_unique := false; ix_is_primary := true; ix_method := Some "ORDER BY" |}]).

Section driver.
Context {W Client Cert Response ReqError : Type}.
Context `{!HttpLib W Client Cert Response ReqError} `{!Texts}.
#[local] Abbreviation io := (eff W DriverError).

(** ** tls.rs *)

Definition resolve_scheme (config : ConnectionConfig) : string :=
  match mode (cfg_ssl config) with Some Disabled => "http" | _ => "https" end.
Definition resolve_base_url (config : ConnectionConfig) : string :=
  resolve_scheme config +:+ "://" +:+ cfg_host config +:+ ":" +:+ pretty (cfg_port config).
Definition resolve_username (config : ConnectionConfig) : string :=
  if is_empty (cfg_username config) then "default" else cfg_username config.

Definition build_http_client (config : ConnectionConfig) (w : W) : DriverResult Client :=
  let keepalive := (KEEPALIVE_IDLE, KEEPALIVE_INTERVAL, KEEPALIVE_RETRIES) in
  let plain := Build_ClientBuilder keepalive true [] in
  let fail := DriverError_new Connection in
  builder ← (match mode (cfg_ssl config) with
             | Some VerifyCa =>
                 path ← ok_or (fail "ssl.mode = verify_ca requires ssl.ca_path to be set")
                          (ca_path (cfg_ssl config));
                 pem ← map_err (fun err => fail ("failed to read ssl.ca_path " +:+ path +:+ ": " +:+ err))
                         (fs_read path w);
                 cert ← map_err (fun err => fail ("ssl.ca_path did not contain a valid PEM certificate: " +:+ err))
                          (certificate_from_pem pem);
                 Ok (Build_ClientBuilder keepalive false [cert])
             | _ => Ok plain
             end : DriverResult (ClientBuilder Cert));
  map_err (fun err => fail ("failed to build the ClickHouse HTTP client: " +:+ err))
    (builder_build builder).

(** ** error.rs *)

Definition map_reqwest_error (err : ReqError) : DriverError :=
  DriverError_new (if req_is_timeout err then Timeout
                   else if req_is_connect err then Connection else Protocol) (req_to_string err).
Definition extract_exception_code (body : string) : option string :=
  rest ← strip_prefix "Code: " (trim body);
  let digits := str_take_while is_ascii_digit rest in
  if is_empty digits then None else Some digits.
Definition map_http_error (status : Z) (body : string) : DriverError :=
  let kind := if (status =? 401)%Z || (status =? 403)%Z then Auth else Query in
  let message := if is_empty (trim body)
                 then "ClickHouse request failed with HTTP status " +:+ status_to_string status
                 else trim body in
  let error := DriverError_new kind message in
  match extract_exception_code body with Some code => with_code code error | None => error end.

(** ** request.rs *)

Record ConnectedClient := { cc_client : Client; cc_base_url : string }.
Record CancelContext := {
  cx_client : Client; cx_base_url : string; cx_username : string; cx_password : option string }.

Definition written_rows (summary : option string) : option Z := s ← summary; parse_u64 s.
Definition extract_summary (response : Response) : option (option string) :=
  text ← response_summary response; summary_from_str text.

Definition send (client : Client) (base_url username : string) (password : option string)
    (body : string) (params : list (string * string)) : io Response :=
  response ← eff_map_err map_reqwest_error (http_post client
    {| rq_url := base_url +:+ "/"; rq_username := username; rq_password := password;
       rq_params := params; rq_body := body |});
  let status := response_status response in
  if (200 <=? status)%Z && (status <? 300)%Z then mret response
  else throw (map_http_error status (default EmptyString (result_ok (response_text response)))).

(** ** The driver's state (driver.rs) *)

Record cstate := {
  c_world : W;
  c_client : option ConnectedClient;
  c_current_database : string;
  c_server_version : option string;
  c_active_query_id : option string;
  c_query_timeout_seconds : option Z;
  c_cancel_context : option CancelContext;
  c_kills : list (CancelContext * string);
}.
#[local] Abbreviation C := (eff cstate DriverError).

Definition ClickHouseDriver_new (w : W) : cstate :=
  {| c_world := w; c_client := None; c_current_database := "default"; c_server_version := None;
     c_active_query_id := None; c_query_timeout_seconds := None; c_cancel_context := None;
     c_kills := [] |}.
Definition set_world (w : W) (s : cstate) : cstate :=
  {| c_world := w; c_client := c_client s; c_current_database := c_current_database s;
     c_server_version := c_server_version s; c_active_query_id := c_active_query_id s;
     c_query_timeout_seconds := c_query_timeout_seconds s; c_cancel_context := c_cancel_context s;
     c_kills := c_kills s |}.
Definition set_active (q : option string) (s : cstate) : cstate :=
  {| c_world := c_world s; c_client := c_client s; c_current_database := c_current_database s;
     c_server_version := c_server_version s; c_active_query_id := q;
     c_query_timeout_seconds := c_query_timeout_seconds s; c_cancel_context := c_cancel_context s;
     c_kills := c_kills s |}.
Definition set_current_database (db : string) (s : cstate) : cstate :=
  {| c_world := c_world s; c_client := c_client s; c_current_database := db;
     c_server_version := c_server_version s; c_active_query_id := c_active_query_id s;
     c_query_timeout_seconds := c_query_timeout_seconds s; c_cancel_context := c_cancel_context s;
     c_kills := c_kills s |}.
Definition on_http {A} (m : io A) : C A := fun s =>
  let '(r, w) := m (c_world s) in (r, set_world w s).

Definition clear_active_query_id (query_id : string) (s : cstate) : cstate :=
  if decide (c_active_query_id s = Some query_id) then set_active None s else s.
(** The scope of an [ActiveQueryGuard]: its drop runs on every exit. *)
Definition guarded {A} (query_id : string) (m : C A) : C A := fun s =>
  let '(r, s) := m s in (r, clear_active_query_id query_id s).

Definition not_connected_error : DriverError := DriverError_new Connection "not connected".
Definition unsupported_transactions_error : DriverError := DriverError_new Query
  "ClickHouse does not reliably support multi-statement ACID transactions; this driver does not send BEGIN/COMMIT/ROLLBACK".

Section config.
Context (config : ConnectionConfig).

Definition request_params (query_id : string) (extra_params : list (string * string)) (s : cstate)
  : list (string * string) :=
  [("database", c_current_database s); ("query_id", query_id)]
  ++ (match c_query_timeout_seconds s with
      | Some seconds => [("max_execution_time", pretty seconds)] | None => [] end)
  ++ (if cfg_read_only config then [("readonly", "1")] else [])
  ++ extra_params.

(** The response, with the id of the guard that comes with it. *)
Definition send_request (connected : ConnectedClient) (body : string)
    (extra_params : list (string * string)) : C (Response * string) :=
  query_id ← (fun s => let '(id, w) := new_uuid (c_world s) in (Ok id, set_world w s)) : C string;
  _ ← modify (set_active (Some query_id));
  params ← gets (request_params query_id extra_params);
  response ← attempt (on_http (send (cc_client connected) (cc_base_url connected)
                                 (resolve_username config) (cfg_password config) body params));
  match response with
  | Ok response => mret (response, query_id)
  | Err err => _ ← modify (clear_active_query_id query_id); throw err
  end.

(** ** query.rs *)

Definition tsv_format_params : list (string * string) :=
  [("default_format", "TabSeparatedWithNamesAndTypes"); ("wait_end_of_query", "1")].
Definition parameter_count_mismatch (expected actual : nat) : DriverError :=
  DriverError_new Query ("query has " +:+ pretty expected +:+ " `?` placeholder(s) but "
                         +:+ pretty actual +:+ " parameter(s) were supplied").

Record TsvOutcome := {
  to_columns : list string;
  to_column_type_names : list string;
  to_rows : list (list CellValue);
  to_written_rows : option Z;
}.

(** [response.text().await] *)
Definition read_text (response : Response) : C string :=
  lift (map_err map_reqwest_error (response_text response)).

Definition send_tsv (connected : ConnectedClient) (sql : string) (params : list (string * string))
  : C TsvOutcome :=
  '(response, guard) ← send_request connected sql params;
  guarded guard (
    body ← read_text response;
    '(columns, types, rows) ← lift (parse_full body);
    mret {| to_columns := columns; to_column_type_names := types; to_rows := rows;
            to_written_rows := summary ← extract_summary response; written_rows summary |}).
Definition run_tsv (connected : ConnectedClient) (sql : string) : C TsvOutcome :=
  send_tsv connected sql tsv_format_params.

(** The rewriting both parameterized paths start with. *)
Definition bind_parameters (sql : string) (parameters : list CellValue)
  : DriverResult (string * list (string * string)) :=
  let '(rewritten_sql, placeholder_count) := rewrite_question_marks sql in
  if decide (placeholder_count = length parameters) then
    pairs ← build_param_query_pairs parameters;
    Ok (rewritten_sql, pairs)
  else Err (parameter_count_mismatch placeholder_count (length parameters)).
Definition run_tsv_parameterized (connected : ConnectedClient) (sql : string)
    (parameters : list CellValue) : C TsvOutcome :=
  '(rewritten_sql, pairs) ← lift (bind_parameters sql parameters);
  send_tsv connected rewritten_sql (tsv_format_params ++ pairs).

Definition rows_affected_from (columns : list string) (rows : list (list CellValue))
    (written : option Z) : Z :=
  match columns, rows with
  | [], [] => default 0%Z written
  | _, _ => Z.of_nat (length rows)
  end.
(** The result of a buffered query; [kept] and [is_truncated] are what the
    cap left of its rows. *)
Definition tsv_result (outcome : TsvOutcome) (kept : list (list CellValue)) (truncated : bool)
    (elapsed : Z) : QueryResult :=
  {| columns := to_columns outcome; column_type_names := to_column_type_names outcome; rows := kept;
     rows_affected := rows_affected_from (to_columns outcome) kept (to_written_rows outcome);
     execution_time := elapsed; is_truncated := truncated; status_message := None;
     column_meta := None |}.
Definition elapsed_since (started : Z) : C Z :=
  gets (fun s => saturating_sub (instant_now (c_world s)) started).
Definition started_now : C Z := gets (fun s => instant_now (c_world s)).

Definition ch_execute (connected : ConnectedClient) (sql : string) : C QueryResult :=
  started ← started_now;
  outcome ← run_tsv connected sql;
  elapsed ← elapsed_since started;
  mret (tsv_result outcome (to_rows outcome) false elapsed).
Definition ch_execute_parameterized (connected : ConnectedClient) (sql : string)
    (parameters : list CellValue) : C QueryResult :=
  started ← started_now;
  outcome ← run_tsv_parameterized connected sql parameters;
  elapsed ← elapsed_since started;
  mret (tsv_result outcome (to_rows outcome) false elapsed).

Definition fetch_probe_header (connected : ConnectedClient) (sql : string)
    (extra_params : list (string * string)) : C StreamHeader :=
  '(response, guard) ← send_request connected
    ("SELECT * FROM (" +:+ sql +:+ ") LIMIT 0 FORMAT TabSeparatedWithNamesAndTypes") extra_params;
  guarded guard (
    body ← read_text response;
    '(columns, types) ← lift (parse_header body);
    mret {| sh_columns := columns; sh_column_type_names := types |}).

(** *** The capped paths of [execute_user_query] *)

Definition capped_buffered (connected : ConnectedClient) (sql : string) (row_cap : option Z)
    (parameters : option (list CellValue)) : C QueryResult :=
  started ← started_now;
  let cap := clamp_row_cap row_cap in
  outcome ← (match parameters with
             | Some values => run_tsv_parameterized connected sql values
             | None => run_tsv connected sql
             end);
  let is_truncated := (cap <? Z.of_nat (length (to_rows outcome)))%Z in
  let kept := if is_truncated then take (Z.to_nat cap) (to_rows outcome) else to_rows outcome in
  elapsed ← elapsed_since started;
  mret (tsv_result outcome kept is_truncated elapsed).

Definition parse_json_row : string -> list string -> DriverResult (list CellValue) :=
  parse_row json_from_str json_to_string.
Definition is_blank (line : string) : bool := is_empty (trim line).

(** The inner [while let]: the complete lines of the buffer, until the cap is
    reached ([true]); every turn shortens the buffer. *)
Fixpoint drain_lines (fuel : nat) (names : list string) (cap : Z) (buffer : string)
    (rows : list (list CellValue)) : DriverResult (bool * string * list (list CellValue)) :=
  match fuel with
  | O => Ok (false, buffer, rows)
  | S fuel =>
      match split_once NL buffer with
      | None => Ok (false, buffer, rows)
      | Some (line, buffer) =>
          if is_blank line then drain_lines fuel names cap buffer rows
          else
            row ← parse_json_row line names;
            let rows := rows ++ [row] in
            if (cap <=? Z.of_nat (length rows))%Z then Ok (true, buffer, rows)
            else drain_lines fuel names cap buffer rows
      end
  end.

(** The outer loop over the body's chunks. *)
Fixpoint collect_chunks (names : list string) (cap : Z)
    (chunks : list (result ReqError (list byte))) (buffer : string) (rows : list (list CellValue))
  : DriverResult (bool * string * list (list CellValue)) :=
  match chunks with
  | [] => Ok (false, buffer, rows)
  | chunk :: chunks =>
      bytes ← map_err map_reqwest_error chunk;
      let buffer := buffer +:+ from_utf8_lossy bytes in
      '(is_truncated, buffer, rows) ← drain_lines (String.length buffer) names cap buffer rows;
      if (is_truncated : bool) then Ok (true, buffer, rows)
      else collect_chunks names cap chunks buffer rows
  end.
Definition collect_rows (names : list string) (cap : Z) (chunks : list (result ReqError (list byte)))
  : DriverResult (bool * list (list CellValue)) :=
  '(is_truncated, buffer, rows) ← collect_chunks names cap chunks EmptyString [];
  if negb is_truncated && negb (is_blank buffer) then
    row ← parse_json_row buffer names;
    Ok (is_truncated, rows ++ [row])
  else Ok (is_truncated, rows).

Definition capped_streaming (connected : ConnectedClient) (sql : string) (row_cap : option Z)
    (parameters : option (list CellValue)) : C QueryResult :=
  started ← started_now;
  let cap := clamp_row_cap row_cap in
  '(rewritten_sql, param_pairs) ← lift (match parameters with
                                        | Some values => bind_parameters sql values
                                        | None => Ok (sql, [])
                                        end);
  header ← fetch_probe_header connected rewritten_sql param_pairs;
  '(response, guard) ← send_request connected rewritten_sql
                         (("default_format", "JSONEachRow") :: param_pairs);
  guarded guard (
    '(is_truncated, rows) ← lift (collect_rows (sh_columns header) cap (response_chunks response));
    elapsed ← elapsed_since started;
    mret {| columns := sh_columns header; column_type_names := sh_column_type_names header;
            rows := rows; rows_affected := Z.of_nat (length rows); execution_time := elapsed;
            is_truncated := is_truncated; status_message := None; column_meta := None |}).

Definition execute_user_query_capped (connected : ConnectedClient) (sql : string)
    (row_cap : option Z) (parameters : option (list CellValue)) : C QueryResult :=
  if is_row_returning_statement is_alphanumeric sql
  then capped_streaming connected sql row_cap parameters
  else capped_buffered connected sql row_cap parameters.

(** ** stream.rs *)

Definition JSON_BATCH_SIZE : Z := 5000.
Record scan := { sc_buffer : string; sc_batch : list (list CellValue); sc_total : Z }.

(** The inner loop: what it yields, whether the ceiling ended it, and what
    is left. *)
Fixpoint stream_lines (fuel : nat) (names : list string) (st : scan)
  : list StreamElement * DriverResult (bool * scan) :=
  match fuel with
  | O => ([], Ok (false, st))
  | S fuel =>
      match split_once NL (sc_buffer st) with
      | None => ([], Ok (false, st))
      | Some (line, buffer) =>
          if is_blank line
          then stream_lines fuel names
                 {| sc_buffer := buffer; sc_batch := sc_batch st; sc_total := sc_total st |}
          else
            match parse_json_row line names with
            | Err e => ([], Err e)
            | Ok row =>
                let batch := sc_batch st ++ [row] in
                let total := (sc_total st + 1)%Z in
                let full := (JSON_BATCH_SIZE <=? Z.of_nat (length batch))%Z in
                let st := {| sc_buffer := buffer; sc_batch := if full then [] else batch;
                             sc_total := total |} in
                let yielded := if full then [Rows batch] else [] in
                if (EMERGENCY_MAX <=? total)%Z then (yielded, Ok (true, st))
                else let '(els, r) := stream_lines fuel names st in (yielded ++ els, r)
            end
      end
  end.

(** After the loop: the unterminated last line, then the last batch. *)
Definition stream_end (names : list string) (st : scan) : list StreamElement * DriverResult unit :=
  match (if (sc_total st <? EMERGENCY_MAX)%Z && negb (is_blank (sc_buffer st))
         then row ← parse_json_row (sc_buffer st) names; Ok (sc_batch st ++ [row])
         else Ok (sc_batch st)) with
  | Err e => ([], Err e)
  | Ok [] => ([], Ok tt)
  | Ok batch => ([Rows batch], Ok tt)
  end.

(** The outer loop; [rounds] is how many chunks the consumer waits for. *)
Fixpoint stream_chunks (rounds : nat) (names : list string)
    (chunks : list (result ReqError (list byte))) (st : scan) : StreamOutcome :=
  match rounds with
  | O => ([], None)
  | S rounds =>
      match chunks with
      | [] => let '(els, r) := stream_end names st in (els, Some r)
      | chunk :: chunks =>
          match chunk with
          | Err e => ([], Some (Err (map_reqwest_error e)))
          | Ok bytes =>
              let buffer := sc_buffer st +:+ from_utf8_lossy bytes in
              match stream_lines (String.length buffer) names
                      {| sc_buffer := buffer; sc_batch := sc_batch st; sc_total := sc_total st |} with
              | (els, Err e) => (els, Some (Err e))
              | (els, Ok (true, st)) => let '(els', r) := stream_end names st in (els ++ els', Some r)
              | (els, Ok (false, st)) =>
                  let '(els', o) := stream_chunks rounds names chunks st in (els ++ els', o)
              end
          end
      end
  end.

(** [stream_rows]; the guard of its request lives as long as the stream. *)
Definition ch_stream_rows (sql : string) (rounds : nat) (s : cstate) : StreamOutcome * cstate :=
  match c_client s with
  | None => (([], Some (Err not_connected_error)), s)
  | Some connected =>
      match fetch_probe_header connected sql [] s with
      | (Err e, s) => (([], Some (Err e)), s)
      | (Ok header, s) =>
          match send_request connected sql [("default_format", "JSONEachRow")] s with
          | (Err e, s) => (([Header header], Some (Err e)), s)
          | (Ok (response, guard), s) =>
              let '(els, o) := stream_chunks rounds (sh_columns header) (response_chunks response)
                                 {| sc_buffer := EmptyString; sc_batch := []; sc_total := 0 |} in
              ((Header header :: els, o), clear_active_query_id guard s)
          end
      end
  end.

(** ** schema.rs: the queries *)

(** [run_tsv_parameterized] with text values. *)
Definition lookup (connected : ConnectedClient) (sql : string) (values : list string)
  : C (list (list CellValue)) :=
  outcome ← run_tsv_parameterized connected sql (Text <$> values);
  mret (to_rows outcome).

Definition ch_fetch_databases (connected : ConnectedClient) : C (list string) :=
  outcome ← run_tsv connected "SELECT name FROM system.databases ORDER BY name";
  lift (collect ((fun row => cell_text row 0 "name") <$> to_rows outcome)).
Definition ch_fetch_tables (connected : ConnectedClient) (database : string) : C (list TableInfo) :=
  rows ← lookup connected
    "SELECT name, engine, comment, total_rows FROM system.tables WHERE database = ? ORDER BY name"
    [database];
  lift (collect (table_info_from_row database <$> rows)).
Definition ch_fetch_columns (connected : ConnectedClient) (table database : string)
  : C (list ColumnInfo) :=
  rows ← lookup connected
    "SELECT name, type, default_kind, default_expression, comment, is_in_primary_key FROM system.columns WHERE database = ? AND table = ? ORDER BY position"
    [database; table];
  lift (collect (column_from_row <$> rows)).
Definition ch_fetch_indexes (connected : ConnectedClient) (table database : string)
  : C (list IndexInfo) :=
  primary_rows ← lookup connected
    "SELECT primary_key FROM system.tables WHERE database = ? AND name = ?" [database; table];
  primary ← lift (match primary_rows with row :: _ => primary_key_from_row row | [] => Ok [] end);
  skip_rows ← lookup connected
    "SELECT name, type, expr FROM system.data_skipping_indices WHERE database = ? AND table = ? ORDER BY name"
    [database; table];
  skips ← lift (collect (skip_index_from_row <$> skip_rows));
  mret (primary ++ skips).
Definition ch_fetch_create_query (connected : ConnectedClient) (name database : string) : C string :=
  rows ← lookup connected
    "SELECT create_table_query FROM system.tables WHERE database = ? AND name = ?" [database; name];
  row ← lift (ok_or (DriverError_new Query ("table or view " +:+ dquoted database +:+ "."
                       +:+ dquoted name +:+ " was not found")) (head rows));
  lift (cell_text row 0 "create_table_query").
Definition ch_fetch_table_metadata (connected : ConnectedClient) (table database : string)
  : C TableMetadata :=
  rows ← lookup connected
    "SELECT name, engine, comment, total_rows FROM system.tables WHERE database = ? AND name = ?"
    [database; table];
  row ← lift (ok_or (DriverError_new Query ("table " +:+ dquoted database +:+ "." +:+ dquoted table
                       +:+ " was not found")) (head rows));
  info ← lift (table_info_from_row database row);
  columns ← ch_fetch_columns connected table database;
  indexes ← ch_fetch_indexes connected table database;
  mret {| tm_info := info; tm_columns := columns; tm_indexes := indexes; tm_foreign_keys := [];
          tm_triggers := [] |}.
Definition ch_fetch_database_metadata (connected : ConnectedClient) (database : string)
  : C DatabaseMetadata :=
  size_outcome ← attempt (lookup connected
    "SELECT sum(bytes_on_disk) FROM system.parts WHERE database = ? AND active" [database]);
  let size_bytes := match size_outcome with
                    | Ok (row :: _) =>
                        match cell_opt_u64 row 0 "bytes_on_disk" with Ok n => n | Err _ => None end
                    | Ok [] | Err _ => None
                    end in
  mret {| dm_name := database; dm_schemas := []; dm_size_bytes := size_bytes |}.
Definition validate_database_exists (connected : ConnectedClient) (database : string) : C unit :=
  rows ← lookup connected "SELECT 1 FROM system.databases WHERE name = ?" [database];
  match rows with
  | [] => throw (DriverError_new Query ("database " +:+ dquoted database +:+ " does not exist"))
  | _ => mret tt
  end.
Definition ch_create_database (connected : ConnectedClient) (request : CreateDatabaseRequest) : C unit :=
  _ ← run_tsv connected ("CREATE DATABASE " +:+ quote_ident (cd_name request));
  mret tt.
Definition ch_drop_database (connected : ConnectedClient) (name : string) : C unit :=
  _ ← run_tsv connected ("DROP DATABASE " +:+ quote_ident name);
  mret tt.

(** ** driver.rs *)

(** The end of [connect]: the mutexes are set before it waits for the write
    lock. *)
Definition cache_connection (http_client : Client) (base_url database : string)
    (version : option string) (s : cstate) : cstate :=
  {| c_world := c_world s; c_client := c_client s; c_current_database := database;
     c_server_version := version; c_active_query_id := c_active_query_id s;
     c_query_timeout_seconds := c_query_timeout_seconds s;
     c_cancel_context := Some {| cx_client := http_client; cx_base_url := base_url;
                                 cx_username := resolve_username config;
                                 cx_password := cfg_password config |};
     c_kills := c_kills s |}.
Definition adopt_client (http_client : Client) (base_url : string) (s : cstate) : cstate :=
  {| c_world := c_world s;
     c_client := Some {| cc_client := http_client; cc_base_url := base_url |};
     c_current_database := c_current_database s; c_server_version := c_server_version s;
     c_active_query_id := c_active_query_id s;
     c_query_timeout_seconds := c_query_timeout_seconds s;
     c_cancel_context := c_cancel_context s; c_kills := c_kills s |}.
Definition ch_connect : C unit :=
  let base_url := resolve_base_url config in
  http_client ← (fun s => (build_http_client config (c_world s), s)) : C Client;
  let database := default "default" (cfg_database config) in
  let username := resolve_username config in
  probe_response ← on_http (send http_client base_url username (cfg_password config)
    "SELECT version()" (("database", database) :: tsv_format_params));
  body ← read_text probe_response;
  '(_, _, rows) ← lift (parse_full body);
  let version := row ← head rows; cell ← head row; as_text cell in
  _ ← modify (cache_connection http_client base_url database version);
  modify (adopt_client http_client base_url).
Definition ch_disconnect : C unit :=
  modify (fun s =>
    {| c_world := c_world s; c_client := None; c_current_database := "default";
       c_server_version := None; c_active_query_id := None;
       c_query_timeout_seconds := c_query_timeout_seconds s; c_cancel_context := None;
       c_kills := c_kills s |}).

(** [guard.as_ref().ok_or_else(not_connected_error)?] *)
Definition with_client {A} (f : ConnectedClient -> C A) : C A := fun s =>
  match c_client s with Some connected => f connected s | None => (Err not_connected_error, s) end.
(** The schema argument, or the current database. *)
Definition in_database {A} (schema : option string) (f : ConnectedClient -> string -> C A) : C A :=
  with_client (fun connected s => f connected (default (c_current_database s) schema) s).

Definition ch_cancel_query : C unit :=
  modify (fun s =>
    match c_cancel_context s, c_active_query_id s with
    | Some context, Some query_id =>
        {| c_world := c_world s; c_client := c_client s; c_current_database := c_current_database s;
           c_server_version := c_server_version s; c_active_query_id := c_active_query_id s;
           c_query_timeout_seconds := c_query_timeout_seconds s;
           c_cancel_context := c_cancel_context s; c_kills := c_kills s ++ [(context, query_id)] |}
    | _, _ => s
    end).
(** The detached task [cancel_query] spawns. *)
Definition kill_query (context : CancelContext) (query_id : string) : io Response :=
  send (cx_client context) (cx_base_url context) (cx_username context) (cx_password context)
    ("KILL QUERY WHERE query_id = " +:+ quote_literal query_id +:+ " SYNC") [].
Definition ch_switch_database (database : string) : C unit :=
  with_client (fun connected =>
    _ ← validate_database_exists connected database;
    modify (set_current_database database)).
Definition ch_apply_query_timeout (seconds : Z) : C unit :=
  modify (fun s =>
    {| c_world := c_world s; c_client := c_client s; c_current_database := c_current_database s;
       c_server_version := c_server_version s; c_active_query_id := c_active_query_id s;
       c_query_timeout_seconds := Some seconds; c_cancel_context := c_cancel_context s;
       c_kills := c_kills s |}).

Definition ClickHouseDriver : DatabaseDriver cstate := {|
  connect := ch_connect;
  disconnect := ch_disconnect;
  ping := default_ping (fun sql => with_client (fun connected => ch_execute connected sql));
  execute sql := with_client (fun connected => ch_execute connected sql);
  execute_parameterized sql parameters :=
    with_client (fun connected => ch_execute_parameterized connected sql parameters);
  execute_user_query sql row_cap parameters :=
    with_client (fun connected => execute_user_query_capped connected sql row_cap parameters);
  fetch_tables schema := in_database schema ch_fetch_tables;
  fetch_columns table schema := in_database schema (fun c => ch_fetch_columns c table);
  fetch_indexes table schema := in_database schema (fun c => ch_fetch_indexes c table);
  fetch_foreign_keys table schema := mret [];
  fetch_triggers := default_fetch_triggers;
  fetch_table_ddl table schema := in_database schema (fun c => ch_fetch_create_query c table);
  fetch_view_definition view schema := in_database schema (fun c => ch_fetch_create_query c view);
  fetch_table_metadata table schema := in_database schema (fun c => ch_fetch_table_metadata c table);
  fetch_databases := with_client ch_fetch_databases;
  fetch_database_metadata database :=
    with_client (fun connected => ch_fetch_database_metadata connected database);
  supports_schemas := default_supports_schemas;
  fetch_schemas := default_fetch_schemas;
  switch_schema := default_switch_schema;
  current_schema := default_current_schema;
  supports_transactions := false;
  begin_transaction := throw unsupported_transactions_error;
  commit_transaction := throw unsupported_transactions_error;
  rollback_transaction := throw unsupported_transactions_error;
  cancel_query := ch_cancel_query;
  apply_query_timeout := ch_apply_query_timeout;
  keepalive_posture := Applied;
  server_version := c_server_version;
  parameter_style := QuestionMark;
  create_database request := with_client (fun connected => ch_create_database connected request);
  drop_database name := with_client (fun connected => ch_drop_database connected name);
  switch_database := ch_switch_database;
  stream_rows := ch_stream_rows |}.
End config.

Definition DATABASE_TYPE_ID : string := "ClickHouse".

(** ** The streaming path and the text it reads *)

#[local] Arguments parse_json_row : simpl never.

(** The lines of a text, the blank ones left out, cut at the cap; a cap below
    one acts as one. *)
Definition nonblank (lines : list string) : list string := filter (fun l => is_blank l = false) lines.
Definition capped_lines (names : list string) (cap : Z) (text : string)
  : DriverResult (bool * list (list CellValue)) :=
  let pieces := split_on NL text in
  let complete := nonblank (removelast pieces) in
  let n := Z.max 1 cap in
  if (n <=? Z.of_nat (length complete))%Z then
    rows ← collect ((fun l => parse_json_row l names) <$> take (Z.to_nat n) complete);
    Ok (true, rows)
  else
    rows ← collect ((fun l => parse_json_row l names)
                    <$> complete ++ nonblank (option_list (last pieces)));
    Ok (false, rows).

(** The lines one at a time. *)
Fixpoint take_lines (names : list string) (cap : Z) (lines : list string)
    (rows : list (list CellValue)) : DriverResult (bool * list (list CellValue)) :=
  match lines with
  | [] => Ok (false, rows)
  | line :: lines =>
      if is_blank line then take_lines names cap lines rows
      else
        row ← parse_json_row line names;
        if (cap <=? Z.of_nat (length (rows ++ [row])))%Z then Ok (true, rows ++ [row])
        else take_lines names cap lines (rows ++ [row])
  end.

Lemma take_lines_app names cap l1 l2 rows :
  take_lines names cap (l1 ++ l2) rows
  = match take_lines names cap l1 rows with
    | Ok (false, rows) => take_lines names cap l2 rows
    | o => o
    end.
Proof.
  revert rows. induction l1 as [|l l1 IH]; intros rows; cbn [app take_lines]; [done|].
  destruct (is_blank l); [done|]. destruct (parse_json_row l names) as [row|e]; cbn; [|done].
  by destruct (cap <=? _)%Z.
Qed.

(** What [drain_lines] does to the complete lines of its buffer. *)
Lemma drain_take fuel names cap buffer rows :
  String.length buffer <= fuel ->
  match take_lines names cap (removelast (split_on NL buffer)) rows with
  | Ok (true, rows') => exists b, drain_lines fuel names cap buffer rows = Ok (true, b, rows')
  | Ok (false, rows') =>
      drain_lines fuel names cap buffer rows
      = Ok (false, default EmptyString (last (split_on NL buffer)), rows')
  | Err e => drain_lines fuel names cap buffer rows = Err e
  end.
Proof.
  revert buffer rows. induction fuel as [|fuel IH]; intros buffer rows Hlen.
  { by destruct buffer; [|cbn in Hlen; lia]. }
  cbn [drain_lines]. destruct (split_once NL buffer) as [[line rest]|] eqn:Hs.
  - apply split_once_Some in Hs as [-> Hfree]. rewrite split_on_app_free by done.
    destruct (split_on_cons NL rest) as (l & ls & Hls).
    assert (removelast (line :: split_on NL rest) = line :: removelast (split_on NL rest)) as ->
      by by rewrite Hls.
    assert (last (line :: split_on NL rest) = last (split_on NL rest)) as -> by by rewrite Hls.
    rewrite str_length_app in Hlen. cbn in Hlen. cbn [take_lines].
    destruct (is_blank line); [apply IH; lia|].
    destruct (parse_json_row line names) as [row|e]; cbn; [|done].
    destruct (cap <=? _)%Z; [by eexists|]. apply IH. lia.
  - apply split_once_None in Hs. by rewrite split_on_only.
Qed.

Lemma collect_chunks_take names cap chunks buffer rows :
  let text := buffer +:+ str_concat (from_utf8_lossy <$> chunks) in
  str_free NL buffer = true ->
  match take_lines names cap (removelast (split_on NL text)) rows with
  | Ok (true, rows') => exists b, collect_chunks names cap (Ok <$> chunks) buffer rows = Ok (true, b, rows')
  | Ok (false, rows') =>
      collect_chunks names cap (Ok <$> chunks) buffer rows
      = Ok (false, default EmptyString (last (split_on NL text)), rows')
  | Err e => collect_chunks names cap (Ok <$> chunks) buffer rows = Err e
  end.
Proof.
  cbn zeta. revert buffer rows. induction chunks as [|chunk chunks IH]; intros buffer rows Hfree.
  { cbn. rewrite str_app_nil_r. by rewrite split_on_only. }
  cbn [fmap list_fmap str_concat collect_chunks]. rewrite str_app_assoc.
  cbn [map_err mbind result_bind].
  set (b := buffer +:+ from_utf8_lossy chunk). set (more := str_concat (from_utf8_lossy <$> chunks)) in *.
  rewrite (split_on_app NL b more). pose proof (drain_take (String.length b) names cap b rows (le_n _)) as Hd.
  destruct (split_on_cons NL (default EmptyString (last (split_on NL b)) +:+ more)) as (l & ls & Hls).
  rewrite removelast_app by (rewrite Hls; done). rewrite take_lines_app, last_app, Hls.
  destruct (take_lines names cap (removelast (split_on NL b)) rows) as [[[] rows']|e];
    [destruct Hd as [b' Hd]| |]; rewrite Hd; cbn [mbind result_bind]; [by eexists| |done].
  rewrite <-Hls. specialize (IH (default EmptyString (last (split_on NL b))) rows').
  rewrite Hls in IH |- *. cbn [last] in IH |- *.
  assert (str_free NL (default EmptyString (last (split_on NL b))) = true) as Hlast.
  { pose proof (split_on_free NL b) as Hf. destruct (last (split_on NL b)) as [x|] eqn:Hx; [|done].
    apply last_Some in Hx as [l' Hx]. rewrite Hx in Hf. by apply Forall_app in Hf as [_ [? _]%Forall_cons]. }
  destruct (last_is_Some (l :: ls)) as [_ Hsome]. destruct Hsome as [x Hx]; [done|].
  specialize (IH Hlast). rewrite Hx in IH |- *. exact IH.
Qed.

Lemma take_lines_closed names cap lines rows :
  (Z.of_nat (length rows) < Z.max 1 cap)%Z ->
  let ls := nonblank lines in
  let k := (Z.max 1 cap - Z.of_nat (length rows))%Z in
  let parsed ls := collect ((fun l => parse_json_row l names) <$> ls) in
  take_lines names cap lines rows
  = if (k <=? Z.of_nat (length ls))%Z
    then new ← parsed (take (Z.to_nat k) ls); Ok (true, rows ++ new)
    else new ← parsed ls; Ok (false, rows ++ new).
Proof.
  cbn zeta. revert rows. induction lines as [|l lines IH]; intros rows Hlt; cbn [take_lines].
  { change (nonblank []) with (@nil string).
    destruct (Z.leb_spec (Z.max 1 cap - Z.of_nat (length rows)) (Z.of_nat (length (@nil string))));
      [cbn [length] in *; lia|].
    cbn. by rewrite app_nil_r. }
  unfold nonblank. rewrite filter_cons. case_decide as Hb.
  2: { destruct (is_blank l); [by apply IH|done]. }
  rewrite Hb. fold (nonblank lines). cbn [length fmap list_fmap].
  set (k := (Z.max 1 cap - Z.of_nat (length rows))%Z).
  destruct (parse_json_row l names) as [row|e] eqn:Hp; cbn [mbind result_bind].
  2: { assert (exists m, Z.to_nat k = S m) as [m ->] by (exists (Z.to_nat k - 1); lia).
       case_match; cbn; by rewrite ?Hp. }
  rewrite length_app. cbn [length].
  destruct (Z.leb_spec cap (Z.of_nat (length rows + 1))).
  - assert (Z.to_nat k = 1) as -> by lia.
    destruct (Z.leb_spec k (Z.of_nat (S (length (nonblank lines))))); [|lia].
    cbn. by rewrite ?Hp.
  - rewrite IH by (rewrite length_app; cbn; lia). rewrite length_app. cbn [length].
    replace (Z.max 1 cap - Z.of_nat (length rows + 1))%Z with (k - 1)%Z by lia.
    assert (Z.to_nat k = S (Z.to_nat (k - 1))) as Hk by lia. rewrite Hk. cbn [take fmap list_fmap].
    clear IH.
    destruct (Z.leb_spec (k - 1) (Z.of_nat (length (nonblank lines))));
      destruct (Z.leb_spec k (Z.of_nat (S (length (nonblank lines))))); try lia; cbn; rewrite ?Hp; cbn;
      destruct (collect _) as [new|e]; cbn; rewrite <-?app_assoc; done.
Qed.

Lemma nonblank_singleton l : nonblank [l] = if is_blank l then [] else [l].
Proof. unfold nonblank. rewrite filter_cons, filter_nil. by destruct (is_blank l). Qed.

Lemma collect_rows_lines names cap (chunks : list (list byte)) :
  collect_rows names cap (Ok <$> chunks)
  = capped_lines names cap (str_concat (from_utf8_lossy <$> chunks)).
Proof.
  unfold collect_rows, capped_lines. set (text := str_concat (from_utf8_lossy <$> chunks)).
  pose proof (collect_chunks_take names cap chunks EmptyString [] eq_refl) as Hc.
  cbn [String.append] in Hc. fold text in Hc. rewrite take_lines_closed in Hc by (cbn; lia).
  cbn [length app] in Hc. change (Z.of_nat 0) with 0%Z in Hc. rewrite Z.sub_0_r in Hc.
  destruct (split_on_cons NL text) as (l & ls & Hls).
  destruct (last_is_Some (split_on NL text)) as [_ [tail Htail]]; [by rewrite Hls|].
  rewrite Htail in Hc |- *.
  destruct (Z.max 1 cap <=? _)%Z.
  - destruct (collect _) as [rows|e]; cbn [mbind result_bind] in *; [|by rewrite Hc].
    destruct Hc as [b ->]. done.
  - rewrite fmap_app, collect_app.
    destruct (collect _) as [rows|e]; cbn [mbind result_bind] in *; [|by rewrite Hc].
    rewrite Hc. cbn [mbind result_bind default]. change (option_list (Some tail)) with [tail].
    rewrite nonblank_singleton. cbn [default from_option]. destruct (is_blank tail) eqn:Hb; cbn; rewrite ?Hb.
    + by rewrite app_nil_r.
    + by destruct (parse_json_row tail names).
Qed.



Lemma parse_rows_arity names ls rows :
  collect ((fun l => parse_json_row l names) <$> ls) = Ok rows ->
  length rows = length ls /\ Forall (fun row => length row = length names) rows.
Proof.
  intros Hr. split; [by rewrite (collect_length _ _ Hr), length_fmap|].
  apply collect_Ok in Hr. apply Forall_lookup. intros i row Hrow.
  assert (((fun l => parse_json_row l names) <$> ls) !! i = Some (Ok row)) as Hi
    by (by rewrite Hr, list_lookup_fmap, Hrow).
  rewrite list_lookup_fmap in Hi. destruct (ls !! i) as [l|]; [|done]. injection Hi as Hi.
  unfold parse_json_row, parse_row in Hi.
  destruct (json_from_str l) as [v|]; [|done]; cbn in Hi.
  destruct (as_object v) as [m|]; [|done]; cbn in Hi.
  injection Hi as <-. by rewrite length_fmap.
Qed.

(** Whatever the server streams, the incremental path keeps at most the
    capped number of rows (a cap of zero acting as one), so never more than
    the ceiling, and each has exactly the columns of the header. *)
Theorem streamed_rows_bounded (names : list string) (row_cap : option Z) (chunks : list (list byte))
    (truncated : bool) (rows : list (list CellValue)) :
  collect_rows names (clamp_row_cap row_cap) (Ok <$> chunks) = Ok (truncated, rows) ->
  (Z.of_nat (length rows) <= Z.max 1 (clamp_row_cap row_cap) <= EMERGENCY_MAX)%Z
  /\ Forall (fun row => length row = length names) rows.
Proof.
  rewrite collect_rows_lines. unfold capped_lines.
  set (pieces := split_on NL _). set (n := Z.max 1 (clamp_row_cap row_cap)).
  assert (n <= EMERGENCY_MAX)%Z as Hn.
  { subst n. pose proof (clamp_row_cap_le row_cap). unfold EMERGENCY_MAX in *. lia. }
  destruct (Z.leb_spec n (Z.of_nat (length (nonblank (removelast pieces))))) as [Hle|Hlt];
    destruct (collect _) as [rs|e] eqn:Hc; cbn [mbind result_bind]; try done;
    intros [= <- <-]; apply parse_rows_arity in Hc as [Hlen Har]; (split; [|done]).
  - rewrite length_take in Hlen. lia.
  - rewrite length_app in Hlen.
    assert (length (nonblank (option_list (last pieces))) <= 1).
    { destruct (last pieces) as [l|]; [|cbn; lia]. change (option_list (Some l)) with [l].
      rewrite nonblank_singleton. case_match; cbn; lia. }
    lia.
Qed.
End driver.

(** ** A concrete server *)

(** It answers every request with the same body and remembers it. *)
#[export] Instance echo_lib (body : string)
  : HttpLib (list HttpRequest) unit unit unit unit := {|
  http_post _ r w := (Ok tt, w ++ [r]);
  builder_build _ := Ok tt;
  certificate_from_pem _ := Ok tt;
  response_status _ := 200%Z;
  response_summary _ := None;
  response_text _ := Ok body;
  response_chunks _ := [Ok (as_bytes body)];
  req_is_timeout _ := false; req_is_connect _ := false; req_to_string _ := EmptyString;
  fs_read p _ := Ok (as_bytes p);
  new_uuid w := ("q" +:+ pretty (length w), w);
  instant_now w := Z.of_nat (length w) |}.
#[export] Instance plain_texts : Texts := {|
  status_to_string n := pretty n; summary_from_str _ := None;
  json_from_str s := Ok (JObject [("n", JString s)]); json_to_string _ := EmptyString;
  is_alphanumeric _ := false |}.

Lemma streamed_rows_bounded_witness :
  let chunks := [as_bytes ("a" +:+ newline +:+ "b"); as_bytes ("c" +:+ newline +:+ " " +:+ newline +:+ "d")] in
  collect_rows (HttpLib0 := echo_lib EmptyString) ["n"] (clamp_row_cap (Some 2%Z)) (Ok <$> chunks)
    = Ok (true, [[Text "a"]; [Text "bc"]])
  /\ (2 <= Z.max 1 (clamp_row_cap (Some 2%Z)) <= EMERGENCY_MAX)%Z.
Proof.
  intros chunks.
  assert (collect_rows (HttpLib0 := echo_lib EmptyString) ["n"] (clamp_row_cap (Some 2%Z)) (Ok <$> chunks)
          = Ok (true, [[Text "a"]; [Text "bc"]])) as H by by vm_compute.
  split; [exact H|]. exact (proj1 (streamed_rows_bounded _ _ _ _ _ H)).
Defined.

(** A cap of zero still returns a row, as the theorem says it must. *)
Example zero_cap :
  collect_rows (HttpLib0 := echo_lib EmptyString) ["n"] 0 [Ok (as_bytes ("a" +:+ newline))]
  = Ok (true, [[Text "a"]]).
Proof. by vm_compute. Qed.
(** The two bytes of an accented letter, in one chunk and in two. *)
Example split_character :
  let bytes := as_bytes ("é" +:+ newline) in
  collect_rows (HttpLib0 := echo_lib EmptyString) ["n"] 9 [Ok bytes] = Ok (false, [[Text "é"]])
  /\ collect_rows (HttpLib0 := echo_lib EmptyString) ["n"] 9 [Ok (take 1 bytes); Ok (drop 1 bytes)]
     = Ok (false, [[Text (replacement +:+ replacement)]]).
Proof. by vm_compute. Qed.
