(* ===== verification/ClickHouseGuards.v ===== *)
(** * What the ClickHouse driver sends

    The read-only setting travels with every request a method of the driver
    sends. *)
From S2P Require Import Prelude RustStr Core Json ClickHouseText ClickHouse.

(** A server that remembers the requests it was sent, in order. *)
Class HttpLog (W Client Cert Response ReqError : Type)
    `{HttpLib W Client Cert Response ReqError} := {
  sent : W -> list HttpRequest;
  sent_post c r w : sent (snd (http_post (W := W) c r w)) = sent w ++ [r];
  sent_uuid w : sent (snd (new_uuid w)) = sent w;
}.

Section guards.
Context {W Client Cert Response ReqError : Type}.
Context `{!HttpLib W Client Cert Response ReqError} `{!Texts}.
Context `{!HttpLog W Client Cert Response ReqError}.
Context (config : ConnectionConfig).
#[local] Abbreviation state := (cstate (W := W) (Client := Client)).
#[local] Abbreviation driver := (ClickHouseDriver config).

Definition requests (s : state) : list HttpRequest := sent (c_world s).
Definition readonly_request (r : HttpRequest) : Prop := ("readonly", "1") ∈ rq_params r.
#[local] Abbreviation guardedly := (emits requests readonly_request).

(** *** Every request goes through [send_request] *)

Context (Hro : cfg_read_only config = true).

Lemma clear_requests id s : requests (clear_active_query_id id s) = requests s.
Proof. unfold clear_active_query_id. by case_decide. Qed.

Lemma guardedly_guarded {A} id (m : eff state DriverError A) : guardedly m -> guardedly (guarded id m).
Proof.
  intros Hm s. destruct (Hm s) as (new & Hs & Hnew). exists new. unfold guarded.
  destruct (m s) as [r s']. cbn in *. by rewrite clear_requests.
Qed.

Lemma send_world c url user pw body params w :
  snd (send c url user pw body params w)
  = snd (http_post c {| rq_url := url +:+ "/"; rq_username := user; rq_password := pw;
                        rq_params := params; rq_body := body |} w).
Proof.
  unfold send, eff_map_err. rewrite eff_bind_eq. destruct (http_post c _ w) as [[resp|e] w']; cbn; [|done].
  by destruct ((200 <=? response_status resp)%Z && (response_status resp <? 300)%Z).
Qed.

Lemma guardedly_send_request connected body extra :
  guardedly (send_request config connected body extra).
Proof.
  unfold send_request. apply emits_bind; [|intros id].
  { apply emits_same. intros s. unfold requests. pose proof (sent_uuid (c_world s)).
    destruct (new_uuid (c_world s)). by cbn in *. }
  apply emits_bind; [by apply emits_modify|intros _].
  intros s. unfold gets. rewrite eff_bind_eq.
  set (rq := {| rq_url := cc_base_url connected +:+ "/"; rq_username := resolve_username config;
                rq_password := cfg_password config; rq_params := request_params config id extra s;
                rq_body := body |}).
  exists [rq]. split.
  - unfold attempt, on_http. rewrite eff_bind_eq. cbn [c_world set_active].
    pose proof (send_world (cc_client connected) (cc_base_url connected) (resolve_username config)
      (cfg_password config) body (request_params config id extra s) (c_world s)) as Hsend.
    fold rq in Hsend. destruct (send _ _ _ _ _ _ _) as [r w']. cbn in Hsend. subst w'.
    destruct r as [resp|e]; cbn [snd]; rewrite ?eff_bind_eq; cbn [modify snd throw];
      rewrite ?clear_requests; apply sent_post.
  - apply Forall_singleton. unfold readonly_request, rq, request_params. rewrite Hro. cbn [rq_params].
    set_solver.
Qed.

(** Sequencing, case analysis and the trees of queries, by the database. *)
#[local] Hint Resolve guardedly_guarded guardedly_send_request : dbmcp.
#[local] Ltac sends_step :=
  match goal with
  | |- emits _ _ (let '(_, _) := ?x in _) => destruct x
  | |- emits _ _ (match ?x with _ => _ end) => destruct x
  | |- emits _ _ (_ ≫= _) => apply emits_bind; [|intros]
  | |- emits _ _ (modify _) => apply emits_modify
  | |- emits _ _ _ => solve [auto with dbmcp]
  end.
#[local] Ltac sends_auto := repeat sends_step; auto with dbmcp.

Lemma guardedly_send_tsv connected sql params : guardedly (send_tsv config connected sql params).
Proof. unfold send_tsv. sends_auto. apply guardedly_guarded. unfold read_text. sends_auto. Qed.
Lemma guardedly_probe connected sql params : guardedly (fetch_probe_header config connected sql params).
Proof. unfold fetch_probe_header. sends_auto. apply guardedly_guarded. unfold read_text. sends_auto. Qed.
#[local] Hint Resolve guardedly_send_tsv guardedly_probe : dbmcp.
Lemma guardedly_run_tsv connected sql : guardedly (run_tsv config connected sql).
Proof. apply guardedly_send_tsv. Qed.
Lemma guardedly_run_tsv_parameterized connected sql ps :
  guardedly (run_tsv_parameterized config connected sql ps).
Proof. unfold run_tsv_parameterized. sends_auto. Qed.
#[local] Hint Resolve guardedly_run_tsv guardedly_run_tsv_parameterized : dbmcp.
Lemma guardedly_lookup connected sql values : guardedly (lookup config connected sql values).
Proof. unfold lookup. sends_auto. Qed.
#[local] Hint Resolve guardedly_lookup : dbmcp.
Lemma guardedly_elapsed n : guardedly (elapsed_since n).
Proof. apply emits_gets. Qed.
Lemma guardedly_started : guardedly started_now.
Proof. apply emits_gets. Qed.
#[local] Hint Resolve guardedly_elapsed guardedly_started : dbmcp.
Lemma guardedly_execute connected sql : guardedly (ch_execute config connected sql).
Proof. unfold ch_execute. sends_auto. Qed.
Lemma guardedly_execute_parameterized connected sql ps :
  guardedly (ch_execute_parameterized config connected sql ps).
Proof. unfold ch_execute_parameterized. sends_auto. Qed.
Lemma guardedly_user_query connected sql cap ps :
  guardedly (execute_user_query_capped config connected sql cap ps).
Proof.
  unfold execute_user_query_capped. case_match.
  - unfold capped_streaming. sends_auto. apply guardedly_guarded. sends_auto.
  - unfold capped_buffered. sends_auto.
Qed.

Lemma guardedly_with_client {A} (f : ConnectedClient -> eff state DriverError A) :
  (forall c, guardedly (f c)) -> guardedly (with_client f).
Proof. intros Hf s. unfold with_client. destruct (c_client s); [apply Hf|by apply emits_throw]. Qed.
Lemma guardedly_in_database {A} schema (f : ConnectedClient -> string -> eff state DriverError A) :
  (forall c db, guardedly (f c db)) -> guardedly (in_database schema f).
Proof. intros Hf. apply guardedly_with_client. intros c s. apply Hf. Qed.

Lemma guardedly_columns connected table database :
  guardedly (ch_fetch_columns config connected table database).
Proof. unfold ch_fetch_columns. sends_auto. Qed.
Lemma guardedly_indexes connected table database :
  guardedly (ch_fetch_indexes config connected table database).
Proof. unfold ch_fetch_indexes. sends_auto. Qed.
Lemma guardedly_create_query connected name database :
  guardedly (ch_fetch_create_query config connected name database).
Proof. unfold ch_fetch_create_query. sends_auto. Qed.
#[local] Hint Resolve guardedly_with_client guardedly_in_database guardedly_columns
  guardedly_indexes guardedly_create_query guardedly_execute guardedly_execute_parameterized
  guardedly_user_query : dbmcp.

Lemma stream_requests sql rounds s :
  exists new, requests (snd (ch_stream_rows config sql rounds s)) = requests s ++ new
              /\ Forall readonly_request new.
Proof.
  unfold ch_stream_rows. destruct (c_client s) as [connected|]; [|exists []; by rewrite app_nil_r].
  destruct (guardedly_probe connected sql [] s) as (n1 & H1 & Q1).
  destruct (fetch_probe_header config connected sql [] s) as [[header|e] s1]; cbn in *; [|by eauto].
  destruct (guardedly_send_request connected sql [("default_format", "JSONEachRow")] s1)
    as (n2 & H2 & Q2).
  destruct (send_request config connected sql _ s1) as [[[response id]|e] s2]; cbn in *;
    exists (n1 ++ n2); rewrite app_assoc, <-H1, <-H2; (split; [|by apply Forall_app]); [|done].
  destruct (stream_chunks _ _ _ _) as [els o]. apply clear_requests.
Qed.

Lemma drive_requests o s : o <> OConnect ->
  exists new, requests (drive driver o s) = requests s ++ new /\ Forall readonly_request new.
Proof.
  intros Ho. destruct o; [done|..]; clear Ho; cbn [drive ClickHouseDriver ping execute execute_parameterized execute_user_query
    fetch_tables fetch_columns fetch_indexes fetch_foreign_keys fetch_triggers fetch_table_ddl
    fetch_view_definition fetch_table_metadata fetch_databases fetch_database_metadata
    create_database drop_database switch_database stream_rows apply_query_timeout cancel_query
    disconnect fetch_schemas switch_schema
    begin_transaction commit_transaction rollback_transaction]; try apply stream_requests;
    match goal with |- context [snd (?m s)] =>
      match type of m with eff _ _ _ =>
        let H := fresh in assert (guardedly m) as H; [|exact (H s)] end end.
  all: unfold default_ping, default_fetch_triggers, default_fetch_schemas, default_switch_schema, ch_fetch_tables, ch_fetch_table_metadata,
    ch_fetch_databases, ch_fetch_database_metadata, ch_create_database, ch_drop_database,
    ch_switch_database, validate_database_exists, ch_apply_query_timeout, ch_cancel_query,
    ch_disconnect.
  all: try (apply emits_modify; intros s'; by repeat case_match).
  all: repeat lazymatch goal with
         | |- emits _ _ (with_client _) => apply guardedly_with_client; intros
         | |- emits _ _ (in_database _ _) => apply guardedly_in_database; intros
         | |- _ => sends_step
         end.
  by intros.
Qed.

End guards.

(** ** The concrete server's log *)

#[local] Instance echo_log body : HttpLog (H := echo_lib body) (list HttpRequest) unit unit unit unit.
Proof. by refine {| sent w := w |}. Defined.
Definition ch_config (read_only : bool) : ConnectionConfig :=
  {| cfg_host := "h"; cfg_port := 8443; cfg_username := EmptyString; cfg_password := None;
     cfg_database := None; cfg_ssl := SslConfig_default; cfg_read_only := read_only;
     cfg_additional_fields := ∅ |}.
Definition ch_connected : cstate (W := list HttpRequest) (Client := unit) :=
  {| c_world := []; c_client := Some {| cc_client := tt; cc_base_url := "https://h:8443" |};
     c_current_database := "default"; c_server_version := None; c_active_query_id := None;
     c_query_timeout_seconds := Some 30%Z; c_cancel_context := None; c_kills := [] |}.
Definition ch_body : string := "n" +:+ newline +:+ "String" +:+ newline +:+ "1" +:+ newline.

