(* ===== verification/ClickHouseCalls.v ===== *)
(** * Concurrent calls of one ClickHouse driver, dropped anywhere
    (crates/driver-clickhouse: driver.rs, request.rs, query.rs)

    A driver is shared by the tools of every client.  Its calls are cut here
    at their [.await]s: [turn] is one step of one task, over the driver's own
    state.  A call that asks the server holds the read guard and sends one
    request after the other; each marks the in-flight slot with its query id
    before it is sent, and an [ActiveQueryGuard], which exists once the
    response's headers are there, clears the mark.  A task can be dropped at
    each of its [.await]s: what runs then is only the drop of what it holds. *)
From S2P Require Import Prelude RustStr Tasks Core ClickHouseText ClickHouse.

(** The body and the extra parameters of a request ([send_request]). *)
Definition query : Type := string * list (string * string).

Section calls.
Context {Client : Type} (config : ConnectionConfig).
#[local] Abbreviation driver_state := (cstate (W := list HttpRequest) (Client := Client)).

(** [Asks]: a method that sends the requests of its script under the read
    guard, [switch] being what a [switch_database] sets at its end. *)
Inductive call :=
  | Asks (script : list query) (switch : option string)
  | Connects (to : Client) (version : option string)
  | Disconnects
  | Cancels.

(** [Between] to [Receiving] hold the read guard.  [Marked]: the slot is set,
    the request not sent yet; [Sending]: [send] is awaited; [Receiving]: the
    body is, and the guard of the slot is alive.  [Swapping]: a [connect]
    that waits for the write lock. *)
Inductive phase :=
  | Waiting (c : call)
  | Between (todo : list query) (switch : option string)
  | Marked (id : string) (q : query) (todo : list query) (switch : option string)
  | Sending (id : string) (todo : list query) (switch : option string)
  | Receiving (id : string) (todo : list query) (switch : option string)
  | Swapping (to : Client)
  | Done.

#[export] Instance Done_dec p : Decision (p = Done).
Proof. by refine (match p with Done => left _ | _ => right _ end). Defined.
#[export, refine] Instance phase_guarded : Guarded phase := {|
  writes p := false;
  holds p := match p with Between _ _ | Marked _ _ _ _ | Sending _ _ _ | Receiving _ _ _ => true
                        | _ => false end;
  steps p :=
    match p with
    | Waiting (Asks script _) => 4 * length script + 2
    | Waiting (Connects _ _) => 2
    | Waiting Disconnects | Waiting Cancels => 1
    | Between todo _ => 4 * length todo + 1
    | Marked _ _ todo _ => 4 * length todo + 4
    | Sending _ todo _ => 4 * length todo + 3
    | Receiving _ todo _ => 4 * length todo + 2
    | Swapping _ => 1
    | Done => 0
    end |}.
Proof. done. Defined.

(** The query a phase has marked the slot with. *)
Definition carries (p : phase) : option string :=
  match p with
  | Marked id _ _ _ | Sending id _ _ | Receiving id _ _ => Some id
  | _ => None
  end.

(** The driver and its tasks.  The last three fields only serve the
    statements: the ids [Uuid::new_v4] has given out, the newest mark since
    the last disconnect, and the queries whose call was dropped while it
    waited for the headers. *)
Record shared := {
  k_tasks : gmap nat phase;
  k_driver : driver_state;
  k_used : gset string;
  k_newest : option string;
  k_adrift : gset string;
}.
Definition start (calls : gmap nat call) : shared :=
  {| k_tasks := Waiting <$> calls; k_driver := ClickHouseDriver_new []; k_used := ∅;
     k_newest := None; k_adrift := ∅ |}.

Definition put (i : nat) (p : phase) (s : shared) : shared :=
  {| k_tasks := <[i := p]> (k_tasks s); k_driver := k_driver s; k_used := k_used s;
     k_newest := k_newest s; k_adrift := k_adrift s |}.
Definition on_driver (f : driver_state -> driver_state) (s : shared) : shared :=
  {| k_tasks := k_tasks s; k_driver := f (k_driver s); k_used := k_used s;
     k_newest := k_newest s; k_adrift := k_adrift s |}.
Definition mark (id : string) (s : shared) : shared :=
  {| k_tasks := k_tasks s; k_driver := set_active (Some id) (k_driver s);
     k_used := {[id]} ∪ k_used s; k_newest := Some id; k_adrift := k_adrift s |}.
Definition forget (s : shared) : shared :=
  {| k_tasks := k_tasks s; k_driver := snd (ch_disconnect (k_driver s)); k_used := k_used s;
     k_newest := None; k_adrift := k_adrift s |}.
Definition abandon (id : string) (s : shared) : shared :=
  {| k_tasks := k_tasks s; k_driver := k_driver s; k_used := k_used s;
     k_newest := k_newest s; k_adrift := {[id]} ∪ k_adrift s |}.

(** The request [send_request] makes of a query, on the connected client. *)
Definition tagged (connected : ConnectedClient (Client := Client)) (id : string) (q : query)
    (d : driver_state) : HttpRequest :=
  {| rq_url := cc_base_url connected +:+ "/"; rq_username := resolve_username config;
     rq_password := cfg_password config; rq_params := request_params config id (snd q) d;
     rq_body := fst q |}.
Definition post (id : string) (q : query) (d : driver_state) : driver_state :=
  match c_client d with
  | Some connected => set_world (c_world d ++ [tagged connected id q d]) d
  | None => d
  end.

(** ** Steps *)

(** [Goes]: the task goes on, [ok] being whether what it waited for went
    well; [Takes]: it takes a fresh query id; [Drops]: its future is dropped. *)
Inductive event := Goes (ok : bool) | Takes (id : string) | Drops.

(** [None]: the task is over, waits for the lock, or has no such step. *)
Definition turn (i : nat) (e : event) (s : shared) : option shared :=
  match k_tasks s !! i, e with
  | Some (Waiting (Asks script switch)), Goes _ =>
      if can_read (k_tasks s)
      then Some (put i (match c_client (k_driver s) with
                        | Some _ => Between script switch | None => Done end) s)
      else None
  | Some (Between [] switch), Goes _ =>
      Some (put i Done (on_driver (match switch with
                                   | Some database => set_current_database database
                                   | None => id end) s))
  | Some (Between (q :: todo) switch), Takes id =>
      if decide (id ∈ k_used s) then None else Some (put i (Marked id q todo switch) (mark id s))
  | Some (Marked id q todo switch), Goes _ =>
      Some (put i (Sending id todo switch) (on_driver (post id q) s))
  | Some (Sending id todo switch), Goes ok =>
      Some (if ok then put i (Receiving id todo switch) s
            else put i Done (on_driver (clear_active_query_id id) s))
  | Some (Receiving id todo switch), Goes ok =>
      Some (put i (if ok then Between todo switch else Done) (on_driver (clear_active_query_id id) s))
  | Some (Waiting (Connects to version)), Goes ok =>
      Some (if ok
            then put i (Swapping to)
                   (on_driver (cache_connection config to (resolve_base_url config)
                                 (default "default" (cfg_database config)) version) s)
            else put i Done s)
  | Some (Swapping to), Goes _ =>
      if can_write (k_tasks s)
      then Some (put i Done (on_driver (adopt_client to (resolve_base_url config)) s)) else None
  | Some (Waiting Disconnects), Goes _ =>
      if can_write (k_tasks s) then Some (put i Done (forget s)) else None
  | Some (Waiting Cancels), Goes _ =>
      Some (put i Done (on_driver (fun d => snd (ch_cancel_query d)) s))
  | Some (Waiting _), Drops | Some (Between _ _), Drops | Some (Swapping _), Drops =>
      Some (put i Done s)
  | Some (Sending id _ _), Drops => Some (put i Done (abandon id s))
  | Some (Receiving id _ _), Drops => Some (put i Done (on_driver (clear_active_query_id id) s))
  | _, _ => None
  end.
Definition turns : list (nat * event) -> shared -> option shared := follow (fun '(i, e) => turn i e).

Lemma turns_cons i e more s : turns ((i, e) :: more) s = (s1 ← turn i e s; turns more s1).
Proof. done. Qed.

(** ** The slot *)

(** A query in flight: a call carries it, or was dropped while it waited for
    the headers, so that nothing will clear its mark. *)
Definition in_flight (id : string) (s : shared) : bool :=
  bool_decide (map_Exists (fun _ p => carries p = Some id) (k_tasks s)) || bool_decide (id ∈ k_adrift s).
(** The query [cancel_query] is to name. *)
Definition target (s : shared) : option string :=
  id ← k_newest s; if in_flight id s then Some id else None.

Definition carried (id : string) (ts : gmap nat phase) : Prop :=
  map_Exists (fun _ p => carries p = Some id) ts.

Record inv (s : shared) : Prop := {
  inv_used : forall id, carried id (k_tasks s) \/ id ∈ k_adrift s \/ k_newest s = Some id -> id ∈ k_used s;
  inv_once : forall i j p q id, k_tasks s !! i = Some p -> k_tasks s !! j = Some q ->
    carries p = Some id -> carries q = Some id -> i = j;
  inv_adrift : forall id, carried id (k_tasks s) -> id ∉ k_adrift s;
  inv_connected : forall i p, k_tasks s !! i = Some p -> holds p = true ->
    is_Some (c_client (k_driver s));
  inv_slot : c_active_query_id (k_driver s) = target s;
}.

Lemma in_flight_spec id s : in_flight id s = true <-> carried id (k_tasks s) \/ id ∈ k_adrift s.
Proof. unfold in_flight, carried. by rewrite orb_true_iff, !bool_decide_eq_true. Qed.
Lemma carried_put i p old id ts :
  ts !! i = Some old ->
  carried id (<[i := p]> ts) <->
  carries p = Some id \/ exists j q, j <> i /\ ts !! j = Some q /\ carries q = Some id.
Proof.
  intros Hold. unfold carried, map_Exists. split.
  - intros (j & q & Hj & Hq). rewrite lookup_insert_Some in Hj.
    destruct Hj as [[<- <-]|[Hne Hj]]; [by left|right; eauto].
  - intros [Hp|(j & q & Hne & Hj & Hq)].
    + exists i, p. by rewrite lookup_insert_eq.
    + exists j, q. by rewrite lookup_insert_ne.
Qed.
(** What other tasks carry is not what this one does. *)
Lemma carried_others i old id s :
  inv s -> k_tasks s !! i = Some old ->
  carried id (k_tasks s) <->
  carries old = Some id \/ exists j q, j <> i /\ k_tasks s !! j = Some q /\ carries q = Some id.
Proof. intros Hi Hold. rewrite <-(carried_put i old old id) by done. by rewrite insert_id. Qed.

(** A task that lets go of its query was the only one to carry it. *)
Lemma carried_gone i old p id s :
  inv s -> k_tasks s !! i = Some old -> carries old = Some id -> carries p = None ->
  carried id (k_tasks s)
  /\ forall x, carried x (<[i := p]> (k_tasks s)) <-> carried x (k_tasks s) /\ x <> id.
Proof.
  intros Hi Hold Ho Hp. split; [by exists i, old|]. intros x.
  rewrite (carried_put i p old) by done. rewrite (carried_others i old x s Hi Hold), Hp, Ho. split.
  - intros [?|(j & q & Hne & Hj & Hq)]; [done|]. split; [right; eauto|].
    intros ->. by apply Hne, (inv_once s Hi j i q old id).
  - intros [[[= ->]|?] ?]; [done|by right].
Qed.

Lemma target_same s s' :
  k_newest s' = k_newest s ->
  (forall id, k_newest s = Some id ->
     (carried id (k_tasks s') \/ id ∈ k_adrift s' <-> carried id (k_tasks s) \/ id ∈ k_adrift s)) ->
  target s' = target s.
Proof.
  intros Hn Hf. unfold target. rewrite Hn. destruct (k_newest s) as [id|]; [|done]. cbn.
  specialize (Hf id eq_refl). rewrite <-!in_flight_spec in Hf.
  by apply eq_true_iff_eq in Hf as ->.
Qed.

(** A task goes on with the mark it has, or without one. *)
Lemma slot_move i old p f s :
  inv s -> k_tasks s !! i = Some old -> carries p = carries old ->
  (forall d, c_active_query_id (f d) = c_active_query_id d) ->
  (forall d, is_Some (c_client d) -> is_Some (c_client (f d))) ->
  (holds p = true -> is_Some (c_client (k_driver s))) ->
  inv (put i p (on_driver f s)).
Proof.
  intros Hi Hold Hc Hf Hcl Hp.
  assert (forall id, carried id (<[i := p]> (k_tasks s)) <-> carried id (k_tasks s)) as Hca.
  { intros id. rewrite (carried_put i p old) by done. rewrite (carried_others i old id s Hi Hold). by rewrite Hc. }
  destruct Hi as [H1 H2 H3 H4 H5]. split; cbn [put on_driver k_tasks k_used k_newest k_adrift k_driver].
  - intros id. rewrite Hca. apply H1.
  - intros j k q r id. rewrite !lookup_insert_Some.
    intros [[<- <-]|[? Hj]] [[<- <-]|[? Hk]] Hq Hr; try done; rewrite ?Hc in *; by eapply H2.
  - intros id. rewrite Hca. apply H3.
  - intros j q. rewrite lookup_insert_Some. intros [[<- <-]|[? Hj]] Hq; apply Hcl; [by apply Hp|by eapply H4].
  - rewrite Hf, H5. symmetry. apply target_same; [done|]. intros id _. cbn. by rewrite Hca.
Qed.

Lemma clear_slot id (d : driver_state) :
  c_active_query_id (clear_active_query_id id d)
  = if decide (c_active_query_id d = Some id) then None else c_active_query_id d.
Proof. unfold clear_active_query_id. by case_decide. Qed.
(** A task is over with its query: the guard is dropped, or [send] failed. *)
Lemma slot_clear i old p id s :
  inv s -> k_tasks s !! i = Some old -> carries old = Some id -> carries p = None ->
  (holds p = true -> holds old = true) ->
  inv (put i p (on_driver (clear_active_query_id id) s)).
Proof.
  intros Hi Hold Ho Hp Hh. destruct (carried_gone i old p id s Hi Hold Ho Hp) as [Hid Hca].
  destruct Hi as [H1 H2 H3 H4 H5].
  split; cbn [put on_driver k_tasks k_used k_newest k_adrift k_driver].
  - intros x. rewrite Hca. intros Hx. apply H1. tauto.
  - intros j k q r x. rewrite !lookup_insert_Some.
    intros [[<- <-]|[? Hj]] [[<- <-]|[? Hk]] Hq Hr; try done; [congruence|congruence|by eapply H2].
  - intros x [Hx _]%Hca. by apply H3.
  - intros j q. rewrite lookup_insert_Some. unfold clear_active_query_id.
    intros [[<- <-]|[? Hj]] Hq; case_decide; cbn; solve [by eapply H4|eapply H4; [done|by apply Hh]].
  - rewrite clear_slot, H5. set (s' := put i p _). unfold target.
    change (k_newest s') with (k_newest s). destruct (k_newest s) as [n|]; cbn; [|by case_decide].
    assert (in_flight n s' = true <-> in_flight n s = true /\ (n <> id \/ n ∈ k_adrift s)) as Hf.
    { rewrite !in_flight_spec. unfold s'. cbn. rewrite Hca. tauto. }
    destruct (decide (n = id)) as [->|Hne].
    + rewrite (proj2 (in_flight_spec id s)) by auto. rewrite decide_True by done.
      destruct (in_flight id s'); [|done]. destruct (proj1 Hf eq_refl) as [_ [?|?]]; [done|]. by apply H3 in Hid.
    + assert (in_flight n s' = in_flight n s) as -> by (apply eq_true_iff_eq; tauto).
      destruct (in_flight n s); by rewrite decide_False by congruence.
Qed.

(** A task marks the slot with a fresh id. *)
Lemma slot_mark i old p id s :
  inv s -> k_tasks s !! i = Some old -> carries old = None -> holds old = true ->
  carries p = Some id -> id ∉ k_used s -> inv (put i p (mark id s)).
Proof.
  intros Hi Hold Ho Hho Hp Hid. pose proof (fun x => carried_others i old x s Hi Hold) as Hall.
  destruct Hi as [H1 H2 H3 H4 H5].
  assert (forall x, carried x (<[i := p]> (k_tasks s)) <-> x = id \/ carried x (k_tasks s)) as Hca.
  { intros x. rewrite (carried_put i p old), Hall, Hp, Ho by done. split;
      [intros [[= ->]|?]; [by left|by right; right]|intros [->|[?|?]]; [by left|done|by right]]. }
  assert (~ carried id (k_tasks s)) as Hno by (intros Hc; apply Hid, H1; by left).
  assert (forall j q, k_tasks s !! j = Some q -> carries q <> Some id) as Hno'.
  { intros j q Hj Hq. apply Hno. by exists j, q. }
  split; cbn [put mark k_tasks k_used k_newest k_adrift k_driver].
  - intros x. rewrite Hca, elem_of_union, elem_of_singleton.
    intros [[->|?]|[?|[= ->]]]; [by left|right; apply H1; auto|right; apply H1; auto|by left].
  - intros j k q r x. rewrite !lookup_insert_Some.
    intros [[<- <-]|[? Hj]] [[<- <-]|[? Hk]] Hq Hr; try done; [| |by eapply H2].
    + rewrite Hp in Hq. injection Hq as <-. by apply Hno' in Hk.
    + rewrite Hp in Hr. injection Hr as <-. by apply Hno' in Hj.
  - intros x [->|Hx]%Hca; [|by apply H3]. intros Ha. apply Hid, H1. auto.
  - intros j q. rewrite lookup_insert_Some. intros [[<- <-]|[? Hj]] Hq; cbn; by eapply H4.
  - cbn. unfold target. cbn. rewrite (proj2 (in_flight_spec id _)); [done|]. left. cbn. apply Hca. by left.
Qed.

(** A task is dropped while it waits for the headers: its mark stays. *)
Lemma slot_abandon i old p id s :
  inv s -> k_tasks s !! i = Some old -> carries old = Some id -> carries p = None -> holds p = false ->
  inv (put i p (abandon id s)).
Proof.
  intros Hi Hold Ho Hp Hh. destruct (carried_gone i old p id s Hi Hold Ho Hp) as [Hid Hca].
  destruct Hi as [H1 H2 H3 H4 H5].
  split; cbn [put abandon k_tasks k_used k_newest k_adrift k_driver].
  - intros x. rewrite Hca, elem_of_union, elem_of_singleton.
    intros [[? _]|[[->|?]|?]]; apply H1; auto.
  - intros j k q r x. rewrite !lookup_insert_Some.
    intros [[<- <-]|[? Hj]] [[<- <-]|[? Hk]] Hq Hr; try done; [congruence|congruence|by eapply H2].
  - intros x [Hx Hne]%Hca. rewrite elem_of_union, elem_of_singleton. intros [?|?]; [done|by eapply H3].
  - intros j q. rewrite lookup_insert_Some. intros [[<- <-]|[? Hj]] Hq; [congruence|by eapply H4].
  - rewrite H5. symmetry. apply target_same; [done|]. intros x _. cbn.
    rewrite Hca, elem_of_union, elem_of_singleton. destruct (decide (x = id)) as [->|]; tauto.
Qed.

Lemma slot_start calls : inv (start calls).
Proof.
  assert (forall i p, k_tasks (start calls) !! i = Some p -> carries p = None /\ holds p = false) as Hw.
  { intros i p. cbn. rewrite lookup_fmap. destruct (calls !! i); [|done]. by intros [= <-]. }
  assert (forall id, ~ carried id (k_tasks (start calls))) as Hno.
  { intros id (i & p & Hp & Hc). apply Hw in Hp as [? _]. congruence. }
  split; cbn [k_adrift k_newest start].
  - intros id [Hc|[Hc|Hc]]; [by apply Hno in Hc|by apply not_elem_of_empty in Hc|done].
  - intros i j p q id Hp _ Hc. apply Hw in Hp as [? _]. congruence.
  - intros id Hc. by apply Hno in Hc.
  - intros i p Hp Hh. apply Hw in Hp as [_ ?]. congruence.
  - done.
Qed.
(** Under the write guard nothing is in flight but what is adrift. *)
Lemma slot_forget i s :
  inv s -> can_write (k_tasks s) = true -> k_tasks s !! i = Some (Waiting Disconnects) ->
  inv (put i Done (forget s)).
Proof.
  intros Hi Hcw Hold.
  assert (forall j q, <[i := Done]> (k_tasks s) !! j = Some q -> carries q = None /\ holds q = false) as Hw.
  { intros j q. rewrite lookup_insert_Some. intros [[<- <-]|[_ Hj]]; [done|].
    assert (holds q = false) as Hq by (by eapply can_write_holds). by destruct q. }
  assert (forall id, ~ carried id (<[i := Done]> (k_tasks s))) as Hno.
  { intros id (j & q & Hq & Hc). apply Hw in Hq as [? _]. congruence. }
  split; cbn [put forget k_tasks k_used k_newest k_adrift k_driver].
  - intros id [Hc|[Hc|Hc]]; [by apply Hno in Hc|by apply (inv_used s Hi); auto|done].
  - intros j k q r id Hq _ Hc. apply Hw in Hq as [? _]. congruence.
  - intros id Hc. by apply Hno in Hc.
  - intros j q Hq Hh. apply Hw in Hq as [_ ?]. congruence.
  - done.
Qed.

Lemma post_client id q d : is_Some (c_client d) -> is_Some (c_client (post id q d)).
Proof. unfold post. by destruct (c_client d) eqn:Hc; cbn; rewrite ?Hc. Qed.
Lemma post_slot id q d : c_active_query_id (post id q d) = c_active_query_id d.
Proof. unfold post. by destruct (c_client d). Qed.
Lemma cancel_slot (d : driver_state) :
  c_active_query_id (snd (ch_cancel_query d)) = c_active_query_id d
  /\ c_client (snd (ch_cancel_query d)) = c_client d.
Proof. cbn. by destruct (c_cancel_context d), (c_active_query_id d) eqn:Ha. Qed.
(** A step that leaves the driver alone. *)
Lemma slot_pass i old p s :
  inv s -> k_tasks s !! i = Some old -> carries p = carries old ->
  (holds p = true -> is_Some (c_client (k_driver s))) -> inv (put i p s).
Proof.
  intros Hi Hold Hc Hp. pose proof (slot_move i old p (fun d => d) s Hi Hold Hc) as Hm.
  by apply Hm.
Qed.

Lemma slot_turn i e s s' : inv s -> turn i e s = Some s' -> inv s'.
Proof.
  intros Hi. unfold turn. destruct (k_tasks s !! i) as [p|] eqn:Hold; [|done].
  assert (holds p = true -> is_Some (c_client (k_driver s))) as Hcl by (by eapply inv_connected).
  destruct p as [[script switch|to version| |]|[|q todo] switch|id q todo switch|id todo switch
                |id todo switch|to|], e as [ok|x|]; try done;
    try (intros [= <-]; by apply (slot_pass i _ Done s Hi Hold)).
  - destruct (can_read (k_tasks s)); [|done]. intros [= <-].
    destruct (c_client (k_driver s)) as [c|] eqn:Hc; apply (slot_pass i _ _ s Hi Hold); done.
  - destruct ok; intros [= <-]; [|by apply (slot_pass i _ Done s Hi Hold)].
    by apply (slot_move i _ _ _ s Hi Hold).
  - destruct (can_write (k_tasks s)) eqn:Hcw; [|done]. intros [= <-]. by apply slot_forget.
  - intros [= <-]. apply (slot_move i _ Done _ s Hi Hold); [done|apply cancel_slot| |done].
    intros d Hd. exact (eq_ind_r is_Some Hd (proj2 (cancel_slot d))).
  - intros [= <-]. apply (slot_move i _ Done _ s Hi Hold); try done; by destruct switch.
  - case_decide as Hx; [done|]. intros [= <-]. by eapply slot_mark.
  - intros [= <-]. by apply (slot_move i _ _ _ s Hi Hold); [|apply post_slot|apply post_client|].
  - destruct ok; intros [= <-]; [by apply (slot_pass i _ _ s Hi Hold)|].
    by eapply slot_clear.
  - intros [= <-]. by eapply slot_abandon.
  - destruct ok; intros [= <-]; by eapply slot_clear.
  - intros [= <-]. by eapply slot_clear.
  - destruct (can_write (k_tasks s)); [|done]. intros [= <-].
    by apply (slot_move i _ Done _ s Hi Hold).
Qed.
Lemma slot_turns calls schedule s : turns schedule (start calls) = Some s -> inv s.
Proof.
  apply (follow_keeps (fun '(i, e) => turn i e) inv); [|apply slot_start]. intros [i e] s1 s2. apply slot_turn.
Qed.

(** ** What is cancelled *)

Lemma cancel_kills (d : driver_state) :
  c_kills (snd (ch_cancel_query d))
  = c_kills d ++ match c_cancel_context d, c_active_query_id d with
                 | Some context, Some id => [(context, id)]
                 | _, _ => []
                 end.
Proof. cbn. destruct (c_cancel_context d), (c_active_query_id d); cbn; by rewrite ?app_nil_r. Qed.

(** C27: cancelling never hits a query that is over, and never one of an
    earlier connection, whatever calls run on the driver at the same time and
    wherever they are dropped: the slot holds the query marked last since the
    last disconnect if it is still in flight and nothing otherwise, and
    [cancel_query] queues a kill for exactly that query when the driver has a
    connection's context, and for nothing else. *)
Theorem cancel_hits_newest_in_flight (calls : gmap nat call) (schedule : list (nat * event)) (s : shared) :
  turns schedule (start calls) = Some s ->
  c_active_query_id (k_driver s) = target s
  /\ fst (ch_cancel_query (k_driver s)) = Ok tt
  /\ c_kills (snd (ch_cancel_query (k_driver s)))
     = c_kills (k_driver s) ++ match c_cancel_context (k_driver s), target s with
                               | Some context, Some id => [(context, id)]
                               | _, _ => []
                               end.
Proof.
  intros Hi%slot_turns. pose proof (inv_slot s Hi) as Hs. split; [done|]. split; [done|].
  by rewrite cancel_kills, Hs.
Qed.

(** The kills queued for a query. *)
Definition kills_of (id : string) (s : shared) : list (CancelContext * string) :=
  filter (fun k => snd k = id) (c_kills (k_driver s)).
(** A query that is over for good. *)
Definition gone (id : string) (s : shared) : Prop :=
  id ∈ k_used s /\ ~ carried id (k_tasks s) /\ id ∉ k_adrift s.

Lemma gone_slot id s : inv s -> gone id s -> c_active_query_id (k_driver s) <> Some id.
Proof.
  intros Hi (_ & Hc & Ha). rewrite (inv_slot s Hi). unfold target.
  destruct (k_newest s) as [n|]; [|done]. cbn. destruct (in_flight n s) eqn:Hf; [|done].
  intros [= ->]. apply in_flight_spec in Hf. tauto.
Qed.
Lemma carried_moved id i old p ts :
  ts !! i = Some old -> (carries p = Some id -> carries old = Some id) ->
  ~ carried id ts -> ~ carried id (<[i := p]> ts).
Proof.
  intros Hold Hp Hno. rewrite (carried_put i p old) by done.
  intros [Hc|(j & q & _ & Hj & Hq)]; apply Hno; [exists i, old; auto|by exists j, q].
Qed.
Lemma gone_kills id s :
  inv s -> gone id s -> kills_of id (on_driver (fun d => snd (ch_cancel_query d)) s) = kills_of id s.
Proof.
  intros Hi Hg. pose proof (gone_slot id s Hi Hg) as Hs. unfold kills_of, on_driver. cbn [k_driver].
  rewrite cancel_kills, filter_app.
  destruct (c_cancel_context (k_driver s)), (c_active_query_id (k_driver s)) as [n|];
    rewrite ?filter_nil, ?app_nil_r; try done.
  rewrite filter_cons_False by (cbn; congruence). by rewrite filter_nil, app_nil_r.
Qed.
Lemma gone_turn id i e s s' :
  inv s -> gone id s -> turn i e s = Some s' -> gone id s' /\ kills_of id s' = kills_of id s.
Proof.
  intros Hi Hg. pose proof Hg as (Hu & Hc & Ha). unfold turn.
  destruct (k_tasks s !! i) as [p|] eqn:Hold; [|done].
  assert (forall p' s0, (carries p' = Some id -> carries p = Some id) ->
            k_tasks s0 = k_tasks s -> k_adrift s0 = k_adrift s -> k_used s0 = k_used s ->
            gone id (put i p' s0)) as Hput.
  { intros p' s0 Hp Ht Had Hus. unfold gone. cbn. rewrite Ht, Had, Hus. split; [done|]. split; [|done].
    by eapply carried_moved. }
  destruct p as [[script switch|to version| |]|[|q todo] switch|x q todo switch|x todo switch
                |x todo switch|to|], e as [ok|y|]; try done;
    try (intros [= <-]; by (split; [apply Hput|])).
  - destruct (can_read (k_tasks s)); [|done]. intros [= <-]. split; [|done].
    apply Hput; [|done..]. by destruct (c_client (k_driver s)).
  - destruct ok; intros [= <-]; (split; [by apply Hput|done]).
  - destruct (can_write (k_tasks s)); [|done]. intros [= <-]. split; [by apply Hput|done].
  - intros [= <-]. split; [by apply Hput|]. by apply gone_kills.
  - intros [= <-]. split; [by apply Hput|]. unfold kills_of. by destruct switch.
  - case_decide as Hy; [done|]. intros [= <-]. split; [|done]. split; [by apply elem_of_union_r|]. split; [|done].
    eapply carried_moved; [exact Hold| |done]. cbn. intros [= ->]. done.
  - intros [= <-]. split; [by apply Hput|]. unfold kills_of, post. cbn. by destruct (c_client (k_driver s)).
  - unfold kills_of, clear_active_query_id. destruct ok; intros [= <-]; (split; [by apply Hput|done || cbn]).
    by case_decide.
  - intros [= <-]. split; [|done]. split; [done|]. cbn [put abandon k_tasks k_adrift]. split.
    + eapply carried_moved; [exact Hold|done|done].
    + rewrite elem_of_union, elem_of_singleton. intros [->|?]; [|done]. apply Hc. by exists i, (Sending x todo switch).
  - unfold kills_of, clear_active_query_id. intros [= <-]. split; [apply Hput; by destruct ok|]. cbn. by case_decide.
  - unfold kills_of, clear_active_query_id. intros [= <-]. split; [by apply Hput|]. cbn. by case_decide.
  - destruct (can_write (k_tasks s)); [|done]. intros [= <-]. split; [by apply Hput|done].
Qed.
Lemma gone_turns id later s s' :
  inv s -> gone id s -> turns later s = Some s' -> kills_of id s' = kills_of id s.
Proof.
  intros Hi Hg Hl.
  apply (follow_keeps (fun '(i, e) => turn i e)
           (fun s1 => inv s1 /\ gone id s1 /\ kills_of id s1 = kills_of id s)) in Hl as (_ & _ & Hk); [done| |done].
  intros [i e] s1 s2 (Hi1 & Hg1 & Hk1) Ht. destruct (gone_turn id i e s1 s2 Hi1 Hg1 Ht) as [Hg2 Hk2].
  split; [by eapply slot_turn|]. split; [done|]. by rewrite Hk2.
Qed.
(** A query whose body is being read is over when its call is dropped. *)
Lemma dropped_gone i id todo switch s :
  inv s -> k_tasks s !! i = Some (Receiving id todo switch) ->
  gone id (put i Done (on_driver (clear_active_query_id id) s)).
Proof.
  intros Hi Hold. destruct (carried_gone i _ Done id s Hi Hold eq_refl eq_refl) as [Hid Hca].
  split; [|split]; cbn.
  - apply (inv_used s Hi). by left.
  - intros [_ ?]%Hca. done.
  - by apply (inv_adrift s Hi).
Qed.

(** [run_user_query] when the deadline passes first: the query's future is
    dropped, then the driver is asked to cancel. *)
Definition backstop (i k : nat) : list (nat * event) := [(i, Drops); (k, Goes true)].


(** ** Every call ends *)

Lemma slot_turn_works i e s s' : turn i e s = Some s' -> work (k_tasks s') < work (k_tasks s).
Proof.
  unfold turn. destruct (k_tasks s !! i) as [p|] eqn:Hold; [|done].
  assert (forall p' s0, k_tasks s0 = k_tasks s -> steps p' < steps p ->
            work (k_tasks (put i p' s0)) < work (k_tasks s)) as Hput.
  { intros p' s0 Ht Hw. cbn [put k_tasks]. rewrite Ht. by eapply work_put. }
  destruct p as [[script switch|to version| |]|[|q todo] switch|x q todo switch|x todo switch
                |x todo switch|to|], e as [ok|y|]; try done;
    try (match goal with |- context [if ?b then Some _ else None] => destruct b; [|done] end);
    try case_decide; try done; try destruct ok; intros [= <-]; apply Hput; cbn; try done;
    repeat case_match; simplify_eq/=; try done; lia.
Qed.

(** Every call ends and none waits for ever: a schedule takes at most [work]
    steps in all, drops included, and as long as a call is not over some task
    can go on: nothing waits for the lock while nobody runs. *)
Theorem clickhouse_calls_complete (calls : gmap nat call) (schedule : list (nat * event)) (s : shared) :
  turns schedule (start calls) = Some s ->
  length schedule + work (k_tasks s) <= work (k_tasks (start calls))
  /\ (map_Forall (fun _ p => p = Done) (k_tasks s)
      \/ exists i e, e <> Drops /\ is_Some (turn i e s)).
Proof.
  intros Hs. split.
  - apply (follow_bounded (fun '(i, e) => turn i e) (fun s => work (k_tasks s))); [|done].
    intros [i e]. apply slot_turn_works.
  - destruct (decide (map_Forall (fun _ p => p = Done) (k_tasks s))) as [Hd|Hd]; [by left|right].
    apply map_not_Forall in Hd as (i & p & Hi & Hp); [|apply _].
    pose proof (is_fresh (k_used s)) as Hf.
    destruct (free_or_held (k_tasks s)) as [[Hr Hw]|(j & q & Hj & Hq)]; [exists i|exists j];
      [destruct p as [[]|[] ?|? ? ? ?|? ? ?|? ? ?|?|]|destruct q as [[]|[] ?|? ? ? ?|? ? ?|? ? ?|?|]]; try done;
      solve [ exists (Goes true); split; [done|]; unfold turn; (rewrite Hi || rewrite Hj); rewrite ?Hr, ?Hw; done
            | exists (Takes (fresh (k_used s))); split; [done|]; unfold turn; (rewrite Hi || rewrite Hj);
              by rewrite decide_False ].
Qed.
End calls.

(** ** The steps are those of the driver's methods *)

Section link.
Context {Client Cert Response ReqError : Type}.
Context `{!HttpLib (list HttpRequest) Client Cert Response ReqError} `{!Texts}.
Context (config : ConnectionConfig).
Context (post_logs : forall c r w, snd (http_post c r w) = w ++ [r]).
Context (uuid_quiet : forall w, snd (new_uuid w) = w).
#[local] Abbreviation driver_state := (cstate (W := list HttpRequest) (Client := Client)).

Lemma send_logs c url user pw body params w :
  snd (send c url user pw body params w)
  = w ++ [{| rq_url := url +:+ "/"; rq_username := user; rq_password := pw;
             rq_params := params; rq_body := body |}].
Proof.
  rewrite <-(post_logs c). unfold send, eff_map_err. rewrite eff_bind_eq.
  destruct (http_post c _ w) as [[resp|e] w']; cbn; [|done].
  by destruct ((200 <=? response_status resp)%Z && (response_status resp <? 300)%Z).
Qed.

(** What [send_request] does to the driver: the mark, the request, and the
    mark cleared when no response came. *)
Lemma send_request_steps connected body extra (d : driver_state) :
  c_client d = Some connected ->
  let id := fst (new_uuid (c_world d)) in
  let d1 := post config id (body, extra) (set_active (Some id) d) in
  match send_request config connected body extra d with
  | (Ok (_, guard), d') => guard = id /\ d' = d1
  | (Err _, d') => d' = clear_active_query_id id d1
  end.
Proof.
  intros Hc. cbn zeta. unfold send_request. rewrite eff_bind_eq.
  pose proof (uuid_quiet (c_world d)) as Hu. destruct (new_uuid (c_world d)) as [id w] eqn:Hid.
  cbn in Hu. subst w. rewrite eff_bind_eq. unfold modify, gets, attempt, on_http. rewrite !eff_bind_eq.
  unfold post. cbn [fst c_client set_active]. rewrite Hc. unfold tagged. cbn [fst snd c_world set_active set_world].
  pose proof (send_logs (cc_client connected) (cc_base_url connected) (resolve_username config)
    (cfg_password config) body
    (request_params config id extra (set_active (Some id) (set_world (c_world d) d))) (c_world d)) as Hs.
  destruct (send _ _ _ _ _ _ _) as [r w']. cbn in Hs. subst w'. by destruct r as [resp|e].
Qed.

(** A request of a method and the reading of its response, [m], are turns of
    the method's task: they leave the driver as the method does, and the task
    goes on exactly if the method does. *)
Theorem request_in_turns {A} (m : Response -> eff driver_state DriverError A)
    (i : nat) (q : query) (todo : list query) (switch : option string) (s : shared)
    (connected : ConnectedClient) :
  (forall response d, snd (m response d) = d) ->
  k_tasks s !! i = Some (Between (q :: todo) switch) -> c_client (k_driver s) = Some connected ->
  fst (new_uuid (c_world (k_driver s))) ∉ k_used s ->
  let method := '(response, guard) ← send_request config connected (fst q) (snd q);
                guarded guard (m response) in
  exists events s', Forall (.≠ Drops) events /\ turns config ((i,.) <$> events) s = Some s'
    /\ k_driver s' = snd (method (k_driver s))
    /\ k_tasks s' !! i = Some (if is_ok (fst (method (k_driver s))) then Between todo switch else Done).
Proof.
  intros Hm Hold Hc Hid. destruct q as [body extra]. cbn [fst snd].
  set (id := fst (new_uuid (c_world (k_driver s)))) in *. cbn zeta. rewrite eff_bind_eq.
  pose proof (send_request_steps connected body extra (k_driver s) Hc) as Hs. fold id in Hs. cbn zeta in Hs.
  set (s1 := put i (Sending id todo switch)
               (on_driver (post config id (body, extra))
                  (put i (Marked id (body, extra) todo switch) (mark id s)))).
  assert (forall more, turns config ((i, Takes id) :: (i, Goes true) :: more) s = turns config more s1) as Hrun.
  { intros more. rewrite turns_cons. unfold turn at 1. rewrite Hold, decide_False by done.
    cbn [mbind option_bind]. rewrite turns_cons. unfold turn at 1. cbn [put k_tasks]. by rewrite lookup_insert_eq. }
  assert (k_tasks s1 !! i = Some (Sending id todo switch)) as H1 by (cbn; by rewrite lookup_insert_eq).
  destruct (send_request _ _ _ _ _) as [[[response guard]|e] d'].
  - destruct Hs as [-> ->]. unfold guarded. specialize (Hm response (k_driver s1)).
    change (post config id (body, extra) (set_active (Some id) (k_driver s))) with (k_driver s1).
    destruct (m response (k_driver s1)) as [r d']. cbn in Hm. subst d'.
    exists [Takes id; Goes true; Goes true; Goes (is_ok r)], (put i (if is_ok r then Between todo switch else Done)
      (on_driver (clear_active_query_id id) (put i (Receiving id todo switch) s1))).
    split; [by repeat constructor|]. split; [|split; [done|cbn; by rewrite lookup_insert_eq]].
    cbn [fmap list_fmap]. rewrite Hrun, turns_cons. unfold turn at 1. rewrite H1. cbn [mbind option_bind].
    rewrite turns_cons. unfold turn at 1. cbn [put k_tasks]. by rewrite lookup_insert_eq.
  - subst d'. exists [Takes id; Goes true; Goes false], (put i Done (on_driver (clear_active_query_id id) s1)).
    split; [by repeat constructor|]. split; [|split; [done|cbn; by rewrite lookup_insert_eq]].
    cbn [fmap list_fmap]. rewrite Hrun, turns_cons. unfold turn at 1. by rewrite H1.
Qed.
End link.

(** ** Concrete runs *)

Definition ch_example_config : ConnectionConfig :=
  {| cfg_host := "h"; cfg_port := 8443; cfg_username := EmptyString; cfg_password := None;
     cfg_database := Some "sales"; cfg_ssl := SslConfig_default; cfg_read_only := true;
     cfg_additional_fields := ∅ |}.
#[local] Abbreviation example_turns := (turns (Client := unit) ch_example_config).
#[local] Abbreviation after_turns schedule calls := (default (start ∅) (example_turns schedule (start calls))).
(** A connect, a query and the cancel of its deadline. *)
Definition ch_example_calls : gmap nat (call (Client := unit)) :=
  {[0 := Connects tt None; 1 := Asks [("SELECT 1", [])] None; 2 := Cancels]}.
Definition to_headers : list (nat * event) :=
  [(0, Goes true); (0, Goes true); (1, Goes true); (1, Takes "a"); (1, Goes true)].
Definition to_body : list (nat * event) := to_headers ++ [(1, Goes true)].

Lemma cancel_hits_newest_in_flight_witness :
  let s := after_turns (to_headers ++ [(1, Drops)]) ch_example_calls in
  target s = Some "a" /\ length (c_world (k_driver s)) = 1
  /\ length (c_kills (snd (ch_cancel_query (k_driver s)))) = 1
  /\ c_active_query_id (k_driver s) = target s.
Proof.
  intros s. split; [by vm_compute|]. split; [by vm_compute|]. split; [by vm_compute|].
  exact (proj1 (cancel_hits_newest_in_flight ch_example_config ch_example_calls
                  (to_headers ++ [(1, Drops)]) s ltac:(by vm_compute))).
Defined.

(** A [connect] sets the mutexes before it waits for the lock: a [disconnect]
    in between clears them, and the driver ends up connected with nothing to
    cancel by and on the database [default] instead of its own. *)
Example connected_to_default :
  let s := after_turns [(0, Goes true); (1, Goes true); (0, Goes true)]
             {[0 := Connects tt None; 1 := Disconnects]} in
  is_Some (c_client (k_driver s)) /\ c_cancel_context (k_driver s) = None
  /\ c_current_database (k_driver s) = "default".
Proof. vm_compute. eauto. Qed.
