(* ===== verification/PostgresText.v ===== *)
(** * The PostgreSQL driver's pure parts (crates/driver-postgres: ident.rs,
    params.rs, config.rs, error.rs, tls.rs, convert.rs)

    What the driver uses of tokio-postgres is [PgLib], over a world [W]; what
    it uses of rustls and its companions is [TlsLib].  A transaction is the
    library's [Txn]; dropping one that was not committed is
    [rollback_on_drop]. *)
From S2P Require Import Prelude RustStr Core.

(** ** ident.rs *)

Definition quote_ident (name : string) : string := dquote +:+ double_char dquote name +:+ dquote.
Definition quote_qualified (schema name : string) : string :=
  quote_ident schema +:+ "." +:+ quote_ident name.
Definition quote_literal (value : string) : string := squote +:+ double_char squote value +:+ squote.

(** ** params.rs *)

Inductive Format := FormatText | FormatBinary.
Inductive IsNull := IsNull_Yes | IsNull_No.
(** What a [Bind] message carries for a parameter. *)
Record PgParam := { pp_format : Format; pp_value : option (list byte) }.

Definition to_sql (c : CellValue) : IsNull * list byte :=
  match c with
  | Null => (IsNull_Yes, [])
  | Text s => (IsNull_No, as_bytes s)
  | Bytes b => (IsNull_No, b)
  end.
Definition encode_format (c : CellValue) : Format :=
  match c with Bytes _ => FormatBinary | Null | Text _ => FormatText end.
(** [ToSql] seen from the library: the format and, unless null, the bytes. *)
Definition sql_param (c : CellValue) : PgParam :=
  {| pp_format := encode_format c;
     pp_value := match to_sql c with (IsNull_Yes, _) => None | (IsNull_No, out) => Some out end |}.
Definition to_params (values : list CellValue) : list PgParam := sql_param <$> values.
(** The library's own [ToSql] of [&str]. *)
Definition str_param (s : string) : PgParam :=
  {| pp_format := FormatBinary; pp_value := Some (as_bytes s) |}.

(** ** config.rs *)

Inductive PgSslMode := Disable | Prefer | Require.
Record PgConfig := {
  pc_host : string;
  pc_port : Z;
  pc_user : string;
  pc_ssl_mode : PgSslMode;
  pc_keepalives : bool;
  pc_keepalives_idle : Z;
  pc_keepalives_interval : Z;
  pc_keepalives_retries : Z;
  pc_password : option string;
  pc_dbname : option string;
}.
Definition resolve_ssl_mode (config : ConnectionConfig) : PgSslMode :=
  match mode (cfg_ssl config) with
  | Some Disabled => Disable
  | Some Preferred => Prefer
  | Some Required | Some VerifyCa | Some VerifyIdentity | None => Require
  end.
Definition build_config (config : ConnectionConfig) : PgConfig :=
  {| pc_host := cfg_host config; pc_port := cfg_port config; pc_user := cfg_username config;
     pc_ssl_mode := resolve_ssl_mode config; pc_keepalives := true;
     pc_keepalives_idle := KEEPALIVE_IDLE; pc_keepalives_interval := KEEPALIVE_INTERVAL;
     pc_keepalives_retries := KEEPALIVE_RETRIES; pc_password := cfg_password config;
     pc_dbname := cfg_database config |}.

(** ** tls.rs *)

(** The three verifiers the driver installs, the last one rustls's own. *)
Inductive ServerCertVerifier (Anchor : Type) :=
  | AcceptAnyCertificate
  | ChainOnlyVerifier (roots : list Anchor)
  | WebPkiServerVerifier (roots : list Anchor).
Arguments AcceptAnyCertificate {Anchor}.
Arguments ChainOnlyVerifier {Anchor} roots.
Arguments WebPkiServerVerifier {Anchor} roots.

Inductive TlsVersion := Tls12 | Tls13.

Class TlsLib (W Cert Anchor Name Signed : Type) := {
  fs_read : string -> W -> result string (list byte);
  pem_certs : list byte -> result string (list Cert);
  anchor_from_trusted_cert : Cert -> result string Anchor;
  (** The anchors of the certificates that parse. *)
  add_parsable_certificates : list Cert -> list Anchor;
  (** The platform's store, and its errors printed. *)
  load_native_certs : W -> list Cert * string;
  safe_default_protocol_versions : result string unit;
  (** [EndEntityCert::try_from] *)
  end_entity : Cert -> result string unit;
  verify_for_usage : Cert -> list Anchor -> list Cert -> Z -> result string unit;
  webpki_verify : list Anchor -> Cert -> list Cert -> Name -> Z -> result string unit;
  verify_signature : TlsVersion -> list byte -> Cert -> Signed -> result string unit;
}.

Section tls.
Context {W Cert Anchor Name Signed : Type} `{!TlsLib W Cert Anchor Name Signed}.
#[local] Abbreviation Verifier := (ServerCertVerifier Anchor).
#[local] Abbreviation tls_setup_error := (DriverError_new Connection).

Definition verify_server_cert (v : Verifier) (end_entity_cert : Cert) (intermediates : list Cert)
    (server_name : Name) (now : Z) : result string unit :=
  match v with
  | AcceptAnyCertificate => Ok tt
  | ChainOnlyVerifier roots =>
      _ ← map_err (fun err => "invalid server certificate: " +:+ err) (end_entity end_entity_cert);
      map_err (fun err => "certificate chain is not trusted: " +:+ err)
        (verify_for_usage end_entity_cert roots intermediates now)
  | WebPkiServerVerifier roots => webpki_verify roots end_entity_cert intermediates server_name now
  end.
(** [verify_tls12_signature] and [verify_tls13_signature]: the provider's, in
    every verifier. *)
Definition verify_tls_signature (v : Verifier) (version : TlsVersion) (message : list byte)
    (cert : Cert) (dss : Signed) : result string unit :=
  verify_signature version message cert dss.

Definition read_ca (path : string) (w : W) : DriverResult (list byte) :=
  map_err (fun err => tls_setup_error ("failed to read ssl.ca_path " +:+ path +:+ ": " +:+ err))
    (fs_read path w).
Definition parse_ca (pem : list byte) : DriverResult (list Cert) :=
  map_err (fun err => tls_setup_error ("ssl.ca_path did not contain a valid PEM certificate: " +:+ err))
    (pem_certs pem).

Definition load_trust_anchors (path : string) (w : W) : DriverResult (list Anchor) :=
  pem ← read_ca path w;
  certs ← parse_ca pem;
  match certs with
  | [] => Err (tls_setup_error ("ssl.ca_path " +:+ path +:+ " contained no certificates"))
  | _ => collect ((fun cert =>
           map_err (fun err => tls_setup_error ("ssl.ca_path is not a valid CA certificate: " +:+ err))
             (anchor_from_trusted_cert cert)) <$> certs)
  end.
Definition load_native_root_store (w : W) : DriverResult (list Anchor) :=
  let '(certs, errors) := load_native_certs w in
  match certs with
  | [] => Err (tls_setup_error
      ("no usable certificates found in the platform's native trust store: " +:+ errors))
  | _ => match add_parsable_certificates certs with
         | [] => Err (tls_setup_error
             "the platform's native trust store contained no parsable certificates")
         | roots => Ok roots
         end
  end.
Definition root_store_for_verify_identity (config : ConnectionConfig) (w : W)
  : DriverResult (list Anchor) :=
  match ca_path (cfg_ssl config) with
  | Some path =>
      pem ← read_ca path w;
      certs ← parse_ca pem;
      match add_parsable_certificates certs with
      | [] => Err (tls_setup_error ("ssl.ca_path " +:+ path +:+ " contained no usable certificates"))
      | roots => Ok roots
      end
  | None => load_native_root_store w
  end.

Definition base_builder : DriverResult unit :=
  map_err (fun err => tls_setup_error ("failed to select TLS protocol versions: " +:+ err))
    safe_default_protocol_versions.
(** A [MakeRustlsConnect] is the verifier its client configuration holds; no
    mode sets client authentication. *)
Definition build_connector (config : ConnectionConfig) (w : W) : DriverResult Verifier :=
  match mode (cfg_ssl config) with
  | Some Disabled =>
      Err (tls_setup_error "build_connector must not be called for ssl.mode = disabled")
  | Some Preferred | Some Required =>
      _ ← base_builder; Ok AcceptAnyCertificate
  | Some VerifyCa =>
      path ← ok_or (tls_setup_error "ssl.mode = verify_ca requires ssl.ca_path to be set")
               (ca_path (cfg_ssl config));
      roots ← load_trust_anchors path w;
      _ ← base_builder;
      Ok (ChainOnlyVerifier roots)
  | Some VerifyIdentity | None =>
      roots ← root_store_for_verify_identity config w;
      _ ← base_builder;
      Ok (WebPkiServerVerifier roots)
  end.
End tls.

(** ** What the driver uses of tokio-postgres *)

(** The types [FromSql] reads here. *)
Inductive RustType :=
  | RBool | RI16 | RI32 | RU32 | RI64 | RF32 | RF64 | RString | RBytes | RUuid | RJson | RDecimal
  | RDate | RTime | RDateTime | RDateTimeUtc | RStrings.
Definition rust_value (Foreign : Type) (t : RustType) : Type :=
  match t with
  | RBool => bool
  | RI16 | RI32 | RU32 | RI64 => Z
  | RString => string
  | RBytes => list byte
  | RStrings => list string
  | RF32 | RF64 | RUuid | RJson | RDecimal | RDate | RTime | RDateTime | RDateTimeUtc => Foreign
  end.

Inductive TypeTag :=
  | BOOL | INT2 | INT4 | OID | INT8 | FLOAT4 | FLOAT8 | TEXT | VARCHAR | BPCHAR | NAME | UNKNOWN
  | BYTEA | UUID | JSON | JSONB | NUMERIC | DATE | TIME | TIMESTAMP | TIMESTAMPTZ | OtherTag.
#[export] Instance TypeTag_eq_dec : EqDecision TypeTag.
Proof. solve_decision. Defined.
Record PgType := { ty_tag : TypeTag; ty_name : string; ty_oid : Z }.
Record Column := { column_name : string; column_type : PgType }.
Record DbError := {
  db_message : string; db_detail : option string; db_hint : option string }.
Inductive SimpleQueryMessage :=
  | RowDescription (cols : list string)
  | SimpleRow (values : list (option string))
  | CommandComplete (count : Z)
  | OtherMessage.

Class PgLib (W Client Connector CancelToken Txn Statement Portal Row PgError Foreign : Type) := {
  (** [None] is [NoTls]. *)
  pg_connect : PgConfig -> option Connector -> eff W PgError Client;
  (** Aborting the connection's task. *)
  abort_connection : Client -> W -> W;
  client_cancel_token : Client -> CancelToken;
  token_cancel_query : CancelToken -> option Connector -> eff W PgError unit;
  simple_query : Client -> string -> eff W PgError (list SimpleQueryMessage);
  query : Client -> string -> list PgParam -> eff W PgError (list Row);
  query_one : Client -> string -> list PgParam -> eff W PgError Row;
  start_transaction : Client -> bool -> eff W PgError Txn;
  prepare : Txn -> string -> eff W PgError Statement;
  bind : Txn -> Statement -> list PgParam -> eff W PgError Portal;
  query_portal : Txn -> Portal -> Z -> eff W PgError (list Row);
  commit : Txn -> eff W PgError unit;
  rollback_on_drop : Txn -> W -> W;
  statement_columns : Statement -> list Column;
  row_columns : Row -> list Column;
  try_get : forall t, Row -> nat -> result PgError (option (rust_value Foreign t));
  (** What reading a null as a type that is not an [Option] fails with. *)
  was_null : nat -> PgError;
  err_code : PgError -> option string;
  as_db_error : PgError -> option DbError;
  err_to_string : PgError -> string;
  (** [Display] of the foreign types, and the two chrono renderings. *)
  foreign_to_string : RustType -> Foreign -> string;
  chrono_format : string -> Foreign -> string;
  to_rfc3339 : Foreign -> string;
  instant_now : W -> Z;
}.

Section pg.
Context {W Client Connector CancelToken Txn Statement Portal Row PgError Foreign : Type}.
Context `{!PgLib W Client Connector CancelToken Txn Statement Portal Row PgError Foreign}.

(** ** error.rs *)

Definition kind_for_sql_state (sql_state : string) : DriverErrorKind :=
  if decide (sql_state = "28000") then Auth
  else if decide (sql_state = "28P01") then Auth
  else if decide (sql_state = "57014") then Cancelled
  else if starts_with "08" sql_state then Connection
  else Query.
Definition with_state (sql_state : option string) (e : DriverError) : DriverError :=
  match sql_state with Some s => with_code s (with_sql_state s e) | None => e end.
Definition map_error (err : PgError) (fallback_kind : DriverErrorKind) : DriverError :=
  let sql_state := err_code err in
  let kind := from_option kind_for_sql_state fallback_kind sql_state in
  match as_db_error err with
  | Some db_error =>
      let driver_error := with_state sql_state (DriverError_new kind (db_message db_error)) in
      let detail_parts := option_list (db_detail db_error)
                          ++ option_list ((fun hint => "hint: " +:+ hint) <$> db_hint db_error) in
      match detail_parts with
      | [] => driver_error
      | _ => with_detail (join "; " detail_parts) driver_error
      end
  | None => with_state sql_state (DriverError_new kind (err_to_string err))
  end.
Definition map_connect_error (err : PgError) : DriverError := map_error err Connection.
Definition map_query_error (err : PgError) : DriverError := map_error err Query.

(** ** convert.rs *)

Definition in_dquotes (s : string) : string := dquote +:+ s +:+ dquote.
Definition unsupported_type_error (column : string) (ty : PgType) : DriverError :=
  DriverError_new Internal
    ("column " +:+ in_dquotes column +:+ " has Postgres type " +:+ in_dquotes (ty_name ty)
     +:+ " (oid " +:+ pretty (ty_oid ty)
     +:+ "), which this driver build does not yet support converting to a text cell value").
Definition conversion_error (column : string) (ty : PgType) (source : PgError) : DriverError :=
  DriverError_new Internal
    ("failed to decode column " +:+ in_dquotes column +:+ " (type " +:+ in_dquotes (ty_name ty)
     +:+ "): " +:+ err_to_string source).

Definition text_from (t : RustType) (row : Row) (idx : nat) (column : string) (ty : PgType)
    (render : rust_value Foreign t -> string) : DriverResult CellValue :=
  match try_get t row idx with
  | Ok (Some value) => Ok (Text (render value))
  | Ok None => Ok Null
  | Err err => Err (conversion_error column ty err)
  end.
Definition bytes_from (row : Row) (idx : nat) (column : string) (ty : PgType) : DriverResult CellValue :=
  match try_get RBytes row idx with
  | Ok (Some value) => Ok (Bytes value)
  | Ok None => Ok Null
  | Err err => Err (conversion_error column ty err)
  end.

(** [row_value] on the column at [idx] ([row.columns()[idx]]; the callers stay
    in range). *)
Definition row_value (row : Row) (idx : nat) (column : Column) : DriverResult CellValue :=
  let ty := column_type column in
  let name := column_name column in
  match ty_tag ty with
  | BOOL => text_from RBool row idx name ty (fun v => if v then "true" else "false")
  | INT2 => text_from RI16 row idx name ty pretty
  | INT4 => text_from RI32 row idx name ty pretty
  | OID => text_from RU32 row idx name ty pretty
  | INT8 => text_from RI64 row idx name ty pretty
  | FLOAT4 => text_from RF32 row idx name ty (foreign_to_string RF32)
  | FLOAT8 => text_from RF64 row idx name ty (foreign_to_string RF64)
  | TEXT | VARCHAR | BPCHAR | NAME | UNKNOWN => text_from RString row idx name ty (fun v => v)
  | BYTEA => bytes_from row idx name ty
  | UUID => text_from RUuid row idx name ty (foreign_to_string RUuid)
  | JSON | JSONB => text_from RJson row idx name ty (foreign_to_string RJson)
  | NUMERIC => text_from RDecimal row idx name ty (foreign_to_string RDecimal)
  | DATE => text_from RDate row idx name ty (foreign_to_string RDate)
  | TIME => text_from RTime row idx name ty (foreign_to_string RTime)
  | TIMESTAMP => text_from RDateTime row idx name ty (chrono_format "%Y-%m-%dT%H:%M:%S%.f")
  | TIMESTAMPTZ => text_from RDateTimeUtc row idx name ty to_rfc3339
  | OtherTag => Err (unsupported_type_error name ty)
  end.
(** The [for i in 0..row.len()] loop of the callers. *)
Definition row_values (row : Row) : DriverResult (list CellValue) :=
  collect (imap (row_value row) (row_columns row)).
Definition column_names_and_types (columns : list Column) : list string * list string :=
  (column_name <$> columns, (fun c => ty_name (column_type c)) <$> columns).

End pg.

(** ** A quoted name is read back as the name *)

(** How the server reads a quoted token: up to the first quote that is not
    doubled; what it denotes and what follows it.  [cs] is the text after the
    opening quote. *)
Fixpoint read_quoted (q : string) (cs : list string) : option (list string * list string) :=
  match cs with
  | [] => None
  | c :: cs =>
      if decide (c = q) then
        match cs with
        | c' :: cs' =>
            if decide (c' = q) then '(name, rest) ← read_quoted q cs'; Some (q :: name, rest)
            else Some ([], cs)
        | [] => Some ([], [])
        end
      else '(name, rest) ← read_quoted q cs; Some (c :: name, rest)
  end.
Definition read_token (q : string) (cs : list string) : option (string * list string) :=
  match cs with
  | c :: cs => if decide (c = q) then '(name, rest) ← read_quoted q cs; Some (str_concat name, rest)
               else None
  | [] => None
  end.
(** [schema.name], both parts quoted. *)
Definition read_qualified (cs : list string) : option (string * string * list string) :=
  '(schema, rest) ← read_token dquote cs;
  match rest with
  | c :: rest =>
      if decide (c = ".") then '(name, rest) ← read_token dquote rest; Some (schema, name, rest)
      else None
  | [] => None
  end.

Lemma read_quoted_double q cs rest : head rest <> Some q ->
  read_quoted q (double_chars q cs ++ q :: rest) = Some (cs, rest).
Proof.
  intros Hrest. unfold double_chars. induction cs as [|c cs IH]; cbn [mbind list_bind app].
  - cbn [read_quoted]. rewrite decide_True by done. destruct rest as [|r rest]; [done|].
    rewrite decide_False; [done|]. intros ->. by apply Hrest.
  - rewrite <-app_assoc. case_decide as Hc; cbn [app].
    + subst c. cbn [read_quoted]. rewrite !decide_True by done. cbn [mbind list_bind] in IH.
      by rewrite IH.
    + cbn [read_quoted]. rewrite decide_False by done. by rewrite IH.
Qed.

Lemma read_token_quoted q name rest : is_char q -> str_ok name -> head rest <> Some q ->
  read_token q (chars (q +:+ double_char q name +:+ q) ++ rest) = Some (name, rest).
Proof.
  intros Hq Hok Hrest. rewrite chars_quoted by (done || by apply double_ok).
  rewrite chars_double by done. cbn [app read_token]. rewrite decide_True by done.
  rewrite <-app_assoc. cbn [app]. rewrite read_quoted_double by done. cbn.
  by rewrite str_concat_chars.
Qed.

Lemma is_char_dquote : is_char dquote.
Proof. by split; vm_compute. Qed.
Lemma is_char_squote : is_char squote.
Proof. by split; vm_compute. Qed.
Lemma quoted_ok q name : is_char q -> str_ok (q +:+ double_char q name +:+ q).
Proof.
  intros [Hc Hok]. destruct q as [|a q]; [done|].
  unfold str_ok in *. by cbn in *.
Qed.

Lemma chars_qualified schema name :
  chars (quote_qualified schema name) = (chars (quote_ident schema) ++ "." :: chars (quote_ident name))%list.
Proof.
  unfold quote_qualified. pose proof (quoted_ok dquote name is_char_dquote) as Hok.
  rewrite (chars_app (quote_ident schema)) by done. f_equal.
Qed.

(** C30: whatever name is spliced into a statement, the server reads back
    exactly that name and nothing more of it: a quoted identifier, a quoted
    literal and a qualified name end where the quoting ends, whatever
    quotes, dots or semicolons they contain, as long as the text after does
    not begin with the quote itself. *)
Theorem quoted_reads_back (schema name : string) (rest : list string) :
  str_ok schema -> str_ok name ->
  (head rest <> Some dquote -> read_token dquote (chars (quote_ident name) ++ rest) = Some (name, rest))
  /\ (head rest <> Some squote -> read_token squote (chars (quote_literal name) ++ rest) = Some (name, rest))
  /\ (head rest <> Some dquote ->
      read_qualified (chars (quote_qualified schema name) ++ rest) = Some (schema, name, rest)).
Proof.
  intros Hs Hn. split; [|split]; intros Hrest.
  - by apply read_token_quoted, Hrest; [apply is_char_dquote|].
  - by apply read_token_quoted, Hrest; [apply is_char_squote|].
  - unfold read_qualified. rewrite chars_qualified, <-app_assoc. cbn [app].
    unfold quote_ident. rewrite read_token_quoted by (done || apply is_char_dquote). cbn [mbind option_bind].
    rewrite decide_True by done. by rewrite read_token_quoted by (done || apply is_char_dquote).
Qed.

Lemma quoted_reads_back_witness :
  quote_ident ("a" +:+ dquote +:+ "; DROP TABLE t; --")
    = dquote +:+ "a" +:+ dquote +:+ dquote +:+ "; DROP TABLE t; --" +:+ dquote
  /\ read_qualified (chars (quote_qualified "my.schema" ("a" +:+ dquote)) ++ [" "])
     = Some ("my.schema", "a" +:+ dquote, [" "]).
Proof.
  split; [by vm_compute|].
  exact (proj2 (proj2 (quoted_reads_back "my.schema" ("a" +:+ dquote) [" "]
                         ltac:(reflexivity) ltac:(reflexivity))) ltac:(discriminate)).
Defined.

(** ** What each TLS mode verifies *)

Section connector.
Context {W Cert Anchor Name Signed : Type} `{!TlsLib W Cert Anchor Name Signed}.

Lemma map_err_Ok_inv {E F A} (f : E -> F) (r : result E A) a : map_err f r = Ok a -> r = Ok a.
Proof. destruct r; cbn; [by intros [= ->]|done]. Qed.

Lemma collect_anchors certs roots (f : string -> DriverError) :
  collect ((fun cert => map_err f (anchor_from_trusted_cert cert)) <$> certs) = Ok roots ->
  anchor_from_trusted_cert <$> certs = Ok <$> roots.
Proof.
  intros H%collect_Ok. revert roots H. induction certs as [|c certs IH]; intros [|r roots]; cbn; try done.
  intros [= Hc Hr]. apply map_err_Ok_inv in Hc. by rewrite Hc, (IH _ Hr).
Qed.

(** Where the trust of a [verify_ca] connection comes from. *)
Lemma load_trust_anchors_Ok path w roots : load_trust_anchors path w = Ok roots ->
  exists pem certs, fs_read path w = Ok pem /\ pem_certs pem = Ok certs /\ certs <> []
                    /\ anchor_from_trusted_cert <$> certs = Ok <$> roots.
Proof.
  unfold load_trust_anchors, read_ca, parse_ca. intros H.
  apply result_bind_Ok in H as (pem & Hp & H). apply map_err_Ok_inv in Hp.
  apply result_bind_Ok in H as (certs & Hc & H). apply map_err_Ok_inv in Hc.
  exists pem, certs. destruct certs as [|c certs]; [done|].
  by apply collect_anchors in H.
Qed.

(** ... and of one that verifies the identity too. *)
Definition identity_roots (config : ConnectionConfig) (w : W) (roots : list Anchor) : Prop :=
  roots <> [] /\
  match ca_path (cfg_ssl config) with
  | Some path => exists pem certs, fs_read path w = Ok pem /\ pem_certs pem = Ok certs
                                   /\ roots = add_parsable_certificates certs
  | None => roots = add_parsable_certificates (fst (load_native_certs w))
  end.
Lemma root_store_Ok config w roots :
  root_store_for_verify_identity config w = Ok roots -> identity_roots config w roots.
Proof.
  unfold root_store_for_verify_identity, identity_roots, load_native_root_store, read_ca, parse_ca.
  destruct (ca_path (cfg_ssl config)) as [path|].
  - intros H. apply result_bind_Ok in H as (pem & Hp & H). apply map_err_Ok_inv in Hp.
    apply result_bind_Ok in H as (certs & Hc & H). apply map_err_Ok_inv in Hc.
    destruct (add_parsable_certificates certs) as [|r rs] eqn:Ha; [done|]. injection H as <-.
    split; [done|]. by exists pem, certs.
  - destruct (load_native_certs w) as [[|c certs] errors]; [done|].
    destruct (add_parsable_certificates (c :: certs)) as [|r rs] eqn:Ha; [done|].
    intros [= <-]. by split.
Qed.

(** The connector of a mode, and what its verifier accepts. *)
Definition connector_spec (config : ConnectionConfig) (w : W) (v : ServerCertVerifier Anchor) : Prop :=
  match mode (cfg_ssl config) with
  | Some Disabled => False
  | Some Preferred | Some Required => v = AcceptAnyCertificate
  | Some VerifyCa =>
      exists path pem certs roots,
        ca_path (cfg_ssl config) = Some path /\ fs_read path w = Ok pem /\ pem_certs pem = Ok certs
        /\ certs <> [] /\ anchor_from_trusted_cert <$> certs = Ok <$> roots
        /\ forall cert inter name now,
             verify_server_cert v cert inter name now = Ok tt
             <-> end_entity cert = Ok tt /\ verify_for_usage cert roots inter now = Ok tt
  | Some VerifyIdentity | None =>
      exists roots, identity_roots config w roots
        /\ forall cert inter name now,
             verify_server_cert v cert inter name now = webpki_verify roots cert inter name now
  end.
Lemma build_connector_spec config w v : build_connector config w = Ok v -> connector_spec config w v.
Proof.
  unfold build_connector, connector_spec. destruct (mode (cfg_ssl config)) as [[]|]; [done|..].
  1, 2: destruct base_builder; [by intros [= <-]|done].
  2, 3: intros H; apply result_bind_Ok in H as (roots & Hr & H); apply root_store_Ok in Hr;
    destruct base_builder; [|done]; injection H as <-; by exists roots.
  destruct (ca_path (cfg_ssl config)) as [path|]; [|done]. cbn [ok_or mbind result_bind]. intros H.
  apply result_bind_Ok in H as (roots & Hr & H).
  apply load_trust_anchors_Ok in Hr as (pem & certs & ? & ? & ? & ?).
  destruct base_builder; [|done]. injection H as <-. exists path, pem, certs, roots.
  do 5 (split; [done|]). intros cert inter name now. cbn [verify_server_cert].
  destruct (end_entity cert) as [[]|]; cbn; [|naive_solver].
  destruct (verify_for_usage _ _ _ _) as [[]|]; cbn; naive_solver.
Qed.
End connector.
