(* ===== verification/PostgresQuery.v ===== *)
(** * Queries and streams of the PostgreSQL driver (crates/driver-postgres:
    query.rs, stream.rs)

    The functions run over the library's world alone; the driver's own state
    is in the file Postgres.  [in_transaction] is the scope of a library
    transaction: committed at its end, rolled back when an error leaves it. *)
From S2P Require Import Prelude RustStr Core PostgresText.

Definition PORTAL_BATCH_SIZE : Z := 1000.

Section query.
Context {W Client Connector CancelToken Txn Statement Portal Row PgError Foreign : Type}.
Context `{!PgLib W Client Connector CancelToken Txn Statement Portal Row PgError Foreign}.
#[local] Abbreviation io := (eff W DriverError).

Definition run {A} (m : eff W PgError A) : io A := eff_map_err map_query_error m.
Definition elapsed_since (started : Z) : io Z :=
  gets (fun w => saturating_sub (instant_now w) started).

(** ** The simple protocol *)

Definition simple_cell (value : option string) : CellValue :=
  match value with Some text => Text text | None => Null end.
(** One turn of the [for message in messages] loop. *)
Definition on_message (acc : list string * list (list CellValue) * Z) (m : SimpleQueryMessage)
  : list string * list (list CellValue) * Z :=
  let '(columns, rows, rows_affected) := acc in
  match m with
  | RowDescription cols => (cols, [], rows_affected)
  | SimpleRow values => (columns, rows ++ [simple_cell <$> values], rows_affected)
  | CommandComplete count => (columns, rows, count)
  | OtherMessage => acc
  end.
Definition pg_execute (client : Client) (sql : string) : io QueryResult :=
  started ← gets instant_now;
  messages ← run (simple_query client sql);
  let '(columns, rows, rows_affected) := foldl on_message ([], [], 0%Z) messages in
  elapsed ← elapsed_since started;
  mret {| columns := columns; column_type_names := replicate (length columns) "text";
          rows := rows; rows_affected := rows_affected; execution_time := elapsed;
          is_truncated := false; status_message := None; column_meta := None |}.

(** ** The extended protocol *)

(** What [execute_parameterized] and [execute_user_query] return. *)
Definition extended_result (header : list string * list string) (rows : list (list CellValue))
    (elapsed : Z) (truncated : bool) : QueryResult :=
  {| columns := fst header; column_type_names := snd header; rows := rows;
     rows_affected := Z.of_nat (length rows); execution_time := elapsed; is_truncated := truncated;
     status_message := None; column_meta := None |}.
Definition convert_rows (rows : list Row) : DriverResult (list (list CellValue)) :=
  collect (row_values <$> rows).

Definition pg_execute_parameterized (client : Client) (sql : string) (parameters : list CellValue)
  : io QueryResult :=
  started ← gets instant_now;
  rows ← run (query client sql (to_params parameters));
  let header := match rows with
                | row :: _ => column_names_and_types (row_columns row)
                | [] => ([], [])
                end in
  result_rows ← lift (convert_rows rows);
  elapsed ← elapsed_since started;
  mret (extended_result header result_rows elapsed false).

Definition stmt_columns (stmt : Statement) : option (list string * list string) :=
  match statement_columns stmt with
  | [] => None
  | columns => Some (column_names_and_types columns)
  end.

(** [client.build_transaction().read_only(..).start()], the body, and
    [txn.commit()]; any error on the way drops the transaction uncommitted. *)
Definition in_transaction {A} (client : Client) (read_only : bool) (body : Txn -> io A) : io A :=
  txn ← run (start_transaction client read_only);
  ((fun w => match body txn w with
             | (Ok a, w) => (_ ← run (commit txn); mret a : io A) w
             | (Err e, w) => (Err e, rollback_on_drop txn w)
             end) : io A).
(** [txn.prepare] and [txn.bind]. *)
Definition open_portal (txn : Txn) (sql : string) (parameters : list PgParam) : io (Statement * Portal) :=
  stmt ← run (prepare txn sql);
  portal ← run (bind txn stmt parameters);
  mret (stmt, portal).

(** What the loop of [execute_user_query] has collected. *)
Record fetched := { f_header : list string * list string; f_rows : list (list CellValue) }.
Definition row_count (st : fetched) : Z := Z.of_nat (length (f_rows st)).
Definition next_header (stmt : Statement) (batch : list Row) (header : list string * list string)
  : list string * list string :=
  match fst header with
  | _ :: _ => header
  | [] => match batch with
          | first :: _ => column_names_and_types (row_columns first)
          | [] => default header (stmt_columns stmt)
          end
  end.

(** The [loop]: [true] when the cap ended it.  A turn that goes on brings at
    least as many rows as it asked for, so [portal_rounds] turns are enough. *)
Fixpoint portal_loop (fuel : nat) (txn : Txn) (stmt : Statement) (portal : Portal) (cap : Z)
    (st : fetched) : io (fetched * bool) :=
  if (cap <=? row_count st)%Z then mret (st, true) else
  match fuel with
  | O => mret (st, true)
  | S fuel =>
      let fetch_size := Z.min (cap - row_count st) PORTAL_BATCH_SIZE in
      batch ← run (query_portal txn portal fetch_size);
      let header := next_header stmt batch (f_header st) in
      new ← lift (convert_rows batch);
      let st := {| f_header := header; f_rows := f_rows st ++ new |} in
      if (Z.of_nat (length batch) <? fetch_size)%Z then mret (st, false)
      else portal_loop fuel txn stmt portal cap st
  end.
Definition portal_rounds (left : Z) : nat := Z.to_nat ((left + 999) / 1000).

Definition pg_execute_user_query (client : Client) (sql : string) (row_cap : option Z)
    (parameters : option (list CellValue)) (read_only : bool) : io QueryResult :=
  started ← gets instant_now;
  let cap := clamp_row_cap row_cap in
  '(st, is_truncated) ← in_transaction client read_only (fun txn =>
     '(stmt, portal) ← open_portal txn sql (from_option to_params [] parameters);
     portal_loop (portal_rounds cap) txn stmt portal cap {| f_header := ([], []); f_rows := [] |});
  elapsed ← elapsed_since started;
  mret (extended_result (f_header st) (f_rows st) elapsed is_truncated).

(** ** Streams *)

(** A consumer that asks for nothing more drops the stream and with it the
    transaction; asked once more at its end, the stream commits. *)
Definition stream_finish (rounds : nat) (txn : Txn) (w : W) : StreamOutcome * W :=
  match rounds with
  | O => (([], None), rollback_on_drop txn w)
  | S _ => let '(r, w) := run (commit txn) w in (([], Some r), w)
  end.
Definition stream_header (stmt : Statement) (batch : list Row) : StreamElement :=
  let '(columns, types) := match batch with
                           | first :: _ => column_names_and_types (row_columns first)
                           | [] => default ([], []) (stmt_columns stmt)
                           end in
  Header {| sh_columns := columns; sh_column_type_names := types |}.
Definition prepend_elements (els : list StreamElement) (o : StreamOutcome * W) : StreamOutcome * W :=
  ((els ++ fst (fst o), snd (fst o)), snd o).

(** The [loop]; every turn is one round of waiting. *)
Fixpoint stream_loop (rounds : nat) (txn : Txn) (stmt : Statement) (portal : Portal)
    (header_sent : bool) (total : Z) (w : W) : StreamOutcome * W :=
  if (EMERGENCY_MAX <=? total)%Z then stream_finish rounds txn w else
  match rounds with
  | O => (([], None), rollback_on_drop txn w)
  | S rounds =>
      let fetch_size := Z.min (EMERGENCY_MAX - total) PORTAL_BATCH_SIZE in
      match run (query_portal txn portal fetch_size) w with
      | (Err e, w) => (([], Some (Err e)), rollback_on_drop txn w)
      | (Ok batch, w) =>
          let header := if header_sent then [] else [stream_header stmt batch] in
          match convert_rows batch with
          | Err e => ((header, Some (Err e)), rollback_on_drop txn w)
          | Ok rows_out =>
              let batch_len := Z.of_nat (length batch) in
              let els := header ++ (if (0 <? batch_len)%Z then [Rows rows_out] else []) in
              prepend_elements els
                (if (batch_len <? fetch_size)%Z then stream_finish rounds txn w
                 else stream_loop rounds txn stmt portal true (total + batch_len) w)
          end
      end
  end.

Definition pg_stream_rows (client : Client) (read_only : bool) (sql : string) (rounds : nat) (w : W)
  : StreamOutcome * W :=
  match rounds with
  | O => (([], None), w)
  | S _ =>
      match run (start_transaction client read_only) w with
      | (Err e, w) => (([], Some (Err e)), w)
      | (Ok txn, w) =>
          match open_portal txn sql [] w with
          | (Err e, w) => (([], Some (Err e)), rollback_on_drop txn w)
          | (Ok (stmt, portal), w) => stream_loop rounds txn stmt portal false 0 w
          end
      end
  end.

(** ** The loop ends *)

Lemma run_eq {A} (m : eff W PgError A) w r w' :
  m w = (r, w') -> run m w = (map_err map_query_error r, w').
Proof. unfold run, eff_map_err. by intros ->. Qed.

Lemma convert_rows_length rows new : convert_rows rows = Ok new -> length new = length rows.
Proof. intros H. unfold convert_rows in H. by rewrite (collect_length _ _ H), length_fmap. Qed.

Lemma portal_rounds_pos left : (0 < left)%Z -> exists n, portal_rounds left = S n.
Proof.
  intros H. exists (Nat.pred (portal_rounds left)). unfold portal_rounds.
  pose proof (Z.div_le_lower_bound (left + 999) 1000 1). lia.
Qed.
Lemma portal_rounds_next left got : (0 < left)%Z -> (Z.min left PORTAL_BATCH_SIZE <= got)%Z ->
  portal_rounds (left - got) <= Nat.pred (portal_rounds left).
Proof.
  unfold portal_rounds, PORTAL_BATCH_SIZE. intros Hl Hg.
  Z.to_euclidean_division_equations. lia.
Qed.

(** Any two numbers of turns that reach the bound agree: the loop never runs
    out. *)
Lemma portal_loop_enough f1 f2 txn stmt portal cap st w :
  portal_rounds (cap - row_count st) <= f1 -> portal_rounds (cap - row_count st) <= f2 ->
  portal_loop f1 txn stmt portal cap st w = portal_loop f2 txn stmt portal cap st w.
Proof.
  revert f2 st w. induction f1 as [|f1 IH]; intros f2 st w H1 H2; cbn [portal_loop];
    destruct (Z.leb_spec cap (row_count st)) as [Hle|Hlt].
  - destruct f2; cbn [portal_loop]; by rewrite (proj2 (Z.leb_le _ _) Hle).
  - destruct (portal_rounds_pos (cap - row_count st)) as [n Hn]; lia.
  - destruct f2; cbn [portal_loop]; by rewrite (proj2 (Z.leb_le _ _) Hle).
  - destruct (portal_rounds_pos (cap - row_count st)) as [n Hn]; [lia|].
    destruct f2 as [|f2]; [lia|]. cbn [portal_loop].
    rewrite (proj2 (Z.leb_gt _ _) Hlt). rewrite !eff_bind_eq.
    destruct (run _ w) as [[batch|e] w']; [|done]. rewrite !eff_bind_eq.
    destruct (convert_rows batch) as [new|e] eqn:Hc; [|done]. cbn [lift].
    apply convert_rows_length in Hc.
    destruct (Z.ltb_spec (Z.of_nat (length batch)) (Z.min (cap - row_count st) PORTAL_BATCH_SIZE)); [done|].
    apply IH; unfold row_count in *; cbn [f_rows]; rewrite length_app.
    all: replace (cap - Z.of_nat (length (f_rows st) + length new))%Z
      with (cap - Z.of_nat (length (f_rows st)) - Z.of_nat (length batch))%Z by lia.
    all: etrans; [apply portal_rounds_next; lia|lia].
Qed.

(** ** What a portal delivers *)

(** The server's side of a portal: what it still has to give; a fetch gives
    as many of them as it asks for. *)
Section served.
Context (pending : Portal -> W -> list Row).
Definition serves : Prop := forall txn portal n w, (0 < n)%Z ->
  exists w', query_portal txn portal n w = (Ok (take (Z.to_nat n) (pending portal w)), w')
             /\ pending portal w' = drop (Z.to_nat n) (pending portal w).
Context (Hserves : serves).

Lemma convert_rows_app r1 r2 :
  convert_rows (r1 ++ r2) = (a ← convert_rows r1; b ← convert_rows r2; Ok (a ++ b)).
Proof. unfold convert_rows. by rewrite fmap_app, collect_app. Qed.

Definition loop_header (stmt : Statement) (cap : Z) (st : fetched) : list string * list string :=
  if (cap <=? row_count st)%Z then f_header st
  else next_header stmt [] (f_header st).

Lemma next_header_stmt stmt batch header :
  Forall (fun row => row_columns row = statement_columns stmt) batch ->
  header = ([], []) \/ header = column_names_and_types (statement_columns stmt) ->
  next_header stmt batch header = column_names_and_types (statement_columns stmt).
Proof.
  intros Hb Hh. unfold next_header, stmt_columns.
  destruct Hh as [-> | ->]; cbn [fst column_names_and_types].
  - destruct batch as [|first batch].
    + by destruct (statement_columns stmt).
    + by apply Forall_cons in Hb as [-> _].
  - destruct (statement_columns stmt) as [|c cs] eqn:Hs; cbn [fmap list_fmap]; [|done].
    destruct batch as [|first batch]; [done|]. by apply Forall_cons in Hb as [-> _].
Qed.

Lemma portal_loop_serves fuel txn stmt portal cap st w :
  portal_rounds (cap - row_count st) <= fuel ->
  Forall (fun row => row_columns row = statement_columns stmt) (pending portal w) ->
  f_header st = ([], []) \/ f_header st = column_names_and_types (statement_columns stmt) ->
  let all := pending portal w in
  match convert_rows (take (Z.to_nat (cap - row_count st)) all) with
  | Err e => exists w', portal_loop fuel txn stmt portal cap st w = (Err e, w')
  | Ok new => exists w', portal_loop fuel txn stmt portal cap st w
      = (Ok ({| f_header := if (cap <=? row_count st)%Z then f_header st
                            else column_names_and_types (statement_columns stmt);
                f_rows := f_rows st ++ new |},
             bool_decide (cap <= row_count st + Z.of_nat (length all))%Z), w')
  end.
Proof.
  cbn zeta. revert st w. induction fuel as [|fuel IH]; intros st w Hfuel Hcols Hh; cbn [portal_loop];
    destruct (Z.leb_spec cap (row_count st)) as [Hle|Hlt].
  1, 3: replace (Z.to_nat (cap - row_count st)) with 0 by lia; cbn [take]; exists w;
    rewrite app_nil_r, bool_decide_true by lia; by destruct st.
  { destruct (portal_rounds_pos (cap - row_count st)) as [n Hn]; lia. }
  set (left := (cap - row_count st)%Z) in *. set (n := Z.min left PORTAL_BATCH_SIZE).
  assert (0 < n <= left)%Z as Hn by (subst n; unfold PORTAL_BATCH_SIZE; lia).
  destruct (Hserves txn portal n w) as (w' & Hq & Hpend); [lia|].
  rewrite eff_bind_eq. unfold run, eff_map_err. rewrite Hq. cbn [map_err].
  set (all := pending portal w) in *.
  assert (take (Z.to_nat left) all
          = take (Z.to_nat n) all ++ take (Z.to_nat (left - n)) (drop (Z.to_nat n) all)) as ->.
  { replace (Z.to_nat left) with (Z.to_nat n + Z.to_nat (left - n)) by lia.
    by rewrite take_take_drop. }
  rewrite convert_rows_app, eff_bind_eq.
  destruct (convert_rows (take (Z.to_nat n) all)) as [new|e] eqn:Hc; cbn [mbind result_bind lift];
    [|by exists w'].
  pose proof (convert_rows_length _ _ Hc) as Hlen. rewrite length_take in Hlen |- *.
  rewrite next_header_stmt by (by try apply Forall_take).
  destruct (Z.ltb_spec (Z.of_nat (Z.to_nat n `min` length all)) n) as [Hshort|Hfull].
  - rewrite (drop_ge all) by lia. rewrite take_nil. cbn. exists w'.
    rewrite app_nil_r, bool_decide_false by lia. done.
  - set (st' := {| f_header := _; f_rows := f_rows st ++ new |}).
    assert (row_count st' = row_count st + n)%Z as Hst'.
    { unfold row_count. cbn [f_rows st']. rewrite length_app. lia. }
    specialize (IH st' w'). rewrite Hpend, Hst' in IH.
    replace (cap - (row_count st + n))%Z with (left - n)%Z in IH by lia.
    assert (portal_rounds (left - n) <= fuel) as Hf.
    { etrans; [apply portal_rounds_next; lia|lia]. }
    specialize (IH Hf (Forall_drop _ _ _ Hcols) (or_intror eq_refl)).
    destruct (convert_rows (take (Z.to_nat (left - n)) _)) as [more|e]; cbn [mbind result_bind];
      destruct IH as [w'' IH]; exists w''; rewrite IH; [|done].
    cbn [f_rows f_header st']. rewrite <-app_assoc. repeat f_equal; [by destruct (cap <=? _)%Z|].
    apply bool_decide_ext. rewrite length_drop. lia.
Qed.


(** *** Streams *)

Definition batch_rows (e : StreamElement) : list (list CellValue) :=
  match e with Rows rows => rows | Header _ => [] end.
Definition is_batch (e : StreamElement) : Prop :=
  match e with
  | Rows rows => (0 < Z.of_nat (length rows) <= PORTAL_BATCH_SIZE)%Z
  | Header _ => False
  end.

(** The header looks at the first row only. *)
Lemma stream_header_take stmt (all : list Row) n m :
  0 < n -> 0 < m -> stream_header stmt (take n all) = stream_header stmt (take m all).
Proof. destruct all, n, m; intros; try lia; done. Qed.
Lemma batch_now (out : list (list CellValue)) k :
  length out = k -> (Z.of_nat k <= PORTAL_BATCH_SIZE)%Z ->
  let now := if (0 <? Z.of_nat k)%Z then [Rows out] else [] in
  Forall is_batch now /\ concat (batch_rows <$> now) = out.
Proof.
  intros Hlen Hk now. subst now. destruct (Z.ltb_spec 0 (Z.of_nat k)).
  - split; [|cbn; by rewrite app_nil_r]. apply Forall_singleton. cbn [is_batch]. lia.
  - split; [done|]. destruct out; [done|cbn in Hlen; lia].
Qed.

Lemma stream_loop_serves rounds txn stmt portal hs total w new :
  portal_rounds (EMERGENCY_MAX - total) < rounds -> (total < EMERGENCY_MAX)%Z \/ hs = true ->
  convert_rows (take (Z.to_nat (EMERGENCY_MAX - total)) (pending portal w)) = Ok new ->
  exists batches w', 
    stream_loop rounds txn stmt portal hs total w
    = (((if hs then [] else [stream_header stmt (take (Z.to_nat PORTAL_BATCH_SIZE) (pending portal w))])
        ++ batches, Some (fst (run (commit txn) w'))), snd (run (commit txn) w'))
    /\ Forall is_batch batches /\ concat (batch_rows <$> batches) = new.
Proof.
  revert hs total w new. induction rounds as [|rounds IH]; intros hs total w new Hr Hhs Hnew; [lia|].
  cbn [stream_loop]. destruct (Z.leb_spec EMERGENCY_MAX total) as [Hle|Hlt].
  { destruct Hhs as [?| ->]; [lia|]. replace (Z.to_nat (EMERGENCY_MAX - total)) with 0 in Hnew by lia.
    injection Hnew as <-. exists [], w. cbn [stream_finish app].
    by destruct (run (commit txn) w). }
  set (left := (EMERGENCY_MAX - total)%Z) in *. set (n := Z.min left PORTAL_BATCH_SIZE).
  assert (0 < n <= left)%Z as Hn by (subst n; unfold PORTAL_BATCH_SIZE; lia).
  destruct (Hserves txn portal n w) as (w' & Hq & Hpend); [lia|].
  unfold run at 1, eff_map_err. rewrite Hq. cbn [map_err].
  set (all := pending portal w) in *.
  assert (take (Z.to_nat left) all
          = take (Z.to_nat n) all ++ take (Z.to_nat (left - n)) (drop (Z.to_nat n) all)) as Hsplit.
  { replace (Z.to_nat left) with (Z.to_nat n + Z.to_nat (left - n)) by lia.
    by rewrite take_take_drop. }
  rewrite Hsplit, convert_rows_app in Hnew.
  destruct (convert_rows (take (Z.to_nat n) all)) as [out|e] eqn:Hc; [|done].
  cbn [mbind result_bind] in Hnew. pose proof (convert_rows_length _ _ Hc) as Hlen.
  rewrite length_take in Hlen |- *.
  rewrite (stream_header_take stmt all (Z.to_nat n) (Z.to_nat PORTAL_BATCH_SIZE))
    by (unfold PORTAL_BATCH_SIZE; lia).
  set (head := if hs then [] else _).
  destruct (batch_now out _ Hlen) as [Hnow Hcat]; [lia|].
  set (now := if (0 <? _)%Z then [Rows out] else []) in *.
  destruct (Z.ltb_spec (Z.of_nat (Z.to_nat n `min` length all)) n) as [Hshort|Hfull].
  - rewrite (drop_ge all), take_nil in Hnew by lia. injection Hnew as <-.
    destruct (portal_rounds_pos left) as [k Hk]; [lia|]. destruct rounds as [|rounds]; [lia|].
    cbn [stream_finish]. exists now, w'. unfold prepend_elements.
    destruct (run (commit txn) w') as [r w'']. cbn. by rewrite !app_nil_r.
  - replace (total + Z.of_nat (Z.to_nat n `min` length all))%Z with (total + n)%Z by lia.
    destruct (convert_rows (take (Z.to_nat (left - n)) _)) as [more|e] eqn:Hmore; [|done].
    injection Hnew as <-.
    destruct (IH true (total + n)%Z w' more) as (bs & w'' & Heq & Hbs & Hcat').
    + replace (EMERGENCY_MAX - (total + n))%Z with (left - n)%Z by lia.
      destruct (portal_rounds_pos left) as [k Hk]; [lia|].
      pose proof (portal_rounds_next left n ltac:(lia) ltac:(lia)). lia.
    + by right.
    + replace (EMERGENCY_MAX - (total + n))%Z with (left - n)%Z by lia. by rewrite Hpend.
    + rewrite Heq. exists (now ++ bs), w''. unfold prepend_elements. cbn [fst snd app].
      rewrite app_assoc. split; [done|]. split; [by apply Forall_app|].
      by rewrite fmap_app, concat_app, Hcat, Hcat'.
Qed.

End served.
End query.

(** ** What the server is asked *)

Inductive PgEvent :=
  | EConnect (opened : bool) | EAbort | ECancel | ESimple (sql : string) | EQuery (sql : string)
  | EStart (read_only : bool) | EPrepare (sql : string) | EBind | EFetch (max_rows : Z)
  | ECommit | ERollback.

(** A server that remembers what it was asked, in order. *)
Class PgLog (W Client Connector CancelToken Txn Statement Portal Row PgError Foreign : Type)
    `{PgLib W Client Connector CancelToken Txn Statement Portal Row PgError Foreign} := {
  events : W -> list PgEvent;
  events_connect c tls w :
    events (snd (pg_connect (W := W) c tls w))
    = events w ++ [EConnect (is_ok (fst (pg_connect (W := W) c tls w)))];
  events_abort c w : events (abort_connection c w) = events w ++ [EAbort];
  events_simple c sql w : events (snd (simple_query c sql w)) = events w ++ [ESimple sql];
  events_query c sql ps w : events (snd (query c sql ps w)) = events w ++ [EQuery sql];
  events_query_one c sql ps w : events (snd (query_one c sql ps w)) = events w ++ [EQuery sql];
  events_start c ro w : events (snd (start_transaction c ro w)) = events w ++ [EStart ro];
  events_prepare t sql w : events (snd (prepare t sql w)) = events w ++ [EPrepare sql];
  events_bind t s ps w : events (snd (bind t s ps w)) = events w ++ [EBind];
  events_fetch t p n w : events (snd (query_portal t p n w)) = events w ++ [EFetch n];
  events_commit t w : events (snd (commit t w)) = events w ++ [ECommit];
  events_rollback t w : events (rollback_on_drop t w) = events w ++ [ERollback];
}.

(** What may happen between the start of a transaction and its end: the
    statement and fetches that are bounded, never the unlimited fetch of a
    zero. *)
Definition inside (sql : string) (e : PgEvent) : Prop :=
  match e with
  | EPrepare s => s = sql
  | EBind => True
  | EFetch n => (0 < n <= PORTAL_BATCH_SIZE)%Z
  | _ => False
  end.
(** How a transaction goes on after its start; [ok]: with success. *)
Definition transacted (sql : string) (ok : bool) (new : list PgEvent) : Prop :=
  (ok = false /\ new = [])
  \/ exists inner e, new = inner ++ [e] /\ Forall (inside sql) inner
                    /\ (e = ECommit \/ ok = false /\ e = ERollback).

Section log.
Context {W Client Connector CancelToken Txn Statement Portal Row PgError Foreign : Type}.
Context `{!PgLib W Client Connector CancelToken Txn Statement Portal Row PgError Foreign}.
Context `{!PgLog W Client Connector CancelToken Txn Statement Portal Row PgError Foreign}.
#[local] Abbreviation io := (eff W DriverError).

Lemma run_events {A} (m : eff W PgError A) w : events (snd (run m w)) = events (snd (m w)).
Proof. unfold run, eff_map_err. by destruct (m w). Qed.
Lemma emits_run {A} (Q : PgEvent -> Prop) (m : eff W PgError A) e :
  (forall w, events (snd (m w)) = events w ++ [e]) -> Q e -> emits events Q (run m).
Proof. intros Hm HQ w. exists [e]. by rewrite run_events, Hm, Forall_singleton. Qed.

Lemma open_portal_inside txn sql ps : emits events (inside sql) (open_portal txn sql ps).
Proof.
  unfold open_portal. apply emits_bind; [|intros stmt].
  - apply emits_run with (EPrepare sql); [apply events_prepare|done].
  - apply emits_bind; [|by intros portal; apply emits_ret].
    apply emits_run with EBind; [apply events_bind|done].
Qed.

Lemma fetch_inside sql txn portal n : (0 < n)%Z ->
  emits events (inside sql) (run (query_portal txn portal (Z.min n PORTAL_BATCH_SIZE))).
Proof.
  intros Hn. apply emits_run with (EFetch (Z.min n PORTAL_BATCH_SIZE)); [apply events_fetch|].
  cbn [inside]. unfold PORTAL_BATCH_SIZE. lia.
Qed.

Lemma portal_loop_inside sql fuel txn stmt portal cap st :
  emits events (inside sql) (portal_loop fuel txn stmt portal cap st).
Proof.
  revert st. induction fuel as [|fuel IH]; intros st; cbn [portal_loop];
    destruct (Z.leb_spec cap (row_count st)); try apply emits_ret.
  apply emits_bind; [apply fetch_inside; lia|intros batch].
  apply emits_bind; [apply emits_lift|intros new]. case_match; [apply emits_ret|apply IH].
Qed.

Lemma in_transaction_log {A} sql client read_only (body : Txn -> io A) w :
  (forall txn, emits events (inside sql) (body txn)) ->
  exists new, events (snd (in_transaction client read_only body w)) = events w ++ EStart read_only :: new
              /\ transacted sql (is_ok (fst (in_transaction client read_only body w))) new.
Proof.
  intros Hbody. unfold in_transaction. rewrite eff_bind_eq.
  pose proof (run_events (start_transaction client read_only) w) as Hs. rewrite events_start in Hs.
  destruct (run (start_transaction client read_only) w) as [[txn|e] w1]; cbn [snd fst] in *.
  2: { exists []. rewrite Hs. split; [done|by left]. }
  destruct (Hbody txn w1) as (inner & Hi & Hin).
  destruct (body txn w1) as [[a|e] w2]; cbn [snd] in Hi.
  - rewrite eff_bind_eq. pose proof (run_events (commit txn) w2) as Hc. rewrite events_commit in Hc.
    exists (inner ++ [ECommit]).
    destruct (run (commit txn) w2) as [[[]|e] w3]; cbn [fst snd mret eff_ret is_ok] in *;
      rewrite Hc, Hi, Hs, <-!app_assoc; (split; [done|]);
      right; exists inner, ECommit; by repeat split; auto.
  - cbn [fst snd is_ok]. exists (inner ++ [ERollback]).
    rewrite events_rollback, Hi, Hs, <-!app_assoc. split; [done|].
    right. exists inner, ERollback. by repeat split; auto.
Qed.

Lemma user_query_log client sql row_cap parameters read_only w :
  exists new,
    events (snd (pg_execute_user_query client sql row_cap parameters read_only w))
    = events w ++ EStart read_only :: new
    /\ transacted sql
         (is_ok (fst (pg_execute_user_query client sql row_cap parameters read_only w))) new.
Proof.
  unfold pg_execute_user_query, gets. rewrite eff_bind_eq.
  set (body := fun txn : Txn => _). rewrite eff_bind_eq.
  destruct (in_transaction_log sql client read_only body w) as (new & Hnew & Htx).
  { intros txn. apply emits_bind; [apply open_portal_inside|intros [stmt portal]].
    apply portal_loop_inside. }
  exists new. by destruct (in_transaction client read_only body w) as [[[st b]|e] w'].
Qed.

(** *** Streams *)

Definition stream_ok (o : StreamOutcome) : bool :=
  match snd o with Some (Ok _) => true | _ => false end.

Lemma stream_finish_log rounds txn w :
  exists e, events (snd (stream_finish rounds txn w)) = events w ++ [e]
            /\ (e = ECommit \/ stream_ok (fst (stream_finish rounds txn w)) = false /\ e = ERollback).
Proof.
  destruct rounds; cbn [stream_finish].
  - exists ERollback. rewrite <-events_rollback with (t := txn). by auto.
  - exists ECommit. pose proof (run_events (commit txn) w) as Hc. rewrite events_commit in Hc.
    destruct (run (commit txn) w). by auto.
Qed.

Lemma stream_loop_log sql rounds txn stmt portal hs total w :
  exists inner e,
    events (snd (stream_loop rounds txn stmt portal hs total w)) = events w ++ inner ++ [e]
    /\ Forall (inside sql) inner
    /\ (e = ECommit \/ stream_ok (fst (stream_loop rounds txn stmt portal hs total w)) = false
                       /\ e = ERollback).
Proof.
  revert hs total w. induction rounds as [|rounds IH]; intros hs total w; cbn [stream_loop];
    destruct (Z.leb_spec EMERGENCY_MAX total).
  1, 3: match goal with |- context [stream_finish ?r ?t ?w] =>
          destruct (stream_finish_log r t w) as (e & He & Hend); exists [], e; by auto end.
  - exists [], ERollback. cbn [fst snd]. rewrite events_rollback. by auto.
  - destruct (fetch_inside sql txn portal (EMERGENCY_MAX - total)%Z) with (s := w)
      as (f & Hf & Hin); [lia|].
    destruct (run (query_portal txn portal _) w) as [[batch|e] w1]; cbn [snd] in Hf.
    2: { exists f, ERollback. cbn [fst snd]. rewrite events_rollback, Hf, <-app_assoc. by auto. }
    destruct (convert_rows batch) as [out|e].
    2: { exists f, ERollback. cbn [fst snd]. rewrite events_rollback, Hf, <-app_assoc. by auto. }
    unfold prepend_elements. destruct (Z.of_nat (length batch) <? _)%Z.
    + destruct (stream_finish_log rounds txn w1) as (e & He & Hend). exists f, e.
      cbn [fst snd stream_ok]. rewrite He, Hf, <-app_assoc. by auto.
    + destruct (IH true (total + Z.of_nat (length batch))%Z w1) as (inner & e & He & Hi & Hend).
      exists (f ++ inner), e. cbn [fst snd stream_ok]. rewrite He, Hf, <-!app_assoc.
      split; [done|]. split; [by apply Forall_app|done].
Qed.

Lemma stream_log client read_only sql rounds w :
  rounds = 0 \/ exists new,
    events (snd (pg_stream_rows client read_only sql rounds w)) = events w ++ EStart read_only :: new
    /\ transacted sql (stream_ok (fst (pg_stream_rows client read_only sql rounds w))) new.
Proof.
  destruct rounds as [|rounds]; [by left|right]. unfold pg_stream_rows.
  pose proof (run_events (start_transaction client read_only) w) as Hs. rewrite events_start in Hs.
  destruct (run (start_transaction client read_only) w) as [[txn|e] w1]; cbn [snd fst] in *.
  2: { exists []. rewrite Hs. split; [done|by left]. }
  destruct (open_portal_inside txn sql [] w1) as (o & Ho & Hin).
  destruct (open_portal txn sql [] w1) as [[[stmt portal]|e] w2]; cbn [snd] in Ho.
  - destruct (stream_loop_log sql (S rounds) txn stmt portal false 0 w2) as (inner & e & He & Hi & Hend).
    exists ((o ++ inner) ++ [e]). rewrite He, Ho, Hs, <-!app_assoc. split; [done|].
    right. exists (o ++ inner), e. rewrite <-app_assoc. split; [done|]. split; [by apply Forall_app|done].
  - exists (o ++ [ERollback]). cbn [snd fst]. rewrite events_rollback, Ho, Hs, <-!app_assoc.
    split; [done|]. right. exists o, ERollback. by auto.
Qed.

(** ** The loop ends, whatever the server answers *)

Lemma portal_loop_rounds sql fuel txn stmt portal cap st w :
  exists new, events (snd (portal_loop fuel txn stmt portal cap st w)) = events w ++ new
              /\ Forall (inside sql) new /\ length new <= fuel.
Proof.
  revert st w. induction fuel as [|fuel IH]; intros st w; cbn [portal_loop];
    destruct (Z.leb_spec cap (row_count st)).
  1, 2, 3: exists []; rewrite app_nil_r; cbn; by auto with lia.
  rewrite eff_bind_eq.
  pose proof (run_events (query_portal txn portal (Z.min (cap - row_count st) PORTAL_BATCH_SIZE)) w) as Hf.
  rewrite events_fetch in Hf.
  assert (Forall (inside sql) [EFetch (Z.min (cap - row_count st) PORTAL_BATCH_SIZE)]) as Hin.
  { apply Forall_singleton. cbn [inside]. unfold PORTAL_BATCH_SIZE. lia. }
  set (fetch := EFetch _) in *.
  destruct (run (query_portal txn portal _) w) as [[batch|e] w1]; cbn [snd] in Hf.
  2: { exists [fetch]. cbn. by auto with lia. }
  rewrite eff_bind_eq. destruct (convert_rows batch) as [new|e]; cbn [lift].
  2: { exists [fetch]. cbn. by auto with lia. }
  case_match; [exists [fetch]; cbn; by auto with lia|].
  edestruct IH as (more & Hmore & Hi & Hl). exists (fetch :: more). rewrite Hmore, Hf, <-app_assoc.
  split; [done|]. split; [|cbn; lia]. by apply (Forall_app_2 _ [fetch]).
Qed.

(** C19: the loop of a user query ends after at most one fetch per thousand
    rows of its cap, whatever the server answers, more rows than asked for
    included: no number of further turns changes what it returns, and it
    sends nothing but those fetches, each of one to a thousand rows. *)
Theorem portal_loop_terminates (sql : string) (extra : nat) (txn : Txn) (stmt : Statement)
    (portal : Portal) (cap : Z) (st : fetched) (w : W) :
  let needed := portal_rounds (cap - row_count st) in
  portal_loop (needed + extra) txn stmt portal cap st w = portal_loop needed txn stmt portal cap st w
  /\ exists new, events (snd (portal_loop (needed + extra) txn stmt portal cap st w)) = events w ++ new
                 /\ Forall (inside sql) new /\ length new <= needed.
Proof.
  intros needed. assert (portal_loop (needed + extra) txn stmt portal cap st w
                         = portal_loop needed txn stmt portal cap st w) as Heq
    by (apply portal_loop_enough; subst needed; lia).
  split; [done|]. rewrite Heq. apply portal_loop_rounds.
Qed.

(** *** Opening and closing connections *)

(** What a call under the read lock asks: statements of its own. *)
Definition plain (e : PgEvent) : Prop :=
  match e with ESimple _ | EQuery _ => True | _ => False end.
(** Everything but the opening and closing of connections. *)
Definition quiet (e : PgEvent) : Prop :=
  match e with EConnect _ | EAbort => False | _ => True end.
Lemma plain_quiet e : plain e -> quiet e.
Proof. by destruct e. Qed.
#[local] Abbreviation calm := (emits (E := DriverError) events plain).

Lemma transacted_quiet sql ok new : transacted sql ok new -> Forall quiet new.
Proof.
  intros [[_ ->] | (inner & e & -> & Hin & He)]; [done|].
  apply Forall_app. split; [|apply Forall_singleton; by destruct He as [-> | [_ ->]]].
  eapply Forall_impl; [exact Hin|]. by intros [].
Qed.

Lemma emits_lib {A} (m : eff W PgError A) e :
  (forall w, events (snd (m w)) = events w ++ [e]) -> plain e -> emits events plain m.
Proof. intros Hm He w. exists [e]. by rewrite Hm, Forall_singleton. Qed.
Lemma simple_query_plain c sql : emits events plain (simple_query (W := W) c sql).
Proof. by apply emits_lib with (ESimple sql); [apply events_simple|]. Qed.
Lemma query_plain c sql ps : emits events plain (query (W := W) c sql ps).
Proof. by apply emits_lib with (EQuery sql); [apply events_query|]. Qed.
Lemma query_one_plain c sql ps : emits events plain (query_one (W := W) c sql ps).
Proof. by apply emits_lib with (EQuery sql); [apply events_query_one|]. Qed.
Lemma run_plain {A} (m : eff W PgError A) : emits events plain m -> calm (run m).
Proof. apply emits_map_err. Qed.

Lemma pg_execute_calm c sql : calm (pg_execute c sql).
Proof.
  unfold pg_execute. apply emits_bind; [apply emits_gets|intros started].
  apply emits_bind; [apply run_plain, simple_query_plain|intros messages].
  destruct (foldl _ _ _) as [[cs rs] n]. apply emits_bind; [apply emits_gets|intros; apply emits_ret].
Qed.
Lemma pg_execute_parameterized_calm c sql ps : calm (pg_execute_parameterized c sql ps).
Proof.
  unfold pg_execute_parameterized. apply emits_bind; [apply emits_gets|intros started].
  apply emits_bind; [apply run_plain, query_plain|intros rows].
  apply emits_bind; [apply emits_lift|intros new].
  apply emits_bind; [apply emits_gets|intros; apply emits_ret].
Qed.
Lemma pg_execute_user_query_calm c sql cap ps ro :
  emits events quiet (pg_execute_user_query c sql cap ps ro).
Proof.
  intros w. destruct (user_query_log c sql cap ps ro w) as (new & Hnew & Htx).
  exists (EStart ro :: new). split; [done|]. constructor; [done|by eapply transacted_quiet].
Qed.
Lemma stream_calm c ro sql rounds w :
  exists new, events (snd (pg_stream_rows c ro sql rounds w)) = events w ++ new /\ Forall quiet new.
Proof.
  destruct (stream_log c ro sql rounds w) as [-> | (new & Hnew & Htx)].
  - exists []. by rewrite app_nil_r.
  - exists (EStart ro :: new). split; [done|]. constructor; [done|by eapply transacted_quiet].
Qed.
End log.

#[export] Hint Resolve simple_query_plain query_plain query_one_plain run_plain pg_execute_calm
  pg_execute_parameterized_calm pg_execute_user_query_calm : dbmcp.

(** ** A concrete server *)

(** One table of numbers: a portal of any statement delivers what is left of
    it; nothing fails. *)
Definition table_world : Type := list PgEvent * list Z.
Definition tell (e : PgEvent) (w : table_world) : table_world := (fst w ++ [e], snd w).
Definition table_columns : list Column :=
  [{| column_name := "n"; column_type := {| ty_tag := INT4; ty_name := "int4"; ty_oid := 23 |} |}].
#[export] Instance table_server {Connector}
  : PgLib table_world nat Connector nat unit unit unit Z string unit := {|
  pg_connect _ _ w := (Ok (length (fst w)), tell (EConnect true) w);
  abort_connection _ := tell EAbort;
  client_cancel_token c := c;
  token_cancel_query _ _ w := (Ok tt, w);
  simple_query _ sql w := (Ok [SimpleRow [Some "16.2"]], tell (ESimple sql) w);
  query _ sql _ w := (Ok (snd w), tell (EQuery sql) w);
  query_one _ sql _ w := (Ok 0%Z, tell (EQuery sql) w);
  start_transaction _ ro w := (Ok tt, tell (EStart ro) w);
  prepare _ sql w := (Ok tt, tell (EPrepare sql) w);
  bind _ _ _ w := (Ok tt, tell EBind w);
  query_portal _ _ n w :=
    (Ok (take (Z.to_nat n) (snd w)), (fst w ++ [EFetch n], drop (Z.to_nat n) (snd w)));
  commit _ w := (Ok tt, tell ECommit w);
  rollback_on_drop _ := tell ERollback;
  statement_columns _ := table_columns;
  row_columns _ := table_columns;
  try_get t row _ := match t return result string (option (rust_value unit t)) with
                     | RI32 => Ok (Some row)
                     | RString => Ok (Some (pretty row))
                     | _ => Ok None
                     end;
  was_null _ := "null"; err_code _ := None; as_db_error _ := None; err_to_string e := e;
  foreign_to_string _ _ := EmptyString; chrono_format _ _ := EmptyString; to_rfc3339 _ := EmptyString;
  instant_now w := Z.of_nat (length (fst w)) |}.
#[export] Instance table_log {Connector} :
  PgLog table_world nat Connector nat unit unit unit Z string unit.
Proof. by refine {| events w := fst w |}. Defined.
Lemma table_serves {Connector} :
  serves (PgLib0 := table_server (Connector := Connector)) (fun _ w => snd w).
Proof. intros txn portal n w _. by eexists. Qed.


