(* ===== verification/PostgresSchema.v ===== *)
(** * Schema queries of the PostgreSQL driver (crates/driver-postgres:
    schema.rs)

    Every function takes the library's client; what the catalogue answers is
    the library's [query].  The texts of the longer queries come first. *)
From S2P Require Import Prelude RustStr Core PostgresText PostgresQuery.

(** ** The catalogue queries *)

Definition TABLES_SQL : string := "
        SELECT c.relname,
               c.relkind::text,
               obj_description(c.oid, 'pg_class') AS comment,
               CASE WHEN c.reltuples < 0 THEN NULL ELSE round(c.reltuples)::bigint END AS row_estimate
        FROM pg_class c
        JOIN pg_namespace n ON n.oid = c.relnamespace
        WHERE n.nspname = $1 AND c.relkind IN ('r', 'v', 'm', 'p', 'f')
        ORDER BY c.relname
    ".
Definition COLUMNS_SQL : string := "
        SELECT col.column_name,
               col.data_type,
               col.udt_name,
               col.is_nullable,
               col.column_default,
               col.character_set_name,
               col.collation_name,
               col.is_identity,
               col.identity_generation,
               col.is_generated,
               col_description(
                   (quote_ident(col.table_schema) || '.' || quote_ident(col.table_name))::regclass,
                   col.ordinal_position
               ) AS comment
        FROM information_schema.columns col
        WHERE col.table_name = $1 AND col.table_schema = $2
        ORDER BY col.ordinal_position
    ".
Definition PRIMARY_KEY_SQL : string := "
        SELECT kcu.column_name
        FROM information_schema.table_constraints tc
        JOIN information_schema.key_column_usage kcu
          ON tc.constraint_name = kcu.constraint_name
         AND tc.constraint_schema = kcu.constraint_schema
        WHERE tc.constraint_type = 'PRIMARY KEY'
          AND tc.table_name = $1
          AND tc.table_schema = $2
    ".
Definition ENUM_LABELS_SQL : string := "
        SELECT e.enumlabel
        FROM pg_type t
        JOIN pg_enum e ON e.enumtypid = t.oid
        WHERE t.typname = $1
        ORDER BY e.enumsortorder
    ".
Definition INDEXES_SQL : string := "
        SELECT ix.relname AS index_name,
               i.indisunique,
               i.indisprimary,
               am.amname AS method,
               array_agg(a.attname::text ORDER BY k.ord) AS columns
        FROM pg_index i
        JOIN pg_class t ON t.oid = i.indrelid
        JOIN pg_class ix ON ix.oid = i.indexrelid
        JOIN pg_namespace n ON n.oid = t.relnamespace
        JOIN pg_am am ON am.oid = ix.relam
        JOIN LATERAL unnest(i.indkey) WITH ORDINALITY AS k(attnum, ord) ON true
        JOIN pg_attribute a ON a.attrelid = t.oid AND a.attnum = k.attnum
        WHERE t.relname = $1 AND n.nspname = $2
        GROUP BY ix.relname, i.indisunique, i.indisprimary, am.amname
        ORDER BY ix.relname
    ".
Definition FOREIGN_KEYS_SQL : string := "
        SELECT con.conname AS constraint_name,
               att2.attname AS column_name,
               cl.relname AS referenced_table,
               ns2.nspname AS referenced_schema,
               att.attname AS referenced_column,
               con.confupdtype::text AS update_code,
               con.confdeltype::text AS delete_code
        FROM pg_constraint con
        JOIN pg_class rel ON rel.oid = con.conrelid
        JOIN pg_namespace relns ON relns.oid = rel.relnamespace
        JOIN pg_class cl ON cl.oid = con.confrelid
        JOIN pg_namespace ns2 ON ns2.oid = cl.relnamespace
        JOIN LATERAL unnest(con.conkey, con.confkey) WITH ORDINALITY AS pos(conkey, confkey, ord)
          ON true
        JOIN pg_attribute att2 ON att2.attrelid = con.conrelid AND att2.attnum = pos.conkey
        JOIN pg_attribute att ON att.attrelid = con.confrelid AND att.attnum = pos.confkey
        WHERE con.contype = 'f' AND rel.relname = $1 AND relns.nspname = $2
        ORDER BY con.conname, pos.ord
    ".
Definition TRIGGERS_SQL : string := "
        SELECT trigger_name, event_manipulation, action_timing, action_statement
        FROM information_schema.triggers
        WHERE event_object_table = $1 AND event_object_schema = $2
        ORDER BY trigger_name, event_manipulation
    ".
Definition TABLE_DDL_SQL : string := "
        SELECT a.attname,
               format_type(a.atttypid, a.atttypmod) AS formatted_type,
               a.attnotnull,
               pg_get_expr(d.adbin, d.adrelid) AS default_expr
        FROM pg_attribute a
        JOIN pg_class c ON c.oid = a.attrelid
        JOIN pg_namespace n ON n.oid = c.relnamespace
        LEFT JOIN pg_attrdef d ON d.adrelid = a.attrelid AND d.adnum = a.attnum
        WHERE c.relname = $1 AND n.nspname = $2 AND a.attnum > 0 AND NOT a.attisdropped
        ORDER BY a.attnum
    ".
Definition PRIMARY_KEY_ORDERED_SQL : string := "
        SELECT a.attname
        FROM pg_index i
        JOIN pg_class t ON t.oid = i.indrelid
        JOIN pg_namespace n ON n.oid = t.relnamespace
        JOIN LATERAL unnest(i.indkey) WITH ORDINALITY AS k(attnum, ord) ON true
        JOIN pg_attribute a ON a.attrelid = t.oid AND a.attnum = k.attnum
        WHERE i.indisprimary AND t.relname = $1 AND n.nspname = $2
        ORDER BY k.ord
    ".

(** ** Reading rows *)

Section schema.
Context {W Client Connector CancelToken Txn Statement Portal Row PgError Foreign : Type}.
Context `{!PgLib W Client Connector CancelToken Txn Statement Portal Row PgError Foreign}.
#[local] Abbreviation io := (eff W DriverError).

Definition column_error (column : string) (err : PgError) : DriverError :=
  DriverError_new Internal
    ("failed to read column " +:+ in_dquotes column +:+ " from a schema-introspection query: "
     +:+ err_to_string err).
(** [try_get] at a type that is not an [Option]. *)
Definition try_get_some (t : RustType) (row : Row) (idx : nat) : result PgError (rust_value Foreign t) :=
  match try_get t row idx with
  | Ok (Some value) => Ok value
  | Ok None => Err (was_null idx)
  | Err err => Err err
  end.
Definition get_required (t : RustType) (row : Row) (idx : nat) (column : string)
  : DriverResult (rust_value Foreign t) :=
  map_err (column_error column) (try_get_some t row idx).
Definition get_optional (t : RustType) (row : Row) (idx : nat) (column : string)
  : DriverResult (option (rust_value Foreign t)) :=
  map_err (column_error column) (try_get t row idx).
Definition get_string (row : Row) (idx : nat) (column : string) : DriverResult string :=
  get_required RString row idx column.
Definition get_opt_string (row : Row) (idx : nat) (column : string) : DriverResult (option string) :=
  get_optional RString row idx column.
Definition get_yes_no (row : Row) (idx : nat) (column : string) : DriverResult bool :=
  s ← get_string row idx column;
  Ok (bool_decide (to_ascii_lowercase s = "yes")).
Definition get_opt_i64 (row : Row) (idx : nat) (column : string) : DriverResult (option Z) :=
  get_optional RI64 row idx column.
Definition get_bool (row : Row) (idx : nat) (column : string) : DriverResult bool :=
  get_required RBool row idx column.

(** A query whose rows are decoded one by one. *)
Definition decoded_rows {A} (client : Client) (sql : string) (parameters : list PgParam)
    (decode : Row -> DriverResult A) : io (list A) :=
  rows ← run (query client sql parameters);
  lift (collect (decode <$> rows)).
Definition table_params (table schema : string) : list PgParam := [str_param table; str_param schema].

Definition pg_fetch_databases (client : Client) : io (list string) :=
  decoded_rows client
    "SELECT datname FROM pg_database WHERE datistemplate = false ORDER BY datname" []
    (fun row => get_string row 0 "datname").
Definition pg_fetch_schemas (client : Client) : io (list string) :=
  decoded_rows client
    "SELECT schema_name FROM information_schema.schemata ORDER BY schema_name" []
    (fun row => get_string row 0 "schema_name").
Definition simple (client : Client) (sql : string) : io unit :=
  _ ← run (simple_query client sql); mret tt.
Definition pg_switch_schema_query (client : Client) (schema : string) : io unit :=
  simple client ("SET search_path TO " +:+ quote_ident schema).

Definition table_kind_from_relkind (relkind : string) : TableKind :=
  if decide (relkind = "v") then View else if decide (relkind = "m") then MaterializedView else Table.
Definition table_info_from_row (schema : string) (row : Row) : DriverResult TableInfo :=
  name ← get_string row 0 "relname";
  relkind ← get_string row 1 "relkind";
  comment ← get_opt_string row 2 "comment";
  row_count_estimate ← get_opt_i64 row 3 "row_estimate";
  Ok {| ti_name := name; ti_schema := Some schema; ti_kind := table_kind_from_relkind relkind;
        ti_comment := comment; ti_row_count_estimate := row_count_estimate |}.
Definition pg_fetch_tables (client : Client) (schema : string) : io (list TableInfo) :=
  decoded_rows client TABLES_SQL [str_param schema] (table_info_from_row schema).

Definition fetch_primary_key_columns (client : Client) (table schema : string) : io (list string) :=
  decoded_rows client PRIMARY_KEY_SQL (table_params table schema)
    (fun row => get_string row 0 "column_name").
Definition fetch_enum_labels (client : Client) (udt_name : string) : io (list string) :=
  decoded_rows client ENUM_LABELS_SQL [str_param udt_name] (fun row => get_string row 0 "enumlabel").

(** The [try_get]s at the top of the loop of [fetch_columns]. *)
Record RawColumn := {
  rc_name : string; rc_data_type : string; rc_udt_name : string; rc_is_nullable : bool;
  rc_default_value : option string; rc_charset : option string; rc_collation : option string;
  rc_is_identity : bool; rc_identity_generation : option string; rc_generated : string;
  rc_comment : option string }.
Definition raw_column (row : Row) : DriverResult RawColumn :=
  name ← get_string row 0 "column_name";
  data_type ← get_string row 1 "data_type";
  udt_name ← get_string row 2 "udt_name";
  is_nullable ← get_yes_no row 3 "is_nullable";
  default_value ← get_opt_string row 4 "column_default";
  charset ← get_opt_string row 5 "character_set_name";
  collation ← get_opt_string row 6 "collation_name";
  is_identity ← get_yes_no row 7 "is_identity";
  identity_generation ← get_opt_string row 8 "identity_generation";
  generated ← get_string row 9 "is_generated";
  comment ← get_opt_string row 10 "comment";
  Ok {| rc_name := name; rc_data_type := data_type; rc_udt_name := udt_name;
        rc_is_nullable := is_nullable; rc_default_value := default_value; rc_charset := charset;
        rc_collation := collation; rc_is_identity := is_identity;
        rc_identity_generation := identity_generation; rc_generated := generated;
        rc_comment := comment |}.
Definition identity_kind (raw : RawColumn) : option IdentityKind :=
  if rc_is_identity raw then
    if decide (rc_identity_generation raw = Some "ALWAYS") then Some Always else Some ByDefault
  else None.
Definition column_info (pk_columns : list string) (raw : RawColumn)
    (allowed_values : option (list string)) : ColumnInfo :=
  {| col_name := rc_name raw; col_data_type := rc_udt_name raw;
     col_is_nullable := rc_is_nullable raw; col_is_primary_key := bool_decide (rc_name raw ∈ pk_columns);
     col_default_value := rc_default_value raw; col_extra := None; col_charset := rc_charset raw;
     col_collation := rc_collation raw; col_comment := rc_comment raw;
     col_identity_kind := identity_kind raw;
     col_is_generated := bool_decide (to_ascii_lowercase (rc_generated raw) = "always");
     col_allowed_values := allowed_values |}.
(** [enum_lookups]: the labels of the types met so far, each asked for once. *)
Definition lookup_labels (client : Client) (udt_name : string) (lookups : gmap string (list string))
  : io (option (list string) * gmap string (list string)) :=
  lookups ← (match lookups !! udt_name with
             | Some _ => mret lookups
             | None =>
                 labels ← fetch_enum_labels client udt_name;
                 mret (<[udt_name := labels]> lookups)
             end : io _);
  mret (match lookups !! udt_name with Some (l :: ls) => Some (l :: ls) | _ => None end, lookups).
Fixpoint column_loop (client : Client) (pk_columns : list string)
    (lookups : gmap string (list string)) (rows : list Row) : io (list ColumnInfo) :=
  match rows with
  | [] => mret []
  | row :: rows =>
      raw ← lift (raw_column row);
      '(allowed_values, lookups) ←
        (if decide (rc_data_type raw = "USER-DEFINED")
         then lookup_labels client (rc_udt_name raw) lookups
         else mret (None, lookups) : io _);
      columns ← column_loop client pk_columns lookups rows;
      mret (column_info pk_columns raw allowed_values :: columns)
  end.
Definition pg_fetch_columns (client : Client) (table schema : string) : io (list ColumnInfo) :=
  rows ← run (query client COLUMNS_SQL (table_params table schema));
  pk_columns ← fetch_primary_key_columns client table schema;
  column_loop client pk_columns ∅ rows.

Definition index_info_from_row (row : Row) : DriverResult IndexInfo :=
  name ← get_string row 0 "index_name";
  is_unique ← get_bool row 1 "indisunique";
  is_primary ← get_bool row 2 "indisprimary";
  method ← get_opt_string row 3 "method";
  columns ← get_required RStrings row 4 "columns";
  Ok {| ix_name := name; ix_columns := columns; ix_is_unique := is_unique;
        ix_is_primary := is_primary; ix_method := method |}.
Definition pg_fetch_indexes (client : Client) (table schema : string) : io (list IndexInfo) :=
  decoded_rows client INDEXES_SQL (table_params table schema) index_info_from_row.

(** *** Foreign keys *)

Record RawForeignKeyRow := {
  rf_constraint_name : string; rf_column_name : string; rf_referenced_table : string;
  rf_referenced_schema : string; rf_referenced_column : string; rf_on_update : option string;
  rf_on_delete : option string }.
Definition rule_from_confcode (code : string) : option string :=
  if decide (code = "a") then Some "NO ACTION"
  else if decide (code = "r") then Some "RESTRICT"
  else if decide (code = "c") then Some "CASCADE"
  else if decide (code = "n") then Some "SET NULL"
  else if decide (code = "d") then Some "SET DEFAULT"
  else None.
Definition raw_foreign_key (row : Row) : DriverResult RawForeignKeyRow :=
  constraint_name ← get_string row 0 "constraint_name";
  column_name ← get_string row 1 "column_name";
  referenced_table ← get_string row 2 "referenced_table";
  referenced_schema ← get_string row 3 "referenced_schema";
  referenced_column ← get_string row 4 "referenced_column";
  update_code ← get_string row 5 "update_code";
  delete_code ← get_string row 6 "delete_code";
  Ok {| rf_constraint_name := constraint_name; rf_column_name := column_name;
        rf_referenced_table := referenced_table; rf_referenced_schema := referenced_schema;
        rf_referenced_column := referenced_column; rf_on_update := rule_from_confcode update_code;
        rf_on_delete := rule_from_confcode delete_code |}.
Definition new_foreign_key (raw : RawForeignKeyRow) : ForeignKeyInfo :=
  {| fk_name := rf_constraint_name raw; fk_columns := [];
     fk_referenced_table := rf_referenced_table raw;
     fk_referenced_schema := Some (rf_referenced_schema raw); fk_referenced_columns := [];
     fk_on_delete := rf_on_delete raw; fk_on_update := rf_on_update raw |}.
Definition push_column (raw : RawForeignKeyRow) (fk : ForeignKeyInfo) : ForeignKeyInfo :=
  {| fk_name := fk_name fk; fk_columns := fk_columns fk ++ [rf_column_name raw];
     fk_referenced_table := fk_referenced_table fk; fk_referenced_schema := fk_referenced_schema fk;
     fk_referenced_columns := fk_referenced_columns fk ++ [rf_referenced_column raw];
     fk_on_delete := fk_on_delete fk; fk_on_update := fk_on_update fk |}.
(** One turn of the loop over the rows: [order] and [by_name]. *)
Definition add_foreign_key (acc : list string * gmap string ForeignKeyInfo) (raw : RawForeignKeyRow)
  : list string * gmap string ForeignKeyInfo :=
  let '(order, by_name) := acc in
  let name := rf_constraint_name raw in
  match by_name !! name with
  | Some fk => (order, <[name := push_column raw fk]> by_name)
  | None => (order ++ [name], <[name := push_column raw (new_foreign_key raw)]> by_name)
  end.
(** The final loop over [order]. *)
Fixpoint take_in_order (order : list string) (by_name : gmap string ForeignKeyInfo)
  : list ForeignKeyInfo :=
  match order with
  | [] => []
  | name :: order =>
      match by_name !! name with
      | Some fk => fk :: take_in_order order (delete name by_name)
      | None => take_in_order order by_name
      end
  end.
Definition group_foreign_keys (raws : list RawForeignKeyRow) : list ForeignKeyInfo :=
  let '(order, by_name) := foldl add_foreign_key ([], ∅) raws in take_in_order order by_name.
Definition pg_fetch_foreign_keys (client : Client) (table schema : string) : io (list ForeignKeyInfo) :=
  raws ← decoded_rows client FOREIGN_KEYS_SQL (table_params table schema) raw_foreign_key;
  mret (group_foreign_keys raws).

Definition trigger_from_row (row : Row) : DriverResult TriggerInfo :=
  name ← get_string row 0 "trigger_name";
  event ← get_string row 1 "event_manipulation";
  timing ← get_string row 2 "action_timing";
  definition ← get_opt_string row 3 "action_statement";
  Ok {| tg_name := name; tg_event := event; tg_timing := timing; tg_definition := definition |}.
Definition pg_fetch_triggers (client : Client) (table schema : string) : io (list TriggerInfo) :=
  decoded_rows client TRIGGERS_SQL (table_params table schema) trigger_from_row.

(** *** Definitions *)

Definition table_not_found (table schema : string) : DriverError :=
  DriverError_new Query
    ("table " +:+ in_dquotes schema +:+ "." +:+ in_dquotes table +:+ " was not found").
Definition fetch_primary_key_columns_ordered (client : Client) (table schema : string)
  : io (list string) :=
  decoded_rows client PRIMARY_KEY_ORDERED_SQL (table_params table schema)
    (fun row => get_string row 0 "attname").
Definition ddl_line (row : Row) : DriverResult string :=
  name ← get_string row 0 "attname";
  formatted_type ← get_string row 1 "formatted_type";
  not_null ← get_bool row 2 "attnotnull";
  default_expr ← get_opt_string row 3 "default_expr";
  Ok ("    " +:+ quote_ident name +:+ " " +:+ formatted_type
      +:+ (if (not_null : bool) then " NOT NULL" else EmptyString)
      +:+ match default_expr with Some e => " DEFAULT " +:+ e | None => EmptyString end).
Definition create_table (schema table : string) (column_lines : list string) : string :=
  "CREATE TABLE " +:+ quote_qualified schema table +:+ " (" +:+ newline
  +:+ join ("," +:+ newline) column_lines +:+ newline +:+ ");".
Definition pg_fetch_table_ddl (client : Client) (table schema : string) : io string :=
  rows ← run (query client TABLE_DDL_SQL (table_params table schema));
  match rows with
  | [] => throw (table_not_found table schema)
  | _ =>
      column_lines ← lift (collect (ddl_line <$> rows));
      pk_columns ← fetch_primary_key_columns_ordered client table schema;
      let pk_line := match pk_columns with
                     | [] => []
                     | _ => ["    PRIMARY KEY (" +:+ join ", " (quote_ident <$> pk_columns) +:+ ")"]
                     end in
      mret (create_table schema table (column_lines ++ pk_line))
  end.
Definition pg_fetch_view_definition (client : Client) (view schema : string) : io string :=
  row ← run (query_one client "SELECT pg_get_viewdef($1::regclass, true)"
               (to_params [Text (quote_qualified schema view)]));
  lift (get_string row 0 "pg_get_viewdef").

Definition pg_fetch_table_metadata (client : Client) (table schema : string) : io TableMetadata :=
  tables ← pg_fetch_tables client schema;
  info ← lift (ok_or (table_not_found table schema)
                 (snd <$> list_find (fun t => ti_name t = table) tables));
  columns ← pg_fetch_columns client table schema;
  indexes ← pg_fetch_indexes client table schema;
  foreign_keys ← pg_fetch_foreign_keys client table schema;
  triggers ← pg_fetch_triggers client table schema;
  mret {| tm_info := info; tm_columns := columns; tm_indexes := indexes;
          tm_foreign_keys := foreign_keys; tm_triggers := triggers |}.

(** [u64::try_from(v).ok()] *)
Definition u64_try_from (v : Z) : option Z := if (0 <=? v)%Z then Some v else None.
Definition pg_fetch_database_metadata (client : Client) (database : string) : io DatabaseMetadata :=
  schemas ← pg_fetch_schemas client;
  outcome ← (attempt (query_one client "SELECT pg_database_size($1)" [str_param database])
             : io (result PgError Row));
  let size_bytes := row ← result_ok outcome; v ← result_ok (try_get_some RI64 row 0); u64_try_from v in
  mret {| dm_name := database; dm_schemas := schemas; dm_size_bytes := size_bytes |}.

Definition create_database_sql (request : CreateDatabaseRequest) : string :=
  "CREATE DATABASE " +:+ quote_ident (cd_name request)
  +:+ match cd_owner request with Some owner => " OWNER " +:+ quote_ident owner | None => EmptyString end
  +:+ match cd_encoding request with
      | Some encoding => " ENCODING " +:+ quote_literal encoding | None => EmptyString end.
Definition pg_create_database (client : Client) (request : CreateDatabaseRequest) : io unit :=
  simple client (create_database_sql request).
Definition pg_drop_database (client : Client) (name : string) : io unit :=
  simple client ("DROP DATABASE " +:+ quote_ident name).

(** ** Grouping the rows of foreign keys *)

(** The names in the order of their first appearance. *)
Fixpoint first_seen (names : list string) : list string :=
  match names with
  | [] => []
  | n :: names => n :: filter (fun m => m <> n) (first_seen names)
  end.
(** The rows of one constraint, and the key they describe: the first row
    tells what it refers to, every row one pair of columns. *)
Definition rows_of (name : string) (raws : list RawForeignKeyRow) : list RawForeignKeyRow :=
  filter (fun raw => rf_constraint_name raw = name) raws.
Definition describe (group : list RawForeignKeyRow) : option ForeignKeyInfo :=
  match group with
  | [] => None
  | first :: _ =>
      Some {| fk_name := rf_constraint_name first; fk_columns := rf_column_name <$> group;
              fk_referenced_table := rf_referenced_table first;
              fk_referenced_schema := Some (rf_referenced_schema first);
              fk_referenced_columns := rf_referenced_column <$> group;
              fk_on_delete := rf_on_delete first; fk_on_update := rf_on_update first |}
  end.

Lemma first_seen_snoc names n :
  first_seen (names ++ [n]) = first_seen names ++ (if decide (n ∈ names) then [] else [n]).
Proof.
  induction names as [|m names IH]; cbn [first_seen app]; [by rewrite decide_False by set_solver|].
  rewrite IH, filter_app. f_equal. f_equal.
  destruct (decide (n ∈ names)) as [Hn|Hn].
  - by rewrite decide_True by set_solver.
  - rewrite filter_cons, filter_nil. destruct (decide (n = m)) as [->|Hne].
    + rewrite decide_False by auto. by rewrite decide_True by (by left).
    + rewrite decide_True by done. rewrite decide_False; [done|]. by intros [? | ?]%elem_of_cons.
Qed.
Lemma first_seen_NoDup names : NoDup (first_seen names).
Proof.
  induction names as [|m names IH]; cbn [first_seen]; constructor; [|by apply NoDup_filter].
  rewrite list_elem_of_filter. by intros [? _].
Qed.

Lemma describe_snoc group raw :
  describe (group ++ [raw])
  = Some (push_column raw (default (new_foreign_key raw) (describe group))).
Proof. destruct group as [|first group]; cbn; unfold push_column; cbn; by rewrite ?fmap_app. Qed.

Lemma describe_None group : describe group = None <-> group = [].
Proof. by destruct group. Qed.
Lemma rows_of_nil name raws : rows_of name raws = [] <-> name ∉ rf_constraint_name <$> raws.
Proof.
  unfold rows_of. rewrite list_elem_of_fmap. split.
  - intros H (raw & -> & Hraw).
    assert (raw ∈ []) as Hin by (rewrite <-H; by apply list_elem_of_filter).
    by apply not_elem_of_nil in Hin.
  - intros H. destruct (filter _ raws) as [|raw group] eqn:Hg; [done|]. exfalso.
    assert (raw ∈ raw :: group) as Hraw by set_solver. rewrite <-Hg in Hraw.
    apply list_elem_of_filter in Hraw as [<- ?]. apply H. by exists raw.
Qed.

Lemma fold_foreign_keys raws :
  let '(order, by_name) := foldl add_foreign_key ([], ∅) raws in
  order = first_seen (rf_constraint_name <$> raws)
  /\ forall name, by_name !! name = describe (rows_of name raws).
Proof.
  induction raws as [|raw raws IH] using rev_ind; [done|].
  rewrite foldl_snoc. destruct (foldl add_foreign_key ([], ∅) raws) as [order by_name].
  destruct IH as [-> Hby]. cbn [add_foreign_key]. rewrite Hby, fmap_app. cbn [fmap list_fmap].
  rewrite first_seen_snoc. set (name := rf_constraint_name raw).
  assert (forall n, describe (rows_of n (raws ++ [raw]))
                    = if decide (name = n)
                      then Some (push_column raw (default (new_foreign_key raw) (describe (rows_of n raws))))
                      else describe (rows_of n raws)) as Hnew.
  { intros n. unfold rows_of. rewrite filter_app, filter_cons, filter_nil. fold name.
    case_decide; [apply describe_snoc|by rewrite app_nil_r]. }
  destruct (describe (rows_of name raws)) as [fk|] eqn:Hd.
  - rewrite decide_True.
    2: { destruct (decide (name ∈ rf_constraint_name <$> raws)) as [|Hn]; [done|].
         apply rows_of_nil, describe_None in Hn. congruence. }
    rewrite app_nil_r. split; [done|]. intros n. rewrite Hnew. destruct (decide (name = n)) as [<-|Hne].
    + by rewrite lookup_insert_eq, Hd.
    + by rewrite lookup_insert_ne.
  - rewrite decide_False by by apply rows_of_nil, describe_None. split; [done|].
    intros n. rewrite Hnew. destruct (decide (name = n)) as [<-|Hne].
    + by rewrite lookup_insert_eq, Hd.
    + by rewrite lookup_insert_ne.
Qed.

Lemma take_in_order_omap order by_name :
  NoDup order -> take_in_order order by_name = omap (fun name => by_name !! name) order.
Proof.
  intros Hnd. revert by_name. induction Hnd as [|name order Hn Hnd IH]; intros by_name; [done|].
  cbn [take_in_order omap list_omap]. destruct (by_name !! name) as [fk|]; rewrite IH; [|done].
  f_equal. assert (Forall (fun m => m <> name) order) as Hne by (apply Forall_forall; set_solver).
  clear Hn Hnd IH. induction Hne as [|m order Hm Hne IH]; [done|]. cbn [omap list_omap].
  rewrite lookup_delete_ne by done. by rewrite IH.
Qed.

Lemma group_foreign_keys_eq raws :
  group_foreign_keys raws
  = omap (fun name => describe (rows_of name raws)) (first_seen (rf_constraint_name <$> raws)).
Proof.
  unfold group_foreign_keys. pose proof (fold_foreign_keys raws) as H.
  destruct (foldl add_foreign_key ([], ∅) raws) as [order by_name]. destruct H as [-> Hby].
  rewrite take_in_order_omap by apply first_seen_NoDup.
  generalize (first_seen (rf_constraint_name <$> raws)). intros l.
  induction l as [|n l IH]; [done|]. cbn [omap list_omap]. by rewrite Hby, IH.
Qed.

Lemma describe_rows_of name raws fk : describe (rows_of name raws) = Some fk ->
  fk_name fk = name /\ length (fk_columns fk) = length (fk_referenced_columns fk) /\ fk_columns fk <> [].
Proof.
  destruct (rows_of name raws) as [|first group] eqn:Hr; [done|]. intros [= <-]. cbn.
  rewrite !length_fmap. split; [|done]. assert (first ∈ rows_of name raws) as H by (rewrite Hr; set_solver).
  by apply list_elem_of_filter in H as [? _].
Qed.
Lemma described_keys raws :
  let keys := omap (fun name => describe (rows_of name raws)) (first_seen (rf_constraint_name <$> raws)) in
  NoDup (fk_name <$> keys)
  /\ Forall (fun fk => length (fk_columns fk) = length (fk_referenced_columns fk)
                       /\ fk_columns fk <> []) keys.
Proof.
  cbn zeta. induction (first_seen_NoDup (rf_constraint_name <$> raws)) as [|n names Hn Hnd IH];
    [by split; constructor|]. cbn [omap list_omap].
  destruct (describe (rows_of n raws)) as [fk|] eqn:Hd; [|done].
  apply describe_rows_of in Hd as (Hname & Hlen & Hne). destruct IH as [Hnames Hall].
  cbn [fmap list_fmap]. split; constructor; try done.
  rewrite list_elem_of_fmap. intros (fk' & Hsame & Hin). apply list_elem_of_omap in Hin as (m & Hm & Hd').
  apply describe_rows_of in Hd' as (Hname' & _). congruence.
Qed.

(** The foreign keys of a table are the catalogue's rows grouped by
    constraint: one key per constraint, in the order the constraints first
    appear, whose columns and referenced columns are the pairs of its rows,
    in the rows' order and so of equal number, however the rows of different
    constraints interleave; a row that does not decode or a failed query is
    the error. *)
Theorem foreign_keys_grouped (client : Client) (table schema : string) (w : W) :
  let '(answer, w') := query client FOREIGN_KEYS_SQL (table_params table schema) w in
  pg_fetch_foreign_keys client table schema w
  = (match answer with
     | Err err => Err (map_query_error err)
     | Ok rows =>
         raws ← collect (raw_foreign_key <$> rows);
         Ok (omap (fun name => describe (rows_of name raws)) (first_seen (rf_constraint_name <$> raws)))
     end, w')
  /\ forall keys, fst (pg_fetch_foreign_keys client table schema w) = Ok keys ->
       NoDup (fk_name <$> keys)
       /\ Forall (fun fk => length (fk_columns fk) = length (fk_referenced_columns fk)
                            /\ fk_columns fk <> []) keys.
Proof.
  assert (pg_fetch_foreign_keys client table schema w
    = let '(answer, w') := query client FOREIGN_KEYS_SQL (table_params table schema) w in
      (match answer with
       | Err err => Err (map_query_error err)
       | Ok rows => raws ← collect (raw_foreign_key <$> rows); Ok (group_foreign_keys raws)
       end, w')) as Heq.
  { unfold pg_fetch_foreign_keys, decoded_rows, run, eff_map_err. rewrite !eff_bind_eq.
    destruct (query client _ _ w) as [[rows|err] w']; cbn [map_err]; [|done].
    unfold lift. by destruct (collect _). }
  destruct (query client _ _ w) as [answer w']. rewrite Heq. split.
  { f_equal. destruct answer as [rows|err]; [|done]. destruct (collect _) as [raws|]; [|done].
    cbn [mbind result_bind]. by rewrite group_foreign_keys_eq. }
  intros keys Hkeys. cbn [fst] in Hkeys. destruct answer as [rows|err]; [|done].
  apply result_bind_Ok in Hkeys as (raws & _ & [= <-]). rewrite group_foreign_keys_eq.
  apply described_keys.
Qed.
End schema.

(** ** The catalogue queries ask statements of their own and nothing else *)

(** The texts that listing databases, schemas and tables and describing a
    table send. *)
Definition CATALOGUE_SQL : list string :=
  ["SELECT datname FROM pg_database WHERE datistemplate = false ORDER BY datname";
   "SELECT schema_name FROM information_schema.schemata ORDER BY schema_name";
   TABLES_SQL; COLUMNS_SQL; PRIMARY_KEY_SQL; ENUM_LABELS_SQL; INDEXES_SQL; FOREIGN_KEYS_SQL;
   TRIGGERS_SQL].
Definition catalogued (e : PgEvent) : Prop :=
  match e with EQuery sql => sql ∈ CATALOGUE_SQL | _ => False end.
Lemma catalogued_plain e : catalogued e -> plain e.
Proof. by destruct e. Qed.

Section calm.
Context {W Client Connector CancelToken Txn Statement Portal Row PgError Foreign : Type}.
Context `{!PgLib W Client Connector CancelToken Txn Statement Portal Row PgError Foreign}.
Context `{!PgLog W Client Connector CancelToken Txn Statement Portal Row PgError Foreign}.
#[local] Abbreviation calm := (emits (E := DriverError) events plain).
#[local] Abbreviation listed := (emits (E := DriverError) events catalogued).

#[local] Ltac calm_step :=
  match goal with
  | |- emits _ _ (let '(_, _) := ?x in _) => destruct x
  | |- emits _ _ (match ?x with _ => _ end) => destruct x
  | |- emits _ _ (_ ≫= _) => apply emits_bind; [|intros]
  | |- emits _ _ _ => solve [auto with dbmcp]
  end.
#[local] Ltac calm_auto := repeat calm_step.

Lemma listed_calm {A} (m : eff W DriverError A) : listed m -> calm m.
Proof. apply emits_weaken, catalogued_plain. Qed.
Lemma query_listed c sql ps : sql ∈ CATALOGUE_SQL -> listed (run (query c sql ps)).
Proof. intros H. by apply emits_run with (EQuery sql); [apply events_query|]. Qed.
Lemma decoded_rows_listed {A} c sql ps (decode : Row -> DriverResult A) :
  sql ∈ CATALOGUE_SQL -> listed (decoded_rows c sql ps decode).
Proof. intros H. unfold decoded_rows. apply emits_bind; [by apply query_listed|intros; apply emits_lift]. Qed.
#[local] Hint Extern 2 (_ ∈ CATALOGUE_SQL) =>
  unfold CATALOGUE_SQL; rewrite !elem_of_cons; tauto : dbmcp.
#[local] Hint Resolve query_listed @decoded_rows_listed : dbmcp.
Lemma fetch_databases_listed c : listed (pg_fetch_databases c).
Proof. unfold pg_fetch_databases. calm_auto. Qed.
Lemma fetch_schemas_listed c : listed (pg_fetch_schemas c).
Proof. unfold pg_fetch_schemas. calm_auto. Qed.
Lemma fetch_tables_listed c schema : listed (pg_fetch_tables c schema).
Proof. unfold pg_fetch_tables. calm_auto. Qed.
Lemma lookup_labels_listed c udt lookups : listed (lookup_labels c udt lookups).
Proof. unfold lookup_labels, fetch_enum_labels. calm_auto. Qed.
#[local] Hint Resolve fetch_tables_listed lookup_labels_listed : dbmcp.
Lemma column_loop_listed c pks lookups rows : listed (column_loop c pks lookups rows).
Proof. revert lookups. induction rows as [|row rows IH]; intros lookups; cbn [column_loop]; calm_auto. Qed.
#[local] Hint Resolve column_loop_listed : dbmcp.
Lemma fetch_columns_listed c table schema : listed (pg_fetch_columns c table schema).
Proof. unfold pg_fetch_columns, fetch_primary_key_columns. calm_auto. Qed.
Lemma fetch_foreign_keys_listed c table schema : listed (pg_fetch_foreign_keys c table schema).
Proof. unfold pg_fetch_foreign_keys. calm_auto. Qed.
#[local] Hint Resolve fetch_columns_listed fetch_foreign_keys_listed : dbmcp.
Lemma fetch_table_metadata_listed c table schema : listed (pg_fetch_table_metadata c table schema).
Proof. unfold pg_fetch_table_metadata, pg_fetch_indexes, pg_fetch_triggers. calm_auto. Qed.

Lemma decoded_rows_calm {A} c sql ps (decode : Row -> DriverResult A) :
  calm (decoded_rows c sql ps decode).
Proof. unfold decoded_rows. calm_auto. Qed.
Lemma simple_calm c sql : calm (simple c sql).
Proof. unfold simple. calm_auto. Qed.
#[local] Hint Resolve @decoded_rows_calm simple_calm : dbmcp.
Lemma fetch_columns_calm c table schema : calm (pg_fetch_columns c table schema).
Proof. apply listed_calm, fetch_columns_listed. Qed.
Lemma fetch_foreign_keys_calm c table schema : calm (pg_fetch_foreign_keys c table schema).
Proof. apply listed_calm, fetch_foreign_keys_listed. Qed.
Lemma fetch_table_ddl_calm c table schema : calm (pg_fetch_table_ddl c table schema).
Proof. unfold pg_fetch_table_ddl, fetch_primary_key_columns_ordered. calm_auto. Qed.
Lemma fetch_view_definition_calm c view schema : calm (pg_fetch_view_definition c view schema).
Proof. unfold pg_fetch_view_definition. calm_auto. Qed.
Lemma fetch_table_metadata_calm c table schema : calm (pg_fetch_table_metadata c table schema).
Proof. apply listed_calm, fetch_table_metadata_listed. Qed.
Lemma fetch_database_metadata_calm c database : calm (pg_fetch_database_metadata c database).
Proof. unfold pg_fetch_database_metadata, pg_fetch_schemas. calm_auto. Qed.
End calm.

#[export] Hint Resolve decoded_rows_calm simple_calm fetch_columns_calm fetch_foreign_keys_calm
  fetch_table_ddl_calm fetch_view_definition_calm fetch_table_metadata_calm
  fetch_database_metadata_calm fetch_databases_listed fetch_schemas_listed fetch_tables_listed
  fetch_table_metadata_listed : dbmcp.
