(* ===== verification/Postgres.v ===== *)
(** * The PostgreSQL driver (crates/driver-postgres: driver.rs)

    [pstate] is the [PostgresDriver]: the world of the library, the lock's
    content and the three mutexes; the detached cancel tasks wait in
    [p_cancels].  Replacing or clearing the connection drops the old one,
    which aborts its task. *)
From S2P Require Import Prelude RustStr Core PostgresText PostgresQuery PostgresSchema.

Section driver.
Context {W Client CancelToken Txn Statement Portal Row PgError Foreign : Type}.
Context {Cert Anchor Name Signed : Type} `{!TlsLib W Cert Anchor Name Signed}.
#[local] Abbreviation Connector := (ServerCertVerifier Anchor).
Context `{!PgLib W Client Connector CancelToken Txn Statement Portal Row PgError Foreign}.
#[local] Abbreviation io := (eff W DriverError).

Record pstate := {
  p_world : W;
  p_client : option Client;
  p_cancel_token : option CancelToken;
  p_server_version : option string;
  p_current_schema : option string;
  p_cancels : list CancelToken;
}.
#[local] Abbreviation D := (eff pstate DriverError).

Definition not_connected_error : DriverError := DriverError_new Connection "not connected".
Definition PostgresDriver_new (w : W) : pstate :=
  {| p_world := w; p_client := None; p_cancel_token := None; p_server_version := None;
     p_current_schema := None; p_cancels := [] |}.
Definition set_world (w : W) (s : pstate) : pstate :=
  {| p_world := w; p_client := p_client s; p_cancel_token := p_cancel_token s;
     p_server_version := p_server_version s; p_current_schema := p_current_schema s;
     p_cancels := p_cancels s |}.
Definition set_caches (version schema : option string) (s : pstate) : pstate :=
  {| p_world := p_world s; p_client := p_client s; p_cancel_token := p_cancel_token s;
     p_server_version := version; p_current_schema := schema; p_cancels := p_cancels s |}.
Definition set_cancel_token (token : CancelToken) (s : pstate) : pstate :=
  {| p_world := p_world s; p_client := p_client s; p_cancel_token := Some token;
     p_server_version := p_server_version s; p_current_schema := p_current_schema s;
     p_cancels := p_cancels s |}.
(** [*guard = client]; the drop of the old [ConnectedClient]. *)
Definition set_client (client : option Client) (s : pstate) : pstate :=
  {| p_world := match p_client s with Some old => abort_connection old (p_world s) | None => p_world s end;
     p_client := client; p_cancel_token := p_cancel_token s;
     p_server_version := p_server_version s; p_current_schema := p_current_schema s;
     p_cancels := p_cancels s |}.

Definition on_server {A} (m : io A) : D A := fun s =>
  let '(r, w) := m (p_world s) in (r, set_world w s).

Definition connect_via (pg_config : PgConfig) (tls : option Connector) : io (Client * CancelToken) :=
  client ← eff_map_err map_connect_error (pg_connect pg_config tls);
  mret (client, client_cancel_token client).
Definition connect_with_config (config : ConnectionConfig) : io (Client * CancelToken) :=
  let pg_config := build_config config in
  match mode (cfg_ssl config) with
  | Some Disabled => connect_via pg_config None
  | _ =>
      connector ← ((fun w => (build_connector config w, w)) : io Connector);
      connect_via pg_config (Some connector)
  end.

(** A row whose first value is null is passed over. *)
Definition first_simple_query_value (messages : list SimpleQueryMessage) : option string :=
  head (omap (fun message => match message with
                             | SimpleRow row => mjoin (row !! 0)
                             | _ => None
                             end) messages).
Definition refresh_session_caches (client : Client) : D unit :=
  reply ← on_server (attempt (simple_query client "SHOW server_version"));
  let version := messages ← result_ok reply; first_simple_query_value messages in
  answer ← on_server (attempt (query_one client "SELECT current_schema()" []));
  let schema := row ← result_ok answer; mjoin (result_ok (try_get RString row 0)) in
  modify (set_caches version schema).

Section config.
Context (config : ConnectionConfig).

Definition pg_connect_driver : D unit :=
  '(client, cancel_token) ← on_server (connect_with_config config);
  _ ← refresh_session_caches client;
  _ ← modify (set_cancel_token cancel_token);
  modify (set_client (Some client)).
Definition pg_disconnect : D unit :=
  modify (fun s =>
    let s := set_client None s in
    {| p_world := p_world s; p_client := p_client s; p_cancel_token := None;
       p_server_version := None; p_current_schema := None; p_cancels := p_cancels s |}).
Definition with_database (database : string) : ConnectionConfig :=
  {| cfg_host := cfg_host config; cfg_port := cfg_port config; cfg_username := cfg_username config;
     cfg_password := cfg_password config; cfg_database := Some database; cfg_ssl := cfg_ssl config;
     cfg_read_only := cfg_read_only config;
     cfg_additional_fields := cfg_additional_fields config |}.
Definition pg_switch_database (database : string) : D unit :=
  '(client, cancel_token) ← on_server (connect_with_config (with_database database));
  _ ← refresh_session_caches client;
  _ ← modify (set_client (Some client));
  modify (set_cancel_token cancel_token).

(** [guard.as_ref().ok_or_else(not_connected_error)?], then a function of the
    library's client. *)
Definition with_client {A} (f : Client -> io A) : D A := fun s =>
  match p_client s with
  | Some client => on_server (f client) s
  | None => (Err not_connected_error, s)
  end.
Definition resolve_schema (schema : option string) (s : pstate) : string :=
  default (default "public" (p_current_schema s)) schema.
Definition in_schema {A} (schema : option string) (f : Client -> string -> io A) : D A := fun s =>
  with_client (fun client => f client (resolve_schema schema s)) s.

Definition pg_switch_schema (schema : string) : D unit :=
  _ ← with_client (fun client => pg_switch_schema_query client schema);
  modify (fun s => set_caches (p_server_version s) (Some schema) s).
Definition pg_cancel_query : D unit := fun s =>
  match p_cancel_token s with
  | None => (Err not_connected_error, s)
  | Some token =>
      (Ok tt, {| p_world := p_world s; p_client := p_client s; p_cancel_token := p_cancel_token s;
                 p_server_version := p_server_version s; p_current_schema := p_current_schema s;
                 p_cancels := p_cancels s ++ [token] |})
  end.
(** The task [cancel_query] spawns: it connects without TLS in every mode. *)
Definition send_cancel (token : CancelToken) : eff W PgError unit := token_cancel_query token None.
Definition pg_apply_query_timeout (seconds : Z) : D unit :=
  with_client (fun client =>
    simple client ("SET statement_timeout = " +:+ pretty (saturating_mul_u64 seconds 1000))).
Definition pg_driver_stream (sql : string) (rounds : nat) (s : pstate) : StreamOutcome * pstate :=
  match rounds, p_client s with
  | O, _ => (([], None), s)
  | S _, None => (([], Some (Err not_connected_error)), s)
  | S _, Some client =>
      let '(o, w) := pg_stream_rows client (cfg_read_only config) sql rounds (p_world s) in
      (o, set_world w s)
  end.

Definition driver_execute (sql : string) : D QueryResult :=
  with_client (fun client => pg_execute client sql).
Definition PostgresDriver : DatabaseDriver pstate := {|
  connect := pg_connect_driver;
  disconnect := pg_disconnect;
  ping := default_ping driver_execute;
  execute := driver_execute;
  execute_parameterized sql parameters :=
    with_client (fun client => pg_execute_parameterized client sql parameters);
  execute_user_query sql row_cap parameters :=
    with_client (fun client =>
      pg_execute_user_query client sql row_cap parameters (cfg_read_only config));
  fetch_tables schema := in_schema schema pg_fetch_tables;
  fetch_columns table schema := in_schema schema (fun c => pg_fetch_columns c table);
  fetch_indexes table schema := in_schema schema (fun c => pg_fetch_indexes c table);
  fetch_foreign_keys table schema := in_schema schema (fun c => pg_fetch_foreign_keys c table);
  fetch_triggers table schema := in_schema schema (fun c => pg_fetch_triggers c table);
  fetch_table_ddl table schema := in_schema schema (fun c => pg_fetch_table_ddl c table);
  fetch_view_definition view schema := in_schema schema (fun c => pg_fetch_view_definition c view);
  fetch_table_metadata table schema := in_schema schema (fun c => pg_fetch_table_metadata c table);
  fetch_databases := with_client pg_fetch_databases;
  fetch_database_metadata database := with_client (fun c => pg_fetch_database_metadata c database);
  supports_schemas := true;
  fetch_schemas := with_client pg_fetch_schemas;
  switch_schema := pg_switch_schema;
  current_schema := p_current_schema;
  supports_transactions := default_supports_transactions;
  begin_transaction := default_begin_transaction driver_execute;
  commit_transaction := default_commit_transaction driver_execute;
  rollback_transaction := default_rollback_transaction driver_execute;
  cancel_query := pg_cancel_query;
  apply_query_timeout := pg_apply_query_timeout;
  keepalive_posture := Applied;
  server_version := p_server_version;
  parameter_style := Dollar;
  create_database request := with_client (fun c => pg_create_database c request);
  drop_database name := with_client (fun c => pg_drop_database c name);
  switch_database := pg_switch_database;
  stream_rows := pg_driver_stream |}.
End config.
End driver.

Definition DATABASE_TYPE_ID : string := "PostgreSQL".

(** ** What the driver's methods do to the session *)

Section session.
Context {W Client CancelToken Txn Statement Portal Row PgError Foreign : Type}.
Context {Cert Anchor Name Signed : Type} `{!TlsLib W Cert Anchor Name Signed}.
#[local] Abbreviation Connector := (ServerCertVerifier Anchor).
Context `{!PgLib W Client Connector CancelToken Txn Statement Portal Row PgError Foreign}.
#[local] Abbreviation state := (pstate (W := W) (Client := Client) (CancelToken := CancelToken)).

(** C16: a connection is exactly as protected as its TLS mode asks: no TLS
    only for an explicit disabled mode; a fall-back to plain text only for an
    explicit preferred one; for [verify_ca] a certificate is accepted
    exactly when it chains to an anchor of the configured file; otherwise, a
    missing mode included, TLS is required and rustls checks certificate and
    hostname against the configured or the platform's roots, never an empty
    set. *)
Theorem postgres_tls_as_asked (config : ConnectionConfig) (w w' : W) (client : Client)
    (token : CancelToken) :
  connect_with_config config w = (Ok (client, token), w') ->
  token = client_cancel_token client
  /\ exists tls, pg_connect (build_config config) tls w = (Ok client, w')
     /\ match mode (cfg_ssl config), tls with
        | Some Disabled, None => pc_ssl_mode (build_config config) = Disable
        | Some Disabled, Some _ | _, None => False
        | Some Preferred, Some v =>
            pc_ssl_mode (build_config config) = Prefer /\ connector_spec config w v
        | _, Some v => pc_ssl_mode (build_config config) = Require /\ connector_spec config w v
        end.
Proof.
  assert (forall tls, connect_via (build_config config) tls w = (Ok (client, token), w') ->
            token = client_cancel_token client
            /\ pg_connect (build_config config) tls w = (Ok client, w')) as Hvia.
  { intros tls. unfold connect_via. rewrite eff_bind_eq. unfold eff_map_err.
    destruct (pg_connect _ tls w) as [[c|e] w'']; cbn; [|done]. by intros [= -> <- ->]. }
  unfold connect_with_config.
  assert (mode (cfg_ssl config) <> Some Disabled ->
          ((fun w => (build_connector config w, w)) ≫=
             (fun connector => connect_via (build_config config) (Some connector)))
            w = (Ok (client, token), w') ->
          exists v, connector_spec config w v
                    /\ connect_via (build_config config) (Some v) w = (Ok (client, token), w')) as Htls.
  { intros _. rewrite eff_bind_eq. destruct (build_connector config w) as [v|] eqn:Hb; [|done].
    intros H. exists v. split; [by apply build_connector_spec|done]. }
  assert (pc_ssl_mode (build_config config) = resolve_ssl_mode config) as -> by done.
  unfold resolve_ssl_mode.
  destruct (mode (cfg_ssl config)) as [[]|] eqn:Hm; intros H;
    [by apply Hvia in H as [-> H]; split; [|exists None]|..].
  all: apply Htls in H as (v & Hv & H); [|done]; apply Hvia in H as [-> H];
    split; [done|]; by exists (Some v).
Qed.

(** ** One transaction for the user's statement *)

Context `{!PgLog W Client Connector CancelToken Txn Statement Portal Row PgError Foreign}.
Context (config : ConnectionConfig).
#[local] Abbreviation driver := (PostgresDriver config).
Definition asked (s : state) : list PgEvent := events (p_world s).

(** C7: a statement a user runs, as a query or as a stream, is alone in one
    transaction, which a read-only connection opens read-only: nothing is
    sent before its start, and after it only the statement itself, its bind
    and fetches of at least one and at most a thousand rows (never the zero
    that would mean all of them), and then one commit or one rollback; a
    success is committed, an error or an abandoned stream is not left open. *)
Theorem user_sql_in_one_transaction (sql : string) (row_cap : option Z)
    (parameters : option (list CellValue)) (rounds : nat) (s : state) (client : Client) :
  p_client s = Some client ->
  (let '(r, s') := execute_user_query driver sql row_cap parameters s in
   exists new, asked s' = asked s ++ EStart (cfg_read_only config) :: new
               /\ transacted sql (is_ok r) new)
  /\ (let '(o, s') := stream_rows driver sql (S rounds) s in
      exists new, asked s' = asked s ++ EStart (cfg_read_only config) :: new
                  /\ transacted sql (stream_ok o) new).
Proof.
  intros Hc. cbn [PostgresDriver execute_user_query stream_rows]. split.
  - unfold with_client. rewrite Hc. unfold on_server.
    pose proof (user_query_log client sql row_cap parameters (cfg_read_only config) (p_world s)) as H.
    by destruct (pg_execute_user_query _ _ _ _ _ _).
  - unfold pg_driver_stream. rewrite Hc.
    destruct (stream_log client (cfg_read_only config) sql (S rounds) (p_world s)) as [|H]; [done|].
    by destruct (pg_stream_rows _ _ _ _ _).
Qed.

(** ** The session follows the connection *)

(** Connections opened so far less those closed. *)
Definition weight (e : PgEvent) : Z :=
  match e with EConnect true => 1 | EAbort => -1 | _ => 0 end.
Fixpoint open_connections (evs : list PgEvent) : Z :=
  match evs with [] => 0 | e :: evs => weight e + open_connections evs end.
Definition held (s : state) : Z := match p_client s with Some _ => 1 | None => 0 end.

Lemma open_connections_app l1 l2 :
  open_connections (l1 ++ l2) = (open_connections l1 + open_connections l2)%Z.
Proof. induction l1 as [|e l1 IH]; cbn [app open_connections]; [done|]. rewrite IH. lia. Qed.
Lemma open_connections_quiet l : Forall quiet l -> open_connections l = 0%Z.
Proof. induction 1 as [|e l He _ IH]; cbn [open_connections]; [done|]. rewrite IH. by destruct e. Qed.

(** What holds of the driver's state between two calls. *)
Definition follows (n : Z) (s : state) : Prop :=
  open_connections (asked s) = (n + held s)%Z
  /\ p_cancel_token s = client_cancel_token <$> p_client s.

(** The calls that leave the connection alone. *)
Definition stays : relation state := fun s s' =>
  p_client s' = p_client s /\ p_cancel_token s' = p_cancel_token s
  /\ extends asked (Forall quiet) s s'.
#[local] Instance stays_preorder : PreOrder stays.
Proof.
  split; [by intros s; split; [|split; [|apply reflexivity]]|].
  intros s1 s2 s3 (Hc & Hk & H1) (Hc' & Hk' & H2). unfold stays. rewrite Hc', Hk'.
  split; [done|]. split; [done|]. by etrans.
Qed.
Definition steady {A} (m : eff state DriverError A) : Prop := within stays m.

Lemma steady_follows {A} (m : eff state DriverError A) n s :
  steady m -> follows n s -> follows n (snd (m s)).
Proof.
  intros Hm [Ho Ht]. destruct (Hm s) as (Hc & Hk & new & Hnew & Hq). unfold follows, held.
  rewrite Hc, Hk, Hnew, open_connections_app, (open_connections_quiet new) by done.
  split; [|done]. unfold held in Ho. lia.
Qed.

Lemma steady_same {A} (m : eff state DriverError A) :
  (forall s, p_client (snd (m s)) = p_client s /\ p_cancel_token (snd (m s)) = p_cancel_token s
             /\ p_world (snd (m s)) = p_world s) -> steady m.
Proof.
  intros Hm s. destruct (Hm s) as (Hc & Hk & Hw). split; [done|]. split; [done|].
  apply extends_same; [apply _|]. unfold asked. by rewrite Hw.
Qed.
Lemma steady_bind {A B} (m : eff state DriverError A) (f : A -> eff state DriverError B) :
  steady m -> (forall a, steady (f a)) -> steady (m ≫= f).
Proof. apply within_bind, _. Qed.
Lemma steady_ret {A} (a : A) : steady (mret a).
Proof. by apply steady_same. Qed.
Lemma steady_throw {A} e : steady (throw e : eff state DriverError A).
Proof. by apply steady_same. Qed.
Lemma steady_on_server {A} (m : eff W DriverError A) :
  emits events quiet m -> steady (on_server m).
Proof.
  intros Hm s. specialize (Hm (p_world s)). unfold on_server.
  by destruct (m (p_world s)) as [r w].
Qed.
(** For any property of a method: what runs on the held client, if any. *)
Lemma within_with_client R `{!PreOrder R} {A} (f : Client -> eff W DriverError A) :
  (forall c, within R (on_server (f c))) -> within R (with_client f : eff state DriverError A).
Proof. intros Hf s. unfold with_client. destruct (p_client s); [apply Hf|reflexivity]. Qed.
Lemma steady_with_client {A} (f : Client -> eff W DriverError A) :
  (forall c, emits events quiet (f c)) -> steady (with_client f).
Proof. intros Hf. apply within_with_client; [apply _|]. intros c. apply steady_on_server, Hf. Qed.
Lemma steady_asks {A} (f : Client -> eff W DriverError A) :
  (forall c, emits events plain (f c)) -> steady (with_client f).
Proof. intros Hf. apply steady_with_client. intros c. by apply (emits_weaken _ _ _ _ plain_quiet). Qed.
Lemma steady_in_schema {A} schema (f : Client -> string -> eff W DriverError A) :
  (forall c sch, emits events plain (f c sch)) -> steady (in_schema schema f).
Proof. intros Hf s. unfold in_schema. by apply steady_asks. Qed.
Lemma steady_refresh client : steady (refresh_session_caches client).
Proof.
  unfold refresh_session_caches.
  apply steady_bind; [by apply steady_on_server, (emits_weaken _ _ _ _ plain_quiet); auto with dbmcp|intros reply].
  apply steady_bind; [by apply steady_on_server, (emits_weaken _ _ _ _ plain_quiet); auto with dbmcp|intros answer].
  by apply steady_same.
Qed.

(** *** The three calls that change the connection *)

Lemma connect_with_config_log cfg w :
  let '(r, w') := connect_with_config cfg w in
  open_connections (events w') = (open_connections (events w) + (if is_ok r then 1 else 0))%Z
  /\ forall client token, r = Ok (client, token) -> token = client_cancel_token client.
Proof.
  assert (forall tls, let '(r, w') := connect_via (build_config cfg) tls w in
    open_connections (events w') = (open_connections (events w) + (if is_ok r then 1 else 0))%Z
    /\ forall client token, r = Ok (client, token) -> token = client_cancel_token client) as Hvia.
  { intros tls. unfold connect_via. rewrite eff_bind_eq. unfold eff_map_err.
    pose proof (events_connect (build_config cfg) tls w) as He.
    destruct (pg_connect _ tls w) as [[c|e] w']; cbn in *; rewrite He, open_connections_app; cbn;
      (split; [lia|]); by intros ?? [= <- <-]. }
  unfold connect_with_config.
  assert (let '(r, w') := ((fun w => (build_connector cfg w, w)) ≫=
             (fun connector => connect_via (build_config cfg) (Some connector))) w in
    open_connections (events w') = (open_connections (events w) + (if is_ok r then 1 else 0))%Z
    /\ forall client token, r = Ok (client, token) -> token = client_cancel_token client) as Htls.
  { rewrite eff_bind_eq. destruct (build_connector cfg w) as [v|e]; [apply Hvia|].
    cbn. split; [lia|done]. }
  destruct (mode (cfg_ssl cfg)) as [[]|]; (apply Hvia || exact Htls).
Qed.

Lemma set_client_open client s :
  open_connections (asked (set_client client s)) = (open_connections (asked s) - held s)%Z.
Proof.
  unfold asked, set_client, held. cbn [p_world]. destruct (p_client s); [|lia].
  rewrite events_abort, open_connections_app. cbn. lia.
Qed.

(** What a successful connection is followed by, whatever the order of the
    last two writes. *)
Definition installs (finish : Client * CancelToken -> eff state DriverError unit) : Prop :=
  forall client s, exists s',
    finish (client, client_cancel_token client) s = (Ok tt, s')
    /\ p_client s' = Some client /\ p_cancel_token s' = Some (client_cancel_token client)
    /\ open_connections (asked s') = (open_connections (asked s) - held s)%Z.
Lemma reconnect_follows cfg finish n s :
  installs finish -> follows n s -> follows n (snd ((on_server (connect_with_config cfg) ≫= finish) s)).
Proof.
  intros Hfin [Ho Ht]. rewrite eff_bind_eq. unfold on_server.
  pose proof (connect_with_config_log cfg (p_world s)) as Hlog.
  destruct (connect_with_config cfg (p_world s)) as [[[client token]|e] w]; destruct Hlog as [Hopen Htok];
    cbn [is_ok] in Hopen.
  - rewrite (Htok client token eq_refl).
    destruct (Hfin client (set_world w s)) as (s1 & -> & Hc & Hk & Ho1). cbn [snd].
    unfold follows, held in *. rewrite Hc, Hk, Ho1. split; [|done].
    unfold asked in *. cbn [p_world p_client set_world]. lia.
  - cbn [snd]. unfold follows, held, asked in *. cbn [p_world p_client p_cancel_token set_world].
    split; [lia|done].
Qed.

Lemma refresh_Ok client s : exists s',
  refresh_session_caches client s = (Ok tt, s') /\ p_client s' = p_client s
  /\ open_connections (asked s') = open_connections (asked s).
Proof.
  assert (fst (refresh_session_caches client s) = Ok tt) as Hok.
  { unfold refresh_session_caches, on_server, attempt, modify. rewrite eff_bind_eq.
    destruct (simple_query client _ (p_world s)) as [r w]. rewrite eff_bind_eq.
    by destruct (query_one client _ _ _) as [r' w']. }
  destruct (steady_refresh client s) as (Hc & _ & new & Hn & Hq).
  destruct (refresh_session_caches client s) as [r s']. cbn in Hok, Hc, Hn. subst r. exists s'.
  split; [done|]. split; [done|]. rewrite Hn, open_connections_app, (open_connections_quiet new) by done. lia.
Qed.

Lemma connect_follows n s : follows n s -> follows n (snd (pg_connect_driver config s)).
Proof.
  unfold pg_connect_driver. apply reconnect_follows. intros client s0. rewrite eff_bind_eq.
  destruct (refresh_Ok client s0) as (s1 & -> & Hc & Ho). unfold modify. rewrite eff_bind_eq.
  eexists. split; [reflexivity|]. split; [done|]. split; [done|].
  rewrite set_client_open. unfold held, asked in *. cbn. by rewrite Ho, Hc.
Qed.
Lemma switch_database_follows database n s :
  follows n s -> follows n (snd (pg_switch_database config database s)).
Proof.
  unfold pg_switch_database. apply reconnect_follows. intros client s0. rewrite eff_bind_eq.
  destruct (refresh_Ok client s0) as (s1 & -> & Hc & Ho). unfold modify. rewrite eff_bind_eq.
  eexists. split; [reflexivity|]. split; [done|]. split; [done|].
  change (open_connections (asked (set_client (Some client) s1))
          = (open_connections (asked s0) - held s0)%Z).
  rewrite set_client_open, Ho. unfold held. by rewrite Hc.
Qed.
Lemma disconnect_follows n s : follows n s -> follows n (snd (pg_disconnect s)).
Proof.
  intros [Ho Ht]. unfold pg_disconnect, modify, follows. cbn [snd p_cancel_token p_client set_client].
  split; [|done]. pose proof (set_client_open None s) as H. unfold asked, held in *.
  cbn [p_world p_client set_client snd] in *. lia.
Qed.

Lemma drive_follows o n s : follows n s -> follows n (drive driver o s).
Proof.
  assert (forall sql, steady (driver_execute sql)) as Hexec.
  { intros sql. apply steady_asks. auto with dbmcp. }
  assert (forall sql, steady (_ ← driver_execute sql; mret tt)) as Hunit.
  { intros sql. apply steady_bind; [done|intros; apply steady_ret]. }
  destruct o; cbn [drive PostgresDriver connect disconnect ping execute execute_parameterized
    execute_user_query fetch_tables fetch_columns fetch_indexes fetch_foreign_keys fetch_triggers
    fetch_table_ddl fetch_view_definition fetch_table_metadata fetch_databases
    fetch_database_metadata create_database drop_database switch_database stream_rows
    apply_query_timeout cancel_query fetch_schemas switch_schema begin_transaction
    commit_transaction rollback_transaction];
    try (by apply connect_follows); try (by apply disconnect_follows);
    try (by apply switch_database_follows);
    try (apply steady_follows; first [apply Hexec | apply Hunit
      | apply steady_with_client; intros; apply pg_execute_user_query_calm
      | apply steady_asks; intros; unfold pg_fetch_databases, pg_fetch_schemas,
          pg_create_database, pg_drop_database; solve [auto with dbmcp]
      | apply steady_in_schema; intros; unfold pg_fetch_tables, pg_fetch_indexes,
          pg_fetch_triggers; solve [auto with dbmcp]]).
  - (* the stream *)
    apply (steady_follows (fun s => (Ok (fst (pg_driver_stream config sql rounds s)),
                                     snd (pg_driver_stream config sql rounds s)))).
    intros s0. cbn [snd]. unfold pg_driver_stream. destruct rounds as [|rounds]; [reflexivity|].
    destruct (p_client s0) as [c|] eqn:Hc; [|reflexivity].
    pose proof (stream_calm c (cfg_read_only config) sql (S rounds) (p_world s0)) as Hs.
    by destruct (pg_stream_rows c _ sql (S rounds) (p_world s0)) as [o w].
  - (* cancel *)
    apply steady_follows, steady_same. intros s0. unfold pg_cancel_query.
    destruct (p_cancel_token s0) eqn:Ht; cbn; by rewrite ?Ht.
  - (* switch_schema *)
    apply steady_follows, steady_bind; [|by intros; apply steady_same].
    apply steady_asks. intros c. apply simple_calm.
Qed.

End session.

(** ** A concrete driver *)

#[export] Instance any_tls {W} : TlsLib W nat nat string unit := {|
  fs_read p _ := if decide (p = "ca.pem") then Ok [] else Err "no such file";
  pem_certs _ := Ok [1; 2];
  anchor_from_trusted_cert c := Ok c;
  add_parsable_certificates cs := cs;
  load_native_certs _ := ([3], EmptyString);
  safe_default_protocol_versions := Ok tt;
  end_entity _ := Ok tt;
  verify_for_usage c roots _ _ := if decide (c ∈ roots) then Ok tt else Err "unknown issuer";
  webpki_verify roots c _ name _ :=
    if decide (c ∈ roots /\ name = "db.example") then Ok tt else Err "not valid for name";
  verify_signature _ _ _ _ := Ok tt |}.
Definition pg_config (m : option SslMode) (read_only : bool) : ConnectionConfig :=
  {| cfg_host := "db.example"; cfg_port := 5432; cfg_username := "u"; cfg_password := None;
     cfg_database := None;
     cfg_ssl := {| mode := m; ca_path := Some "ca.pem"; client_cert_path := None;
                   client_key_path := None |};
     cfg_read_only := read_only; cfg_additional_fields := ∅ |}.

Lemma postgres_tls_as_asked_witness :
  connect_with_config (pg_config (Some VerifyCa) false) ([], [])
    = (Ok (0, 0), ([EConnect true], []))
  /\ 0 = client_cancel_token (W := table_world) (Connector := ServerCertVerifier nat) 0.
Proof.
  assert (connect_with_config (pg_config (Some VerifyCa) false) ([], [])
          = (Ok (0, 0), ([EConnect true], []))) as H by by vm_compute.
  split; [exact H|]. exact (proj1 (postgres_tls_as_asked _ _ _ _ _ H)).
Defined.

Lemma user_sql_in_one_transaction_witness :
  let config := pg_config None true in
  let s := drive (PostgresDriver config) OConnect (PostgresDriver_new ([], [5]%Z)) in
  let s' := snd (execute_user_query (PostgresDriver config) "SELECT n FROM t" (Some 9%Z) None s) in
  p_client s = Some 0
  /\ fst (p_world s') = fst (p_world s) ++ [EStart true; EPrepare "SELECT n FROM t"; EBind; EFetch 9; ECommit]
  /\ exists new, fst (p_world s') = fst (p_world s) ++ EStart true :: new.
Proof.
  intros config s s'. assert (p_client s = Some 0) as Hc by by vm_compute.
  split; [exact Hc|]. split; [by vm_compute|].
  pose proof (proj1 (user_sql_in_one_transaction config "SELECT n FROM t" (Some 9%Z) None 0 s 0 Hc)) as H.
  subst s'. revert H. generalize (execute_user_query (PostgresDriver config) "SELECT n FROM t" (Some 9%Z) None s).
  intros [r s'] (new & Hnew & _). by exists new.
Defined.

(** Switching the database closes the old connection and aims cancels at the
    new one. *)
Example switched :
  let driver := PostgresDriver (pg_config None false) in
  let s := foldl (fun s o => drive driver o s) (PostgresDriver_new ([], [])) [OConnect; OSwitchDatabase "d"] in
  p_client s = Some 3 /\ p_cancel_token s = Some 3
  /\ fst (p_world s) = [EConnect true; ESimple "SHOW server_version"; EQuery "SELECT current_schema()";
                EConnect true; ESimple "SHOW server_version"; EQuery "SELECT current_schema()"; EAbort].
Proof. by vm_compute. Qed.
