(* ===== verification/PostgresCalls.v ===== *)
(** * Concurrent calls of one PostgreSQL driver (crates/driver-postgres:
    driver.rs)

    A driver is shared by the tools of every client.  Here the calls on it
    are cut at their [.await]s: [turn] is one step of one task, over the
    lock's content and the mutexes.  A connection is known by the number of
    its opening, and what is sent on it is logged with that number.  What a
    call sends under the lock is its script, taken from a run of the driver's
    own method, which may have been dropped at any of its [.await]s
    ([cut_off]). *)
From S2P Require Import Prelude RustStr Tasks Core PostgresText PostgresQuery PostgresSchema Postgres.

(** ** Tasks *)

Inductive call :=
  | Asks (script : list PgEvent) (sets_schema : bool)
  | UserSql (script : list PgEvent)
  | Reconnect (switch : bool)
  | Disconnects
  | Cancels.

(** [Reading] and [Writing]: the task holds a read or the write guard;
    [Refreshing] to [Settling]: a [connect] or a [switch_database] with the
    connection it opened. *)
Inductive phase :=
  | Waiting (c : call)
  | Reading (on : nat) (todo : list PgEvent) (sets_schema : bool)
  | Writing (on : nat) (todo : list PgEvent)
  | Refreshing (on : nat) (todo : list PgEvent) (switch : bool)
  | Swapping (on : nat) (switch : bool)
  | Settling (on : nat)
  | Done.

#[export] Instance PgEvent_eq_dec : EqDecision PgEvent.
Proof. solve_decision. Defined.
#[export] Instance call_eq_dec : EqDecision call.
Proof. solve_decision. Defined.
#[export] Instance phase_eq_dec : EqDecision phase.
Proof. solve_decision. Defined.

(** The driver's lock and mutexes by the connections they are about, and what
    was sent on each connection. *)
Record shared := {
  k_tasks : gmap nat phase;
  k_opened : nat;
  k_client : option nat;
  k_token : option nat;
  k_version : option nat;
  k_schema : option nat;
  k_sent : list (nat * PgEvent);
  k_cancels : list nat;
}.
Definition start (calls : gmap nat call) : shared :=
  {| k_tasks := Waiting <$> calls; k_opened := 0; k_client := None; k_token := None;
     k_version := None; k_schema := None; k_sent := []; k_cancels := [] |}.

Definition put (i : nat) (p : phase) (s : shared) : shared :=
  {| k_tasks := <[i := p]> (k_tasks s); k_opened := k_opened s; k_client := k_client s;
     k_token := k_token s; k_version := k_version s; k_schema := k_schema s;
     k_sent := k_sent s; k_cancels := k_cancels s |}.
Definition say (c : nat) (e : PgEvent) (s : shared) : shared :=
  {| k_tasks := k_tasks s; k_opened := k_opened s; k_client := k_client s;
     k_token := k_token s; k_version := k_version s; k_schema := k_schema s;
     k_sent := k_sent s ++ [(c, e)]; k_cancels := k_cancels s |}.
Definition set_caches (token version schema : option nat) (s : shared) : shared :=
  {| k_tasks := k_tasks s; k_opened := k_opened s; k_client := k_client s;
     k_token := token; k_version := version; k_schema := schema;
     k_sent := k_sent s; k_cancels := k_cancels s |}.
Definition set_token (token : option nat) (s : shared) : shared :=
  set_caches token (k_version s) (k_schema s) s.
Definition set_schema (schema : option nat) (s : shared) : shared :=
  set_caches (k_token s) (k_version s) schema s.
(** A new connection, not shared yet. *)
Definition open (s : shared) : shared :=
  say (k_opened s) (EConnect true)
    {| k_tasks := k_tasks s; k_opened := S (k_opened s); k_client := k_client s;
       k_token := k_token s; k_version := k_version s; k_schema := k_schema s;
       k_sent := k_sent s; k_cancels := k_cancels s |}.
(** [*guard = client]: the old connection's task is aborted. *)
Definition swap (client : option nat) (s : shared) : shared :=
  let s := match k_client s with Some old => say old EAbort s | None => s end in
  {| k_tasks := k_tasks s; k_opened := k_opened s; k_client := client;
     k_token := k_token s; k_version := k_version s; k_schema := k_schema s;
     k_sent := k_sent s; k_cancels := k_cancels s |}.
Definition cancel (s : shared) : shared :=
  {| k_tasks := k_tasks s; k_opened := k_opened s; k_client := k_client s;
     k_token := k_token s; k_version := k_version s; k_schema := k_schema s;
     k_sent := k_sent s; k_cancels := k_cancels s ++ option_list (k_token s) |}.

(** ** The lock *)

#[export, refine] Instance phase_guarded : Guarded phase := {|
  writes p := match p with Writing _ _ => true | _ => false end;
  holds p := match p with Reading _ _ _ | Writing _ _ => true | _ => false end;
  steps p :=
    match p with
    | Waiting (Asks script _) | Waiting (UserSql script) => length script + 2
    | Waiting (Reconnect _) => 6
    | Waiting Disconnects | Waiting Cancels => 1
    | Reading _ todo _ | Writing _ todo => length todo + 1
    | Refreshing _ todo _ => length todo + 3
    | Swapping _ _ => 2
    | Settling _ => 1
    | Done => 0
    end |}.
Proof. by intros []. Defined.

(** ** Steps *)

Definition refresh_script : list PgEvent :=
  [ESimple "SHOW server_version"; EQuery "SELECT current_schema()"].
(** An answer that fails leaves the cache empty. *)
Definition refreshed (e : PgEvent) (answer : option nat) (s : shared) : shared :=
  match e with
  | ESimple _ => set_caches (k_token s) answer (k_schema s) s
  | _ => set_schema answer s
  end.
(** A guard over no connection is given back with [not_connected_error]. *)
Definition locked (i : nat) (granted : bool) (p : nat -> phase) (s : shared) : option shared :=
  if granted then Some (put i (from_option p Done (k_client s)) s) else None.

(** One step of task [i]; [ok]: whether the server answers it well.  [None]:
    the task is over, or waits for the lock. *)
Definition turn (i : nat) (ok : bool) (s : shared) : option shared :=
  match k_tasks s !! i with
  | None | Some Done => None
  | Some (Waiting (Asks script sets)) =>
      locked i (can_read (k_tasks s)) (fun c => Reading c script sets) s
  | Some (Reading c (e :: todo) sets) => Some (put i (Reading c todo sets) (say c e s))
  | Some (Reading c [] sets) =>
      Some (put i Done (if sets && ok then set_schema (Some c) s else s))
  | Some (Waiting (UserSql script)) => locked i (can_write (k_tasks s)) (fun c => Writing c script) s
  | Some (Writing c (e :: todo)) => Some (put i (Writing c todo) (say c e s))
  | Some (Writing c []) => Some (put i Done s)
  | Some (Waiting (Reconnect switch)) =>
      Some (if ok then put i (Refreshing (k_opened s) refresh_script switch) (open s) else put i Done s)
  | Some (Refreshing c (e :: todo) switch) =>
      Some (put i (Refreshing c todo switch)
              (refreshed e (if ok then Some c else None) (say c e s)))
  | Some (Refreshing c [] switch) =>
      Some (put i (Swapping c switch) (if switch then s else set_token (Some c) s))
  | Some (Swapping c switch) =>
      if can_write (k_tasks s)
      then Some (put i (if switch then Settling c else Done) (swap (Some c) s)) else None
  | Some (Settling c) => Some (put i Done (set_token (Some c) s))
  | Some (Waiting Disconnects) =>
      if can_write (k_tasks s) then Some (put i Done (set_caches None None None (swap None s))) else None
  | Some (Waiting Cancels) => Some (put i Done (cancel s))
  end.

(** A schedule: which task runs next, and how the server answers it. *)
Definition turns : list (nat * bool) -> shared -> option shared := follow (fun '(i, ok) => turn i ok).

(** ** Calls that are dropped *)

Section cut_off.
Context {W Client CancelToken Txn Statement Portal Row PgError Foreign : Type}.
Context {Cert Anchor Name Signed : Type} `{!TlsLib W Cert Anchor Name Signed}.
#[local] Abbreviation Connector := (ServerCertVerifier Anchor).
Context `{!PgLib W Client Connector CancelToken Txn Statement Portal Row PgError Foreign}.
Context `{!PgLog W Client Connector CancelToken Txn Statement Portal Row PgError Foreign}.

(** The library as a call sees it whose future is dropped while it waits for
    the answer after the next [n]: what it asked was sent, and nothing of it
    runs on, only its values are dropped.  That is what an error does that
    every caller hands on; [None] is that error. *)
Definition answer {A} (m : eff W PgError A) : eff (W * nat) (option PgError) A := fun '(w, n) =>
  let '(r, w) := m w in
  match n with
  | O => (Err None, (w, O))
  | S n => (map_err Some r, (w, n))
  end.
(** A new connection is not shared yet; its calls are not dropped here. *)
Definition in_full {A} (m : eff W PgError A) : eff (W * nat) (option PgError) A := fun wn =>
  let '(r, w) := m (fst wn) in (map_err Some r, (w, snd wn)).
Definition unanswered (f : W -> W) (wn : W * nat) : W * nat := (f (fst wn), snd wn).

Definition cut_off_tls : TlsLib (W * nat) Cert Anchor Name Signed := {|
  fs_read p wn := fs_read p (fst wn);
  pem_certs := pem_certs;
  anchor_from_trusted_cert := anchor_from_trusted_cert;
  add_parsable_certificates := add_parsable_certificates;
  load_native_certs wn := load_native_certs (fst wn);
  safe_default_protocol_versions := safe_default_protocol_versions;
  end_entity := end_entity;
  verify_for_usage := verify_for_usage;
  webpki_verify := webpki_verify;
  verify_signature := verify_signature |}.
Definition cut_off
  : PgLib (W * nat) Client Connector CancelToken Txn Statement Portal Row (option PgError) Foreign := {|
  pg_connect config tls := in_full (pg_connect config tls);
  abort_connection c := unanswered (abort_connection c);
  client_cancel_token := client_cancel_token;
  token_cancel_query token tls := answer (token_cancel_query token tls);
  simple_query c sql := answer (simple_query c sql);
  query c sql ps := answer (query c sql ps);
  query_one c sql ps := answer (query_one c sql ps);
  start_transaction c ro := answer (start_transaction c ro);
  prepare t sql := answer (prepare t sql);
  bind t st ps := answer (bind t st ps);
  query_portal t p n := answer (query_portal t p n);
  commit t := answer (commit t);
  rollback_on_drop t := unanswered (rollback_on_drop t);
  statement_columns := statement_columns;
  row_columns := row_columns;
  try_get t row i := map_err Some (try_get t row i);
  was_null i := Some (was_null i);
  err_code e := e ≫= err_code;
  as_db_error e := e ≫= as_db_error;
  err_to_string := from_option err_to_string EmptyString;
  foreign_to_string := foreign_to_string;
  chrono_format := chrono_format;
  to_rfc3339 := to_rfc3339;
  instant_now wn := instant_now (fst wn) |}.

Lemma answer_world {A} (m : eff W PgError A) wn : fst (snd (answer m wn)) = snd (m (fst wn)).
Proof. destruct wn as [w [|n]]; cbn; by destruct (m w). Qed.
Definition cut_off_log
  : PgLog (H := cut_off) (W * nat) Client Connector CancelToken Txn Statement Portal Row (option PgError) Foreign.
Proof.
  refine {| events wn := events (fst wn) |}; intros; cbn [pg_connect abort_connection simple_query
    query query_one start_transaction prepare bind query_portal commit rollback_on_drop cut_off];
    rewrite ?answer_world.
  - pose proof (events_connect c tls (fst w)) as He. unfold in_full.
    by destruct (pg_connect c tls (fst w)) as [[] w'].
  - apply events_abort.
  - apply events_simple.
  - apply events_query.
  - apply events_query_one.
  - apply events_start.
  - apply events_prepare.
  - apply events_bind.
  - apply events_fetch.
  - apply events_commit.
  - apply events_rollback.
Defined.
End cut_off.

(** ** Where the scripts come from *)

Definition reads (o : driver_op) : bool :=
  match o with
  | OConnect | ODisconnect | OSwitchDatabase _ | OUserQuery _ _ _ | OStream _ _ | OCancel => false
  | _ => true
  end.
Definition runs_sql (o : driver_op) : bool :=
  match o with OUserQuery _ _ _ | OStream _ (S _) => true | _ => false end.
(** The script of a user's statement. *)
Definition sql_script (read_only : bool) (script : list PgEvent) : Prop :=
  exists sql ok new, script = EStart read_only :: new /\ transacted sql ok new.

Section scripts.
Context {W Client CancelToken Txn Statement Portal Row PgError Foreign : Type}.
Context {Cert Anchor Name Signed : Type} `{!TlsLib W Cert Anchor Name Signed}.
#[local] Abbreviation Connector := (ServerCertVerifier Anchor).
Context `{!PgLib W Client Connector CancelToken Txn Statement Portal Row PgError Foreign}.
Context `{!PgLog W Client Connector CancelToken Txn Statement Portal Row PgError Foreign}.
Context (config : ConnectionConfig).
#[local] Abbreviation driver := (PostgresDriver config).
#[local] Abbreviation state := (pstate (W := W) (Client := Client) (CancelToken := CancelToken)).
#[local] Abbreviation asking := (emits (S := state) (E := DriverError) asked plain).

Lemma asking_with_client {A} (f : Client -> eff W DriverError A) :
  (forall c, emits events plain (f c)) -> asking (with_client f).
Proof.
  intros Hf s. unfold with_client, on_server. destruct (p_client s) as [c|].
  - destruct (Hf c (p_world s)) as (new & Hn & Hp). exists new.
    by destruct (f c (p_world s)).
  - exists []. by rewrite app_nil_r.
Qed.
Lemma asking_in_schema {A} schema (f : Client -> string -> eff W DriverError A) :
  (forall c sch, emits events plain (f c sch)) -> asking (in_schema schema f).
Proof. intros Hf s. unfold in_schema. by apply asking_with_client. Qed.

Lemma reads_plain o s : reads o = true ->
  exists script, asked (drive driver o s) = asked s ++ script /\ Forall plain script.
Proof.
  assert (forall sql, asking (driver_execute sql)) as Hexec.
  { intros sql. apply asking_with_client. auto with dbmcp. }
  assert (forall sql, asking (_ ← driver_execute sql; mret tt)) as Hunit.
  { intros sql. apply emits_bind; [done|intros; apply emits_ret]. }
  destruct o; try done; intros _; cbn [drive PostgresDriver connect disconnect ping execute
    execute_parameterized
    execute_user_query fetch_tables fetch_columns fetch_indexes fetch_foreign_keys fetch_triggers
    fetch_table_ddl fetch_view_definition fetch_table_metadata fetch_databases
    fetch_database_metadata create_database drop_database switch_database stream_rows
    apply_query_timeout cancel_query fetch_schemas switch_schema begin_transaction
    commit_transaction rollback_transaction];
    try first [apply Hexec | apply Hunit
      | apply asking_with_client; intros; unfold pg_fetch_databases, pg_fetch_schemas,
          pg_create_database, pg_drop_database; solve [auto with dbmcp]
      | apply asking_in_schema; intros; unfold pg_fetch_tables, pg_fetch_indexes,
          pg_fetch_triggers; solve [auto with dbmcp]].
  apply (emits_bind asked plain); [apply asking_with_client; intros c; apply simple_calm|].
  intros []. by apply emits_modify.
Qed.
Lemma runs_sql_script o s client : runs_sql o = true -> p_client s = Some client ->
  exists script, asked (drive driver o s) = asked s ++ script
                 /\ sql_script (cfg_read_only config) script.
Proof.
  intros Ho Hc. destruct o as [| | | | |sql cap ps| | | | | | | | | | | | | |sql [|rounds]| | | | | | |]; try done;
    cbn [drive PostgresDriver execute_user_query stream_rows].
  - unfold with_client, on_server. rewrite Hc.
    destruct (user_query_log client sql cap ps (cfg_read_only config) (p_world s)) as (new & Hn & Ht).
    destruct (pg_execute_user_query _ _ _ _ _ _). eexists. split; [exact Hn|]. unfold sql_script. eauto.
  - unfold pg_driver_stream. rewrite Hc.
    destruct (stream_log client (cfg_read_only config) sql (S rounds) (p_world s)) as [|(new & Hn & Ht)]; [done|].
    destruct (pg_stream_rows _ _ _ _ _). eexists. split; [exact Hn|]. unfold sql_script. eauto.
Qed.
End scripts.

(** ** What a connection sees *)

(** The session of a connection: statements of their own, and the user's
    statements each in one piece. *)
Inductive session (read_only : bool) : list PgEvent -> Prop :=
  | session_new : session read_only []
  | session_asked evs e : session read_only evs -> plain e -> session read_only (evs ++ [e])
  | session_ran evs script :
      session read_only evs -> sql_script read_only script -> session read_only (evs ++ script).
Definition on (c : nat) (s : shared) : list PgEvent :=
  snd <$> filter (fun ce => fst ce = c) (k_sent s).

Definition legit (read_only : bool) (c : call) : Prop :=
  match c with
  | Asks script _ => Forall plain script
  | UserSql script => sql_script read_only script
  | _ => True
  end.

(** The connection a task opened and did not hand over yet. *)
Definition private (p : phase) : option nat :=
  match p with Refreshing c _ _ | Swapping c _ => Some c | _ => None end.
(** The connection a task uses under the lock. *)
Definition uses (p : phase) : option nat :=
  match p with Reading c _ _ | Writing c _ => Some c | _ => None end.
Definition phase_ok (read_only : bool) (p : phase) : Prop :=
  match p with
  | Waiting c => legit read_only c
  | Reading _ todo _ | Refreshing _ todo _ => Forall plain todo
  | _ => True
  end.

Section invariant.
Context (read_only : bool).
#[local] Abbreviation session := (session read_only).

(** What was sent on a connection: opened, a session, of which a writer may
    be in the middle of its script. *)
Definition in_use (s : shared) (c : nat) : Prop :=
  exists evs current, on c s = EConnect true :: evs ++ current /\ session evs
    /\ (forall i todo, k_tasks s !! i = Some (Writing c todo) -> sql_script read_only (current ++ todo))
    /\ ((forall i todo, k_tasks s !! i <> Some (Writing c todo)) -> current = []).
Definition idle (s : shared) (c : nat) (tail : list PgEvent) : Prop :=
  exists evs, on c s = EConnect true :: evs ++ tail /\ session evs.

Record inv (s : shared) : Prop := {
  inv_phases : map_Forall (fun _ p => phase_ok read_only p) (k_tasks s);
  inv_lock : exclusive (k_tasks s);
  inv_uses : forall i p c, k_tasks s !! i = Some p -> uses p = Some c -> k_client s = Some c;
  inv_private : forall i p c, k_tasks s !! i = Some p -> private p = Some c ->
    c < k_opened s /\ k_client s <> Some c /\ idle s c []
    /\ forall j q, k_tasks s !! j = Some q -> private q = Some c -> i = j;
  inv_client : forall c, k_client s = Some c -> c < k_opened s /\ in_use s c;
  inv_closed : forall c, c < k_opened s -> k_client s <> Some c ->
    (forall i p, k_tasks s !! i = Some p -> private p <> Some c) -> idle s c [EAbort];
  inv_fresh : forall c, k_opened s <= c -> on c s = [];
}.

Lemma on_say c d e s : on c (say d e s) = if decide (d = c) then on c s ++ [e] else on c s.
Proof.
  unfold on, say. cbn [k_sent]. rewrite filter_app, fmap_app.
  case_decide as H.
  - by rewrite filter_cons_True by done.
  - rewrite filter_cons_False by done. by rewrite filter_nil, app_nil_r.
Qed.
Lemma on_same c s s' : k_sent s' = k_sent s -> on c s' = on c s.
Proof. unfold on. by intros ->. Qed.

Lemma inv_start calls : map_Forall (fun _ c => legit read_only c) calls -> inv (start calls).
Proof.
  intros Hc. assert (forall i p, k_tasks (start calls) !! i = Some p ->
                       exists c, p = Waiting c /\ legit read_only c) as Hw.
  { intros i p. cbn. rewrite lookup_fmap. destruct (calls !! i) as [c|] eqn:H; [|done].
    intros [= <-]. eexists. split; [done|]. by apply (Hc i c H). }
  split; cbn [k_opened k_client start]; try done.
  - intros i p Hp. by destruct (Hw i p Hp) as (c & -> & Hl).
  - intros i j pi pj Hi _. by destruct (Hw i pi Hi) as (c & -> & _).
  - intros i p c Hi. by destruct (Hw i p Hi) as (c' & -> & _).
  - intros i p c Hi. by destruct (Hw i p Hi) as (c' & -> & _).
  - intros c Hc'. lia.
Qed.

(** *** What each kind of step keeps *)

Lemma inv_ext s s' :
  k_tasks s' = k_tasks s -> k_opened s' = k_opened s -> k_client s' = k_client s ->
  k_sent s' = k_sent s -> inv s -> inv s'.
Proof.
  destruct s, s'; cbn. intros -> -> -> -> []. split; cbn in *; auto.
Qed.
Lemma no_writer_current s c : inv s -> k_client s = Some c ->
  (forall j q, k_tasks s !! j = Some q -> writes q = false) ->
  exists evs, on c s = EConnect true :: evs /\ session evs.
Proof.
  intros Hi Hc Hw. destruct (inv_client s Hi c Hc) as (_ & evs & cur & Hon & Hs & _ & Hnil).
  rewrite Hnil, app_nil_r in Hon; [by eauto|]. intros j todo Hj. by apply Hw in Hj.
Qed.

(** A task moves on, on the shared connection or on none. *)
Lemma inv_move i old p s s' :
  inv s -> k_tasks s !! i = Some old -> phase_ok read_only p ->
  k_tasks s' = <[i := p]> (k_tasks s) -> k_opened s' = k_opened s -> k_client s' = k_client s ->
  private old = None -> private p = None -> (uses p = None \/ uses p = k_client s) ->
  (holds p = true -> forall j q, j <> i -> k_tasks s !! j = Some q -> writes q = false) ->
  (writes p = true -> forall j q, j <> i -> k_tasks s !! j = Some q -> holds q = false) ->
  (forall c, k_client s <> Some c -> on c s' = on c s) ->
  (forall c, k_client s = Some c -> in_use s' c) -> inv s'.
Proof.
  intros Hi Hold Hp Ht Ho Hc Hpo Hpp Hu Hh Hw Hon Huse. destruct Hi as [H1 H2 H3 H4 H5 H6 H7].
  split; rewrite ?Ht, ?Ho, ?Hc.
  - by apply map_Forall_insert_2.
  - by apply exclusive_put.
  - intros j q c. rewrite lookup_insert_Some. intros [[<- <-]|[? Hj]] Huq; [|by eapply H3].
    destruct Hu as [Hu|Hu]; [by rewrite Hu in Huq|by rewrite <-Hu].
  - intros j q c. rewrite lookup_insert_Some. intros [[<- <-]|[? Hj]] Hq; [by rewrite Hpp in Hq|].
    destruct (H4 j q c Hj Hq) as (? & Hnc & (evs & He & Hs) & Huniq). split; [done|]. split; [done|].
    split; [exists evs; by rewrite Hon|].
    intros k r. rewrite lookup_insert_Some. intros [[<- <-]|[? Hk]] Hr; [by rewrite Hpp in Hr|by eapply Huniq].
  - intros c Hcc. split; [by apply H5|by apply Huse].
  - intros c Hlt Hnc Hnp. destruct (H6 c Hlt Hnc) as (evs & He & Hs).
    + intros j q Hj. destruct (decide (j = i)) as [->|Hne].
      * rewrite Hold in Hj. injection Hj as <-. by rewrite Hpo.
      * apply (Hnp j). by rewrite lookup_insert_ne.
    + exists evs. by rewrite Hon.
  - intros c Hge. rewrite Hon; [by apply H7|]. intros Hcc. apply H5 in Hcc as [? _]. lia.
Qed.

(** A task moves on, on the connection it opened. *)
Lemma inv_move_private i old p s s' c :
  inv s -> k_tasks s !! i = Some old -> phase_ok read_only p ->
  k_tasks s' = <[i := p]> (k_tasks s) -> k_opened s' = k_opened s -> k_client s' = k_client s ->
  private old = Some c -> private p = Some c -> holds p = false ->
  (forall d, c <> d -> on d s' = on d s) -> idle s' c [] -> inv s'.
Proof.
  intros Hi Hold Hp Ht Ho Hc Hpo Hpp Hh Hon Hidle. pose proof Hi as [H1 H2 H3 H4 H5 H6 H7].
  assert (writes p = false) as Hw by (by destruct p). assert (uses p = None) as Hu by (by destruct p).
  assert (writes old = false) as Hwo by (by destruct old).
  destruct (H4 i old c Hold Hpo) as (Hlt & Hnc & _ & Huniq).
  split; rewrite ?Ht, ?Ho, ?Hc.
  - by apply map_Forall_insert_2.
  - by apply exclusive_free.
  - intros j q d. rewrite lookup_insert_Some. intros [[<- <-]|[? Hj]] Huq; [congruence|by eapply H3].
  - intros j q d. rewrite lookup_insert_Some. intros [[<- <-]|[Hne Hj]] Hq.
    + rewrite Hpp in Hq. injection Hq as <-. split; [done|]. split; [done|]. split; [done|].
      intros k r. rewrite lookup_insert_Some. intros [[<- <-]|[? Hk]] Hr; [done|by eapply Huniq].
    + destruct (H4 j q d Hj Hq) as (? & ? & (evs & He & Hs) & Hu').
      assert (c <> d) as Hcd by (intros ->; by apply Hne, (Huniq j q)).
      split; [done|]. split; [done|]. split; [exists evs; by rewrite Hon|].
      intros k r. rewrite lookup_insert_Some. intros [[<- <-]|[? Hk]] Hr; [congruence|by eapply Hu'].
  - intros d Hd. split; [by apply H5|]. destruct (H5 d Hd) as (_ & evs & cur & He & Hs & Hwr & Hnil).
    exists evs, cur. rewrite Hon by congruence. split; [done|]. split; [done|]. rewrite Ht. split.
    + intros j todo. rewrite lookup_insert_Some. intros [[<- ->]|[? Hj]]; [done|by eapply Hwr].
    + intros Hnw. apply Hnil. intros j todo Hj. apply (Hnw j todo).
      rewrite lookup_insert_ne; [done|]. intros ->. rewrite Hold in Hj. by injection Hj as ->.
  - intros d Hd Hnd Hnp. destruct (H6 d Hd Hnd) as (evs & He & Hs).
    + intros j q Hj. destruct (decide (j = i)) as [->|Hne].
      * rewrite Hold in Hj. injection Hj as <-. rewrite Hpo. intros [= ->].
        apply (Hnp i p); [by rewrite lookup_insert_eq|done].
      * apply (Hnp j). by rewrite lookup_insert_ne.
    + exists evs. rewrite Hon; [done|]. intros ->.
      apply (Hnp i p); [by rewrite lookup_insert_eq|done].
  - intros d Hd. rewrite Hon; [by apply H7|]. intros ->. lia.
Qed.

Lemma uses_holds p c : uses p = Some c -> holds p = true.
Proof. by destruct p. Qed.
Lemma swap_tasks o s : k_tasks (swap o s) = k_tasks s.
Proof. unfold swap. by destruct (k_client s). Qed.
Lemma swap_opened o s : k_opened (swap o s) = k_opened s.
Proof. unfold swap. by destruct (k_client s). Qed.
Lemma on_swap o c s :
  on c (swap o s) = if decide (k_client s = Some c) then on c s ++ [EAbort] else on c s.
Proof.
  unfold swap. destruct (k_client s) as [old|]; [|by rewrite decide_False].
  change (on c (say old EAbort s) = if decide (Some old = Some c) then on c s ++ [EAbort] else on c s).
  rewrite on_say. destruct (decide (old = c)), (decide (Some old = Some c)); congruence.
Qed.

(** Under the write guard the old connection goes, and nothing runs on it. *)
Lemma inv_release s : can_write (k_tasks s) = true -> inv s -> inv (swap None s).
Proof.
  intros Hcw Hi. pose proof Hi as [H1 H2 H3 H4 H5 H6 H7].
  split; rewrite ?swap_tasks, ?swap_opened; cbn [k_client swap]; try done.
  - intros i p c Hip Hu. apply uses_holds in Hu. by rewrite (can_write_holds (k_tasks s) i p Hcw Hip) in Hu.
  - intros i p c Hip Hp. destruct (H4 i p c Hip Hp) as (Hlt & Hnc & (evs & He & Hs) & Hu).
    split; [done|]. split; [done|]. split; [|done]. exists evs. by rewrite on_swap, decide_False.
  - intros c Hlt _ Hnp. destruct (decide (k_client s = Some c)) as [Hc|Hc].
    + destruct (no_writer_current s c Hi Hc) as (evs & He & Hs).
      { intros j q Hj. by eapply holds_writes, can_write_holds. }
      exists evs. by rewrite on_swap, decide_True, He.
    + destruct (H6 c Hlt Hc Hnp) as (evs & He & Hs). exists evs. by rewrite on_swap, decide_False.
  - intros c Hge. rewrite on_swap, decide_False; [by apply H7|]. intros Hc. apply H5 in Hc as [? _]. lia.
Qed.

(** The task's own connection becomes the shared one. *)
Lemma inv_adopt i old p s s' c :
  inv s -> k_client s = None -> k_tasks s !! i = Some old -> private old = Some c ->
  private p = None -> holds p = false -> phase_ok read_only p ->
  k_tasks s' = <[i := p]> (k_tasks s) -> k_opened s' = k_opened s -> k_client s' = Some c ->
  k_sent s' = k_sent s -> inv s'.
Proof.
  intros Hi Hnone Hold Hpo Hpp Hh Hp Ht Ho Hc Hsent. pose proof Hi as [H1 H2 H3 H4 H5 H6 H7].
  assert (forall d, on d s' = on d s) as Hon by (intros d; by apply on_same).
  assert (forall j q, k_tasks s !! j = Some q -> holds q = false) as Hholds.
  { intros j q Hj. destruct (holds q) eqn:Hq; [|done].
    destruct (uses q) as [d|] eqn:Hu; [|by destruct q]. by rewrite (H3 j q d Hj Hu) in Hnone. }
  destruct (H4 i old c Hold Hpo) as (Hlt & _ & (evs & He & Hs) & Huniq).
  assert (forall j q, <[i:=p]> (k_tasks s) !! j = Some q -> holds q = false) as Hholds'.
  { intros j q. rewrite lookup_insert_Some. intros [[<- <-]|[? Hj]]; [done|by eapply Hholds]. }
  split; rewrite ?Ht, ?Ho, ?Hc.
  - by apply map_Forall_insert_2.
  - intros j k pj pk Hj Hk Hw Hhk. by rewrite (Hholds' k pk Hk) in Hhk.
  - intros j q d Hj Hu. apply uses_holds in Hu. by rewrite (Hholds' j q Hj) in Hu.
  - intros j q d. rewrite lookup_insert_Some. intros [[<- <-]|[Hne Hj]] Hq; [congruence|].
    destruct (H4 j q d Hj Hq) as (? & _ & (evs' & He' & Hs') & Hu').
    split; [done|]. split; [intros [= ->]; by apply Hne, (Huniq j q)|].
    split; [exists evs'; by rewrite Hon|].
    intros k r. rewrite lookup_insert_Some. intros [[<- <-]|[? Hk]] Hr; [congruence|by eapply Hu'].
  - intros d [= <-]. split; [done|]. exists evs, []. rewrite Hon. split; [done|]. split; [done|].
    split; [|done]. intros j todo. rewrite Ht. intros Hj. by apply Hholds' in Hj.
  - intros d Hd Hnd Hnp. destruct (H6 d Hd) as (evs' & He' & Hs').
    + by rewrite Hnone.
    + intros j q Hj. destruct (decide (j = i)) as [->|Hne].
      * rewrite Hold in Hj. injection Hj as <-. rewrite Hpo. congruence.
      * apply (Hnp j). by rewrite lookup_insert_ne.
    + exists evs'. by rewrite Hon.
  - intros d Hd. rewrite Hon. by apply H7.
Qed.

(** A connection is opened, known to its task alone. *)
Lemma inv_open i old p s :
  inv s -> k_tasks s !! i = Some old -> private old = None -> holds old = false ->
  private p = Some (k_opened s) -> phase_ok read_only p -> inv (put i p (open s)).
Proof.
  intros Hi Hold Hpo Hho Hpp Hp. pose proof Hi as [H1 H2 H3 H4 H5 H6 H7].
  set (c := k_opened s) in *. set (s' := put i p (open s)).
  assert (k_tasks s' = <[i := p]> (k_tasks s)) as Ht by done.
  assert (forall d, on d s' = if decide (c = d) then [EConnect true] else on d s) as Hon.
  { intros d. change (on d s') with (on d (say c (EConnect true) s)). rewrite on_say.
    case_decide as Hd; [subst d; by rewrite H7|done]. }
  assert (holds p = false) as Hh by (by destruct p).
  split; rewrite ?Ht; change (k_client s') with (k_client s); change (k_opened s') with (S c).
  - by apply map_Forall_insert_2.
  - by apply exclusive_free.
  - intros j q d. rewrite lookup_insert_Some. intros [[<- <-]|[? Hj]] Hu; [|by eapply H3].
    apply uses_holds in Hu. congruence.
  - intros j q d. rewrite lookup_insert_Some. intros [[<- <-]|[Hne Hj]] Hq.
    + rewrite Hpp in Hq. injection Hq as <-. split; [lia|]. split.
      { intros Hcc. apply H5 in Hcc as [? _]. lia. }
      split; [exists []; rewrite Hon, decide_True by done; split; [done|constructor]|].
      intros k r. rewrite lookup_insert_Some. intros [[<- <-]|[? Hk]] Hr; [done|].
      destruct (H4 k r c Hk Hr) as (Hlt & _). lia.
    + destruct (H4 j q d Hj Hq) as (? & ? & (evs & He & Hs) & Hu). split; [lia|]. split; [done|].
      split; [exists evs; rewrite Hon, decide_False by lia; done|].
      intros k r. rewrite lookup_insert_Some. intros [[<- <-]|[? Hk]] Hr; [|by eapply Hu].
      rewrite Hpp in Hr. injection Hr as <-. lia.
  - intros d Hd. destruct (H5 d Hd) as (Hlt & evs & cur & He & Hs & Hwr & Hnil). split; [lia|].
    exists evs, cur. rewrite Hon, decide_False by lia. split; [done|]. split; [done|]. rewrite Ht. split.
    + intros j todo. rewrite lookup_insert_Some. intros [[<- ->]|[? Hj]]; [done|by eapply Hwr].
    + intros Hnw. apply Hnil. intros j todo Hj. apply (Hnw j todo).
      rewrite lookup_insert_ne; [done|]. intros ->. rewrite Hold in Hj. by injection Hj as ->.
  - intros d Hd Hnd Hnp. destruct (decide (d = c)) as [->|Hne].
    { exfalso. by apply (Hnp i p); [rewrite lookup_insert_eq|]. }
    destruct (H6 d) as (evs & He & Hs); [lia|done|..].
    + intros j q Hj. destruct (decide (j = i)) as [->|Hji].
      * rewrite Hold in Hj. injection Hj as <-. by rewrite Hpo.
      * apply (Hnp j). by rewrite lookup_insert_ne.
    + exists evs. by rewrite Hon, decide_False by done.
  - intros d Hd. rewrite Hon, decide_False by lia. apply H7. lia.
Qed.

(** *** Every step keeps the invariant *)

Lemma in_use_put s s' i old p c :
  k_tasks s !! i = Some old -> writes old = false -> writes p = false ->
  k_tasks s' = <[i := p]> (k_tasks s) -> on c s' = on c s -> in_use s c -> in_use s' c.
Proof.
  intros Hold Hwo Hw Ht Hon (evs & cur & He & Hs & Hwr & Hnil). exists evs, cur. rewrite Hon, Ht.
  split; [done|]. split; [done|]. split.
  - intros j todo. rewrite lookup_insert_Some. intros [[<- ->]|[? Hj]]; [done|by eapply Hwr].
  - intros Hnw. apply Hnil. intros j todo Hj. apply (Hnw j todo).
    rewrite lookup_insert_ne; [done|]. intros ->. rewrite Hold in Hj. by injection Hj as ->.
Qed.
(** A task without guards goes on without one, sending nothing. *)
Lemma inv_pass i old p s s' :
  inv s -> k_tasks s !! i = Some old -> writes old = false -> private old = None ->
  private p = None -> holds p = false -> phase_ok read_only p ->
  k_tasks s' = <[i := p]> (k_tasks s) -> k_opened s' = k_opened s -> k_client s' = k_client s ->
  k_sent s' = k_sent s -> inv s'.
Proof.
  intros Hi Hold Hwo Hpo Hpp Hh Hp Ht Ho Hc Hsent.
  apply (inv_move i old p s s' Hi Hold); try done.
  - left. destruct (uses p) as [c|] eqn:Hu; [|done]. apply uses_holds in Hu. congruence.
  - congruence.
  - intros Hw. apply holds_writes in Hh. congruence.
  - intros c _. by apply on_same.
  - intros c Hcc. apply (in_use_put s s' i old p c Hold); try done.
    + by apply holds_writes.
    + by apply on_same.
    + by apply (inv_client s Hi).
Qed.

Lemma inv_read_lock i script sets s s' :
  inv s -> k_tasks s !! i = Some (Waiting (Asks script sets)) ->
  locked i (can_read (k_tasks s)) (fun c => Reading c script sets) s = Some s' -> inv s'.
Proof.
  intros Hi Hold. unfold locked. destruct (can_read (k_tasks s)) eqn:Hcr; [|done]. intros [= <-].
  pose proof (inv_phases s Hi i _ Hold) as Hscript.
  destruct (k_client s) as [c|] eqn:Hc; [|by apply (inv_pass i _ Done s _ Hi Hold)].
  apply (inv_move i _ (Reading c script sets) s _ Hi Hold); try done.
  - by right.
  - intros _ j q _ Hj. by eapply can_read_writes.
  - intros d Hd. apply (in_use_put s _ i _ (Reading c script sets) d Hold); try done.
    apply (inv_client s Hi). congruence.
Qed.
Lemma inv_read i c e todo sets s :
  inv s -> k_tasks s !! i = Some (Reading c (e :: todo) sets) ->
  inv (put i (Reading c todo sets) (say c e s)).
Proof.
  intros Hi Hold. pose proof (inv_phases s Hi i _ Hold) as Hscript. apply Forall_cons in Hscript as [He Hp].
  pose proof (inv_uses s Hi i _ c Hold eq_refl) as Hc.
  assert (forall j q, j <> i -> k_tasks s !! j = Some q -> writes q = false) as Hnw.
  { intros j q Hne Hj. destruct (writes q) eqn:Hw; [|done].
    by destruct Hne; eapply (inv_lock s Hi). }
  apply (inv_move i _ (Reading c todo sets) s _ Hi Hold); try done.
  - by right.
  - intros d Hd. change (on d (say c e s) = on d s). rewrite on_say, decide_False by congruence. done.
  - intros d Hd. assert (d = c) as -> by congruence.
    destruct (no_writer_current s c Hi Hc) as (evs & Hon & Hs).
    { intros j q Hj. destruct (decide (j = i)) as [->|Hne]; [|by eapply Hnw].
      rewrite Hold in Hj. by injection Hj as <-. }
    exists (evs ++ [e]), []. split.
    { change (on c (say c e s) = EConnect true :: (evs ++ [e]) ++ []).
      by rewrite on_say, decide_True, Hon, app_nil_r. }
    split; [by constructor|]. split; [|done].
    intros j t. cbn [put k_tasks]. rewrite lookup_insert_Some. intros [[<- ?]|[Hne Hj]]; [done|].
    by apply Hnw in Hj.
Qed.
Lemma inv_write_lock i script s s' :
  inv s -> k_tasks s !! i = Some (Waiting (UserSql script)) ->
  locked i (can_write (k_tasks s)) (fun c => Writing c script) s = Some s' -> inv s'.
Proof.
  intros Hi Hold. unfold locked. destruct (can_write (k_tasks s)) eqn:Hcw; [|done]. intros [= <-].
  pose proof (inv_phases s Hi i _ Hold) as Hscript.
  destruct (k_client s) as [c|] eqn:Hc; [|by apply (inv_pass i _ Done s _ Hi Hold)].
  assert (forall j q, k_tasks s !! j = Some q -> holds q = false) as Hnh by (intros; by eapply can_write_holds).
  apply (inv_move i _ (Writing c script) s _ Hi Hold); try done.
  - by right.
  - intros _ j q _ Hj. by eapply holds_writes, Hnh.
  - intros _ j q _. apply Hnh.
  - intros d Hd. assert (d = c) as -> by congruence.
    destruct (no_writer_current s c Hi Hc) as (evs & Hon & Hs).
    { intros j q Hj. by eapply holds_writes, Hnh. }
    exists evs, []. rewrite app_nil_r. split; [done|]. split; [done|]. split; [|done].
    intros j todo. cbn [put k_tasks]. rewrite lookup_insert_Some. intros [[_ [= <-]]|[_ Hj]]; [done|].
    by apply Hnh in Hj.
Qed.

Lemma writer_alone s i c todo j q :
  inv s -> k_tasks s !! i = Some (Writing c todo) -> j <> i -> k_tasks s !! j = Some q -> holds q = false.
Proof.
  intros Hi Hold Hne Hj. destruct (holds q) eqn:Hq; [|done].
  destruct Hne. symmetry. by eapply (inv_lock s Hi).
Qed.
Lemma inv_write i c e todo s :
  inv s -> k_tasks s !! i = Some (Writing c (e :: todo)) ->
  inv (put i (Writing c todo) (say c e s)).
Proof.
  intros Hi Hold. pose proof (inv_uses s Hi i _ c Hold eq_refl) as Hc.
  pose proof (fun j q => writer_alone s i c (e :: todo) j q Hi Hold) as Hnh.
  apply (inv_move i _ (Writing c todo) s _ Hi Hold); try done.
  - by right.
  - intros _ j q Hne Hj. by eapply holds_writes, Hnh.
  - intros d Hd. change (on d (say c e s) = on d s). rewrite on_say, decide_False by congruence. done.
  - intros d Hd. assert (d = c) as -> by congruence.
    destruct (inv_client s Hi c Hc) as (_ & evs & cur & Hon & Hs & Hwr & _).
    exists evs, (cur ++ [e]). split.
    { change (on c (say c e s) = EConnect true :: evs ++ cur ++ [e]).
      rewrite on_say, decide_True, Hon by done. cbn. by rewrite <-app_assoc. }
    split; [done|]. cbn [put k_tasks]. split.
    + intros j t. rewrite lookup_insert_Some. intros [[_ [= <-]]|[Hne Hj]].
      * rewrite <-app_assoc. by apply (Hwr i).
      * by apply Hnh in Hj.
    + intros Hnw. exfalso. apply (Hnw i todo). by rewrite lookup_insert_eq.
Qed.
Lemma inv_write_done i c s :
  inv s -> k_tasks s !! i = Some (Writing c []) -> inv (put i Done s).
Proof.
  intros Hi Hold. pose proof (inv_uses s Hi i _ c Hold eq_refl) as Hc.
  apply (inv_move i _ Done s _ Hi Hold); try done.
  - by left.
  - intros d Hd. assert (d = c) as -> by congruence.
    destruct (inv_client s Hi c Hc) as (_ & evs & cur & Hon & Hs & Hwr & _).
    exists (evs ++ cur), []. rewrite app_nil_r. split; [done|].
    split; [constructor; [done|]; rewrite <-(app_nil_r cur); by apply (Hwr i)|]. split; [|done].
    intros j t. cbn [put k_tasks]. rewrite lookup_insert_Some. intros [[_ ?]|[Hne Hj]]; [done|].
    by apply (writer_alone s i c [] j) in Hj.
Qed.
Lemma inv_refresh i c e todo switch answer s :
  inv s -> k_tasks s !! i = Some (Refreshing c (e :: todo) switch) ->
  inv (put i (Refreshing c todo switch) (refreshed e answer (say c e s))).
Proof.
  intros Hi Hold. pose proof (inv_phases s Hi i _ Hold) as Hscript. apply Forall_cons in Hscript as [He Hp].
  destruct (inv_private s Hi i _ c Hold eq_refl) as (_ & _ & (evs & Hon & Hs) & _).
  assert (forall d, on d (refreshed e answer (say c e s)) = on d (say c e s)) as Hr by (by destruct e).
  eapply (inv_move_private i _ (Refreshing c todo switch) s _ c Hi Hold); try done.
  1-3: by destruct e.
  - intros d Hd. change (on d (refreshed e answer (say c e s)) = on d s).
    by rewrite Hr, on_say, decide_False.
  - exists (evs ++ [e]). change (on c (refreshed e answer (say c e s)) = EConnect true :: (evs ++ [e]) ++ []
                                 /\ session (evs ++ [e])).
    rewrite Hr, on_say, decide_True, Hon, !app_nil_r by done. split; [done|by constructor].
Qed.
Lemma inv_swap i c switch s :
  inv s -> k_tasks s !! i = Some (Swapping c switch) -> can_write (k_tasks s) = true ->
  inv (put i (if switch then Settling c else Done) (swap (Some c) s)).
Proof.
  intros Hi Hold Hcw.
  eapply (inv_adopt i (Swapping c switch) (if switch then Settling c else Done) (swap None s) _ c);
    try (by destruct switch); rewrite ?swap_tasks, ?swap_opened; try done.
  - by apply inv_release.
Qed.

Lemma inv_turn i ok s s' : inv s -> turn i ok s = Some s' -> inv s'.
Proof.
  intros Hi. unfold turn. destruct (k_tasks s !! i) as [p|] eqn:Hold; [|done].
  destruct p as [[script sets|script|switch| |]|c [|e todo] sets|c [|e todo]|c [|e todo] switch|c switch|c|];
    try done.
  - by apply inv_read_lock.
  - by apply inv_write_lock.
  - intros [= <-]. destruct ok; [|by apply (inv_pass i _ Done s _ Hi Hold)].
    apply (inv_open i _ _ s Hi Hold); try done. by repeat constructor.
  - destruct (can_write (k_tasks s)) eqn:Hcw; [|done]. intros [= <-].
    apply (inv_ext (put i Done (swap None s))); [done..|].
    apply (inv_pass i (Waiting Disconnects) Done (swap None s)); try done; [by apply inv_release|].
    by rewrite swap_tasks.
  - intros [= <-]. by apply (inv_pass i _ Done s _ Hi Hold).
  - intros [= <-]. apply (inv_ext (put i Done s)); [by destruct (sets && ok)..|].
    (* the read guard is given back *)
    apply (inv_move i _ Done s _ Hi Hold); try done; [by left|].
    intros d Hd. by apply (in_use_put s _ i _ Done d Hold), (inv_client s Hi).
  - intros [= <-]. by apply inv_read.
  - intros [= <-]. by eapply inv_write_done.
  - intros [= <-]. by apply inv_write.
  - intros [= <-]. apply (inv_ext (put i (Swapping c switch) s)); [by destruct switch..|].
    destruct (inv_private s Hi i _ c Hold eq_refl) as (_ & _ & Hidle & _).
    by apply (inv_move_private i _ (Swapping c switch) s _ c Hi Hold).
  - intros [= <-]. by apply inv_refresh.
  - destruct (can_write (k_tasks s)) eqn:Hcw; [|done]. intros [= <-]. by apply inv_swap.
  - intros [= <-]. by apply (inv_pass i _ Done s _ Hi Hold).
Qed.
Lemma inv_turns schedule s s' : inv s -> turns schedule s = Some s' -> inv s'.
Proof.
  intros Hi. apply (follow_keeps _ inv); [|done]. intros [i ok] s1 s2. apply inv_turn.
Qed.
End invariant.

(** ** The user's statements are alone on their connection *)

Section isolated.
Context {W Client CancelToken Txn Statement Portal Row PgError Foreign : Type}.
Context {Cert Anchor Name Signed : Type} (T : TlsLib W Cert Anchor Name Signed).
#[local] Abbreviation Connector := (ServerCertVerifier Anchor).
Context (L : PgLib W Client Connector CancelToken Txn Statement Portal Row PgError Foreign).
Context (Log : PgLog (H := L) W Client Connector CancelToken Txn Statement Portal Row PgError Foreign).
Context (config : ConnectionConfig).
#[local] Existing Instances cut_off_tls cut_off cut_off_log.
(** The driver over the library that stops answering. *)
#[local] Abbreviation driver := (PostgresDriver (TlsLib0 := cut_off_tls) (PgLib0 := cut_off) config).
#[local] Abbreviation told := (asked (PgLib0 := cut_off) (PgLog0 := cut_off_log)).

(** What a call sends on a connection is what the driver's method sends,
    dropped at any of its [.await]s or not at all. *)
Definition issued (c : call) : Prop :=
  match c with
  | Asks script _ => exists o s, reads o = true /\ told (drive driver o s) = told s ++ script
  | UserSql script => exists o s client, runs_sql o = true /\ p_client s = Some client
                                         /\ told (drive driver o s) = told s ++ script
  | _ => True
  end.
Lemma issued_legit c : issued c -> legit (cfg_read_only config) c.
Proof.
  destruct c as [script sets|script| | |]; cbn; try done.
  - intros (o & s & Ho & Hs). destruct (reads_plain config o s Ho) as (new & Hn & Hp).
    pose proof (eq_trans (eq_sym Hs) Hn) as Heq. by apply (inj (app _)) in Heq as ->.
  - intros (o & s & client & Ho & Hc & Hs). destruct (runs_sql_script config o s client Ho Hc) as (new & Hn & Hp).
    pose proof (eq_trans (eq_sym Hs) Hn) as Heq. by apply (inj (app _)) in Heq as ->.
Qed.

(** C8: a statement of the user is alone on its connection, whatever calls
    run on the driver at the same time and wherever they are dropped: a
    connection sees statements of their own and the user's transactions,
    each in one piece, opened in the connection's mode and closed before
    anything else is sent; at most the last is still running, and the task
    that runs it holds the write guard; and nothing is sent on a connection
    after it was replaced or closed. *)
Theorem user_sql_is_isolated (calls : gmap nat call) (schedule : list (nat * bool)) (s : shared) :
  map_Forall (fun _ c => issued c) calls -> turns schedule (start calls) = Some s ->
  forall c, c < k_opened s ->
  exists evs current tail,
    on c s = EConnect true :: evs ++ current ++ tail
    /\ session (cfg_read_only config) evs
    /\ (current = []
        \/ exists i todo, k_tasks s !! i = Some (Writing c todo)
                          /\ sql_script (cfg_read_only config) (current ++ todo))
    /\ (tail = []
        \/ tail = [EAbort] /\ current = [] /\ k_client s <> Some c
           /\ map_Forall (fun _ p => uses p <> Some c /\ private p <> Some c) (k_tasks s)).
Proof.
  intros Hc Hs c Hlt. assert (inv (cfg_read_only config) s) as Hi.
  { eapply inv_turns; [|exact Hs]. apply inv_start. intros i cl Hcl. by apply issued_legit, (Hc i). }
  destruct (decide (k_client s = Some c)) as [Hcl|Hcl].
  { destruct (inv_client _ s Hi c Hcl) as (_ & evs & cur & Hon & Hse & Hwr & Hnil).
    exists evs, cur, []. rewrite app_nil_r. split; [done|]. split; [done|]. split; [|by left].
    destruct (decide (map_Forall (fun _ p => writes p = false) (k_tasks s))) as [Hw|Hw].
    - left. apply Hnil. intros i todo Hj. by apply Hw in Hj.
    - apply map_not_Forall in Hw as (i & p & Hj & Hp); [|apply _].
      destruct p as [|?|c' todo| | | |]; try done.
      assert (c' = c) as -> by (pose proof (inv_uses _ s Hi i _ c' Hj eq_refl); congruence).
      right. exists i, todo. split; [done|]. by eapply Hwr. }
  destruct (decide (map_Forall (fun _ p => private p <> Some c) (k_tasks s))) as [Hp|Hp].
  - destruct (inv_closed _ s Hi c Hlt Hcl Hp) as (evs & Hon & Hse). exists evs, [], [EAbort].
    split; [done|]. split; [done|]. split; [by left|]. right. split; [done|]. split; [done|]. split; [done|].
    intros i p Hj. split; [|by apply (Hp i)]. intros Hu. by apply Hcl, (inv_uses _ s Hi i p).
  - apply map_not_Forall in Hp as (i & p & Hj & Hp); [|apply _]. apply dec_stable in Hp.
    destruct (inv_private _ s Hi i p c Hj Hp) as (_ & _ & (evs & Hon & Hse) & _).
    exists evs, [], []. rewrite app_nil_r in *. auto.
Qed.
End isolated.

(** ** Every call ends *)

Lemma work_moved i old p s s0 :
  k_tasks s !! i = Some old -> k_tasks s0 = k_tasks s -> steps p < steps old ->
  work (k_tasks (put i p s0)) < work (k_tasks s).
Proof. intros Hold Ht Hw. cbn [put k_tasks]. rewrite Ht. by eapply work_put. Qed.
Lemma turn_works i ok s s' : turn i ok s = Some s' -> work (k_tasks s') < work (k_tasks s).
Proof.
  unfold turn. destruct (k_tasks s !! i) as [p|] eqn:Hold; [|done].
  destruct p as [[script sets|script|switch| |]|c [|e todo] sets|c [|e todo]|c [|e todo] switch|c switch|c|];
    try done; unfold locked;
    try (match goal with |- context [if ?b then Some _ else None] => destruct b; [|done] end);
    intros [= <-]; destruct ok; (apply (work_moved i _ _ s _ Hold) || (eapply work_moved; [exact Hold|..]));
    try done; try apply swap_tasks; try (by destruct e);
    repeat case_match; try done; destruct (k_client s); cbn; lia.
Qed.

(** C23: every call ends and none waits for ever: from any calls, a schedule
    takes at most [work] steps in all, each one using some of it up, and as
    long as a call is not over some task can take a step: the lock is never
    held by a task that waits. *)
Theorem calls_complete (calls : gmap nat call) (schedule : list (nat * bool)) (s : shared) :
  turns schedule (start calls) = Some s ->
  length schedule + work (k_tasks s) <= work (k_tasks (start calls))
  /\ (map_Forall (fun _ p => p = Done) (k_tasks s) \/ exists i, is_Some (turn i true s)).
Proof.
  intros Hs. split.
  - apply (follow_bounded (fun '(i, ok) => turn i ok) (fun s => work (k_tasks s))); [|done].
    intros [i ok]. apply turn_works.
  - destruct (decide (map_Forall (fun _ p => p = Done) (k_tasks s))) as [Hd|Hd]; [by left|right].
    apply map_not_Forall in Hd as (i & p & Hi & Hp); [|apply _].
    destruct (free_or_held (k_tasks s)) as [[Hr Hw]|(j & q & Hj & Hq)].
    + exists i. unfold turn. rewrite Hi. unfold locked. rewrite Hw, Hr.
      destruct p as [[]|? []|? []|? []| | |]; done.
    + exists j. unfold turn. rewrite Hj. by destruct q as [|? []|? []|? []| | |].
Qed.

(** ** A concrete run *)

(** The driver over the concrete server, connected, that is dropped at the
    answer after the next [n]. *)
Definition example_driver : DatabaseDriver (pstate (W := table_world * nat) (Client := nat) (CancelToken := nat)) :=
  PostgresDriver (TlsLib0 := cut_off_tls) (PgLib0 := cut_off (PgLib0 := table_server)) (pg_config None true).
Definition connected (n : nat) : pstate (W := table_world * nat) (Client := nat) (CancelToken := nat) :=
  {| p_world := (([], [5]%Z), n); p_client := Some 0; p_cancel_token := Some 0;
     p_server_version := None; p_current_schema := None; p_cancels := [] |}.
Definition asked_by (o : driver_op) (n : nat) : list PgEvent :=
  fst (fst (p_world (drive example_driver o (connected n)))).
(** A statement whose caller gives up while the rows are fetched. *)
Definition given_up : list PgEvent := asked_by (OUserQuery "DELETE FROM t" (Some 9%Z) None) 3.
Example given_up_is_undone :
  given_up = [EStart true; EPrepare "DELETE FROM t"; EBind; EFetch 9; ERollback].
Proof. by vm_compute. Qed.

Definition example_calls : gmap nat call :=
  {[0 := Reconnect false; 1 := Asks (asked_by (OExecute "SELECT 1") 9) false; 2 := UserSql given_up]}.
Definition example_schedule : list (nat * bool) :=
  (fun i => (i, true)) <$> [0; 0; 0; 0; 0; 1; 1; 1; 2; 2; 2].
Definition example_state : shared := default (start ∅) (turns example_schedule (start example_calls)).

Lemma example_turns : turns example_schedule (start example_calls) = Some example_state.
Proof. by vm_compute. Qed.

Lemma user_sql_is_isolated_witness :
  on 0 example_state = EConnect true :: refresh_script
                       ++ [ESimple "SELECT 1"; EStart true; EPrepare "DELETE FROM t"]
  /\ can_read (k_tasks example_state) = false
  /\ exists evs current tail, on 0 example_state = EConnect true :: evs ++ current ++ tail
                              /\ session true evs.
Proof.
  split; [by vm_compute|]. split; [by vm_compute|].
  destruct (user_sql_is_isolated any_tls table_server table_log (pg_config None true)
              example_calls example_schedule example_state) with (c := 0) as (evs & cur & tail & He & Hs & _).
  - intros i c. unfold example_calls. rewrite !lookup_insert_Some, lookup_singleton_Some.
    intros [[<- <-]|[_ [[<- <-]|[_ [<- <-]]]]]; [done|..].
    + exists (OExecute "SELECT 1"), (connected 9). split; by vm_compute.
    + exists (OUserQuery "DELETE FROM t" (Some 9%Z) None), (connected 3), 0.
      split; [by vm_compute|]. split; by vm_compute.
  - exact example_turns.
  - by vm_compute.
  - exists evs, cur, tail. split; [exact He|exact Hs].
Defined.
Lemma calls_complete_witness :
  length example_schedule + work (k_tasks example_state) <= work (k_tasks (start example_calls))
  /\ is_Some (turn 2 true example_state) /\ turn 1 true example_state = None.
Proof.
  split; [|by vm_compute; eauto].
  exact (proj1 (calls_complete example_calls example_schedule example_state example_turns)).
Defined.

(** A [connect] sets the cancel token before it waits for the lock: a
    [disconnect] that runs in between clears it, and the driver ends up
    connected with nothing to cancel. *)
Example connected_without_token :
  let s := default (start ∅) (turns ((fun i => (i, true)) <$> [0; 0; 0; 0; 1; 0])
                                (start {[0 := Reconnect false; 1 := Disconnects]})) in
  map_Forall (fun _ p => p = Done) (k_tasks s) /\ k_client s = Some 0 /\ k_token s = None.
Proof. cbn zeta. split; [by apply (bool_decide_unpack _); vm_compute|by vm_compute]. Qed.
(** A [switch_database] does it after: a [cancel_query] in between asks for
    the connection that is gone. *)
Example cancels_the_old :
  let s := default (start ∅) (turns ((fun i => (i, true)) <$> [0; 0; 0; 0; 0; 1; 1; 1; 1; 1; 2])
                                (start {[0 := Reconnect false; 1 := Reconnect true; 2 := Cancels]})) in
  k_client s = Some 1 /\ k_cancels s = [0].
Proof. by vm_compute. Qed.
