(* ===== verification/Drivers.v ===== *)
(** * The registered drivers (server/src/main.rs with the three
    [DriverFactory]s of the driver crates)

    The connection manager and the tools are proved against the [Host]
    interface; this is the host the server runs: a [universe] of three kinds
    of database servers, with the drivers created so far.  A driver keeps
    its own state and shares the servers' worlds with every other one. *)
From S2P Require Import Prelude RustStr Core Json Registry Manager RedisCommand Redis.
From S2P Require Import ClickHouseText ClickHouse ClickHouseGuards.
From S2P Require Import PostgresText PostgresQuery PostgresSchema Postgres.

(** ** A driver inside a larger state *)

Section zoom.
Context {U S : Type} (focus : U -> S) (refocus : S -> U -> U).
Definition zoom_run {A} (m : eff S DriverError A) : eff U DriverError A := fun u =>
  let '(r, s) := m (focus u) in (r, refocus s u).
Definition zoom (d : DatabaseDriver S) : DatabaseDriver U := {|
  Core.connect := zoom_run (Core.connect d);
  disconnect := zoom_run (disconnect d);
  ping := zoom_run (ping d);
  Core.execute sql := zoom_run (Core.execute d sql);
  Core.execute_parameterized sql ps := zoom_run (Core.execute_parameterized d sql ps);
  Core.execute_user_query sql cap ps := zoom_run (Core.execute_user_query d sql cap ps);
  fetch_tables schema := zoom_run (fetch_tables d schema);
  fetch_columns table schema := zoom_run (fetch_columns d table schema);
  fetch_indexes table schema := zoom_run (fetch_indexes d table schema);
  fetch_foreign_keys table schema := zoom_run (fetch_foreign_keys d table schema);
  fetch_triggers table schema := zoom_run (fetch_triggers d table schema);
  fetch_table_ddl table schema := zoom_run (fetch_table_ddl d table schema);
  fetch_view_definition view schema := zoom_run (fetch_view_definition d view schema);
  fetch_table_metadata table schema := zoom_run (fetch_table_metadata d table schema);
  fetch_databases := zoom_run (fetch_databases d);
  fetch_database_metadata database := zoom_run (fetch_database_metadata d database);
  supports_schemas := supports_schemas d;
  fetch_schemas := zoom_run (fetch_schemas d);
  switch_schema schema := zoom_run (switch_schema d schema);
  current_schema u := current_schema d (focus u);
  supports_transactions := supports_transactions d;
  begin_transaction := zoom_run (begin_transaction d);
  commit_transaction := zoom_run (commit_transaction d);
  rollback_transaction := zoom_run (rollback_transaction d);
  cancel_query := zoom_run (cancel_query d);
  apply_query_timeout seconds := zoom_run (apply_query_timeout d seconds);
  keepalive_posture := keepalive_posture d;
  server_version u := server_version d (focus u);
  parameter_style := parameter_style d;
  create_database request := zoom_run (create_database d request);
  drop_database name := zoom_run (drop_database d name);
  switch_database database := zoom_run (switch_database d database);
  stream_rows sql rounds u :=
    let '(o, s) := stream_rows d sql rounds (focus u) in (o, refocus s u) |}.
End zoom.

(** ** The universe *)

Inductive DriverFactory := PostgresDriverFactory | RedisDriverFactory | ClickHouseDriverFactory.
Record handle := { h_factory : DriverFactory; h_config : ConnectionConfig; h_number : nat }.

Record universe (Wp Wr Wc Ps Rs Cs Rnd : Type) := {
  u_postgres : Wp; u_redis : Wr; u_clickhouse : Wc;
  u_pstates : gmap nat Ps; u_rstates : gmap nat Rs; u_cstates : gmap nat Cs;
  u_created : nat;
  u_random : Rnd;
}.
Arguments u_postgres {Wp Wr Wc Ps Rs Cs Rnd} _. Arguments u_redis {Wp Wr Wc Ps Rs Cs Rnd} _.
Arguments u_clickhouse {Wp Wr Wc Ps Rs Cs Rnd} _. Arguments u_pstates {Wp Wr Wc Ps Rs Cs Rnd} _.
Arguments u_rstates {Wp Wr Wc Ps Rs Cs Rnd} _. Arguments u_cstates {Wp Wr Wc Ps Rs Cs Rnd} _.
Arguments u_created {Wp Wr Wc Ps Rs Cs Rnd} _. Arguments u_random {Wp Wr Wc Ps Rs Cs Rnd} _.

Section drivers.
Context {Wp Pc CancelToken Txn Statement Portal Row PgError Foreign Cert Anchor Name Signed : Type}.
Context `{!TlsLib Wp Cert Anchor Name Signed}.
Context `{!PgLib Wp Pc (ServerCertVerifier Anchor) CancelToken Txn Statement Portal Row PgError Foreign}.
Context {Wr RClient RConn RedisError : Type}.
Context `{!RedisLib Wr RClient RConn RedisError} `{!RedisHost Wr}.
Context {Wc HttpClient HttpCert Response ReqError : Type}.
Context `{!HttpLib Wc HttpClient HttpCert Response ReqError} `{!Texts}.
(** The source of uuids, and the clock. *)
Context {Rnd : Type} (next_uuid : Rnd -> Uuid * Rnd) (clock : Rnd -> Z).

#[local] Abbreviation pstate := (Postgres.pstate (W := Wp) (Client := Pc) (CancelToken := CancelToken)).
#[local] Abbreviation rstate := (Redis.rstate (W := Wr) (Conn := RConn)).
#[local] Abbreviation cstate := (ClickHouse.cstate (W := Wc) (Client := HttpClient)).
#[local] Abbreviation U := (universe Wp Wr Wc pstate rstate cstate Rnd).

(** A driver that was not used yet is as its factory made it. *)
Definition postgres_state (n : nat) (u : U) : pstate :=
  Postgres.set_world (u_postgres u) (default (PostgresDriver_new (u_postgres u)) (u_pstates u !! n)).
Definition set_postgres_state (n : nat) (s : pstate) (u : U) : U :=
  {| u_postgres := p_world s; u_redis := u_redis u; u_clickhouse := u_clickhouse u;
     u_pstates := <[n := s]> (u_pstates u); u_rstates := u_rstates u; u_cstates := u_cstates u;
     u_created := u_created u; u_random := u_random u |}.
Definition redis_state (n : nat) (u : U) : rstate :=
  set_r_world (u_redis u) (default (RedisDriver_new (u_redis u)) (u_rstates u !! n)).
Definition set_redis_state (n : nat) (s : rstate) (u : U) : U :=
  {| u_postgres := u_postgres u; u_redis := r_world s; u_clickhouse := u_clickhouse u;
     u_pstates := u_pstates u; u_rstates := <[n := s]> (u_rstates u); u_cstates := u_cstates u;
     u_created := u_created u; u_random := u_random u |}.
Definition clickhouse_state (n : nat) (u : U) : cstate :=
  ClickHouse.set_world (u_clickhouse u)
    (default (ClickHouseDriver_new (u_clickhouse u)) (u_cstates u !! n)).
Definition set_clickhouse_state (n : nat) (s : cstate) (u : U) : U :=
  {| u_postgres := u_postgres u; u_redis := u_redis u; u_clickhouse := c_world s;
     u_pstates := u_pstates u; u_rstates := u_rstates u; u_cstates := <[n := s]> (u_cstates u);
     u_created := u_created u; u_random := u_random u |}.

Definition handle_driver (h : handle) : DatabaseDriver U :=
  let n := h_number h in
  match h_factory h with
  | PostgresDriverFactory =>
      zoom (postgres_state n) (set_postgres_state n) (PostgresDriver (h_config h))
  | RedisDriverFactory => zoom (redis_state n) (set_redis_state n) (RedisDriver (h_config h))
  | ClickHouseDriverFactory =>
      zoom (clickhouse_state n) (set_clickhouse_state n) (ClickHouseDriver (h_config h))
  end.
(** [DriverFactory::create_driver] of the three factories: a driver that is
    not connected yet. *)
Definition create_handle (factory : DriverFactory) (config : ConnectionConfig) (u : U) : handle * U :=
  ({| h_factory := factory; h_config := config; h_number := u_created u |},
   {| u_postgres := u_postgres u; u_redis := u_redis u; u_clickhouse := u_clickhouse u;
      u_pstates := u_pstates u; u_rstates := u_rstates u; u_cstates := u_cstates u;
      u_created := S (u_created u); u_random := u_random u |}).
Definition draw_uuid (u : U) : Uuid * U :=
  let '(id, r) := next_uuid (u_random u) in
  (id, {| u_postgres := u_postgres u; u_redis := u_redis u; u_clickhouse := u_clickhouse u;
          u_pstates := u_pstates u; u_rstates := u_rstates u; u_cstates := u_cstates u;
          u_created := u_created u; u_random := r |}).

#[export] Instance server_host : Host U handle DriverFactory := {|
  driver_of := handle_driver;
  create_driver := create_handle;
  new_v4 := draw_uuid;
  now_ms u := clock (u_random u) |}.

(** The factories of [build_session]'s manager. *)
Definition driver_factories : gmap string DriverFactory :=
  register_driver_factory ClickHouse.DATABASE_TYPE_ID ClickHouseDriverFactory
    (register_driver_factory Redis.DATABASE_TYPE_ID RedisDriverFactory
       (register_driver_factory Postgres.DATABASE_TYPE_ID PostgresDriverFactory ∅)).
End drivers.
