(* ===== verification/Server.v ===== *)
(** * The server binary (crates/server/src/main.rs, run_http of
    crates/transport-http/src/lib.rs)

    The environment, the command line and the two transports come together
    here: what is registered, when the server refuses to start, and what an
    end-to-end call does to the databases. *)
From S2P Require Import Prelude RustStr Json JsonRpc McpServer Core Registry Manager.
From S2P Require Import FileStore Secrets Profiles ToValue Export Tools.
From S2P Require Import Transport.
From S2P Require Import PostgresText PostgresQuery Postgres Redis RedisCommand.
From S2P Require Import ClickHouse ClickHouseGuards Drivers.

Definition DEFAULT_HTTP_BIND : string := "127.0.0.1:8787".
Definition DEFAULT_RATE_LIMIT_PER_MINUTE : Z := 120.
Definition DATA_DIR_ENV_VAR : string := "DB_HEADLESS_DATA_DIR".
Definition DEFAULT_DATA_DIR : string := ".".

(** [std::env::VarError] *)
Inductive VarError := NotPresent | NotUnicode.
(** A start that is refused with a message, or panics. *)
Inductive startup_failure := Refused (message : string) | Panicked.
#[local] Abbreviation startup := (result startup_failure).

(** [Path::new(dir).join(name)] for a plain file name. *)
Definition path_join (dir name : string) : string :=
  if is_empty dir then name
  else if ends_with "/" dir then dir +:+ name else dir +:+ "/" +:+ name.

(** ** Configuration from the environment *)

Section config.
Context (env_var : string -> result VarError string).
(** [hex::decode]. *)
Context (hex_decode : string -> option (list byte)).
(** [str::parse::<SocketAddr>], the [Display] of a failed [u32] parse and the
    [Debug] of a string. *)
Context {Addr : Type} (parse_addr : string -> result string Addr).
Context (parse_int_error : string -> string) (str_debug : string -> string).

(** Where the profile manager keeps its files, and the key of its secrets. *)
Record ProfileStorage := {
  ps_master_key : list byte; ps_secrets_path : string; ps_profiles_path : string }.

Definition build_profile_manager : startup (option ProfileStorage) :=
  match env_var MASTER_KEY_ENV_VAR with
  | Err _ => Ok None
  | Ok _ =>
      let data_dir := match env_var DATA_DIR_ENV_VAR with
                      | Ok dir => dir | Err _ => DEFAULT_DATA_DIR end in
      key ← map_err (fun error => Refused
               ("failed to initialize connection profile secret store: "
                +:+ SecretError_to_string error))
             (from_env hex_decode (fun name => result_ok (env_var name)));
      Ok (Some {| ps_master_key := key;
                  ps_secrets_path := path_join data_dir "secrets.json";
                  ps_profiles_path := path_join data_dir "profiles.json" |})
  end.

Definition build_http_config : startup (Http.HttpTransportConfig Addr) :=
  token ← map_err (fun _ => Refused
            "DB_HEADLESS_MCP_TOKEN must be set to run the HTTP transport; refusing to start an unauthenticated server")
            (env_var "DB_HEADLESS_MCP_TOKEN");
  _ ← (if is_empty token then Err (Refused "DB_HEADLESS_MCP_TOKEN must not be empty") else Ok tt
       : startup unit);
  addr ← (match env_var "DB_HEADLESS_MCP_BIND" with
          | Ok value => map_err (fun error => Refused
              ("DB_HEADLESS_MCP_BIND=" +:+ str_debug value +:+ " is not a valid address: " +:+ error))
              (parse_addr value)
          | Err _ => map_err (fun _ => Panicked) (parse_addr DEFAULT_HTTP_BIND)
          end : startup Addr);
  rate ← (match env_var "DB_HEADLESS_MCP_RATE_LIMIT" with
          | Ok value => ok_or (Refused
              ("DB_HEADLESS_MCP_RATE_LIMIT=" +:+ str_debug value +:+ " is not a valid number: "
               +:+ parse_int_error value)) (parse_u32 value)
          | Err _ => Ok DEFAULT_RATE_LIMIT_PER_MINUTE
          end : startup Z);
  Ok {| Http.bind_addr := addr; Http.cfg_bearer_token := token; Http.rate_limit_per_minute := rate |}.

(** ** The start *)

Inductive launch := LaunchHttp (config : Http.HttpTransportConfig Addr) | LaunchStdio.
(** [main] up to the transport: the profile storage, then the transport. *)
Definition plan (args : list string) : startup (option ProfileStorage * launch) :=
  let use_http := bool_decide ("--http" ∈ args) in
  profiles ← build_profile_manager;
  if use_http then config ← build_http_config; Ok (profiles, LaunchHttp config)
  else Ok (profiles, LaunchStdio).

Inductive ExitCode := SUCCESS | FAILURE | ABORTED.
(** [main]; [transport] runs [run_http] or [run_stdio] to its end. *)
Definition main (args : list string)
    (transport : option ProfileStorage -> launch -> result string unit) : ExitCode :=
  match plan args with
  | Err (Refused _) => FAILURE
  | Err Panicked => ABORTED
  | Ok (profiles, l) => match transport profiles l with Ok _ => SUCCESS | Err _ => FAILURE end
  end.
End config.

(** ** run_http *)

Inductive HttpTransportError (Addr Io : Type) := Bind (addr : Addr) (source : Io) | Serve (source : Io).
Arguments Bind {Addr Io} addr source.
Arguments Serve {Addr Io} source.

Section run_http.
(** [TcpListener::bind], and [axum::serve] until the accept loop ends. *)
Context {N Addr Listener Io W L : Type}.
Context (bind : Addr -> eff N Io Listener).
Context (axum_serve : Listener -> Http.AppState W L -> eff N Io unit).
Context (keyed : Z -> L).

Definition run_http (s : McpSession W) (config : Http.HttpTransportConfig Addr)
  : eff N (HttpTransportError Addr Io) unit :=
  let app := Http.build_state keyed s config in
  listener ← eff_map_err (Bind (Http.bind_addr config)) (bind (Http.bind_addr config));
  eff_map_err Serve (axum_serve listener app).
End run_http.

(** ** What is registered *)

Section session.
Context {W D F S : Type} `{Host W D F} `{Timer W} `{SecretStore S}.
Context (factories : gmap string F) (path : string) (temp_name : gmap string file -> string).
Context (from_slice : list byte -> result string ProfileFile).
Context (to_vec_pretty : ProfileFile -> result string (list byte)).
Context (parse_uuid : string -> result string Uuid) (uuid_to_string : Uuid -> string).
Context (parse_f64 : string -> option Z) (to_string : Value -> string).
Context `{!FromValue ConnectArgs} `{!FromValue IdArgs} `{!FromValue QueryArgs}
  `{!FromValue ListTablesArgs} `{!FromValue DescribeTableArgs}
  `{!FromValue SaveConnectionProfileArgs} `{!FromValue DeleteConnectionProfileArgs}.

(** The registry [build_session] fills; [profiles]: whether there is a profile
    manager. *)
Definition build_registry (profiles : bool) : gmap string (McpTool (tworld W D S)) :=
  register_all
    (PingTool :: EchoTool
     :: database_tools (W := W) (D := D) (F := F) (S := S) factories path temp_name from_slice
          to_vec_pretty parse_uuid uuid_to_string parse_f64 to_string profiles)
    (McpToolRegistry_new (tworld W D S)).
Definition build_session (w : tworld W D S) : McpSession (tworld W D S) := McpSession_new w.
End session.

(** ** When the server starts *)

Section startup.
Context (env_var : string -> result VarError string) (hex_decode : string -> option (list byte)).
Context {Addr : Type} (parse_addr : string -> result string Addr).
Context (parse_int_error : string -> string) (str_debug : string -> string).
#[local] Abbreviation plan := (plan env_var hex_decode parse_addr parse_int_error str_debug).
#[local] Abbreviation main := (main env_var hex_decode parse_addr parse_int_error str_debug).


Lemma build_http_config_Ok config :
  build_http_config env_var parse_addr parse_int_error str_debug = Ok config ->
  env_var "DB_HEADLESS_MCP_TOKEN" = Ok (Http.cfg_bearer_token config)
  /\ Http.cfg_bearer_token config <> EmptyString
  /\ match env_var "DB_HEADLESS_MCP_BIND" with
     | Ok value => parse_addr value = Ok (Http.bind_addr config)
     | Err _ => parse_addr DEFAULT_HTTP_BIND = Ok (Http.bind_addr config)
     end
  /\ match env_var "DB_HEADLESS_MCP_RATE_LIMIT" with
     | Ok value => parse_u32 value = Some (Http.rate_limit_per_minute config)
     | Err _ => Http.rate_limit_per_minute config = DEFAULT_RATE_LIMIT_PER_MINUTE
     end.
Proof.
  unfold build_http_config. intros H.
  destruct (env_var "DB_HEADLESS_MCP_TOKEN") as [token|]; [|done]. cbn [map_err mbind result_bind] in H.
  destruct (is_empty token) eqn:Hempty; [done|]. cbn [mbind result_bind] in H.
  apply result_bind_Ok in H as (addr & Ha & H). apply result_bind_Ok in H as (rate & Hr & [= <-]).
  cbn [Http.cfg_bearer_token Http.bind_addr Http.rate_limit_per_minute].
  split; [done|]. split; [by destruct token|]. split.
  - destruct (env_var "DB_HEADLESS_MCP_BIND") as [value|]; by apply map_err_Ok_inv in Ha.
  - destruct (env_var "DB_HEADLESS_MCP_RATE_LIMIT") as [value|]; [|by injection Hr as <-].
    by destruct (parse_u32 value); simplify_eq/=.
Qed.

(** The server's own HTTP stack, from the configuration it starts with. *)
Context {W L Ip : Type}.
Context (decode_message : list byte -> result JsonRpcError JsonRpcMessage).
Context (handle : JsonRpcMessage -> McpSession W -> option JsonRpcMessage * McpSession W).
Context (to_vec : Value -> result string (list byte)).
Context (to_str : list byte -> option string) (ct_eq : list byte -> list byte -> bool).
Context (check_key : Ip -> L -> bool * L) (stream_body : list byte) (keyed : Z -> L).

(** C11: the HTTP server never runs open: it starts only with a token from
    the environment that is not empty, listens where the environment says or
    on the loopback default, and from then on requests that do not present
    exactly that token leave the session untouched and are refused. *)
Theorem http_server_needs_token (args : list string) (profiles : option ProfileStorage)
    (config : Http.HttpTransportConfig Addr) (s : McpSession W)
    (requests : list (Http.HttpRequest Ip)) :
  plan args = Ok (profiles, LaunchHttp config) -> Http.ct_eq_is_equality ct_eq ->
  exists token, env_var "DB_HEADLESS_MCP_TOKEN" = Ok token /\ token <> EmptyString
    /\ match env_var "DB_HEADLESS_MCP_BIND" with
       | Ok value => parse_addr value = Ok (Http.bind_addr config)
       | Err _ => parse_addr DEFAULT_HTTP_BIND = Ok (Http.bind_addr config)
       end
    /\ (Forall (fun r => Http.presented to_str r <> Some (Http.BEARER_PREFIX +:+ token)) requests ->
        let '(responses, st') := Http.serve decode_message handle to_vec to_str ct_eq check_key
                                   stream_body requests (Http.build_state keyed s config) in
        Http.session st' = s
        /\ Forall2 (fun r resp => Http.req_path r = "/mcp" ->
             Http.status resp = Http.UNAUTHORIZED \/ Http.status resp = Http.TOO_MANY_REQUESTS)
             requests responses).
Proof.
  intros Hplan Heq. unfold Server.plan in Hplan.
  apply result_bind_Ok in Hplan as (ps & _ & Hplan).
  case_bool_decide; [|done]. apply result_bind_Ok in Hplan as (c & Hc & [= _ ->]).
  apply build_http_config_Ok in Hc as (Htoken & Hne & Hbind & _).
  exists (Http.cfg_bearer_token config). split; [done|]. split; [done|]. split; [done|].
  intros Hr. by apply (Http.serve_unauthorized decode_message handle to_vec to_str ct_eq check_key
    stream_body requests (Http.build_state keyed s config) Heq).
Qed.
End startup.

(** ** What a client of the server can call *)

Section tools.
Context {W D F S : Type} `{Host W D F} `{Timer W} `{SecretStore S}.
Context (factories : gmap string F) (path : string) (temp_name : gmap string file -> string).
Context (from_slice : list byte -> result string ProfileFile).
Context (to_vec_pretty : ProfileFile -> result string (list byte)).
Context (parse_uuid : string -> result string Uuid) (uuid_to_string : Uuid -> string).
Context (parse_f64 : string -> option Z) (to_string : Value -> string).
Context `{!FromValue ConnectArgs} `{!FromValue IdArgs} `{!FromValue QueryArgs}
  `{!FromValue ListTablesArgs} `{!FromValue DescribeTableArgs}
  `{!FromValue SaveConnectionProfileArgs} `{!FromValue DeleteConnectionProfileArgs}.
#[local] Abbreviation registry := (build_registry (W := W) (D := D) (F := F) (S := S) factories path
  temp_name from_slice to_vec_pretty parse_uuid uuid_to_string parse_f64 to_string).

Definition tool_names (profiles : bool) : list string :=
  ["ping"; "echo"; "connect"; "disconnect"; "execute_query"; "export_query_jsonl"; "list_databases";
   "list_schemas"; "list_tables"; "describe_table"; "list_connections"; "get_connection_status"]
  ++ (if profiles then ["save_connection_profile"; "list_connection_profiles";
                        "delete_connection_profile"] else []).

Lemma dom_register_all {V} (ts : list (McpTool V)) m :
  dom (register_all ts m) = dom m ∪ list_to_set (tool_name <$> ts).
Proof.
  revert m. induction ts as [|t ts IH]; intros m; [cbn; set_solver|].
  change (register_all (t :: ts) m) with (register_all ts (register t m)).
  rewrite IH. unfold register. rewrite dom_insert_L. cbn. set_solver.
Qed.

(** The tools a client can call are exactly the twelve of a server
    without profile storage, and with it the three profile tools too; no
    two of them share a name, so none is hidden, and a call of any other name
    fails before it reaches anything. *)
Theorem server_tools (profiles : bool) :
  dom (registry profiles) = list_to_set (tool_names profiles)
  /\ NoDup (tool_names profiles)
  /\ map_Forall (fun name t => tool_name t = name) (registry profiles)
  /\ forall name arguments w, name ∉ tool_names profiles ->
       registry_call (registry profiles) name arguments w = (Err (Unknown name), w).
Proof.
  assert (dom (registry profiles) = list_to_set (tool_names profiles)) as Hdom.
  { unfold build_registry. rewrite dom_register_all. unfold McpToolRegistry_new.
    rewrite dom_empty_L, (left_id_L ∅ (∪)). by destruct profiles. }
  split; [done|]. split.
  { apply (bool_decide_unpack _). by destruct profiles; vm_compute. }
  split; [by apply register_all_wf|].
  intros name arguments w Hname. unfold registry_call, lift.
  assert (registry profiles !! name = None) as ->; [|done].
  apply not_elem_of_dom. rewrite Hdom. by rewrite elem_of_list_to_set.
Qed.

Lemma registry_lookup (profiles : bool) name tool :
  registry profiles !! name = Some tool ->
  tool_name tool = name
  /\ tool ∈ PingTool :: EchoTool
           :: database_tools (W := W) (D := D) (F := F) (S := S) factories path temp_name from_slice
                to_vec_pretty parse_uuid uuid_to_string parse_f64 to_string profiles.
Proof.
  intros Ht. unfold build_registry, McpToolRegistry_new in Ht.
  split; [exact (register_all_wf _ _ (map_Forall_empty _) name tool Ht)|].
  rewrite register_all_lookup in Ht. destruct (list_find _ _) as [[i tool']|] eqn:Hf;
    [|by rewrite (lookup_empty (M := gmap string)) in Ht].
  injection Ht as ->. apply list_find_Some in Hf as (Hf & _ & _).
  by apply list_elem_of_lookup_2, list_elem_of_In, in_rev, list_elem_of_In in Hf.
Qed.

(** The lists of field names a schema requires: its own, or those of its
    alternatives. *)
Definition strings_of (v : Value) : option (list string) :=
  match v with JArray items => mapM as_str items | _ => None end.
Definition required_lists (schema : Value) : option (list (list string)) :=
  match value_get "required" schema, value_get "oneOf" schema with
  | Some names, None => (fun l => [l]) <$> strings_of names
  | None, Some (JArray alternatives) => mapM (fun a => value_get "required" a ≫= strings_of) alternatives
  | None, None => Some []
  | _, _ => None
  end.
(** A schema of an object with the properties it lists and no others, each
    property a schema of its own and every required field among them. *)
Definition well_formed_schema (schema : Value) : bool :=
  bool_decide (value_get "type" schema ≫= as_str = Some "object")
  && match value_get "additionalProperties" schema with Some (JBool b) => negb b | _ => false end
  && match value_get "properties" schema ≫= as_object, required_lists schema with
     | Some properties, Some lists =>
         forallb (fun field => bool_decide (is_Some (value_get "type" (snd field)))) properties
         && forallb (forallb (fun name => obj_contains name properties)) lists
     | _, _ => false
     end.
Definition is_object (v : Value) : bool := bool_decide (is_Some (as_object v)).

#[local] Hint Extern 1 (returns _ (mret _)) => by apply returns_ret : dbmcp.
#[local] Ltac object_step :=
  match goal with
  | |- returns _ (if ?x then _ else _) => destruct x
  | |- returns _ (_ ≫= _) => apply returns_after; intros
  | |- returns _ _ => solve [auto with dbmcp]
  end.
(** C34: every tool is what it announces: it is registered under its own name,
    its input schema is the schema of an object that lists the type of each
    of its properties, requires only listed ones and admits no others, and
    whatever it is called with, what it answers on success is a JSON object,
    as the protocol asks of structured content. *)
Theorem tools_well_typed (profiles : bool) (name : string) (tool : McpTool (tworld W D S)) :
  registry profiles !! name = Some tool ->
  tool_name tool = name
  /\ well_formed_schema (tool_input_schema tool) = true
  /\ forall arguments w value w',
       tool_call tool arguments w = (Ok value, w') -> is_object value = true.
Proof.
  intros (Hname & Htool)%registry_lookup. split; [done|]. clear name Hname.
  enough (well_formed_schema (tool_input_schema tool) = true
          /\ forall arguments, returns (fun value => is_object value = true) (tool_call tool arguments))
    as [Hs Hr] by (split; [done|]; intros arguments w value w'; apply Hr).
  unfold database_tools in Htool.
  rewrite !elem_of_cons, elem_of_app, !elem_of_cons, elem_of_nil in Htool.
  destruct_or! Htool; try done; try subst tool.
  all: try (destruct profiles; rewrite ?elem_of_cons, elem_of_nil in Htool; destruct_or! Htool; try done; subst tool).
  all: split; [by vm_compute|intros arguments].
  all: cbn [tool_call PingTool EchoTool ConnectTool DisconnectTool ExecuteQueryTool ExportQueryJsonlTool
    ListDatabasesTool ListSchemasTool ListTablesTool DescribeTableTool ListConnectionsTool
    GetConnectionStatusTool SaveConnectionProfileTool ListConnectionProfilesTool
    DeleteConnectionProfileTool]; repeat object_step.
Qed.
End tools.

(** ** A read-only connection, end to end *)

Section end_to_end.
Context {Wp Pc CancelToken Txn Statement Portal Row PgError Foreign Cert Anchor Name Signed : Type}.
Context `{!TlsLib Wp Cert Anchor Name Signed}.
Context `{!PgLib Wp Pc (ServerCertVerifier Anchor) CancelToken Txn Statement Portal Row PgError Foreign}.
Context `{!PgLog Wp Pc (ServerCertVerifier Anchor) CancelToken Txn Statement Portal Row PgError Foreign}.
Context {Wr RClient RConn RedisError : Type}.
Context `{!RedisLib Wr RClient RConn RedisError} `{!RedisHost Wr}.
Context {Wc HttpClient HttpCert Response ReqError : Type}.
Context `{!HttpLib Wc HttpClient HttpCert Response ReqError} `{!Texts}.
Context `{!HttpLog Wc HttpClient HttpCert Response ReqError}.
Context {Rnd : Type} (next_uuid : Rnd -> Uuid * Rnd) (clock : Rnd -> Z).
#[local] Abbreviation U := (universe Wp Wr Wc
  (Postgres.pstate (W := Wp) (Client := Pc) (CancelToken := CancelToken))
  (Redis.rstate (W := Wr) (Conn := RConn))
  (ClickHouse.cstate (W := Wc) (Client := HttpClient)) Rnd).
#[local] Instance the_host : Host U handle DriverFactory := server_host next_uuid clock.

(** What a statement on a read-only connection may do to the servers: on
    PostgreSQL one transaction that is opened read-only, or nothing; on Redis
    one command known not to write, or nothing; on ClickHouse requests that
    all tell the server to refuse writes; and nothing to the servers of the
    other kinds. *)
Definition read_only_effect (h : handle) (sql : string) (u u' : U) : Prop :=
  match h_factory h with
  | PostgresDriverFactory =>
      u_redis u' = u_redis u /\ u_clickhouse u' = u_clickhouse u
      /\ exists new, events (u_postgres u') = events (u_postgres u) ++ new
           /\ (new = [] \/ exists ok tail, new = EStart true :: tail /\ transacted sql ok tail)
  | RedisDriverFactory =>
      u_postgres u' = u_postgres u /\ u_clickhouse u' = u_clickhouse u
      /\ (u_redis u' = u_redis u
          \/ exists m c, cmd_name c ∈ READ_ONLY_COMMANDS
                         /\ u_redis u' = snd (query_value m c (u_redis u)))
  | ClickHouseDriverFactory =>
      u_postgres u' = u_postgres u /\ u_redis u' = u_redis u
      /\ exists new, sent (u_clickhouse u') = sent (u_clickhouse u) ++ new
           /\ Forall readonly_request new
  end.

Lemma handle_read_only (h : handle) sql cap ps u :
  cfg_read_only (h_config h) = true ->
  read_only_effect h sql u (snd (Core.execute_user_query (driver_of h) sql cap ps u)).
Proof.
  intros Hro. unfold read_only_effect. cbn [driver_of the_host server_host handle_driver].
  unfold handle_driver. destruct (h_factory h); cbn [zoom Core.execute_user_query]; unfold zoom_run.
  - (* PostgreSQL *)
    set (s := postgres_state (h_number h) u).
    assert (asked s = events (u_postgres u)) as Hs by done.
    destruct (p_client s) as [c|] eqn:Hc.
    + pose proof (user_query_log c sql cap ps true (p_world s)) as (new & Hnew & Htx).
      cbn [PostgresDriver Core.execute_user_query]. unfold Postgres.with_client, Postgres.on_server.
      rewrite Hc, Hro. unfold asked in Hs.
      destruct (pg_execute_user_query c sql cap ps true (p_world s)) as [r w]. cbn in *.
      split; [done|]. split; [done|]. exists (EStart true :: new).
      rewrite Hnew. split; [done|]. right. by exists (is_ok r), new.
    + cbn [PostgresDriver Core.execute_user_query]. unfold Postgres.with_client. rewrite Hc. cbn.
      split; [done|]. split; [done|]. exists []. rewrite app_nil_r. by auto.
  - (* Redis *)
    pose proof (read_only_user_query (h_config h) sql cap ps (redis_state (h_number h) u) Hro) as Heff.
    destruct (Core.execute_user_query _ sql cap ps _) as [r s']. cbn in *.
    split; [done|]. split; [done|].
    destruct Heff as [(e & _ & ->)|(m & c & _ & Hcmd & ->)]; [by left|right].
    exists m, c. by split.
  - (* ClickHouse *)
    destruct (drive_requests (h_config h) Hro (OUserQuery sql cap ps) (clickhouse_state (h_number h) u))
      as (new & Hnew & Hq); [done|]. cbn [drive] in Hnew.
    destruct (Core.execute_user_query _ sql cap ps _) as [r s']. cbn in *.
    split; [done|]. split; [done|]. by exists new.
Qed.

Context `{!Timer U} `{!TimerLaw U} {S : Type} `{!SecretStore S}.
Context (path : string) (temp_name : gmap string file -> string).
Context (from_slice : list byte -> result string ProfileFile).
Context (parse_uuid : string -> result string Uuid) (uuid_to_string : Uuid -> string).
Context (parse_f64 : string -> option Z) (to_string : Value -> string).
Context `{!FromValue ConnectArgs} `{!FromValue QueryArgs}.
#[local] Abbreviation T := (tworld U handle S).
#[local] Abbreviation connect_tool := (ConnectTool (W := U) (D := handle) (F := DriverFactory) (S := S)
  driver_factories path from_slice uuid_to_string).

(** The two tools that run a statement. *)
Definition query_tools : list (McpTool T) :=
  [ExecuteQueryTool (F := DriverFactory) parse_uuid uuid_to_string;
   ExportQueryJsonlTool (F := DriverFactory) parse_uuid uuid_to_string parse_f64 to_string].

(** How far a query tool gets in the servers. *)
Lemma query_tool_world (tool : McpTool T) v args id h (w : T) :
  tool ∈ query_tools -> from_value v = Ok args -> parse_uuid (qa_connection_id args) = Ok id ->
  Manager.get id (t_manager w) = Ok h ->
  let query := Core.execute_user_query (driver_of h) (qa_query args) (qa_row_cap args)
                 (query_parameters args) in
  is_Some (fst (timeout QueryResult CLIENT_BACKSTOP_SECS query (m_world (t_manager w)))) ->
  m_world (t_manager (snd (tool_call tool (Some v) w))) = snd (query (m_world (t_manager w))).
Proof.
  intros Htool Ha Hid Hg query Hdone.
  assert (forall {A} (k : QueryResult -> eff T McpToolError A),
    (forall q w, snd (k q w) = w) ->
    m_world (t_manager (snd (mbind k (run_user_query (F := DriverFactory) uuid_to_string id (qa_query args)
                                        (query_parameters args) (qa_row_cap args)) w)))
    = snd (query (m_world (t_manager w)))) as Hrun.
  { intros A k Hk. rewrite eff_bind_eq. unfold run_user_query. rewrite eff_bind_eq. unfold live_driver.
    rewrite Hg. cbn [map_err]. rewrite eff_bind_eq. fold query.
    destruct (timeout QueryResult CLIENT_BACKSTOP_SECS query (m_world (t_manager w)))
      as [[outcome|] wd] eqn:Ht; cbn [fst] in Hdone; [|by destruct Hdone].
    apply timeout_completes in Ht. rewrite Ht. cbn [snd]. unfold lift.
    destruct outcome as [q|e]; cbn [map_err]; [|done]. by rewrite Hk. }
  unfold query_tools in Htool. rewrite !elem_of_cons, elem_of_nil in Htool.
  destruct Htool as [-> | [-> | []]]; cbn [tool_call ExecuteQueryTool ExportQueryJsonlTool];
    unfold parse_arguments, parse_connection_id, lift; rewrite eff_bind_eq; cbn [ok_or mbind result_bind];
    rewrite Ha; cbn [map_err]; rewrite eff_bind_eq, Hid; cbn [map_err]; by apply Hrun.
Qed.

(** C1: read-only holds from the tool to the database, for every engine: a
    connection opened through [connect] with [read_only] keeps that setting
    in its driver, and as long as it is the connection of its id every
    statement a query tool runs on it (one that is not cut off by the
    client-side timeout) has only a read-only effect on the database servers. *)
Theorem read_only_end_to_end (v : Value) (args : ConnectArgs) (out : Value) (w w1 : T) :
  from_value v = Ok args -> ca_profile_name args = None -> ca_read_only args = Some true ->
  tool_call (connect_tool false) (Some v) w = (Ok out, w1) ->
  exists id h,
    out = json_object [("connection_id", JString (uuid_to_string id))]
    /\ Manager.get id (t_manager w1) = Ok h
    /\ forall (tool : McpTool T) qv qargs (w2 : T),
         tool ∈ query_tools -> from_value qv = Ok qargs ->
         parse_uuid (qa_connection_id qargs) = Ok id -> Manager.get id (t_manager w2) = Ok h ->
         is_Some (fst (timeout QueryResult CLIENT_BACKSTOP_SECS
           (Core.execute_user_query (driver_of h) (qa_query qargs) (qa_row_cap qargs)
              (query_parameters qargs)) (m_world (t_manager w2)))) ->
         read_only_effect h (qa_query qargs) (m_world (t_manager w2))
           (m_world (t_manager (snd (tool_call tool (Some qv) w2)))).
Proof.
  intros Ha Hnone Hro Hcall. cbn [tool_call ConnectTool] in Hcall.
  unfold parse_arguments, lift in Hcall. rewrite eff_bind_eq in Hcall. cbn [ok_or mbind result_bind] in Hcall.
  rewrite Ha in Hcall. cbn [map_err] in Hcall. rewrite eff_bind_eq in Hcall.
  unfold connect_target in Hcall. rewrite Hnone in Hcall. unfold lift in Hcall.
  destruct (adhoc_config args) as [[ty cfg]|e] eqn:Hcfg; [|done].
  assert (cfg_read_only cfg = true) as Hcro.
  { unfold adhoc_config in Hcfg.
    destruct (ca_database_type args), (ca_host args), (ca_port args), (ca_username args);
      cbn in Hcfg; try done.
    destruct (parse_ssl_mode (ca_ssl_mode args)); cbn in Hcfg; [|done].
    injection Hcfg as _ <-. cbn. by rewrite Hro. }
  cbn [fst snd] in Hcall. rewrite eff_bind_eq in Hcall. unfold eff_map_err, on_manager in Hcall.
  rewrite connect_eq in Hcall. destruct (driver_factories !! ty) as [factory|]; [|done].
  destruct (new_v4 (m_world (t_manager w))) as [id u1].
  destruct (create_driver factory cfg u1) as [h u2] eqn:Hcreate.
  destruct (Core.connect (driver_of h) u2) as [[[]|e] u3]; [|done]. cbn in Hcall.
  injection Hcall as <- <-. exists id, h. split; [done|].
  assert (cfg_read_only (h_config h) = true) as Hh.
  { cbn in Hcreate. unfold create_handle in Hcreate. by injection Hcreate as <- _. }
  split. { unfold Manager.get. cbn. by rewrite lookup_insert_eq. }
  intros tool qv qargs w2 Htool Hqa Hid Hg Hdone.
  rewrite (query_tool_world tool qv qargs id h w2 Htool Hqa Hid Hg Hdone).
  by apply handle_read_only.
Qed.
End end_to_end.

(** ** A concrete server *)

#[local] Existing Instances Tools.stub_other_args Redis.log_lib Redis.log_host.
#[local] Instance http_lib : HttpLib (list HttpRequest) unit unit unit unit := echo_lib EmptyString.
#[local] Instance http_log : HttpLog (list HttpRequest) unit unit unit unit := echo_log EmptyString.
#[local] Abbreviation small_universe := (universe table_world (list Cmd) (list HttpRequest)
  (Postgres.pstate (W := table_world) (Client := nat) (CancelToken := nat))
  (Redis.rstate (W := list Cmd) (Conn := nat))
  (ClickHouse.cstate (W := list HttpRequest) (Client := unit)) N).
#[local] Instance small_host : Host small_universe handle DriverFactory :=
  server_host (fun r => (r, (r + 1)%N)) Z.of_N.
#[local] Instance in_time : Timer small_universe := fun A _ m w => let '(r, w) := m w in (Some r, w).
#[local] Instance in_time_law : TimerLaw small_universe.
Proof.
  intros A secs m w r w' H. unfold timeout, in_time in H. destruct (m w) as [r0 w0].
  by injection H as -> ->.
Qed.
Definition wanted : ConnectArgs := {|
  ca_profile_name := None; ca_database_type := Some "PostgreSQL"; ca_host := Some "h";
  ca_port := Some 5432%Z; ca_username := Some "u"; ca_password := None; ca_database := None;
  ca_ssl_mode := Some "required"; ca_read_only := Some true |}.
Definition asked_query : QueryArgs := {|
  qa_connection_id := "7"; qa_query := "DELETE FROM t"; qa_parameters := None; qa_row_cap := Some 9%Z |}.
#[local] Instance decode_connect : FromValue ConnectArgs := fun _ => Ok wanted.
#[local] Instance decode_query : FromValue QueryArgs := fun _ => Ok asked_query.
Definition small_start : tworld small_universe handle memory_store := {|
  t_manager := ConnectionManager_new {|
    u_postgres := ([], [1; 2]%Z); u_redis := []; u_clickhouse := []; u_pstates := ∅; u_rstates := ∅;
    u_cstates := ∅; u_created := 0; u_random := 7%N |};
  t_profiles := example_world false |}.
Definition small_connect : McpTool (tworld small_universe handle memory_store) :=
  ConnectTool (F := DriverFactory) driver_factories "p" (fun _ => Err "no") (fun id : Uuid => pretty id) false.
Definition small_execute : McpTool (tworld small_universe handle memory_store) :=
  ExecuteQueryTool (F := DriverFactory) (fun _ => Ok 7%N) (fun id : Uuid => pretty id).

Definition small_opened : tworld small_universe handle memory_store :=
  snd (tool_call small_connect (Some JNull) small_start).
Definition small_done : tworld small_universe handle memory_store :=
  snd (tool_call small_execute (Some JNull) small_opened).

(** The connect tool, among the fifteen. *)
Lemma tools_well_typed_witness :
  let tools := build_registry (W := small_universe) (D := handle) (F := DriverFactory) (S := memory_store)
    driver_factories "p" fresh_name parse_map print_map (fun _ => Ok 7%N) (fun id : Uuid => pretty id)
    (fun _ => None) (fun _ => EmptyString) true in
  size tools = 15
  /\ exists tool, tools !! "connect" = Some tool
       /\ well_formed_schema (tool_input_schema tool) = true
       /\ tool_call tool (Some JNull) small_start
          = (Ok (json_object [("connection_id", JString (pretty 7%N))]), small_opened).
Proof.
  intros tools. split; [by vm_compute|].
  assert (tools !! "connect" = Some (ConnectTool (F := DriverFactory) driver_factories "p" parse_map
    (fun id : Uuid => pretty id) true)) as Ht by reflexivity.
  eexists. split; [exact Ht|].
  split; [exact (proj1 (proj2 (tools_well_typed _ _ _ _ _ _ _ _ _ _ _ _ Ht)))|by vm_compute].
Defined.

(** A client opens a read-only connection and asks for a write: the server
    is asked to run it in a read-only transaction. *)
Lemma read_only_end_to_end_witness :
  let log w := fst (u_postgres (m_world (t_manager w))) in
  log small_done = log small_opened ++ [EStart true; EPrepare "DELETE FROM t"; EBind; EFetch 9; ECommit]
  /\ exists h, read_only_effect (Anchor := nat) h "DELETE FROM t" (m_world (t_manager small_opened))
                (m_world (t_manager small_done)).
Proof.
  split; [by vm_compute|].
  assert (tool_call small_connect (Some JNull) small_start
          = (Ok (json_object [("connection_id", JString (pretty 7%N))]), small_opened)) as Hcall
    by by vm_compute.
  destruct (read_only_end_to_end (fun r => (r, (r + 1)%N)) Z.of_N (S := memory_store) "p"
    (fun _ => Err "no") (fun _ => Ok 7%N) (fun id : Uuid => pretty id) (fun _ => None)
    (fun _ => EmptyString) JNull wanted _ small_start _ eq_refl eq_refl eq_refl Hcall)
    as (id & h & Hid & Hget & Hall).
  assert (7%N = id) as <-.
  { unfold json_object in Hid. injection Hid as Hid. by apply (inj pretty). }
  exists h. apply (Hall small_execute JNull asked_query small_opened); [by left|done|done|exact Hget|].
  unfold timeout, in_time. destruct (Core.execute_user_query _ _ _ _ _). by eexists.
Defined.

(** The HTTP transport without a token, and with one. *)
Definition example_env (token : option string) (name : string) : result VarError string :=
  if decide (name = "DB_HEADLESS_MCP_TOKEN") then ok_or NotPresent token else Err NotPresent.
(** The configuration the environment [TOKEN=t] gives. *)
Definition example_config : Http.HttpTransportConfig string :=
  {| Http.bind_addr := "127.0.0.1:8787"; Http.cfg_bearer_token := "t"; Http.rate_limit_per_minute := 120 |}.
Definition example_plan (token : option string) : result startup_failure (option ProfileStorage * launch) :=
  plan (example_env token) (fun _ => None) (fun a : string => Ok a) (fun e => e) (fun s => s)
    ["db-headless-mcp"; "--http"].

Lemma http_server_needs_token_witness :
  example_plan (Some "t") = Ok (None, LaunchHttp example_config)
  /\ example_plan (Some EmptyString) = Err (Refused "DB_HEADLESS_MCP_TOKEN must not be empty")
  /\ let '(responses, st') := Http.serve Http.example_decode Http.example_handle Http.example_to_vec
        Http.example_to_str Http.example_ct_eq (fun (_ : unit) (l : unit) => (true, l)) []
        [Http.example_request "Bearer guess"]
        (Http.build_state (fun _ => tt) (McpSession_new tt) example_config) in
     Http.session st' = McpSession_new tt /\ Http.status <$> responses = [Http.UNAUTHORIZED].
Proof.
  split; [by vm_compute|]. split; [by vm_compute|].
  unshelve epose proof (http_server_needs_token (example_env (Some "t")) (fun _ => None)
    (fun a : string => Ok a) (fun e => e) (fun s => s) Http.example_decode Http.example_handle
    Http.example_to_vec Http.example_to_str Http.example_ct_eq
    (fun (_ : unit) (l : unit) => (true, l)) [] (fun _ => tt)
    ["db-headless-mcp"; "--http"] None example_config (McpSession_new tt)
    [Http.example_request "Bearer guess"] _ _) as (token & Ht & _ & _ & Hserve);
    [by vm_compute|exact (fun a b => eq_refl)|].
  injection Ht as <-.
  assert (Forall (fun r => Http.presented Http.example_to_str r <> Some (Http.BEARER_PREFIX +:+ "t"))
    [Http.example_request "Bearer guess"]) as Hf by (repeat constructor; vm_compute; discriminate).
  specialize (Hserve Hf). destruct Hserve as [Hs _]. split; [exact Hs|by vm_compute].
Defined.

(** A key that is not Unicode counts as no key: the server starts without
    profile storage instead of refusing to start. *)
Example key_not_unicode :
  plan (fun _ => Err NotUnicode) (fun _ => None) (fun a : string => Ok a) (fun e => e) (fun s => s)
    ["db-headless-mcp"] = Ok (None, LaunchStdio).
Proof. by vm_compute. Qed.
