(* ===== verification/Confined.v ===== *)
(** * Confined connections

    What a client can bring about that opens connections of one kind only,
    whatever it sends: [Confinement] is the interface between the drivers,
    which say how a connection of that kind may move the world, and the
    layers above, which are proved here to add nothing to it: the manager,
    the tools, the session and both transports. *)
From S2P Require Import Prelude RustStr Json JsonRpc McpServer Transport Core Registry Manager.
From S2P Require Import FileStore Secrets Profiles ToValue Export Tools Server.

(** ** The interface *)

(** The methods that the manager and the tools call, each moving the world
    as [R] allows. *)
Record confined {W} (R : relation W) (d : DatabaseDriver W) : Prop := {
  confined_connect : within R (Core.connect d);
  confined_disconnect : within R (disconnect d);
  confined_timeout : within R (apply_query_timeout d SERVER_SECS);
  confined_user_query sql cap ps : within R (execute_user_query d sql cap ps);
  confined_cancel : within R (cancel_query d);
  confined_databases : within R (fetch_databases d);
  confined_schemas : within R (fetch_schemas d);
  confined_tables schema : within R (fetch_tables d schema);
  confined_metadata table schema : within R (fetch_table_metadata d table schema);
}.

(** The configurations of the kind, the drivers created from them, and how
    their methods move the world. *)
Class Confinement (W D F : Type) `{Host W D F} := {
  moves : relation W;
  moves_preorder :: PreOrder moves;
  confining : ConnectionConfig -> Prop;
  restrained : D -> Prop;
  restrained_confined d : restrained d -> confined moves (driver_of d);
  created_restrained (f : F) config w : confining config -> restrained (fst (create_driver f config w));
  created_moves (f : F) config w : moves w (snd (create_driver f config w));
  new_v4_moves w : moves w (snd (new_v4 w));
}.
#[global] Hint Mode Confinement ! ! ! - : typeclass_instances.

(** What cutting a call off at a deadline leaves behind is allowed too. *)
Class ConfinedTimer {W} `{Timer W} (R : relation W) :=
  timeout_within A secs (m : eff W DriverError A) : within R m ->
    forall w, R w (snd (timeout A secs m w)).

(** ** The connection manager *)

Section manager.
Context {W D F : Type} `{Confinement W D F}.
#[local] Abbreviation state := (manager W D).

Definition all_restrained (s : state) : Prop :=
  map_Forall (fun _ d => restrained d) (m_sessions s)
  /\ map_Forall (fun _ e => restrained (ent_driver e)) (m_entries s).
(** A step of the manager: as long as every driver it holds is of the kind it
    stays so, and the world moves as allowed. *)
Definition keeps : relation state := fun s s' =>
  all_restrained s -> all_restrained s' /\ moves (m_world s) (m_world s').
#[export] Instance keeps_preorder : PreOrder keeps.
Proof.
  split; [by intros s Hs|]. intros s1 s2 s3 H12 H23 H1.
  destruct (H12 H1) as [H2 Hm]. destruct (H23 H2) as [H3 Hm']. split; [done|by etrans].
Qed.

Lemma set_world_keeps w (s : state) : moves (m_world s) w -> keeps s (set_world w s).
Proof. by intros Hw Hs. Qed.
Lemma on_world_keeps {E A} (m : eff W E A) : within moves m -> within keeps (on_world m : eff state E A).
Proof. intros Hm s. rewrite on_world_eq. apply set_world_keeps, Hm. Qed.

Lemma connect_keeps factories ty config :
  confining config -> within keeps (Manager.connect (F := F) factories ty config).
Proof.
  intros Hc s [Hs He]. rewrite connect_eq. destruct (factories !! ty) as [f|]; [|by split].
  pose proof (new_v4_moves (m_world s)) as M1. destruct (new_v4 (m_world s)) as [id w1].
  pose proof (created_restrained f config w1 Hc) as Hd. pose proof (created_moves f config w1) as M2.
  destruct (create_driver f config w1) as [d w2]. cbn [fst snd] in Hd, M1, M2.
  destruct (restrained_confined d Hd) as [Hconn _ Htime _ _ _ _ _ _].
  specialize (Hconn w2). destruct (Core.connect (driver_of d) w2) as [[u|e] w3]; cbn [snd] in Hconn.
  2: { split; [by split|]. cbn. by do 2 (etrans; [eassumption|]). }
  specialize (Htime w3).
  set (w4 := snd (apply_query_timeout (driver_of d) SERVER_SECS w3)) in *.
  assert (moves (m_world s) w4) as M4 by (by do 3 (etrans; [eassumption|])).
  split; [split; cbn; by apply map_Forall_insert_2|]. cbn.
  destruct (m_sessions s !! id) as [previous|] eqn:Hp; [|done].
  etrans; [exact M4|]. apply (confined_disconnect _ _ (restrained_confined _ (Hs _ _ Hp))).
Qed.

Lemma disconnect_keeps id : within keeps (disconnect_id (W := W) (F := F) id).
Proof.
  intros s [Hs He].
  set (gone := fun w => {| m_attempts := Attempts.forget id (m_attempts s);
                 m_sessions := delete id (m_sessions s); m_entries := delete id (m_entries s);
                 m_world := w |} : state).
  assert (forall w, all_restrained (gone w)) as Hgone.
  { intros w. split; cbn; by apply map_Forall_delete. }
  unfold disconnect_id. destruct (m_entries s !! id) as [entry|] eqn:Hent;
    [|split; [exact (Hgone (m_world s))|reflexivity]].
  unfold eff_map_err. rewrite on_world_eq. cbn [snd]. split; [apply Hgone|].
  apply (confined_disconnect _ _ (restrained_confined _ (He _ _ Hent))).
Qed.

Lemma get_restrained id (s : state) d :
  all_restrained s -> Manager.get id s = Ok d -> restrained d.
Proof.
  intros [_ He]. unfold Manager.get. destruct (m_entries s !! id) as [e|] eqn:Hent; [|done].
  intros [= <-]. by eapply He.
Qed.

Lemma new_restrained (w : W) : all_restrained (ConnectionManager_new w).
Proof. split; apply map_Forall_empty. Qed.
End manager.

(** ** What a client asks for *)

Section messages.
Context (params_from_value : Value -> result string ToolCallParams).
Context (decode_message : list byte -> result JsonRpcError JsonRpcMessage).

(** A message that is not a call of [connect], or one with arguments that
    [asks] allows; and a text that decodes to such a message, if to any. *)
Definition connects_as (asks : option Value -> Prop) (m : JsonRpcMessage) : Prop :=
  match m with
  | Request request =>
      req_method request = "tools/call" ->
      forall v p, req_params request = Some v -> params_from_value v = Ok p ->
                  tc_name p = "connect" -> asks (tc_arguments p)
  | _ => True
  end.
Definition bytes_connect_as (asks : option Value -> Prop) (bs : list byte) : Prop :=
  forall m, decode_message bs = Ok m -> connects_as asks m.

Lemma connects_as_mono (asks asks' : option Value -> Prop) m :
  (forall v, asks v -> asks' v) -> connects_as asks m -> connects_as asks' m.
Proof. intros Ha. destruct m; [|done..]. intros Hm Hc v p Hv Hp Hn. eauto. Qed.
Lemma bytes_connect_as_mono (asks asks' : option Value -> Prop) bs :
  (forall v, asks v -> asks' v) -> bytes_connect_as asks bs -> bytes_connect_as asks' bs.
Proof. intros Ha Hb m Hm. eapply connects_as_mono; [exact Ha|by apply Hb]. Qed.
End messages.

(** ** The tools *)

Section tools.
Context {W D F S : Type} `{Confinement W D F} `{Timer W} `{!ConfinedTimer moves} `{SecretStore S}.
Context (factories : gmap string F) (path : string) (temp_name : gmap string file -> string).
Context (from_slice : list byte -> result string ProfileFile).
Context (to_vec_pretty : ProfileFile -> result string (list byte)).
Context (parse_uuid : string -> result string Uuid) (uuid_to_string : Uuid -> string).
Context (parse_f64 : string -> option Z) (to_string : Value -> string).
Context `{!FromValue ConnectArgs} `{!FromValue IdArgs} `{!FromValue QueryArgs}
  `{!FromValue ListTablesArgs} `{!FromValue DescribeTableArgs}
  `{!FromValue SaveConnectionProfileArgs} `{!FromValue DeleteConnectionProfileArgs}.
#[local] Abbreviation T := (tworld W D S).

Definition tool_keeps : relation T := fun w w' => keeps (t_manager w) (t_manager w').
#[local] Instance tool_keeps_preorder : PreOrder tool_keeps.
Proof.
  split; [by intros w|]. intros w1 w2 w3 H12 H23. unfold tool_keeps in *. by etrans.
Qed.

Lemma on_manager_keeps {E A} (m : eff (manager W D) E A) :
  within keeps m -> within tool_keeps (on_manager (S := S) m).
Proof. intros Hm w. unfold on_manager. specialize (Hm (t_manager w)). by destruct (m (t_manager w)). Qed.
Lemma on_profiles_keeps {E A} (m : eff (pworld S) E A) :
  within tool_keeps (on_profiles (W := W) (D := D) m).
Proof. intros w. unfold on_profiles. by destruct (m (t_profiles w)). Qed.
Lemma call_driver_keeps {A} (m : eff W DriverError A) :
  within moves m -> within tool_keeps (call_driver (D := D) (S := S) m).
Proof. intros Hm. apply within_map_err, on_manager_keeps, on_world_keeps, Hm. Qed.
Lemma live_status_keeps id : within tool_keeps (live_status (W := W) (D := D) (S := S) uuid_to_string id).
Proof. by intros w. Qed.
(** What is done with the driver of a connection. *)
Lemma live_driver_keeps {A} id (f : D -> eff T McpToolError A) :
  (forall d, restrained d -> within tool_keeps (f d)) ->
  within tool_keeps (live_driver (W := W) (S := S) uuid_to_string id ≫= f).
Proof.
  intros Hf w Hall. rewrite eff_bind_eq. unfold live_driver.
  destruct (Manager.get id (t_manager w)) as [d|e] eqn:Hg; cbn [map_err]; [|by split].
  apply Hf; [by eapply get_restrained|done].
Qed.
Lemma run_user_query_keeps id sql ps cap :
  within tool_keeps (run_user_query (W := W) (D := D) (F := F) (S := S) uuid_to_string id sql ps cap).
Proof.
  unfold run_user_query. apply live_driver_keeps. intros d Hd.
  destruct (restrained_confined d Hd) as [_ _ _ Hquery Hcancel _ _ _ _].
  apply within_bind; [apply _| |intros [outcome|]].
  - intros w.
    pose proof (timeout_within QueryResult CLIENT_BACKSTOP_SECS _ (Hquery sql cap ps) (m_world (t_manager w))) as Hm.
    destruct (timeout _ _ _ _) as [o wd]. by apply set_world_keeps.
  - apply within_lift, _.
  - apply within_bind; [apply _| |intros; apply within_throw, _].
    apply within_attempt, on_manager_keeps, on_world_keeps, Hcancel.
Qed.

(** A connect that asks for a connection of the kind, and for no saved
    profile. *)
Definition asks_confined (arguments : option Value) : Prop := forall v args,
  arguments = Some v -> from_value v = Ok args ->
  ca_profile_name args = None
  /\ forall ty config, adhoc_config args = Ok (ty, config) -> confining config.

#[local] Abbreviation connect_tool profiles := (ConnectTool (W := W) (D := D) (F := F) (S := S)
  factories path from_slice uuid_to_string profiles).
Lemma connect_tool_keeps profiles v :
  asks_confined v -> within tool_keeps (tool_call (connect_tool profiles) v).
Proof.
  intros Hasks w. cbn [tool_call ConnectTool]. rewrite eff_bind_eq. unfold parse_arguments, lift.
  destruct v as [v|]; [|reflexivity]. cbn [ok_or mbind result_bind].
  destruct (from_value v) as [args|e] eqn:Ha; [|reflexivity]. cbn [map_err].
  destruct (Hasks v args eq_refl Ha) as [Hnone Hconf]. rewrite eff_bind_eq.
  unfold connect_target. rewrite Hnone. unfold lift.
  destruct (adhoc_config args) as [[ty config]|e]; [|reflexivity].
  pose proof (connect_keeps factories ty config (Hconf _ _ eq_refl)) as Hc.
  apply on_manager_keeps in Hc. cbn [fst snd]. revert w.
  change (within tool_keeps (eff_map_err (map_manager_error uuid_to_string)
    (on_manager (Manager.connect factories ty config)) ≫= fun connection_id : Uuid =>
      mret (M := eff T McpToolError) (json_object [("connection_id", JString (uuid_to_string connection_id))]))).
  apply within_bind; [apply _|by apply within_map_err|intros; apply within_ret, _].
Qed.

#[local] Hint Resolve confined_databases confined_schemas confined_tables confined_metadata
  restrained_confined on_profiles_keeps call_driver_keeps live_status_keeps run_user_query_keeps
  on_manager_keeps disconnect_keeps : dbmcp.
#[local] Ltac keeps_step :=
  match goal with
  | |- within _ (match ?x with _ => _ end) => destruct x
  | |- within _ (live_driver _ _ ≫= _) => apply live_driver_keeps; intros
  | |- within _ (_ ≫= _) => apply within_bind; [apply _| |intros]
  | |- within _ _ => solve [auto 7 with dbmcp typeclass_instances]
  end.

(** Every tool but a connect of another kind keeps the connections of the
    kind, and moves the world as they may. *)
Lemma tool_call_keeps profiles tool v :
  tool ∈ PingTool :: EchoTool :: database_tools (W := W) (D := D) (F := F) (S := S) factories path
    temp_name from_slice to_vec_pretty parse_uuid uuid_to_string parse_f64 to_string profiles ->
  (tool_name tool = "connect" -> asks_confined v) ->
  within tool_keeps (tool_call tool v).
Proof.
  intros Htool Hconn. unfold database_tools in Htool.
  rewrite !elem_of_cons, elem_of_app, !elem_of_cons, elem_of_nil in Htool.
  destruct_or! Htool; try done; try subst tool.
  all: try (by apply connect_tool_keeps, Hconn).
  all: try (destruct profiles; rewrite ?elem_of_cons, elem_of_nil in Htool; destruct_or! Htool; try done; subst tool).
  all: clear Hconn; cbn [tool_call PingTool EchoTool DisconnectTool ExecuteQueryTool ExportQueryJsonlTool
    ListDatabasesTool ListSchemasTool ListTablesTool DescribeTableTool ListConnectionsTool
    GetConnectionStatusTool SaveConnectionProfileTool ListConnectionProfilesTool
    DeleteConnectionProfileTool]; repeat keeps_step.
Qed.

(** ** The session and the transports *)

Context (to_string_pretty : Value -> string) (params_from_value : Value -> result string ToolCallParams).
Context (profiles : bool).
#[local] Abbreviation registry := (build_registry (W := W) (D := D) (F := F) (S := S) factories path
  temp_name from_slice to_vec_pretty parse_uuid uuid_to_string parse_f64 to_string profiles).
#[local] Abbreviation session := (McpSession T).
#[local] Abbreviation handle := (McpServer.handle to_string_pretty params_from_value registry).

Definition session_keeps : relation session := fun s s' => tool_keeps (world s) (world s').
#[local] Instance session_keeps_preorder : PreOrder session_keeps.
Proof.
  split; [by intros s|]. intros s1 s2 s3 H12 H23. unfold session_keeps in *. by etrans.
Qed.

Lemma session_keeps_same s s' : world s' = world s -> session_keeps s s'.
Proof. intros Hw. unfold session_keeps. by rewrite Hw. Qed.

#[local] Abbreviation confined_message := (connects_as params_from_value asks_confined).

Lemma registry_call_keeps name v :
  (name = "connect" -> asks_confined v) -> within tool_keeps (registry_call registry name v).
Proof.
  intros Hasks w. unfold registry_call. rewrite eff_bind_eq. unfold lift.
  destruct (registry !! name) as [tool|] eqn:Ht; cbn [ok_or]; [|reflexivity].
  apply registry_lookup in Ht as [Hname Hf].
  revert w. apply within_map_err. eapply tool_call_keeps; [exact Hf|]. by rewrite Hname.
Qed.

Lemma handle_keeps m s : confined_message m -> session_keeps s (snd (handle m s)).
Proof.
  intros Hm. destruct m as [request| | |]; try reflexivity. cbn [McpServer.handle].
  enough (session_keeps s (snd (dispatch_request to_string_pretty params_from_value registry request s))) as Hd.
  { unfold handle_request. destruct (dispatch_request _ _ _ _ _) as [[[r tool] outcome] s'].
    cbn [snd] in Hd. by destruct r. }
  unfold dispatch_request. case_decide; [by apply session_keeps_same|]. case_decide; [reflexivity|].
  case_decide as Hcall; [|reflexivity]. specialize (Hm Hcall). unfold handle_tools_call.
  destruct (require_initialized s); [|reflexivity].
  destruct (req_params request) as [v|]; [|reflexivity]. cbn [fmap option_fmap option_map].
  destruct (params_from_value v) as [p|e] eqn:Hp; [|reflexivity].
  pose proof (registry_call_keeps (tc_name p) (tc_arguments p) (Hm v p eq_refl Hp) (world s)) as Hr.
  destruct (registry_call registry (tc_name p) (tc_arguments p) (world s)) as [r w].
  by destruct (map_call_result to_string_pretty r).
Qed.

Context (decode_message : list byte -> result JsonRpcError JsonRpcMessage).
Context (to_vec : Value -> result string (list byte)).
#[local] Abbreviation confined_bytes := (bytes_connect_as params_from_value decode_message asks_confined).

Lemma stdio_keeps {O} (write_all : list byte -> eff O string unit) flush lines s (o : O) :
  Forall (fun l => confined_bytes (as_bytes l)) (Stdio.texts lines) ->
  session_keeps s (snd (fst (Stdio.run decode_message handle to_vec write_all flush lines s o))).
Proof.
  revert s o. induction lines as [|[l|] lines IH]; intros s o Hlines; [reflexivity| |by apply IH].
  cbn [Stdio.run]. unfold Stdio.texts in Hlines. cbn [omap list_omap] in Hlines.
  destruct (is_empty (trim l)); [by apply IH|]. apply Forall_cons in Hlines as [Hl Hlines].
  assert (session_keeps s (snd (Stdio.reply_to decode_message handle l s))) as Hs.
  { unfold Stdio.reply_to. destruct (decode_message (as_bytes l)) as [m|e] eqn:Hd; [|reflexivity].
    by apply handle_keeps, Hl. }
  destruct (Stdio.reply_to _ _ l s) as [[reply|] s1]; cbn [snd] in Hs; [|by etrans; [exact Hs|by apply IH]].
  destruct (Stdio.write_reply _ _ _ reply o) as [[u|e] o1]; [|exact Hs]. by etrans; [exact Hs|by apply IH].
Qed.

Context {L Ip : Type} (to_str : list byte -> option string) (ct_eq : list byte -> list byte -> bool).
Context (check_key : Ip -> L -> bool * L) (stream_body : list byte).
Lemma http_keeps requests (st : Http.AppState T L) :
  Forall (fun r => forall body, Http.req_body r = Ok body -> confined_bytes body) requests ->
  session_keeps (Http.session st) (Http.session (snd (Http.serve decode_message handle to_vec to_str
    ct_eq check_key stream_body requests st))).
Proof.
  intros Hrs. revert st. induction Hrs as [|r requests Hr _ IH]; intros st; cbn [Http.serve]; [reflexivity|].
  enough (session_keeps (Http.session st) (Http.session (snd (Http.router decode_message handle to_vec to_str
    ct_eq check_key stream_body r st)))) as Hst.
  { destruct (Http.router _ _ _ _ _ _ _ r st) as [resp st1]. specialize (IH st1).
    destruct (Http.serve _ _ _ _ _ _ _ requests st1). by etrans. }
  unfold Http.router, Http.enforce_rate_limit. destruct (check_key (Http.req_ip r) (Http.limiter st)) as [[] l];
    [|reflexivity].
  case_decide; [|case_decide; [|reflexivity]].
  - unfold Http.require_bearer_token, Http.post, Http.handle_mcp.
    destruct (Http.extract_bearer_token _ _) as [token|]; [|reflexivity].
    destruct (Http.tokens_match _ _ _); [|reflexivity]. case_decide; [|reflexivity].
    destruct (Http.req_body r) as [body|e] eqn:Hb; [|reflexivity].
    destruct (decode_message body) as [m|e] eqn:Hd; [|reflexivity].
    pose proof (handle_keeps m (Http.session st) (Hr body eq_refl m Hd)) as Hm.
    by destruct (handle m _).
  - unfold Http.get, Http.stream_demo. by repeat case_decide.
Qed.
End tools.
