(* ===== verification/Guarantees.v ===== *)
(** * Guarantees across the program

    Two of the repository's guardrails that no single crate carries: the row
    ceiling holds whatever a client asks and whichever engine answers, and a
    saved password reaches the secret store and nothing else. *)
From S2P Require Import Prelude RustStr Json JsonRpc McpServer Core Registry Manager.
From S2P Require Import FileStore Secrets Profiles ToValue Export Tools.
From S2P Require Import PostgresText PostgresQuery Postgres Redis RedisCommand.
From S2P Require Import ClickHouseText ClickHouse ClickHouseGuards Drivers Server.

(** ** The row ceiling *)

Definition row_count (r : QueryResult) : Z := Z.of_nat (length (rows r)).

Section clickhouse.
Context {W Client Cert Response ReqError : Type}.
Context `{!HttpLib W Client Cert Response ReqError} `{!Texts}.
#[local] Abbreviation capped b n len := (if (b : bool) then (len <= n)%Z else (len < n)%Z).

Lemma drain_lines_bound fuel names cap buffer rows out :
  (Z.of_nat (length rows) < Z.max 1 cap)%Z -> drain_lines fuel names cap buffer rows = Ok out ->
  let '(truncated, _, rows') := out in capped truncated (Z.max 1 cap) (Z.of_nat (length rows')).
Proof.
  revert buffer rows. induction fuel as [|fuel IH]; intros buffer rows Hlt; cbn [drain_lines].
  { by intros [= <-]. }
  destruct (split_once NL buffer) as [[line rest]|]; [|by intros [= <-]].
  destruct (is_blank line); [by apply IH|].
  intros (row & _ & Hd)%result_bind_Ok. revert Hd. cbn zeta.
  destruct (Z.leb_spec cap (Z.of_nat (length (rows ++ [row])))) as [Hc|Hc]; rewrite length_app in Hc.
  - intros [= <-]. rewrite length_app. cbn [length] in *. lia.
  - apply IH. rewrite length_app. cbn [length] in *. lia.
Qed.
Lemma collect_chunks_bound names cap chunks buffer rows out :
  (Z.of_nat (length rows) < Z.max 1 cap)%Z ->
  collect_chunks names cap chunks buffer rows = Ok out ->
  let '(truncated, _, rows') := out in capped truncated (Z.max 1 cap) (Z.of_nat (length rows')).
Proof.
  revert buffer rows. induction chunks as [|chunk chunks IH]; intros buffer rows Hlt; cbn [collect_chunks].
  { by intros [= <-]. }
  intros (bytes & _ & Hd)%result_bind_Ok. apply result_bind_Ok in Hd as ([[b buf] rows'] & Hd & Hx).
  apply drain_lines_bound in Hd; [|done]. destruct b; [by injection Hx as <-|by eapply IH].
Qed.
Lemma collect_rows_bound names cap chunks b rows :
  collect_rows names cap chunks = Ok (b, rows) -> (Z.of_nat (length rows) <= Z.max 1 cap)%Z.
Proof.
  intros ([[t buf] rows'] & Hc & Hx)%result_bind_Ok. apply collect_chunks_bound in Hc; [|cbn; lia].
  destruct t; cbn [negb andb] in Hx; [by injection Hx as _ <-|].
  destruct (negb (is_blank buf)); [|injection Hx as _ <-; lia].
  apply result_bind_Ok in Hx as (row & _ & [= _ <-]). rewrite length_app. cbn [length]. lia.
Qed.

Lemma returns_guarded {A} (Q : A -> Prop) query_id (m : eff (cstate (W := W) (Client := Client)) DriverError A) :
  returns Q m -> returns Q (guarded query_id m).
Proof.
  intros Hm s a s'. unfold guarded. destruct (m s) as [r s1] eqn:Hs. intros [= -> _]. by eapply Hm.
Qed.

Lemma clickhouse_capped config sql row_cap ps :
  (0 <= default 0 row_cap)%Z ->
  returns (fun r => row_count r <= Z.max 1 (clamp_row_cap row_cap))%Z
    (Core.execute_user_query (ClickHouseDriver config) sql row_cap ps).
Proof.
  intros Hcap s r s'. cbn [ClickHouseDriver Core.execute_user_query]. unfold ClickHouse.with_client.
  destruct (c_client s) as [connected|]; [|done]. revert s r s'.
  change (returns (fun r => row_count r <= Z.max 1 (clamp_row_cap row_cap))%Z
            (execute_user_query_capped config connected sql row_cap ps)).
  unfold execute_user_query_capped. destruct (is_row_returning_statement _ _).
  - unfold capped_streaming. apply returns_after; intros started.
    apply returns_after; intros [rewritten pairs]. apply returns_after; intros header.
    apply returns_after; intros [response query_id]. apply returns_guarded.
    apply (returns_bind (fun brs => Z.of_nat (length (snd brs)) <= Z.max 1 (clamp_row_cap row_cap))%Z).
    + apply returns_lift. intros [b rs]. apply collect_rows_bound.
    + intros [b rs] Hrs. apply returns_after; intros elapsed. by apply returns_ret.
  - unfold capped_buffered. apply returns_after; intros started.
    apply returns_after; intros outcome. apply returns_after; intros elapsed. apply returns_ret.
    unfold row_count. cbn [tsv_result rows].
    destruct (Z.ltb_spec (clamp_row_cap row_cap) (Z.of_nat (length (to_rows outcome)))); [|lia].
    rewrite length_take. lia.
Qed.
End clickhouse.

Section redis.
Context {W RClient RConn RedisError : Type} `{!RedisLib W RClient RConn RedisError} `{!RedisHost W}.
Lemma redis_capped config query row_cap ps :
  (0 <= default 0 row_cap)%Z ->
  returns (fun r => row_count r <= clamp_row_cap row_cap)%Z
    (Core.execute_user_query (RedisDriver config) query row_cap ps).
Proof.
  intros Hcap. cbn [RedisDriver Core.execute_user_query]. apply returns_after; intros m.
  intros s r s'. rewrite on_server_eq.
  destruct (Redis.execute_user_query m query row_cap ps (cfg_read_only config) (r_world s)) as [r0 w] eqn:Hq.
  cbn [fst snd]. intros [= -> _]. by apply user_query_row_cap in Hq as (v & _ & Hn & _).
Qed.
End redis.

Section postgres.
Context {W Client CancelToken Txn Statement Portal Row PgError Foreign : Type}.
Context {Cert Anchor Name Signed : Type} `{!TlsLib W Cert Anchor Name Signed}.
#[local] Abbreviation Connector := (ServerCertVerifier Anchor).
Context `{!PgLib W Client Connector CancelToken Txn Statement Portal Row PgError Foreign}.
(** A bounded fetch brings no more rows than it asks for. *)
Definition fetch_bounded : Prop := forall txn portal n w batch w',
  (0 < n)%Z -> query_portal txn portal n w = (Ok batch, w') -> (Z.of_nat (length batch) <= n)%Z.
Context (Hfetch : fetch_bounded).

Lemma portal_loop_capped fuel txn stmt portal cap st :
  (PostgresQuery.row_count st <= Z.max 0 cap)%Z ->
  returns (fun r => PostgresQuery.row_count (fst r) <= Z.max 0 cap)%Z
    (portal_loop fuel txn stmt portal cap st).
Proof.
  revert st. induction fuel as [|fuel IH]; intros st Hst; cbn [portal_loop];
    destruct (Z.leb_spec cap (PostgresQuery.row_count st)); try (by apply returns_ret).
  set (n := Z.min (cap - PostgresQuery.row_count st) PORTAL_BATCH_SIZE).
  apply (returns_bind (fun batch => Z.of_nat (length batch) <= n)%Z).
  { intros w batch w'. unfold run, eff_map_err.
    destruct (query_portal txn portal n w) as [[b|e] w1] eqn:Hq; cbn [map_err]; [|done].
    intros [= <- <-]. apply Hfetch in Hq; [done|]. subst n. unfold PORTAL_BATCH_SIZE. lia. }
  intros batch Hb. apply (returns_bind (fun new : list (list CellValue) => Z.of_nat (length new) <= n)%Z).
  { apply returns_lift. intros new Hnew. apply collect_length in Hnew. rewrite length_fmap in Hnew. lia. }
  intros new Hnew.
  assert (PostgresQuery.row_count {| f_header := next_header stmt batch (f_header st);
                                     f_rows := f_rows st ++ new |} <= Z.max 0 cap)%Z as Hst'.
  { unfold PostgresQuery.row_count in *. cbn [f_rows]. rewrite length_app. lia. }
  case_match; [by apply returns_ret|by apply IH].
Qed.
Lemma returns_in_transaction {A} (Q : A -> Prop) client ro (body : Txn -> eff W DriverError A) :
  (forall txn, returns Q (body txn)) -> returns Q (in_transaction client ro body).
Proof.
  intros Hb. unfold in_transaction. apply returns_after; intros txn. intros w a w'.
  destruct (body txn w) as [[a0|e] w1] eqn:He; [|done]. rewrite eff_bind_eq.
  destruct (run (commit txn) w1) as [[[]|e] w2]; [|done]. intros [= <- _]. by eapply Hb.
Qed.
Lemma postgres_capped config sql row_cap ps :
  (0 <= default 0 row_cap)%Z ->
  returns (fun r => row_count r <= clamp_row_cap row_cap)%Z
    (Core.execute_user_query (PostgresDriver config) sql row_cap ps).
Proof.
  intros Hcap s r s'. cbn [PostgresDriver Core.execute_user_query]. unfold Postgres.with_client, Postgres.on_server.
  destruct (p_client s) as [client|]; [|done].
  destruct (pg_execute_user_query client sql row_cap ps (cfg_read_only config) (p_world s)) as [r0 w] eqn:Hq.
  intros [= -> _]. revert Hq. generalize (p_world s) as w0. intros w0. revert w0 r w.
  change (returns (fun r => row_count r <= clamp_row_cap row_cap)%Z
            (pg_execute_user_query client sql row_cap ps (cfg_read_only config))).
  unfold pg_execute_user_query. apply returns_after; intros started.
  assert (0 <= clamp_row_cap row_cap)%Z as Hc.
  { unfold clamp_row_cap, EMERGENCY_MAX. destruct row_cap; cbn in *; lia. }
  apply (returns_bind (fun r => PostgresQuery.row_count (fst r) <= clamp_row_cap row_cap)%Z).
  - apply returns_in_transaction. intros txn. apply returns_after; intros [stmt portal].
    intros w a w' Hloop. apply portal_loop_capped in Hloop; cbn beta in *; [lia|].
    unfold PostgresQuery.row_count. cbn [f_rows length]. lia.
  - intros [st truncated] Hst. apply returns_after; intros elapsed. by apply returns_ret.
Qed.
End postgres.

(** ** Whatever the engine *)

Section row_cap.
Context {Wp Pc CancelToken Txn Statement Portal Row PgError Foreign Cert Anchor Name Signed : Type}.
Context `{!TlsLib Wp Cert Anchor Name Signed}.
Context `{!PgLib Wp Pc (ServerCertVerifier Anchor) CancelToken Txn Statement Portal Row PgError Foreign}.
Context {Wr RClient RConn RedisError : Type}.
Context `{!RedisLib Wr RClient RConn RedisError} `{!RedisHost Wr}.
Context {Wc HttpClient HttpCert Response ReqError : Type}.
Context `{!HttpLib Wc HttpClient HttpCert Response ReqError} `{!Texts}.
Context {Rnd : Type} (next_uuid : Rnd -> Uuid * Rnd) (clock : Rnd -> Z).
#[local] Abbreviation U := (universe Wp Wr Wc
  (Postgres.pstate (W := Wp) (Client := Pc) (CancelToken := CancelToken))
  (Redis.rstate (W := Wr) (Conn := RConn))
  (ClickHouse.cstate (W := Wc) (Client := HttpClient)) Rnd).
#[local] Instance a_host : Host U handle DriverFactory := server_host next_uuid clock.

(** The least number of rows an engine's cap can be: ClickHouse's streamed
    path looks at the cap after it has kept a row. *)
Definition least_cap (factory : DriverFactory) : Z :=
  match factory with ClickHouseDriverFactory => 1 | _ => 0 end.

Lemma returns_zoom {S A} (Q : A -> Prop) (focus : U -> S) refocus (m : eff S DriverError A) :
  returns Q m -> returns Q (zoom_run focus refocus m).
Proof.
  intros Hm u a u'. unfold zoom_run. destruct (m (focus u)) as [r s] eqn:Hr. intros [= -> _].
  by eapply Hm.
Qed.

End row_cap.

(** ** Where a saved password can be seen *)

Section secrets.
Context {W D F S : Type} `{Host W D F} `{Timer W} `{SecretStore S}.
Context (factories : gmap string F) (path : string) (temp_name : gmap string file -> string).
Context (from_slice : list byte -> result string ProfileFile).
Context (to_vec_pretty : ProfileFile -> result string (list byte)).
Context (parse_uuid : string -> result string Uuid) (uuid_to_string : Uuid -> string).
Context (parse_f64 : string -> option Z) (to_string : Value -> string).
Context `{!FromValue ConnectArgs} `{!FromValue IdArgs} `{!FromValue QueryArgs}
  `{!FromValue ListTablesArgs} `{!FromValue DescribeTableArgs}
  `{!FromValue SaveConnectionProfileArgs} `{!FromValue DeleteConnectionProfileArgs}.
#[local] Abbreviation T := (tworld W D S).
#[local] Abbreviation tools := (database_tools (W := W) (D := D) (F := F) (S := S) factories path
  temp_name from_slice to_vec_pretty parse_uuid uuid_to_string parse_f64 to_string true).
#[local] Abbreviation save_tool :=
  (SaveConnectionProfileTool (W := W) (D := D) (S := S) path temp_name from_slice to_vec_pretty).
#[local] Abbreviation connect_tool := (ConnectTool (W := W) (D := D) (F := F) (S := S) factories path
  from_slice uuid_to_string true).

(** Two secret stores that differ in the secrets only: what they answer to a
    write does not depend on the secret written. *)
Context (same : S -> S -> Prop).
Definition blind_store : Prop :=
  (forall key p q, alike same (store_set key p) (store_set key q))
  /\ (forall key, alike same (store_delete key) (store_delete key)).

(** Everything but the secrets. *)
Definition low_profiles (w1 w2 : pworld S) : Prop :=
  p_disk w1 = p_disk w2 /\ p_clock w1 = p_clock w2 /\ same (p_secrets w1) (p_secrets w2).
Definition low (w1 w2 : T) : Prop :=
  t_manager w1 = t_manager w2 /\ low_profiles (t_profiles w1) (t_profiles w2).

Definition but_password (a : SaveConnectionProfileArgs) : SaveConnectionProfileArgs :=
  {| sa_name := sa_name a; sa_database_type := sa_database_type a; sa_host := sa_host a;
     sa_port := sa_port a; sa_username := sa_username a;
     sa_password := (fun _ => EmptyString) <$> sa_password a; sa_database := sa_database a;
     sa_ssl_mode := sa_ssl_mode a; sa_read_only := sa_read_only a |}.
(** Two calls of one tool, the second with the same arguments or, for a save,
    with another password; a connect names no profile. *)
Definition low_call (tool : McpTool T) (v1 v2 : option Value) : Prop :=
  (exists x1 x2 a1 a2, tool = save_tool /\ v1 = Some x1 /\ v2 = Some x2
     /\ from_value x1 = Ok a1 /\ from_value x2 = Ok a2 /\ but_password a1 = but_password a2)
  \/ v1 = v2 /\ tool ∈ tools
     /\ (tool = connect_tool -> forall x a, v1 = Some x -> from_value x = Ok a -> ca_profile_name a = None).

Lemma alike_metadata {A} (m : eff disk ProfileError A) : alike low_profiles (metadata m) (metadata m).
Proof.
  intros w1 w2 (Hd & Hc & Hs). unfold metadata. rewrite Hd. destruct (m (p_disk w2)) as [r d].
  by repeat split.
Qed.
Lemma alike_secrets {A} (m1 m2 : eff S SecretError A) :
  alike same m1 m2 -> alike low_profiles (secrets m1) (secrets m2).
Proof.
  intros Hm w1 w2 (Hd & Hc & Hs). destruct (Hm _ _ Hs) as [Hr Hs']. unfold secrets.
  destruct (m1 (p_secrets w1)), (m2 (p_secrets w2)); cbn in *. subst. by repeat split.
Qed.
Lemma alike_on_profiles {E A} (m1 m2 : eff (pworld S) E A) :
  alike low_profiles m1 m2 -> alike low (on_profiles m1) (on_profiles m2).
Proof.
  intros Hm w1 w2 [Ht Hw]. destruct (Hm _ _ Hw) as [Hr Hw']. unfold on_profiles.
  destruct (m1 (t_profiles w1)), (m2 (t_profiles w2)); cbn in *. by subst.
Qed.
(** What looks at the connection manager alone. *)
Lemma alike_manager {E A} (m : Manager.manager W D -> result E A * Manager.manager W D) :
  alike low (fun w => let '(r, s) := m (t_manager w) in (r, {| t_manager := s; t_profiles := t_profiles w |}))
            (fun w => let '(r, s) := m (t_manager w) in (r, {| t_manager := s; t_profiles := t_profiles w |})).
Proof. intros w1 w2 [Ht Hw]. rewrite Ht. by destruct (m (t_manager w2)). Qed.
Lemma alike_on_manager {E A} (m : eff (Manager.manager W D) E A) : alike low (on_manager m) (on_manager m).
Proof. apply alike_manager. Qed.
Lemma alike_live_driver id :
  alike low (live_driver (W := W) (S := S) uuid_to_string id) (live_driver (W := W) (S := S) uuid_to_string id).
Proof. intros w1 w2 [Ht Hw]. unfold live_driver. rewrite Ht. by split. Qed.
Lemma alike_live_status id :
  alike low (live_status (W := W) (S := S) uuid_to_string id) (live_status (W := W) (S := S) uuid_to_string id).
Proof. intros w1 w2 [Ht Hw]. unfold live_status. rewrite Ht. by split. Qed.
Lemma alike_call_driver {A} (m : eff W DriverError A) : alike low (call_driver m) (call_driver m).
Proof. unfold call_driver. apply alike_map_err, alike_on_manager. Qed.
#[local] Hint Resolve alike_metadata alike_secrets alike_on_profiles alike_on_manager alike_live_driver
  alike_live_status alike_call_driver : dbmcp.

#[local] Ltac alike_step :=
  match goal with
  | |- alike _ (match ?x with _ => _ end) _ => destruct x
  | |- alike _ (_ ≫= _) _ => apply alike_bind; [|intros]
  | |- alike _ _ _ => solve [auto 6 with dbmcp]
  end.
#[local] Ltac alike_auto := repeat alike_step.

Lemma save_alike_but_password p1 p2 :
  blind_store -> (fun _ => tt) <$> sp_password p1 = (fun _ => tt) <$> sp_password p2 ->
  sp_name p1 = sp_name p2 -> sp_database_type p1 = sp_database_type p2 -> sp_host p1 = sp_host p2 ->
  sp_port p1 = sp_port p2 -> sp_username p1 = sp_username p2 -> sp_database p1 = sp_database p2 ->
  sp_ssl_mode p1 = sp_ssl_mode p2 -> sp_read_only p1 = sp_read_only p2 ->
  alike low_profiles (save path temp_name from_slice to_vec_pretty p1)
    (save path temp_name from_slice to_vec_pretty p2).
Proof.
  intros [Hset _] Hp. unfold save, save_prepare. intros -> -> -> -> -> -> -> ->.
  unfold save_commit, now_unix_ms.
  apply alike_bind; [|intros; auto with dbmcp]. apply alike_bind; [auto with dbmcp|intros _].
  apply alike_bind; [auto with dbmcp|intros existing]. apply alike_bind.
  - destruct (sp_password p1), (sp_password p2); try done; alike_auto.
  - intros has_password. apply alike_bind; [|intros; auto with dbmcp].
    apply alike_gets. by intros w1 w2 (_ & -> & _).
Qed.
Lemma delete_alike name :
  blind_store -> alike low_profiles (delete_profile path temp_name from_slice to_vec_pretty name)
                   (delete_profile path temp_name from_slice to_vec_pretty name).
Proof. intros [_ Hdel]. unfold delete_profile. alike_auto. Qed.

Lemma alike_from {E A A' B} (a : A) (a' : A') (f : A -> eff T E B) (f' : A' -> eff T E B) :
  alike low (f a) (f' a') -> alike low (lift (Ok a) ≫= f) (lift (Ok a') ≫= f').
Proof. intros Hf w1 w2 Hw. rewrite !eff_bind_eq. by apply Hf. Qed.

Lemma alike_stop {E A B} (e : E) (f : A -> eff T E B) :
  alike low (lift (Err e) ≫= f) (lift (Err e) ≫= f).
Proof. intros w1 w2 Hw. by rewrite !eff_bind_eq. Qed.

Lemma query_alike id sql ps cap :
  alike low (run_user_query (W := W) (S := S) uuid_to_string id sql ps cap)
    (run_user_query (W := W) (S := S) uuid_to_string id sql ps cap).
Proof.
  unfold run_user_query. apply alike_bind; [auto with dbmcp|intros driver].
  apply alike_bind; [|intros outcome; alike_auto].
  intros w1 w2 [Ht Hw]. rewrite Ht. by destruct (timeout _ _ _ _).
Qed.
#[local] Hint Resolve query_alike delete_alike : dbmcp.

Lemma save_tool_alike x1 x2 a1 a2 :
  blind_store -> from_value x1 = Ok a1 -> from_value x2 = Ok a2 -> but_password a1 = but_password a2 ->
  alike low (tool_call save_tool (Some x1)) (tool_call save_tool (Some x2)).
Proof.
  intros Hblind Ha1 Ha2 Heq. cbn [tool_call SaveConnectionProfileTool]. unfold parse_arguments.
  cbn [ok_or mbind result_bind]. rewrite Ha1, Ha2. cbn [map_err]. apply alike_from.
  unfold but_password in Heq. injection Heq as -> -> -> -> -> Hp -> -> ->.
  apply alike_bind; [auto with dbmcp|intros ssl].
  apply alike_bind; [|intros; auto with dbmcp]. apply alike_map_err, alike_on_profiles.
  apply save_alike_but_password; cbn; try done.
  by destruct (sa_password a1), (sa_password a2).
Qed.
Lemma connect_tool_alike v :
  (forall x a, v = Some x -> from_value x = Ok a -> ca_profile_name a = None) ->
  alike low (tool_call connect_tool v) (tool_call connect_tool v).
Proof.
  intros Hnone. cbn [tool_call ConnectTool]. unfold parse_arguments.
  destruct v as [x|]; cbn [ok_or mbind result_bind]; [|apply alike_stop].
  destruct (from_value x) as [a|e] eqn:Hx; cbn [map_err]; [|apply alike_stop].
  apply alike_from. apply alike_bind; [|intros; alike_auto].
  unfold connect_target. rewrite (Hnone x a) by done. apply alike_lift.
Qed.
Lemma tool_alike tool v1 v2 :
  blind_store -> low_call tool v1 v2 -> alike low (tool_call tool v1) (tool_call tool v2).
Proof.
  intros Hblind [(x1 & x2 & a1 & a2 & -> & -> & -> & Ha1 & Ha2 & Heq)|(<- & Htool & Hconn)].
  { by eapply save_tool_alike. }
  unfold database_tools in Htool. cbn [app] in Htool. rewrite !elem_of_cons, elem_of_nil in Htool.
  destruct_or! Htool; try done; subst tool.
  - by apply connect_tool_alike, Hconn.
  - cbn [tool_call DisconnectTool]. alike_auto.
  - cbn [tool_call ExecuteQueryTool]. alike_auto.
  - cbn [tool_call ExportQueryJsonlTool]. alike_auto.
  - cbn [tool_call ListDatabasesTool]. alike_auto.
  - cbn [tool_call ListSchemasTool]. alike_auto.
  - cbn [tool_call ListTablesTool]. alike_auto.
  - cbn [tool_call DescribeTableTool]. alike_auto.
  - cbn [tool_call ListConnectionsTool]. apply alike_bind; [|intros; auto with dbmcp].
    apply alike_gets. by intros w1 w2 [-> _].
  - cbn [tool_call GetConnectionStatusTool]. alike_auto.
  - cbn [tool_call SaveConnectionProfileTool]. unfold parse_arguments.
    destruct v1 as [x|]; cbn [ok_or mbind result_bind]; [|apply alike_stop].
    destruct (from_value x) as [a|e] eqn:Hx; [|apply alike_stop].
    pose proof (save_tool_alike x x a a Hblind Hx Hx eq_refl) as Hs.
    cbn [tool_call SaveConnectionProfileTool] in Hs. unfold parse_arguments in Hs.
    cbn [ok_or mbind result_bind] in Hs. by rewrite Hx in Hs.
  - cbn [tool_call ListConnectionProfilesTool]. unfold list_profiles. apply alike_bind; [|intros; alike_auto].
    apply alike_map_err, alike_on_profiles, alike_bind; [auto with dbmcp|intros; alike_auto].
  - cbn [tool_call DeleteConnectionProfileTool]. alike_auto.
Qed.

(** A sequence of calls: what each answers, and the state in the end. *)
Fixpoint answers (calls : list (McpTool T * option Value)) (w : T)
  : list (result McpToolError Value) * T :=
  match calls with
  | [] => ([], w)
  | (tool, v) :: calls =>
      let '(r, w) := tool_call tool v w in
      let '(rs, w) := answers calls w in (r :: rs, w)
  end.

End secrets.

(** ** Concrete runs *)

#[local] Existing Instances Redis.log_lib Redis.log_host Server.http_lib Server.small_host Server.in_time
  Tools.stub_other_args.
#[local] Abbreviation small_universe := (universe table_world (list Cmd) (list HttpRequest)
  (Postgres.pstate (W := table_world) (Client := nat) (CancelToken := nat))
  (Redis.rstate (W := list Cmd) (Conn := nat))
  (ClickHouse.cstate (W := list HttpRequest) (Client := unit)) N).

Lemma table_bounded {Anchor} :
  fetch_bounded (PgLib0 := table_server (Connector := ServerCertVerifier Anchor)).
Proof. intros txn portal n w batch w' Hn [= <- _]. rewrite length_take. lia. Qed.

(** The connection [Server] opened, to a table of two rows. *)
Definition small_handle : handle :=
  {| h_factory := PostgresDriverFactory; h_config := pg_config None true; h_number := 0 |}.
Definition one_row : DriverResult QueryResult * small_universe :=
  Core.execute_user_query (driver_of small_handle) "SELECT n FROM t" (Some 1%Z) None
    (m_world (t_manager small_opened)).

(** A client that saves a profile, once with each of two passwords, and lists
    the profiles. *)
#[local] Instance save_args : FromValue SaveConnectionProfileArgs := fun v =>
  Ok {| sa_name := "prod"; sa_database_type := "Redis"; sa_host := "h"; sa_port := 6379;
        sa_username := "u"; sa_password := match v with JString s => Some s | _ => None end;
        sa_database := None; sa_ssl_mode := None; sa_read_only := None |}.
Definition small_tworld : Type := tworld small_universe handle memory_store.
Definition small_save : McpTool small_tworld :=
  SaveConnectionProfileTool (W := small_universe) (D := handle) (S := memory_store) "p" fresh_name parse_map print_map.
Definition small_list : McpTool small_tworld :=
  ListConnectionProfilesTool (W := small_universe) (D := handle) (S := memory_store) "p" parse_map.
Definition saving (password : string) : list (McpTool small_tworld * option Value) :=
  [(small_save, Some (JString password)); (small_list, None)].
(** Stores with the same keys. *)
Definition same_keys (s1 s2 : memory_store) : Prop := dom (fst s1) = dom (fst s2) /\ snd s1 = snd s2.
Lemma same_keys_blind : blind_store same_keys.
Proof.
  split.
  - intros key p q [m1 b1] [m2 b2] [Hd Hb]. cbn in *. split; [done|]. split; [|done].
    cbn. by rewrite !dom_insert_L, Hd.
  - intros key [m1 b1] [m2 b2] [Hd Hb]. cbn in *. subst b2. unfold store_delete. cbn.
    destruct b1; cbn; (split; [done|]); (split; [|done]); cbn; [done|]. by rewrite !dom_delete_L, Hd.
Qed.
