(* ===== verification/ReadOnly.v ===== *)
(** * A server whose clients connect read-only

    The drivers' side of [Confined]: what a read-only connection may do to
    the database servers, as trails of what they are sent, and that every
    method the tools call stays within them.  [read_only_server] puts it
    together with the layers above. *)
From S2P Require Import Prelude RustStr Json JsonRpc McpServer Transport Core Registry Manager.
From S2P Require Import FileStore Secrets Profiles ToValue Export Tools.
From S2P Require Import PostgresText PostgresQuery PostgresSchema Postgres RedisCommand Redis.
From S2P Require Import ClickHouseText ClickHouse ClickHouseGuards Drivers Server Confined.

(** ** PostgreSQL *)

(** The statements the driver sends on its own account, outside of any
    transaction: when it connects, and to look at the catalogue. *)
Definition own_statement (e : PgEvent) : Prop :=
  match e with
  | ESimple sql => sql ∈ ["SHOW server_version"; "SET statement_timeout = 30000"]
  | EQuery sql => sql ∈ "SELECT current_schema()" :: CATALOGUE_SQL
  | _ => False
  end.
#[export] Instance own_statement_dec e : Decision (own_statement e).
Proof. destruct e; cbn; apply _. Defined.

(** A trail of a read-only server, read from left to right; [open] is whether
    a transaction was started and not ended yet.  Every transaction is
    read-only, and a statement that is not the driver's own is prepared
    inside one only. *)
Definition after_event (open : bool) (e : PgEvent) : option bool :=
  match e with
  | EConnect _ | EAbort | ECancel => Some open
  | ESimple _ | EQuery _ => if decide (own_statement e) then Some false else None
  | EStart read_only => if read_only then Some true else None
  | EPrepare _ | EBind | EFetch _ => if open then Some true else None
  | ECommit => if open then Some false else None
  | ERollback => Some false
  end.
Fixpoint trail_end (open : bool) (l : list PgEvent) : option bool :=
  match l with [] => Some open | e :: l => open ← after_event open e; trail_end open l end.
Definition read_only_trail (l : list PgEvent) : Prop := is_Some (trail_end false l).

Lemma trail_end_app open l1 l2 :
  trail_end open (l1 ++ l2) = (open ← trail_end open l1; trail_end open l2).
Proof.
  revert open. induction l1 as [|e l1 IH]; intros open; [done|]. cbn [app trail_end].
  destruct (after_event open e); [apply IH|done].
Qed.
(** What may be sent may also be sent in an open transaction. *)
Lemma trail_end_open open l : is_Some (trail_end open l) -> is_Some (trail_end true l).
Proof.
  revert open. induction l as [|e l IH]; intros open H; [by eexists|]. cbn [trail_end] in *.
  destruct (after_event open e) as [b|] eqn:He; [|by destruct H].
  assert (after_event true e = Some b \/ after_event true e = Some true) as [-> | ->].
  { destruct e; cbn in *; try case_decide; destruct open; try case_match; simplify_eq; auto. }
  - done.
  - by apply (IH b).
Qed.
#[export] Instance read_only_trail_trail : Trail read_only_trail.
Proof.
  split; [by eexists|]. intros l1 l2 [b H1] H2. unfold read_only_trail. rewrite trail_end_app, H1.
  destruct b; [by eapply trail_end_open|done].
Qed.
(** A trail that is cut short, its transaction rolled back or not. *)
Lemma read_only_trail_cut p rest :
  read_only_trail (p ++ rest) -> read_only_trail p /\ read_only_trail (p ++ [ERollback]).
Proof.
  unfold read_only_trail. rewrite !trail_end_app. destruct (trail_end false p) as [b|]; [|by intros []].
  intros _. split; by eexists.
Qed.
Lemma own_trail l : Forall own_statement l -> read_only_trail l.
Proof.
  induction 1 as [|e l He _ IH]; [by eexists|]. apply (trail_app [e]); [|done]. unfold read_only_trail.
  destruct e; try done; cbn [trail_end after_event]; rewrite decide_True by done; by eexists.
Qed.
Lemma transacted_trail sql ok new : transacted sql ok new -> read_only_trail (EStart true :: new).
Proof.
  intros [[_ ->] | (inner & e & -> & Hin & He)]; [by eexists|]. unfold read_only_trail.
  cbn [trail_end after_event mbind option_bind].
  induction Hin as [|i inner Hi _ IH]; [by destruct He as [-> | [_ ->]]; eexists|].
  by destruct i.
Qed.

Section postgres.
Context {W Client CancelToken Txn Statement Portal Row PgError Foreign : Type}.
Context {Cert Anchor Name Signed : Type} `{!TlsLib W Cert Anchor Name Signed}.
Context `{!PgLib W Client (ServerCertVerifier Anchor) CancelToken Txn Statement Portal Row PgError Foreign}.
Context `{!PgLog W Client (ServerCertVerifier Anchor) CancelToken Txn Statement Portal Row PgError Foreign}.
Context (config : ConnectionConfig) (Hro : cfg_read_only config = true).
#[local] Abbreviation state := (pstate (W := W) (Client := Client) (CancelToken := CancelToken)).
#[local] Abbreviation tracked := (extends (S := state) asked read_only_trail).

Lemma on_server_tracked {A} (m : eff W DriverError A) :
  within (extends events read_only_trail) m -> within tracked (Postgres.on_server m : eff state _ _).
Proof. intros Hm s. specialize (Hm (p_world s)). unfold Postgres.on_server. by destruct (m (p_world s)). Qed.
Lemma own_tracked {A} (m : eff W DriverError A) :
  emits events own_statement m -> within tracked (Postgres.on_server m : eff state _ _).
Proof.
  intros Hm. apply on_server_tracked. intros w. eapply extends_weaken, Hm. apply own_trail.
Qed.
Lemma catalogued_own e : catalogued e -> own_statement e.
Proof. destruct e; try done. cbn. intros H. by right. Qed.
Lemma listed_tracked {A} (f : Client -> eff W DriverError A) :
  (forall c, emits events catalogued (f c)) -> within tracked (Postgres.with_client f : eff state _ _).
Proof.
  intros Hf. apply within_with_client; [apply _|]. intros c. apply own_tracked.
  eapply emits_weaken, Hf. apply catalogued_own.
Qed.

Lemma set_client_tracked client : within tracked (modify (set_client client) : eff state DriverError unit).
Proof.
  apply within_modify. intros s. unfold extends, asked, set_client. cbn [p_world].
  destruct (p_client s) as [c|].
  - exists [EAbort]. rewrite events_abort. split; [done|by eexists].
  - exists []. rewrite app_nil_r. split; [done|by eexists].
Qed.
Lemma connect_with_config_tracked :
  within tracked (Postgres.on_server (connect_with_config config) : eff state _ _).
Proof.
  apply on_server_tracked.
  assert (forall tls, within (extends events read_only_trail) (connect_via (build_config config) tls)) as Hvia.
  { intros tls. unfold connect_via. apply within_bind; [apply _| |intros; apply within_ret, _].
    apply within_map_err. intros w. eexists. rewrite events_connect. split; [done|by eexists]. }
  unfold connect_with_config.
  assert (within (extends events read_only_trail) ((fun w => (build_connector config w, w)) ≫=
            fun connector => connect_via (build_config config) (Some connector))) as Htls.
  { apply within_bind; [apply _|by apply within_same; [apply _|]|intros; apply Hvia]. }
  destruct (mode (cfg_ssl config)) as [[]|]; (apply Hvia || exact Htls).
Qed.
Lemma refresh_tracked client : within tracked (refresh_session_caches client : eff state DriverError unit).
Proof.
  unfold refresh_session_caches. apply within_bind; [apply _| |intros reply].
  { apply own_tracked, emits_attempt. intros w. eexists. rewrite events_simple.
    split; [done|]. apply Forall_singleton. by left. }
  apply within_bind; [apply _| |intros answer].
  { apply own_tracked, emits_attempt. intros w. eexists. rewrite events_query_one.
    split; [done|]. apply Forall_singleton. by left. }
  apply within_modify. intros s. by apply extends_same; [apply _|].
Qed.

Lemma postgres_confined : confined tracked (PostgresDriver config).
Proof using Hro.
  assert (forall f : state -> state, (forall s, p_world (f s) = p_world s) ->
            within tracked (modify f : eff state DriverError unit)) as Hsame.
  { intros f Hf. apply within_modify. intros s. apply extends_same; [apply _|]. unfold asked. by rewrite Hf. }
  split; cbn [PostgresDriver Core.connect disconnect apply_query_timeout Core.execute_user_query cancel_query
    fetch_databases fetch_schemas fetch_tables fetch_table_metadata].
  - unfold pg_connect_driver. apply within_bind; [apply _|apply connect_with_config_tracked|intros [client token]].
    apply within_bind; [apply _|apply refresh_tracked|intros _].
    apply within_bind; [apply _|by apply Hsame|intros _]. apply set_client_tracked.
  - intros s. exact (set_client_tracked None s).
  - apply within_with_client; [apply _|]. intros c. apply own_tracked. unfold simple.
    apply emits_bind; [|intros; apply emits_ret]. apply emits_map_err. intros w. eexists.
    rewrite events_simple. split; [done|]. apply Forall_singleton. right. left.
  - intros sql cap ps. apply within_with_client; [apply _|]. intros c. apply on_server_tracked. intros w.
    destruct (user_query_log c sql cap ps true w) as (new & Hnew & Htx). rewrite Hro.
    exists (EStart true :: new). split; [done|]. by eapply transacted_trail.
  - intros s. unfold pg_cancel_query. destruct (p_cancel_token s); by apply extends_same; [apply _|].
  - apply listed_tracked, fetch_databases_listed.
  - apply listed_tracked, fetch_schemas_listed.
  - intros schema s. unfold in_schema. apply listed_tracked. intros c. apply fetch_tables_listed.
  - intros table schema s. unfold in_schema. apply listed_tracked. intros c. apply fetch_table_metadata_listed.
Qed.
End postgres.

(** ** Redis *)

(** A server that remembers the commands it was sent, in order; those with
    which the library sets a connection up are not the driver's. *)
Class RedisLog (W RClient RConn RedisError : Type) `{RedisLib W RClient RConn RedisError} := {
  commands : W -> list Cmd;
  commands_manager client c w :
    commands (snd (get_connection_manager (W := W) client c w)) = commands w;
  commands_value c cmd w : commands (snd (query_value (W := W) c cmd w)) = commands w ++ [cmd];
  commands_i64 c cmd w : commands (snd (query_i64 (W := W) c cmd w)) = commands w ++ [cmd];
}.

(** The commands known not to write, and the driver's own. *)
Definition read_only_command (c : Cmd) : Prop :=
  cmd_name c ∈ READ_ONLY_COMMANDS \/ c ∈ [client_id_cmd; config_get_databases].
#[export] Instance Cmd_eq_dec : EqDecision Cmd.
Proof. solve_decision. Defined.
#[export] Instance read_only_command_dec c : Decision (read_only_command c).
Proof. unfold read_only_command. apply _. Defined.

Section redis.
Context {W RClient RConn RedisError : Type} `{!RedisLib W RClient RConn RedisError} `{!RedisHost W}.
Context `{!RedisLog W RClient RConn RedisError}.
Context (config : ConnectionConfig) (Hro : cfg_read_only config = true).
#[local] Abbreviation state := (rstate (W := W) (Conn := RConn)).
Definition ordered (s : state) : list Cmd := commands (r_world s).
#[local] Abbreviation obedient := (emits (E := DriverError) ordered read_only_command).

Lemma redis_on_server {A} (m : eff W DriverError A) :
  emits commands read_only_command m -> obedient (Redis.on_server m).
Proof. intros Hm s. specialize (Hm (r_world s)). unfold Redis.on_server. by destruct (m (r_world s)). Qed.
(** Building a client leaves the world alone. *)
Lemma build_client_world db : within eq (build_client config db).
Proof.
  unfold build_client, root_cert_pem. apply within_bind; [apply _|apply within_lift, _|intros info].
  assert (forall A (f : W -> DriverResult A), within eq (Redis.reads f)) as Hreads by done.
  destruct (mode (cfg_ssl config)) as [[]|], (ca_path (cfg_ssl config)); try apply Hreads.
  all: apply within_bind; [apply _| |intros; apply Hreads]; try (apply within_ret, _).
  all: apply within_bind; [apply _|apply Hreads|intros; apply within_ret, _].
Qed.
Lemma establish_obedient db : emits commands read_only_command (establish config db).
Proof.
  unfold establish. apply emits_bind; [|intros client; apply emits_bind; [|intros m]].
  - apply emits_same. intros w. by rewrite <-build_client_world.
  - apply emits_map_err, emits_same. intros w. apply commands_manager.
  - apply emits_bind; [|intros; apply emits_ret]. apply emits_map_err. intros w. eexists.
    rewrite commands_i64. split; [done|]. apply Forall_singleton. right. by left.
Qed.
Lemma manager_obedient {A} (f : RConn -> eff state DriverError A) :
  (forall m, obedient (f m)) -> obedient (Redis.manager ≫= f).
Proof. intros Hf. apply emits_bind; [by apply emits_same|exact Hf]. Qed.
Lemma if_connected_obedient {A} (r : DriverResult A) : obedient (if_connected r).
Proof. apply manager_obedient. intros _. apply emits_lift. Qed.
Lemma modify_obedient (f : state -> state) :
  (forall s, r_world (f s) = r_world s) -> obedient (modify f : eff state DriverError unit).
Proof. intros Hf. apply emits_modify. intros s. unfold ordered. by rewrite Hf. Qed.

Lemma redis_confined : confined (extends ordered (Forall read_only_command)) (RedisDriver config).
Proof using Hro RedisLog0.
  split; cbn [RedisDriver Core.connect disconnect apply_query_timeout Core.execute_user_query cancel_query
    fetch_databases fetch_schemas fetch_tables fetch_table_metadata].
  - apply emits_bind; [apply redis_on_server, establish_obedient|intros [m id]].
    apply emits_bind; [by apply modify_obedient|intros _; by apply modify_obedient].
  - apply emits_bind; [by apply modify_obedient|intros _; by apply modify_obedient].
  - apply emits_ret.
  - intros sql cap ps s. pose proof (read_only_user_query config sql cap ps s Hro) as Heff.
    cbn [RedisDriver Core.execute_user_query] in Heff.
    destruct ((Redis.manager ≫= _) s) as [r s']. destruct Heff as [(e & _ & ->)|(m & c & _ & Hcmd & ->)]; [by apply extends_same; [apply _|]|].
    eexists. cbn [snd]. unfold ordered. cbn [r_world set_r_world]. rewrite commands_value.
    split; [done|]. apply Forall_singleton. by left.
  - apply emits_bind; [by apply emits_same|intros id; by apply modify_obedient].
  - apply manager_obedient. intros m. apply redis_on_server. unfold redis_databases.
    apply emits_bind; [|intros; apply emits_ret]. apply emits_attempt. intros w. eexists.
    rewrite commands_value. split; [done|]. apply Forall_singleton. right. right. by left.
  - apply emits_ret.
  - intros schema. apply if_connected_obedient.
  - intros table schema. apply emits_bind; [apply if_connected_obedient|intros; apply emits_ret].
Qed.
End redis.

(** ** ClickHouse *)

(** The probe of [connect], which is a query of its own, is the only request
    that does not carry the setting. *)
Definition read_only_request (r : HttpRequest) : Prop :=
  readonly_request r \/ rq_body r = "SELECT version()".
#[export] Instance read_only_request_dec r : Decision (read_only_request r).
Proof. unfold read_only_request, readonly_request. apply _. Defined.

Section clickhouse.
Context {W Client Cert Response ReqError : Type}.
Context `{!HttpLib W Client Cert Response ReqError} `{!Texts}.
Context `{!HttpLog W Client Cert Response ReqError}.
Context (config : ConnectionConfig) (Hro : cfg_read_only config = true).
#[local] Abbreviation state := (cstate (W := W) (Client := Client)).
#[local] Abbreviation polite := (emits (E := DriverError) (requests (W := W)) read_only_request).

Lemma ch_connect_polite : polite (ch_connect config : eff state DriverError unit).
Proof.
  unfold ch_connect. apply emits_bind; [by apply emits_same|intros client].
  apply emits_bind; [|intros response].
  - intros s. unfold on_http. pose proof (send_world client (resolve_base_url config) (resolve_username config)
      (cfg_password config) "SELECT version()" (("database", default "default" (cfg_database config)) :: tsv_format_params)
      (c_world s)) as Hs.
    destruct (send _ _ _ _ _ _ _) as [r w]. cbn [snd] in *. subst w. eexists.
    unfold requests. cbn [c_world ClickHouse.set_world]. rewrite sent_post. split; [done|].
    apply Forall_singleton. by right.
  - apply emits_bind; [apply emits_lift|intros body]. apply emits_bind; [apply emits_lift|intros [[names types] rows]].
    apply emits_bind; [by apply emits_modify|intros _; by apply emits_modify].
Qed.

Lemma clickhouse_confined :
  confined (extends (requests (W := W) (Client := Client)) (Forall read_only_request)) (ClickHouseDriver config).
Proof using Hro HttpLog0.
  assert (forall o s, o <> OConnect -> extends (requests (W := W) (Client := Client)) (Forall read_only_request)
    s (drive (ClickHouseDriver config) o s)) as Hdrive.
  { intros o s Ho. eapply extends_weaken; [|by apply drive_requests].
    intros l Hl. eapply Forall_impl; [exact Hl|]. by left. }
  split.
  - apply ch_connect_polite.
  - intros s. by apply (Hdrive ODisconnect).
  - intros s. by apply (Hdrive (OTimeout SERVER_SECS)).
  - intros sql cap ps s. by apply (Hdrive (OUserQuery sql cap ps)).
  - intros s. by apply (Hdrive OCancel).
  - intros s. by apply (Hdrive ODatabases).
  - intros s. by apply (Hdrive OSchemas).
  - intros schema s. by apply (Hdrive (OTables schema)).
  - intros table schema s. by apply (Hdrive (OTableMetadata table schema)).
Qed.
End clickhouse.

(** ** The three drivers together *)

Lemma confined_zoom {U S} (R : relation S) (R' : relation U) focus refocus (d : DatabaseDriver S) :
  (forall A (m : eff S DriverError A), within R m -> within R' (zoom_run focus refocus m)) ->
  confined R d -> confined R' (zoom focus refocus d).
Proof. intros Hzoom []. split; intros; by apply Hzoom. Qed.

Section server.
Context {Wp Pc CancelToken Txn Statement Portal Row PgError Foreign Cert Anchor Name Signed : Type}.
Context `{!TlsLib Wp Cert Anchor Name Signed}.
Context `{!PgLib Wp Pc (ServerCertVerifier Anchor) CancelToken Txn Statement Portal Row PgError Foreign}.
Context `{!PgLog Wp Pc (ServerCertVerifier Anchor) CancelToken Txn Statement Portal Row PgError Foreign}.
Context {Wr RClient RConn RedisError : Type}.
Context `{!RedisLib Wr RClient RConn RedisError} `{!RedisHost Wr} `{!RedisLog Wr RClient RConn RedisError}.
Context {Wc HttpClient HttpCert Response ReqError : Type}.
Context `{!HttpLib Wc HttpClient HttpCert Response ReqError} `{!Texts}.
Context `{!HttpLog Wc HttpClient HttpCert Response ReqError}.
Context {Rnd : Type} (next_uuid : Rnd -> Uuid * Rnd) (clock : Rnd -> Z).
#[local] Abbreviation U := (universe Wp Wr Wc
  (Postgres.pstate (W := Wp) (Client := Pc) (CancelToken := CancelToken))
  (Redis.rstate (W := Wr) (Conn := RConn))
  (ClickHouse.cstate (W := Wc) (Client := HttpClient)) Rnd).
#[local] Instance the_host : Host U handle DriverFactory := server_host next_uuid clock.

Definition pg_log (u : U) : list PgEvent := events (u_postgres u).
Definition redis_log (u : U) : list Cmd := commands (u_redis u).
Definition http_log (u : U) : list HttpRequest := sent (u_clickhouse u).

(** What the servers are sent between two states. *)
Definition read_only_moves : relation U := fun u u' =>
  extends pg_log read_only_trail u u' /\ extends redis_log (Forall read_only_command) u u'
  /\ extends http_log (Forall read_only_request) u u'.
#[local] Instance read_only_moves_preorder : PreOrder read_only_moves.
Proof.
  split; [by intros u|]. intros u1 u2 u3 (Hp & Hr & Hc) (Hp' & Hr' & Hc').
  split; [|split]; by etrans.
Qed.
Lemma read_only_moves_same u u' :
  pg_log u' = pg_log u -> redis_log u' = redis_log u -> http_log u' = http_log u -> read_only_moves u u'.
Proof. intros Hp Hr Hc. split; [|split]; by apply extends_same; [apply _|]. Qed.

Lemma handle_confined (h : handle) :
  cfg_read_only (h_config h) = true -> confined read_only_moves (driver_of h).
Proof.
  intros Hro. cbn [driver_of the_host server_host]. unfold handle_driver.
  destruct (h_factory h); eapply confined_zoom;
    try (by apply postgres_confined); try (by apply redis_confined); try (by apply clickhouse_confined).
  all: intros A m Hm u; unfold zoom_run.
  - specialize (Hm (postgres_state (h_number h) u)). destruct (m _) as [r s].
    split; [exact Hm|split; by apply extends_same; [apply _|]].
  - specialize (Hm (redis_state (h_number h) u)). destruct (m _) as [r s].
    split; [by apply extends_same; [apply _|]|split; [exact Hm|by apply extends_same; [apply _|]]].
  - specialize (Hm (clickhouse_state (h_number h) u)). destruct (m _) as [r s].
    split; [by apply extends_same; [apply _|]|split; [by apply extends_same; [apply _|]|exact Hm]].
Qed.

Lemma draw_uuid_moves (u : U) : read_only_moves u (snd (new_v4 u)).
Proof.
  cbn [new_v4 the_host server_host]. unfold draw_uuid. destruct (next_uuid (u_random u)).
  by apply read_only_moves_same.
Qed.
#[export] Instance read_only_confinement : Confinement U handle DriverFactory := {|
  moves := read_only_moves;
  moves_preorder := read_only_moves_preorder;
  confining config := cfg_read_only config = true;
  restrained h := cfg_read_only (h_config h) = true;
  restrained_confined := handle_confined;
  created_restrained f config u Hro := Hro;
  created_moves f config u := read_only_moves_same _ _ eq_refl eq_refl eq_refl;
  new_v4_moves := draw_uuid_moves;
|}.

(** *** Deadlines *)

(** What dropping a call leaves in the servers' logs, [uf] being the state the
    call would have ended in: of each log a part of what it would have added,
    and a transaction it had open may be rolled back. *)
Definition cut_log {R} (obs : U -> list R) (u uf u' : U) : Prop :=
  exists part rest, obs uf = obs u ++ part ++ rest /\ obs u' = obs u ++ part.
Definition cut_short (u uf u' : U) : Prop :=
  (exists part rest, pg_log uf = pg_log u ++ part ++ rest
     /\ (pg_log u' = pg_log u ++ part \/ pg_log u' = pg_log u ++ part ++ [ERollback]))
  /\ cut_log redis_log u uf u' /\ cut_log http_log u uf u'.
(** Nothing is taken from the logs again. *)
Definition appends (u u' : U) : Prop :=
  extends pg_log (fun _ => True) u u' /\ extends redis_log (fun _ => True) u u'
  /\ extends http_log (fun _ => True) u u'.
(** The timer's other promise: a call that is not done in time is dropped. *)
Class TimerCuts `{Timer U} := timeout_cuts A secs (m : eff U DriverError A) u u' :
  appends u (snd (m u)) -> timeout A secs m u = (None, u') -> cut_short u (snd (m u)) u'.

Context `{!Timer U} `{!TimerLaw U} `{!TimerCuts}.

Lemma cut_log_Forall {R} (obs : U -> list R) (Q : R -> Prop) u uf u' :
  cut_log obs u uf u' -> extends obs (Forall Q) u uf -> extends obs (Forall Q) u u'.
Proof.
  intros (part & rest & Hf & H') (new & Hnew & HQ). exists part. split; [done|].
  rewrite Hf in Hnew. apply (inj (app (obs u))) in Hnew as <-. by apply Forall_app in HQ as [HQ _].
Qed.
#[export] Instance read_only_timer : ConfinedTimer read_only_moves.
Proof.
  intros A secs m Hm u. destruct (timeout A secs m u) as [[r|] u'] eqn:Ht; cbn [snd].
  - apply timeout_completes in Ht. specialize (Hm u). by rewrite Ht in Hm.
  - apply timeout_cuts in Ht as ((part & rest & Hf & H') & Hr & Hc).
    2: { destruct (Hm u) as (Hp & Hr & Hc). split; [|split]; by eapply extends_weaken. }
    destruct (Hm u) as ((new & Hnew & Htrail) & Hr' & Hc').
    split; [|split; by eapply cut_log_Forall].
    rewrite Hf in Hnew. apply (inj (app (pg_log u))) in Hnew as <-.
    apply read_only_trail_cut in Htrail as [Hp Hpr]. destruct H' as [H'|H']; by eexists.
Qed.

(** *** The server *)

Context {S : Type} `{!SecretStore S}.
Context (path : string) (temp_name : gmap string file -> string).
Context (from_slice : list byte -> result string ProfileFile).
Context (to_vec_pretty : ProfileFile -> result string (list byte)).
Context (parse_uuid : string -> result string Uuid) (uuid_to_string : Uuid -> string).
Context (parse_f64 : string -> option Z) (to_string : Value -> string).
Context `{!FromValue ConnectArgs} `{!FromValue IdArgs} `{!FromValue QueryArgs}
  `{!FromValue ListTablesArgs} `{!FromValue DescribeTableArgs}
  `{!FromValue SaveConnectionProfileArgs} `{!FromValue DeleteConnectionProfileArgs}.
Context (to_string_pretty : Value -> string) (params_from_value : Value -> result string ToolCallParams).
Context (decode_message : list byte -> result JsonRpcError JsonRpcMessage).
Context (to_vec : Value -> result string (list byte)).
#[local] Abbreviation handle_message profiles := (McpServer.handle to_string_pretty params_from_value
  (build_registry (W := U) (D := handle) (F := DriverFactory) (S := S) driver_factories path temp_name
     from_slice to_vec_pretty parse_uuid uuid_to_string parse_f64 to_string profiles)).
#[local] Abbreviation databases s := (m_world (t_manager (world s))).

(** A connect that names no saved profile and asks for a read-only
    connection. *)
Definition asks_read_only (arguments : option Value) : Prop := forall v args,
  arguments = Some v -> from_value v = Ok args ->
  ca_profile_name args = None /\ ca_read_only args = Some true.
Lemma asks_read_only_confined v : asks_read_only v -> asks_confined v.
Proof.
  intros Hv x args Hx Ha. destruct (Hv x args Hx Ha) as [Hnone Hro]. split; [done|].
  intros ty config Hc. cbn. unfold adhoc_config in Hc.
  destruct (ca_database_type args), (ca_host args), (ca_port args), (ca_username args); cbn in Hc; try done.
  destruct (parse_ssl_mode (ca_ssl_mode args)); cbn in Hc; [|done]. injection Hc as _ <-.
  cbn. by rewrite Hro.
Qed.
#[local] Abbreviation connects_read_only :=
  (bytes_connect_as params_from_value decode_message asks_read_only).

(** C2: a server whose clients connect read-only cannot be made to write:
    from its start, whatever lines or HTTP requests it is sent, as long as
    those that call [connect] ask for a read-only connection, all that the
    database servers are sent is: by PostgreSQL, the driver's own listed
    statements and read-only transactions, no other statement being prepared
    outside one; by Redis, commands known not to write and the driver's own
    two; by ClickHouse, requests that tell the server to refuse writes and
    the version probe.  This holds for all tools, errors and client-side
    timeouts included (the kills of detached cancel tasks are not part of a
    handler's run). *)
Theorem read_only_server (profiles : bool) (u : U) (p : pworld S) :
  let start := build_session {| t_manager := ConnectionManager_new u; t_profiles := p |} in
  (forall (O : Type) (write_all : list byte -> eff O string unit) flush lines (o : O),
     Forall (fun l => connects_read_only (as_bytes l)) (Stdio.texts lines) ->
     let '(_, s, _) := Stdio.run decode_message (handle_message profiles) to_vec write_all flush lines start o in
     read_only_moves u (databases s))
  /\ (forall (L Ip : Type) to_str ct_eq (check_key : Ip -> L -> bool * L) stream_body requests st,
       Http.session st = start ->
       Forall (fun r => forall body, Http.req_body r = Ok body -> connects_read_only body) requests ->
       let '(_, st') := Http.serve decode_message (handle_message profiles) to_vec to_str ct_eq check_key
                          stream_body requests st in
       read_only_moves u (databases (Http.session st'))).
Proof.
  intros start.
  assert (forall s, session_keeps start s -> read_only_moves u (databases s)) as Hkeeps.
  { intros s Hs. by apply (Hs (new_restrained u)). }
  assert (forall bs, connects_read_only bs ->
            bytes_connect_as params_from_value decode_message asks_confined bs) as Hmono.
  { intros bs. apply bytes_connect_as_mono. apply asks_read_only_confined. }
  split.
  - intros O write_all flush lines o Hlines.
    assert (Hs := stdio_keeps driver_factories path temp_name from_slice to_vec_pretty parse_uuid uuid_to_string
      parse_f64 to_string to_string_pretty params_from_value profiles decode_message to_vec write_all flush
      lines start o).
    destruct (Stdio.run _ _ _ _ _ lines start o) as [[r s] o']. apply Hkeeps, Hs.
    eapply Forall_impl; [exact Hlines|]. intros l. apply Hmono.
  - intros L Ip to_str ct_eq check_key stream_body requests st Hst Hrs.
    pose proof (http_keeps driver_factories path temp_name from_slice to_vec_pretty parse_uuid uuid_to_string
      parse_f64 to_string to_string_pretty params_from_value profiles decode_message to_vec to_str ct_eq
      check_key stream_body requests st) as Hs. rewrite Hst in Hs.
    destruct (Http.serve _ _ _ _ _ _ _ requests st) as [resps st']. apply Hkeeps, Hs.
    eapply Forall_impl; [exact Hrs|]. intros r Hr body Hb. by apply Hmono, Hr.
Qed.
End server.

(** ** A concrete server *)

#[local] Existing Instances Tools.stub_other_args Redis.log_lib Redis.log_host Server.http_lib
  Server.http_log Server.small_host Server.decode_connect Server.decode_query.
#[local] Instance command_log : RedisLog (list Cmd) (bool * ConnectionInfo) nat string.
Proof. by refine {| commands w := w |}. Defined.
#[local] Abbreviation small_universe := (universe table_world (list Cmd) (list HttpRequest)
  (Postgres.pstate (W := table_world) (Client := nat) (CancelToken := nat))
  (Redis.rstate (W := list Cmd) (Conn := nat))
  (ClickHouse.cstate (W := list HttpRequest) (Client := unit)) N).
#[local] Abbreviation small_moves := (read_only_moves (Anchor := nat) (Rnd := N)
  (Pc := nat) (CancelToken := nat) (RConn := nat) (HttpClient := unit)).
#[local] Instance PgEvent_eq_dec : EqDecision PgEvent.
Proof. solve_decision. Defined.
(** A second statement takes too long: it runs, and its answer is lost. *)
#[local] Instance one_in_time : Timer small_universe := fun A _ m u =>
  let '(r, u') := m u in (if decide (ECommit ∈ fst (u_postgres u)) then None else Some r, u').
#[local] Instance one_in_time_law : TimerLaw small_universe.
Proof.
  intros A secs m u r u'. unfold timeout, one_in_time. destruct (m u) as [r0 u0].
  case_decide; [done|]. by intros [= -> ->].
Qed.
Lemma cut_at_end {R} (obs : small_universe -> list R) u uf :
  extends obs (fun _ => True) u uf -> cut_log obs u uf uf.
Proof. intros (new & Hnew & _). exists new, []. by rewrite app_nil_r. Qed.
#[local] Instance one_in_time_cuts : TimerCuts (Wp := table_world) (Anchor := nat) (Wr := list Cmd)
  (Wc := list HttpRequest) (Rnd := N) (Pc := nat) (CancelToken := nat) (RConn := nat) (HttpClient := unit).
Proof.
  intros A secs m u u' (Hp & Hr & Hc). unfold timeout, one_in_time.
  assert (forall r, m u = (r, u') -> cut_short (Anchor := nat) u u' u') as Hcut.
  { intros r Hm. rewrite Hm in Hp, Hr, Hc. split; [|split; by apply cut_at_end].
    destruct (cut_at_end _ _ _ Hp) as (part & rest & Hf & H'). exists part, rest. by split; [|left]. }
  destruct (m u) as [r0 u0]. intros [= _ ->]. by eapply Hcut.
Qed.
#[local] Instance decode_id : FromValue IdArgs := fun _ => Ok {| ia_connection_id := "7" |}.

(** A line is the name of a tool, or [initialize]; the arguments are those of
    [Server.wanted] and [Server.asked_query]. *)
Definition small_decode (bs : list byte) : result JsonRpcError JsonRpcMessage :=
  let line := String.string_of_list_byte bs in
  Ok (Request (if decide (line = "initialize") then JsonRpcRequest_new (IdNumber 1) "initialize" None
               else JsonRpcRequest_new (IdNumber 2) "tools/call" (Some (JString line)))).
Definition small_params (v : Value) : result string ToolCallParams :=
  match v with JString name => Ok {| tc_name := name; tc_arguments := Some JNull |} | _ => Err "no" end.
Definition small_lines : list string := ["initialize"; "connect"; "list_schemas"; "execute_query"; "execute_query"; "disconnect"].
Definition small_served : McpSession (tworld small_universe handle memory_store) :=
  snd (fst (Stdio.run small_decode
    (McpServer.handle (fun _ => EmptyString) small_params
       (build_registry (W := small_universe) (D := handle) (F := DriverFactory) (S := memory_store)
          driver_factories "p" fresh_name parse_map print_map (fun _ => Ok 7%N) (fun id : Uuid => pretty id)
          (fun _ => None) (fun _ => EmptyString) true))
    (fun _ => Ok []) Stdio.push Stdio.no_flush (Stdio.Line <$> small_lines)
    (McpSession_new small_start) [])).

Lemma second_of_three {A B C} (P : B -> Prop) (x : A * B * C) :
  (let '(_, s, _) := x in P s) -> P (snd (fst x)).
Proof. by destruct x as [[a b] c]. Qed.

(** A client opens a connection, asks for a write twice, the second time in
    vain, and leaves: this is all that PostgreSQL is sent. *)
Lemma read_only_server_witness :
  fst (u_postgres (m_world (t_manager (world small_served))))
  = [EConnect true; ESimple "SHOW server_version"; EQuery "SELECT current_schema()";
     ESimple "SET statement_timeout = 30000";
     EQuery "SELECT schema_name FROM information_schema.schemata ORDER BY schema_name";
     EStart true; EPrepare "DELETE FROM t"; EBind; EFetch 9; ECommit;
     EStart true; EPrepare "DELETE FROM t"; EBind; EFetch 9; ECommit; EAbort]
  /\ small_moves (m_world (t_manager small_start)) (m_world (t_manager (world small_served))).
Proof.
  split; [by vm_compute|].
  assert (Forall (fun l => bytes_connect_as small_params small_decode asks_read_only (as_bytes l))
            (Stdio.texts (Stdio.Line <$> small_lines))) as Hl.
  { apply Forall_true. intros l m [= <-]. cbn [connects_as]. case_decide; [discriminate|].
    intros _ v p [= <-] [= <-] _ x args _ [= <-]. split; reflexivity. }
  pose proof (proj1 (read_only_server (Anchor := nat) (fun r => (r, (r + 1)%N)) Z.of_N (S := memory_store)
    "p" fresh_name parse_map print_map (fun _ => Ok 7%N) (fun id : Uuid => pretty id) (fun _ => None)
    (fun _ => EmptyString) (fun _ => EmptyString) small_params small_decode (fun _ => Ok []) true
    (m_world (t_manager small_start)) (example_world false)) (list byte) Stdio.push Stdio.no_flush
    (Stdio.Line <$> small_lines) [] Hl) as Hall.
  apply (second_of_three (fun s => small_moves (m_world (t_manager small_start))
                                     (m_world (t_manager (world s))))).
  exact Hall.
Defined.
